(* ===== verification/_CoqProject ===== *)
-Q . S2P
Prelude.v
Machine.v
External.v
Posix.v
Tools.v
BenchStats.v
Der.v
Environment.v
Dilithium.v
Sm2.v
CompositeKey.v
CompositeSig.v
HybridSign.v
KeyStore.v
KeyStoreFiles.v
KeyStoreKeys.v
KeyStoreContainer.v
KeyStoreSave.v
KeyStorePair.v
KeyStoreTheorems.v
KeyLife.v
X509.v
Asn1.v
X509Build.v
X509Env.v
X509Create.v
X509Files.v
Chain.v
X509Issued.v
Tlcp.v
Mlkem.v
MlkemDemo.v
VerifyChain.v
InspectCert.v
GenerateDemo.v
Benchmark.v
BenchReport.v
BenchMain.v
Pqkex.v
PqkexDemo.v
