(* ===== verification/Prelude.v ===== *)
(** * hybrid-pqc-cert: a verification of the composite SM2/Dilithium2 certificate library

    The repository implements composite signatures of SM2 and Dilithium2, the
    certificates that carry them, the verification of a two-level chain, an
    adapter for a TLCP stack, an encrypted store for private keys, a wrapper
    of ML-KEM-768, a key exchange extension for that stack, and programs that
    use them. This development models its C code and proves what the code
    promises. It is a shallow embedding: a C function is a Rocq definition of
    the same name, with the same guards, calls and exits in the same order.

    ** How C is modelled

    [Machine.v]: a function body is a computation [M A = state → option (A *
    state)]; [None] is undefined behaviour, and the weakest precondition [wp]
    of a theorem excludes it and implies termination. The state holds the live
    heap references (so a leak, a double free and a use after free are seen),
    a counter that distinguishes one call of the environment from the next,
    the contents of secret storage at the moment it is given back, the files
    and the output. A pointer to a buffer is [option (list byte)]; its [NULL]
    and its length are explicit, and reads and writes out of range are
    undefined. [size_t] arithmetic wraps. A local structure or array is a
    value passed along; a [goto done] is a local function. Output parameters
    are returned. An [EVP_PKEY] that two structures share is one object with
    two references.

    [External.v], [Posix.v]: OpenSSL, liboqs and the Dilithium2 reference
    implementation are interfaces; the laws the theorems use are separate
    classes (sizes, correctness of a scheme), each with an instance in
    [Environment.v] to which the witnesses apply the theorems. [Posix.v] is a
    model of the file functions on a map from paths to nodes, in which any
    call can fail and any transfer can be short.

    A fact about a sequence of calls whose outcomes vary comes in two forms:
    [once], the sequence occurred, and [always], it cannot go wrong. The
    specification of a function [f] is an instance of [Spec] named [spec_f]; it
    says what a success implies (with [once]) and when success is certain
    (with [always]), so that errors are never proved vacuously.

    ** The files

    - [Prelude.v]: bytes, C integers, buffer operations, tactics;
    - [Machine.v], [External.v], [Posix.v], [Environment.v]: as above;
    - [Dilithium.v] (src/dilithium_wrapper.c), [Sm2.v] (src/sm2_wrapper.c): the
      component schemes, every function;
    - [CompositeKey.v] (src/composite_key.c): key pairs and their encoding;
      encoding and parsing are inverse, in both orders, generation is all or
      nothing;
    - [CompositeSig.v] (src/composite_sig.c): the signature scheme. A signature
      is accepted only if both components verify over one representative, a
      generated key signs and verifies, the representative binds context and
      digest, serialization round-trips and the DER check is the strict one;
    - [HybridSign.v] (src/hybrid_sign.c): the interface with two components;
    - [KeyStore.v] (src/hybrid_key_store.c): all definitions of the key store;
      its specifications are in [KeyStoreFiles.v] (paths, permissions, status,
      integers, transfers), [KeyStoreKeys.v] (the SM2 key file and its store),
      [KeyStoreContainer.v] (the encryption of the Dilithium2 keys),
      [KeyStoreSave.v] (their file) and [KeyStorePair.v] (both keys); the
      theorems are in [KeyStoreTheorems.v]: what is saved is what is loaded, a
      load returns only checked keys, a save overwrites nothing; [KeyLife.v]
      follows two key structures through any sequence of operations;
    - src/hybrid_x509.c: [X509.v] has the accessors of a certificate, [Asn1.v]
      the ASN.1 templates, field by field, over the encoding of [Der.v] (its
      reader shows that encodings determine their contents), [X509Build.v] the
      parts of a certificate, [X509Create.v] its signature and the three
      certificates the code issues, [X509Files.v] its PEM and DER files. What
      is issued is the decoding of the right fields under the right signature,
      its encoding determines every field, and a file is read back as written,
      except that a failure to close it goes unreported;
    - [Chain.v] (src/hybrid_chain.c): soundness and completeness of the
      verification of a chain against the conditions written out as
      propositions; [X509Issued.v]: what is issued passes that verification;
    - [Tlcp.v] (src/tlcp_hybrid_cert_adapter.c): the callback accepts exactly
      the chains its specification describes, and recognition of composite
      certificates;
    - [Mlkem.v] (src/mlkem.c);
    - the programs: [MlkemDemo.v] (tools/mlkem_demo.c), [VerifyChain.v]
      (tools/verify_chain.c), [InspectCert.v] (tools/inspect_hybrid_cert.c) and
      [GenerateDemo.v] (tools/generate_demo_chain.c), whose exit status and
      output agree with what happened; [Tools.v] has what they share;
    - tools/benchmark_composite_verify.c: [BenchStats.v] has the counts on the
      command line and the order statistics of a list of times, [Benchmark.v]
      the measurement and the four verifications measured, which an interface
      ([Measurable]) presents to it, [BenchReport.v] the reports on the console
      and in two files, [BenchMain.v] the program. A result is reported only of
      a verification that succeeds, its percentiles are those of the times,
      no index leaves the array, and everything is released;
    - [Pqkex.v] (patches/gmssl/0001-...-pqkex-capability.patch): the functions
      that patch adds to GmSSL. Encoding and decoding of the extension are
      inverse, a server answers it once and with the first common mechanism;
      [PqkexDemo.v] (tools/pqkex_capture_demo.c): a client and a server in two
      processes, each a run of [capture_main] told apart by what [fork]
      returns; when the parent reports success both sides did their part;
    - [X509Env.v] extends [Environment.v] with a library that builds
      certificates.

    A file requires only those of the components it calls. C file names are
    relative to the repository; headers are modelled with their sources.

    ** Loops

    [find_composite_oid] recurses on the bytes that remain. [write_loop] and
    [read_loop] take fuel: a round that does not fail transfers at least one
    byte, so the length is enough, and their specifications, which exclude
    [undefined], prove it. [process_extensions] takes one more than the bytes
    of the extensions, each of which has at least four. [resolve] follows at most [MAXSYMLINKS] links, the
    limit of the system it models. Other loops range over lists.

    ** Not modelled

    - What the programs write to the error stream, the disposition of SIGPIPE,
      the flushing of the output, and the volatile variable that keeps the
      measured calls of the benchmark alive.
    - Floating-point arithmetic: the benchmark converts its integers with the
      operations of a class, [FloatingPoint], about which nothing is assumed.
    - The changes that the patches make inside functions of GmSSL, which is not
      part of the repository, and the tests.
    - Constant time, the stack beyond the secrets of a function's own
      variables, and concurrency: the code starts no thread, and the two
      processes of the capture demonstration share nothing but what [fork],
      [waitpid] and the connection, which are parameters, tell them. *)

From Stdlib Require Export ZArith Lia ZifyBool.
From Stdlib Require Export Strings.Byte Strings.String.
From stdpp Require Export base tactics option list numbers strings.
From stdpp Require Export gmap gmultiset.

Abbreviation byte := Byte.byte.
#[global] Open Scope Z_scope.

(** ** Notations *)

Declare Scope c_scope.
Delimit Scope c_scope with c.

(** [check c else d ;; k]: the guard [if (!c) d], then the rest [k]. *)
Notation "'check' c 'else' d ';;' k" := (if c then k else d)
  (at level 100, c at level 99, d at level 99, k at level 200,
   only parsing) : c_scope.
#[global] Open Scope c_scope.

(** ** Bytes *)

#[export] Instance byte_eq_dec : EqDecision byte := Byte.byte_eq_dec.

Definition Z_of_byte (b : byte) : Z := Z.of_N (Byte.to_N b).

(** Conversion to [unsigned char]: reduction modulo [2 ^ 8]. *)
Definition byte_of_Z (z : Z) : byte :=
  match Byte.of_N (Z.to_N (z mod 256)) with Some b => b | None => Byte.x00 end.

Lemma Z_of_byte_range b : 0 ≤ Z_of_byte b < 256.
Proof. unfold Z_of_byte. pose proof (Byte.to_N_bounded b). lia. Qed.

Lemma Z_of_byte_of_Z z : Z_of_byte (byte_of_Z z) = z mod 256.
Proof.
  unfold byte_of_Z, Z_of_byte. pose proof (Z.mod_pos_bound z 256 ltac:(lia)).
  destruct (Byte.of_N (Z.to_N (z mod 256))) as [b|] eqn:Hb.
  - apply Byte.to_of_N in Hb. rewrite Hb. lia.
  - apply Byte.of_N_None_iff in Hb. lia.
Qed.

Lemma byte_of_Z_of_byte b : byte_of_Z (Z_of_byte b) = b.
Proof.
  unfold byte_of_Z. rewrite Z.mod_small by apply Z_of_byte_range.
  unfold Z_of_byte. rewrite N2Z.id, Byte.of_to_N. done.
Qed.

Lemma Z_of_byte_inj b1 b2 : Z_of_byte b1 = Z_of_byte b2 → b1 = b2.
Proof.
  intros H. rewrite <-(byte_of_Z_of_byte b1), <-(byte_of_Z_of_byte b2). by f_equal.
Qed.

(** The bytes of a string literal, without its terminating NUL. *)
Definition lit (s : string) : list byte := String.list_byte_of_string s.

(** [strlen], for a string without NUL characters. *)
Definition strlen (s : string) : Z := Z.of_nat (String.length s).

Lemma length_lit s : length (lit s) = String.length s.
Proof. induction s as [|c s IH]; [done|]. cbn. f_equal. exact IH. Qed.

Definition zeros (n : nat) : list byte := replicate n Byte.x00.

#[global] Arguments zeros : simpl never.
#[global] Arguments Z.to_nat : simpl never.

Definition zeroed (l : list byte) : Prop := Forall (eq Byte.x00) l.

Lemma zeroed_zeros n : zeroed (zeros n).
Proof. by apply Forall_replicate. Qed.

Lemma zeroed_app l1 l2 : zeroed l1 → zeroed l2 → zeroed (l1 ++ l2).
Proof. apply Forall_app_2. Qed.

Lemma length_zeros n : length (zeros n) = n.
Proof. apply length_replicate. Qed.

(** ** The size of an object, as a [size_t] *)

Definition len {A} (l : list A) : Z := Z.of_nat (length l).

#[global] Arguments len : simpl never.

Lemma len_app {A} (l1 l2 : list A) : len (l1 ++ l2) = len l1 + len l2.
Proof. unfold len. rewrite length_app. lia. Qed.

Lemma len_cons {A} (x : A) l : len (x :: l) = 1 + len l.
Proof. unfold len. cbn [length]. lia. Qed.

Lemma len_nil {A} : len (@nil A) = 0.
Proof. done. Qed.

Lemma len_nonneg {A} (l : list A) : 0 ≤ len l.
Proof. unfold len. lia. Qed.

Lemma len_zeros n : len (zeros n) = Z.of_nat n.
Proof. unfold len. by rewrite length_zeros. Qed.

Definition SIZE_MAX : Z := 2 ^ 64 - 1.
Definition LONG_MAX : Z := 2 ^ 63 - 1.
Definition INT_MAX : Z := 2 ^ 31 - 1.

(** Arithmetic on [size_t]: results are reduced modulo [2 ^ 64]. *)
Definition size_of_Z (z : Z) : Z := z mod 2 ^ 64.
Definition size_add (a b : Z) : Z := size_of_Z (a + b).
Definition size_sub (a b : Z) : Z := size_of_Z (a - b).
Definition size_mul (a b : Z) : Z := size_of_Z (a * b).

Lemma size_of_Z_small z : 0 ≤ z ≤ SIZE_MAX → size_of_Z z = z.
Proof. intros. apply Z.mod_small. unfold SIZE_MAX in *. lia. Qed.

Lemma size_of_Z_range z : 0 ≤ size_of_Z z ≤ SIZE_MAX.
Proof. unfold size_of_Z, SIZE_MAX. pose proof (Z.mod_pos_bound z (2 ^ 64)). lia. Qed.

Lemma size_add_small a b : 0 ≤ a + b ≤ SIZE_MAX → size_add a b = a + b.
Proof. apply size_of_Z_small. Qed.

Lemma size_sub_small a b : 0 ≤ a - b ≤ SIZE_MAX → size_sub a b = a - b.
Proof. apply size_of_Z_small. Qed.

Create Rewrite HintDb len.
#[export] Hint Rewrite @len_app @len_cons @len_nil @length_app @length_take @length_drop len_zeros
  length_zeros length_lit : len.

(** ** Sub-ranges of a buffer *)

Definition ztake {A} (n : Z) (l : list A) : list A := take (Z.to_nat n) l.
Definition zdrop {A} (n : Z) (l : list A) : list A := drop (Z.to_nat n) l.

(** [buf] after [memcpy(buf + off, src, |src|)]. *)
Definition splice {A} (off : nat) (src buf : list A) : list A :=
  take off buf ++ src ++ drop (off + length src) buf.

Lemma length_splice {A} off (src buf : list A) :
  (off + length src ≤ length buf)%nat → length (splice off src buf) = length buf.
Proof. intros. unfold splice. rewrite !length_app, length_take, length_drop. lia. Qed.

Lemma take_splice {A} off (src buf : list A) :
  (off ≤ length buf)%nat →
  take (off + length src) (splice off src buf) = take off buf ++ src.
Proof.
  intros. unfold splice. rewrite app_assoc. apply take_app_length'.
  rewrite length_app, length_take. lia.
Qed.

Lemma ztake_app {A} (l1 l2 : list A) n : n = len l1 → ztake n (l1 ++ l2) = l1.
Proof. intros ->. unfold ztake, len. rewrite Nat2Z.id. apply take_app_length. Qed.

Lemma splice_whole {A} (src buf : list A) : len src = len buf → splice 0 src buf = src.
Proof.
  unfold splice, len. intros. cbn. rewrite drop_ge by lia. apply app_nil_r.
Qed.

Lemma len_splice {A} off (src buf : list A) :
  0 ≤ off → off + len src ≤ len buf → len (splice (Z.to_nat off) src buf) = len buf.
Proof. unfold len. intros. rewrite length_splice; lia. Qed.

Lemma splice_nil {A} off (buf : list A) : splice off [] buf = buf.
Proof. unfold splice. cbn [app length]. rewrite Nat.add_0_r. apply take_drop. Qed.

Lemma splice_prefix {A} (src buf : list A) :
  len src ≤ len buf → ztake (len src) (splice 0 src buf) = src.
Proof. intros. unfold splice. rewrite take_0, app_nil_l. by apply ztake_app. Qed.

Lemma zdrop_app {A} (l1 l2 : list A) n : n = len l1 → zdrop n (l1 ++ l2) = l2.
Proof. intros ->. unfold zdrop, len. rewrite Nat2Z.id. apply drop_app_length. Qed.

Lemma ztake_of_zdrop {A} n m (l : list A) :
  0 ≤ n ≤ m → ztake (m - n) (zdrop n l) = zdrop n (ztake m l).
Proof.
  intros. unfold ztake, zdrop. rewrite skipn_firstn_comm. f_equal. lia.
Qed.

Lemma ztake_ztake {A} n m (l : list A) : 0 ≤ n ≤ m → ztake n (ztake m l) = ztake n l.
Proof. intros. unfold ztake. rewrite take_take. f_equal. lia. Qed.

Lemma zdrop_ztake_nil {A} n m (l : list A) : m ≤ n → zdrop n (ztake m l) = [].
Proof. intros. unfold zdrop, ztake. apply drop_ge. rewrite length_take. lia. Qed.

Lemma zdrop_zdrop {A} n m (l : list A) : 0 ≤ n → 0 ≤ m → zdrop n (zdrop m l) = zdrop (m + n) l.
Proof. intros. unfold zdrop. rewrite drop_drop. f_equal. lia. Qed.

Lemma ztake_len_ztake {A} n (l : list A) : ztake (len (ztake n l)) l = ztake n l.
Proof.
  unfold ztake, len. rewrite Nat2Z.id, length_take.
  destruct (decide (Z.to_nat n ≤ length l)%nat); [by rewrite Nat.min_l by lia|].
  rewrite Nat.min_r by lia. by rewrite !take_ge by lia.
Qed.

Lemma ztake_zdrop {A} n (l : list A) : ztake n l ++ zdrop n l = l.
Proof. apply take_drop. Qed.

Lemma ztake_ztake_zdrop {A} n m (l : list A) :
  0 ≤ n → 0 ≤ m → ztake n l ++ ztake m (zdrop n l) = ztake (n + m) l.
Proof. intros. unfold ztake, zdrop. rewrite Z2Nat.inj_add by done. apply take_take_drop. Qed.

(** A splice at [off], read back. *)
Lemma ztake_splice_before {A} off (src buf : list A) :
  0 ≤ off ≤ len buf → ztake off (splice (Z.to_nat off) src buf) = ztake off buf.
Proof.
  intros. unfold splice, ztake, len in *. rewrite take_app_le by (rewrite length_take; lia).
  by rewrite take_take, Nat.min_id.
Qed.

Lemma ztake_splice {A} off (src buf : list A) :
  0 ≤ off → off + len src ≤ len buf →
  ztake (len src) (zdrop off (splice (Z.to_nat off) src buf)) = src.
Proof.
  intros. unfold splice, ztake, zdrop, len in *.
  rewrite drop_app_length' by (rewrite length_take; lia). by rewrite Nat2Z.id, take_app_length.
Qed.

Lemma ztake_app_zdrop {A} w off k (l : list A) :
  0 ≤ off → 0 ≤ w → off + w ≤ k →
  ztake w (zdrop off l) ++ zdrop (off + w) (ztake k l) = zdrop off (ztake k l).
Proof.
  intros. rewrite <-(zdrop_zdrop w off) by lia. rewrite <-(ztake_zdrop w (zdrop off (ztake k l))) at 2.
  f_equal. rewrite <-ztake_of_zdrop by lia. by rewrite ztake_ztake by lia.
Qed.

Lemma ztake_all {A} (l : list A) n : len l ≤ n → ztake n l = l.
Proof. unfold len, ztake. intros. apply take_ge. lia. Qed.

Lemma len_ztake {A} n (l : list A) : 0 ≤ n ≤ len l → len (ztake n l) = n.
Proof. unfold len, ztake. rewrite length_take. lia. Qed.

Lemma len_zdrop {A} n (l : list A) : 0 ≤ n ≤ len l → len (zdrop n l) = len l - n.
Proof. unfold len, zdrop. rewrite length_drop. lia. Qed.

Lemma zdrop_splice_after {A} off (src buf : list A) :
  0 ≤ off → off + len src ≤ len buf →
  zdrop (off + len src) (splice (Z.to_nat off) src buf) = zdrop (off + len src) buf.
Proof.
  intros. unfold splice, zdrop, len in *. rewrite app_assoc, drop_app_length'.
  - f_equal. lia.
  - rewrite length_app, length_take. lia.
Qed.

Lemma splice_append {A} (pre rest src : list A) :
  splice (Z.to_nat (len pre)) src (pre ++ rest) = (pre ++ src) ++ zdrop (len src) rest.
Proof.
  unfold splice, zdrop, len. rewrite !Nat2Z.id, take_app_length, <-app_assoc. do 2 f_equal.
  by rewrite drop_app_add.
Qed.

(** A buffer as a sequence of fields. *)
Lemma splice_concat {A} (segs : list (list A)) i seg src off :
  segs !! i = Some seg → len src = len seg → off = len (concat (take i segs)) →
  splice (Z.to_nat off) src (concat segs) = concat (<[i := src]> segs).
Proof.
  intros Hi Hl ->. rewrite <-(take_drop_middle _ _ _ Hi), insert_app_r_alt;
    rewrite length_take_le by (apply lookup_lt_Some in Hi; lia); [|done].
  rewrite Nat.sub_diag. cbn [list_insert insert]. rewrite take_app_length'
    by (rewrite length_take_le; [done|apply lookup_lt_Some in Hi; lia]).
  rewrite !concat_app. cbn [concat]. unfold splice, len in *. rewrite Nat2Z.id, take_app_length.
  do 2 f_equal. rewrite app_assoc, drop_app_length'; [done|]. rewrite length_app. lia.
Qed.

Lemma field_concat {A} (segs : list (list A)) i seg off n :
  segs !! i = Some seg → n = len seg → off = len (concat (take i segs)) →
  ztake n (zdrop off (concat segs)) = seg.
Proof.
  intros Hi -> ->. rewrite <-(take_drop_middle _ _ _ Hi).
  rewrite take_app_length' by (rewrite length_take_le; [done|apply lookup_lt_Some in Hi; lia]).
  rewrite concat_app. cbn [concat]. rewrite zdrop_app by done. by rewrite ztake_app.
Qed.

Lemma split_fields {A} (ns : list Z) (l : list A) :
  Forall (λ n, 0 ≤ n) ns → len l = foldr Z.add 0 ns →
  ∃ segs, l = concat segs ∧ Forall2 (λ seg n, len seg = n) segs ns.
Proof.
  intros Hns. revert l. induction Hns as [|n ns Hn Hns IH]; intros l Hl; cbn in Hl.
  - exists []. split; [|done]. destruct l; [done|]. unfold len in Hl. cbn in Hl. lia.
  - assert (0 ≤ foldr Z.add 0 ns) by (clear -Hns; induction Hns; cbn; lia).
    destruct (IH (zdrop n l)) as (segs & Hs & Hf); [rewrite len_zdrop; lia|].
    exists (ztake n l :: segs). split.
    + cbn. by rewrite <-Hs, ztake_zdrop.
    + constructor; [apply len_ztake; lia|done].
Qed.

Lemma concat_fields_inj {A} (segs segs' : list (list A)) ns :
  Forall2 (λ seg n, len seg = n) segs ns → Forall2 (λ seg n, len seg = n) segs' ns →
  concat segs = concat segs' → segs = segs'.
Proof.
  intros Hs. revert segs'. induction Hs as [|seg n segs ns Hn Hs IH]; intros segs' Hs' Hc;
    inversion Hs' as [|seg' n' ? ? Hn' Ht]; subst; [done|]. cbn in Hc.
  apply app_inj_1 in Hc as [-> Hc]; [by f_equal; apply IH|]. unfold len in *. lia.
Qed.

(** The constants of the code, unfolded for arithmetic. *)
Create HintDb consts.
#[export] Hint Unfold SIZE_MAX LONG_MAX INT_MAX : consts.

Ltac size_lia :=
  repeat match goal with
  | |- context [len ?l] => lazymatch goal with H : 0 ≤ len l |- _ => fail | _ => pose proof (len_nonneg l) end
  end;
  autounfold with consts in *; autorewrite with len in *; lia.

(** Removes the reductions of sums and differences known to be in range. *)
Ltac size_norm :=
  repeat match goal with
  | |- context [size_add ?a ?b] =>
      lazymatch a with context [size_add] => fail | _ => idtac end;
      rewrite (size_add_small a b) by (unfold SIZE_MAX in *; lia)
  | |- context [size_sub ?a ?b] =>
      lazymatch a with context [size_sub] => fail | _ => idtac end;
      rewrite (size_sub_small a b) by (unfold SIZE_MAX in *; lia)
  end.

(** ** Null pointers *)

Definition is_null {A} (p : option A) : bool := match p with None => true | _ => false end.

Lemma is_null_true {A} (p : option A) : is_null p = true ↔ p = None.
Proof. by destruct p. Qed.

Lemma is_null_false {A} (p : option A) : is_null p = false ↔ is_Some p.
Proof. rewrite <-not_eq_None_Some. by destruct p. Qed.

Lemma Forall_nil_iff {A} (P : A → Prop) : Forall P [] ↔ True.
Proof. split; [done|constructor]. Qed.

(** ** Boolean conditions *)

Lemma bool_decide_iff_eq (P Q : Prop) `{!Decision P, !Decision Q} :
  (P ↔ Q) → bool_decide P = bool_decide Q.
Proof. apply bool_decide_ext. Qed.

(** Turns boolean hypotheses on conditions of the code into propositions. *)
Ltac simpl_bool :=
  repeat match goal with
  | H : (_ || _) = false |- _ => apply orb_false_iff in H as [? ?]
  | H : (_ && _) = true |- _ => apply andb_true_iff in H as [? ?]
  | H : negb _ = true |- _ => apply negb_true_iff in H
  | H : negb _ = false |- _ => apply negb_false_iff in H
  | H : is_null _ = true |- _ => apply is_null_true in H
  | H : is_null _ = false |- _ => apply is_null_false in H as [? H]
  | H : (_ =? _) = true |- _ => apply Z.eqb_eq in H
  | H : (_ =? _) = false |- _ => apply Z.eqb_neq in H
  | H : (_ <=? _) = true |- _ => apply Z.leb_le in H
  | H : (_ <=? _) = false |- _ => apply Z.leb_gt in H
  | H : (_ <? _) = true |- _ => apply Z.ltb_lt in H
  | H : (_ <? _) = false |- _ => apply Z.ltb_ge in H
  | H : (_ >? _) = _ |- _ => rewrite Z.gtb_ltb in H
  | H : (_ >=? _) = _ |- _ => rewrite Z.geb_leb in H
  | H : bool_decide _ = true |- _ => apply bool_decide_eq_true in H
  | H : bool_decide _ = false |- _ => apply bool_decide_eq_false in H
  end.

(** Two outcomes of one call are equal. *)
Ltac merge_calls :=
  repeat match goal with
  | H1 : ?f ?x = ?a, H2 : ?f ?x = ?b |- _ => rewrite H1 in H2; simplify_eq
  end.
