(* ===== verification/Machine.v ===== *)
(** * The execution model of the C code

    The state a C function acts on, the monad its body is written in, the
    primitives of the C library the code uses on memory, and a weakest
    precondition calculus for total correctness: [wp m Φ s] holds when [m]
    runs from [s] without undefined behaviour, terminates, and ends in a
    result and state that satisfy [Φ]. *)

From S2P Require Import Prelude.

(** The multiset operations are used through their algebra only. *)
#[global] Arguments gmultiset_disj_union : simpl never.
#[global] Arguments gmultiset_difference : simpl never.
#[global] Arguments gmultiset_singleton : simpl never.
#[global] Arguments gmultiset_empty : simpl never.

(** ** State *)

(** A node of the file system. *)
Inductive node :=
  | Regular (mode : Z) (content : list byte)
  | Directory (mode : Z)
  | Symlink (target : string).

(** - [tick] counts the calls made to the environment: the outcome of a call
      that may vary (an allocation, a random source, the clock, a system
      call) is a function of it;
    - [live] holds one occurrence of the name of a heap object per reference
      held to it, so [EVP_PKEY_up_ref] adds an occurrence and a [free]
      removes one;
    - [next] is the next unused object name;
    - [residue] lists the contents of key-holding storage at the moment it
      was given back: a block released by a clearing free, or a local
      variable holding private key material when its function returned;
    - [files] is the file system and [output] what was printed. *)
Record state := State {
  tick : N;
  live : gmultiset positive;
  next : positive;
  residue : list (list byte);
  files : gmap string node;
  output : list string
}.

Definition set_live (f : gmultiset positive → gmultiset positive) (s : state) : state :=
  State (tick s) (f (live s)) (next s) (residue s) (files s) (output s).

Definition with_files (fs : gmap string node) (s : state) : state :=
  State (tick s) (live s) (next s) (residue s) fs (output s).

(** ** Computations *)

(** [None] is undefined behaviour. *)
Definition M (A : Type) : Type := state → option (A * state).

#[export] Instance M_ret : MRet M := λ A a s, Some (a, s).
#[export] Instance M_bind : MBind M := λ A B k m s,
  match m s with Some (a, s') => k a s' | None => None end.

Definition undefined {A} : M A := λ _, None.

(** A call whose outcome may depend on the moment it is made. *)
Definition call {A} (f : N → A) : M A := λ s,
  Some (f (tick s), State (N.succ (tick s)) (live s) (next s) (residue s) (files s) (output s)).

(** Facts about a sequence of such calls are stated for a quantifier over the
    moments at which they are made: [once] for a sequence that occurred,
    [always] for one that cannot go wrong. *)
Definition modality : Type := ∀ A : Type, (N → A) → (A → Prop) → Prop.
Definition once : modality := λ A f P, ∃ t, P (f t).
Definition always : modality := λ A f P, ∀ t, P (f t).

(** The call returned an object. *)
Definition on_some {A} (P : A → Prop) (r : option A) : Prop :=
  match r with Some a => P a | None => False end.

(** The call returned a positive code and a value. *)
Definition on_pos {A} (P : A → Prop) (r : Z * A) : Prop := 0 < fst r ∧ P (snd r).

(** The outcome [r] of a check is true only if [P] holds, and is true if [P']
    holds: [P] is the [once] form of a condition and [P'] its [always] form. *)
Definition decides (r : bool) (P P' : Prop) : Prop := (r = true → P) ∧ (P' → r = true).

Lemma decides_and a b P P' Q Q' :
  decides a P P' → decides b Q Q' → decides (a && b) (P ∧ Q) (P' ∧ Q').
Proof. unfold decides. destruct a, b; naive_solver. Qed.

Lemma decides_iff r P : (r = true ↔ P) → decides r P P.
Proof. unfold decides. naive_solver. Qed.

Lemma decides_eq r : decides r (r = true) (r = true).
Proof. done. Qed.

(** A pointer to a heap object: [None] is [NULL]. The object is named, so that
    two pointers to one object are equal and a release is seen by both. *)
Record obj (A : Type) := Obj { obj_id : positive; obj_val : A }.
Arguments Obj {A}.
Arguments obj_id {A}.
Arguments obj_val {A}.

Definition set_val {A} (o : obj A) (v : A) : obj A := Obj (obj_id o) v.

(** A library function that returns a new object, or [NULL]. *)
Definition new_object {A} (f : N → option A) : M (option (obj A)) := λ s,
  match f (tick s) with
  | None => Some (None, State (N.succ (tick s)) (live s) (next s) (residue s) (files s) (output s))
  | Some a => Some (Some (Obj (next s) a),
      State (N.succ (tick s)) (live s ⊎ {[+ next s +]}) (Pos.succ (next s))
            (residue s) (files s) (output s))
  end.

(** Releasing [NULL] does nothing; releasing an object that is not live is
    undefined. *)
Definition free_object {A} (p : option (obj A)) : M unit := λ s,
  match p with
  | None => Some (tt, s)
  | Some o => if decide (obj_id o ∈ live s)
              then Some (tt, set_live (λ L, L ∖ {[+ obj_id o +]}) s) else None
  end.

(** One more reference to a live object. *)
Definition share_object {A} (o : obj A) : M unit := λ s,
  if decide (obj_id o ∈ live s)
  then Some (tt, set_live (λ L, L ⊎ {[+ obj_id o +]}) s) else None.

(** Access to an object: undefined once it has been released. *)
Definition deref {A} (o : obj A) : M A := λ s,
  if decide (obj_id o ∈ live s) then Some (obj_val o, s) else None.

Definition add_residue (b : list byte) (s : state) : state :=
  State (tick s) (live s) (next s) (b :: residue s) (files s) (output s).

(** Storage that held private key material is given back with content [b]. *)
Definition retire (b : list byte) : M unit := λ s, Some (tt, add_residue b s).

(** [fprintf(stderr, ...)], [printf]: one line. *)
Definition add_output (l : list string) (s : state) : state :=
  State (tick s) (live s) (next s) (residue s) (files s) (output s ++ l).
Lemma add_output_nil s : add_output [] s = s.
Proof. destruct s. unfold add_output. cbn. by rewrite app_nil_r. Qed.
Definition print (line : string) : M unit := λ s, Some (tt, add_output [line] s).

(** ** Buffers *)

(** A [const uint8_t *]: [None] is [NULL]. *)
Abbreviation ptr := (option (list byte)).

(** A heap block. *)
Abbreviation block := (obj (list byte)).

(** The first [n] bytes at [p]. *)
Definition read (p : ptr) (n : Z) : M (list byte) := λ s,
  match p with
  | None => if decide (n = 0) then Some ([], s) else None
  | Some b => if decide (0 ≤ n ≤ len b) then Some (ztake n b, s) else None
  end.

(** The bytes of a block, passed to a [const] parameter. *)
Definition borrow (p : option block) : M ptr :=
  match p with None => mret None | Some o => v ← deref o; mret (Some v) end.

(** [memcpy(buf + off, src, |src|)] *)
Definition memcpy (buf : list byte) (off : Z) (src : list byte) : M (list byte) := λ s,
  if decide (0 ≤ off ∧ off + len src ≤ len buf)
  then Some (splice (Z.to_nat off) src buf, s) else None.

(** The same on a heap block. *)
Definition memcpy_block (b : block) (off : Z) (src : list byte) : M block :=
  v ← deref b; v ← memcpy v off src; mret (set_val b v).

(** [OPENSSL_cleanse(buf, n)], [OQS_MEM_cleanse(buf, n)], [memset(buf, 0, n)] *)
Definition cleanse (buf : list byte) (n : Z) : M (list byte) := memcpy buf 0 (zeros (Z.to_nat n)).

(** An output pair [uint8_t **p, size_t *n]: each component is [None] when
    that pointer is [NULL] and otherwise holds the variable's content. *)
Abbreviation outbuf := (option (option block) * option Z)%type.

Definition out_null (o : outbuf) : bool := is_null (fst o) || is_null (snd o).

(** [*p = NULL; *n = 0;] *)
Definition fresh_out : outbuf := (Some None, Some 0).

Definition set_out (b : block) (n : Z) : outbuf := (Some (Some b), Some n).
Definition out_block (o : outbuf) : option block := default None (fst o).
Definition out_len (o : outbuf) : Z := default 0 (snd o).

(** ** Allocation *)

(** [alloc_ok] decides whether an allocation succeeds; a fresh block holds
    arbitrary bytes. *)
Class Libc := {
  alloc_ok : Z → N → bool;
  uninit : N → nat → byte
}.

Definition fresh_bytes `{Libc} (n : Z) (t : N) : list byte := map (uninit t) (seq 0 (Z.to_nat n)).

Definition malloc `{Libc} (n : Z) : M (option block) :=
  new_object (λ t, if alloc_ok n t then Some (fresh_bytes n t) else None).

(** A local array of [n] bytes, uninitialised. *)
Definition local_array `{Libc} (n : Z) : M (list byte) := call (fresh_bytes n).

(** [OPENSSL_clear_free(p, n)], [OQS_MEM_secure_free(p, n)]: the first [n]
    bytes are overwritten, then the block is released. *)
Definition clear_free (p : option block) (n : Z) : M unit :=
  match p with
  | None => mret tt
  | Some b => v ← deref b; v ← cleanse v n; retire v;; free_object p
  end.

(** No allocation fails. *)
Definition reliable_malloc `{Libc} : Prop := ∀ n t, alloc_ok n t = true.

Lemma len_fresh_bytes `{Libc} n t : 0 ≤ n → len (fresh_bytes n t) = n.
Proof. intros. unfold len, fresh_bytes. rewrite length_map, length_seq. lia. Qed.

#[global] Arguments call : simpl never.
#[global] Arguments new_object : simpl never.
#[global] Arguments free_object : simpl never.
#[global] Arguments share_object : simpl never.
#[global] Arguments deref : simpl never.
#[global] Arguments retire : simpl never.
#[global] Arguments print : simpl never.
#[global] Arguments read : simpl never.
#[global] Arguments borrow : simpl never.
#[global] Arguments memcpy : simpl never.
#[global] Arguments memcpy_block : simpl never.
#[global] Arguments cleanse : simpl never.
#[global] Arguments malloc : simpl never.
#[global] Arguments local_array : simpl never.
#[global] Arguments clear_free : simpl never.

(** ** Weakest preconditions *)

Definition wp {A} (m : M A) (Φ : A → state → Prop) (s : state) : Prop :=
  match m s with Some (a, s') => Φ a s' | None => False end.

#[global] Arguments wp : simpl never.

Section wp.
Context {A B : Type}.
Implicit Types (m : M A) (k : A → M B).

Lemma wp_ret (a : A) Φ s : Φ a s → wp (mret a) Φ s.
Proof. done. Qed.

Lemma wp_bind m k Φ s : wp m (λ a s', wp (k a) Φ s') s → wp (m ≫= k) Φ s.
Proof. unfold wp, mbind, M_bind. destruct (m s) as [[]|]; done. Qed.

Lemma wp_mono m Φ Ψ s : wp m Φ s → (∀ a s', Φ a s' → Ψ a s') → wp m Ψ s.
Proof. unfold wp. destruct (m s) as [[]|]; naive_solver. Qed.

Lemma wp_and m Φ Ψ s : wp m Φ s → wp m Ψ s → wp m (λ a s', Φ a s' ∧ Ψ a s') s.
Proof. unfold wp. destruct (m s) as [[]|]; naive_solver. Qed.

Lemma wp_run m Φ s : wp m Φ s ↔ ∃ a s', m s = Some (a, s') ∧ Φ a s'.
Proof.
  unfold wp. split.
  - destruct (m s) as [[a s']|]; [eauto|done].
  - intros (a & s' & -> & H). done.
Qed.

Lemma wp_elim m Φ s a s' : wp m Φ s → m s = Some (a, s') → Φ a s'.
Proof. unfold wp. intros H E. by rewrite E in H. Qed.
End wp.

#[export] Instance wp_proper {A} (m : M A) :
  Proper (pointwise_relation _ (pointwise_relation _ iff) ==> eq ==> iff) (wp m).
Proof. intros Φ Ψ H s ? <-. unfold wp. destruct (m s) as [[]|]; [apply H|done]. Qed.

#[export] Instance wp_impl_proper {A} (m : M A) :
  Proper (pointwise_relation _ (pointwise_relation _ impl) ==> eq ==> impl) (wp m).
Proof. intros Φ Ψ H s ? <-. unfold wp, impl. destruct (m s) as [[]|]; [apply H|done]. Qed.

(** ** What a function owns and changes *)

(** The references held by a pointer. *)
Definition owns {A} (p : option (obj A)) : gmultiset positive :=
  match p with None => ∅ | Some o => {[+ obj_id o +]} end.

(** [alive p s]: a non-null [p] may be accessed in [s]. *)
Definition alive {A} (p : option (obj A)) (s : state) : Prop := owns p ⊆ live s.

(** [frame take give s s']: from [s] to [s'] the references [take] were
    released and [give] acquired, every key-holding storage given back was
    zeroed, and files and output are untouched. *)
Record frame (take give : gmultiset positive) (s s' : state) : Prop := Frame {
  frame_live : live s' ⊎ take = live s ⊎ give;
  frame_residue : ∃ rs, residue s' = rs ++ residue s ∧ Forall zeroed rs;
  frame_files : files s' = files s;
  frame_output : output s' = output s
}.

Lemma frame_refl s : frame ∅ ∅ s s.
Proof. split; [done|by exists []|done|done]. Qed.

Lemma frame_trans t1 g1 t2 g2 s1 s2 s3 :
  frame t1 g1 s1 s2 → frame t2 g2 s2 s3 → frame (t1 ⊎ t2) (g1 ⊎ g2) s1 s3.
Proof.
  intros [L1 (r1 & R1 & Z1) F1 O1] [L2 (r2 & R2 & Z2) F2 O2].
  split; [clear R1 R2 Z1 Z2; multiset_solver| |congruence..].
  exists (r2 ++ r1). split; [by rewrite R2, R1, app_assoc|by apply Forall_app_2].
Qed.

Lemma frame_conv t g t' g' s s' :
  frame t g s s' → t ⊎ g' = t' ⊎ g → frame t' g' s s'.
Proof. intros [L R F O] E. split; [clear R; multiset_solver|done..]. Qed.

(** ** Specifications *)

(** [Spec m P Q]: run from a state that satisfies [P], [m] has no undefined
    behaviour, terminates, and its result and states satisfy [Q]. Instances
    are found by the tactic [wp_step] below. *)
Class Spec {A} (m : M A) (P : state → Prop) (Q : A → state → state → Prop) : Prop :=
  spec : ∀ s, P s → wp m (λ r s', Q r s s') s.
#[export] Hint Mode Spec ! ! - - : typeclass_instances.

Lemma wp_spec {A} (m : M A) P Q `{!Spec m P Q} Φ s :
  P s → (∀ r s', Q r s s' → Φ r s') → wp m Φ s.
Proof. intros HP H. eapply wp_mono; [by apply spec|]. naive_solver. Qed.

(** The usual postcondition: a frame and a fact about the result. *)
Definition yields {A} (take : gmultiset positive) (give : A → gmultiset positive)
    (post : A → Prop) (r : A) (s s' : state) : Prop :=
  frame take (give r) s s' ∧ post r.

Ltac frame_trivial := split; [cbn; multiset_solver|by exists []|done|done].

Section primitives.
Context {A : Type}.

#[export] Instance spec_call (f : N → A) :
  Spec (call f) (λ _, True) (λ r s s', frame ∅ ∅ s s' ∧ f (tick s) = r).
Proof. intros s _. unfold wp, call. split; [frame_trivial|done]. Qed.

#[export] Instance spec_new_object (f : N → option A) :
  Spec (new_object f) (λ _, True)
    (λ r s s', frame ∅ (owns r) s s' ∧ f (tick s) = obj_val <$> r).
Proof.
  intros s _. unfold wp, new_object. destruct (f (tick s)) as [a|] eqn:E; (split; [frame_trivial|done]).
Qed.

#[export] Instance spec_free_object (p : option (obj A)) :
  Spec (free_object p) (alive p) (λ r s s', frame (owns p) ∅ s s').
Proof.
  intros s Hp. unfold wp, free_object. destruct p as [o|]; [|frame_trivial].
  unfold alive, owns in Hp. rewrite decide_True by multiset_solver. frame_trivial.
Qed.

#[export] Instance spec_share_object (o : obj A) :
  Spec (share_object o) (alive (Some o)) (λ r s s', frame ∅ (owns (Some o)) s s').
Proof.
  intros s Hp. unfold wp, share_object. unfold alive, owns in Hp.
  rewrite decide_True by multiset_solver. frame_trivial.
Qed.

#[export] Instance spec_deref (o : obj A) :
  Spec (deref o) (alive (Some o)) (λ r s s', r = obj_val o ∧ s' = s).
Proof.
  intros s Hp. unfold wp, deref. unfold alive, owns in Hp. by rewrite decide_True by multiset_solver.
Qed.
End primitives.

(** [p] may be read for [n] bytes. *)
Definition readable (p : ptr) (n : Z) : Prop :=
  match p with None => n = 0 | Some b => 0 ≤ n ≤ len b end.

(** The bytes a read yields. *)
Definition bytes_at (p : ptr) (n : Z) : list byte := ztake n (default [] p).

#[export] Instance spec_read p n :
  Spec (read p n) (λ _, readable p n) (λ r s s', r = bytes_at p n ∧ s' = s).
Proof.
  intros s H. unfold wp, read, readable, bytes_at in *. destruct p as [b|].
  - by rewrite decide_True.
  - rewrite decide_True by done. subst. done.
Qed.

#[export] Instance spec_borrow p :
  Spec (borrow p) (alive p) (λ r s s', r = obj_val <$> p ∧ s' = s).
Proof.
  intros s Hp. destruct p as [o|]; cbn; [|done]. apply wp_bind.
  eapply wp_spec; [apply _|done|]. intros r s' [-> ->]. by apply wp_ret.
Qed.

#[export] Instance spec_memcpy buf off src :
  Spec (memcpy buf off src) (λ _, 0 ≤ off ∧ off + len src ≤ len buf)
    (λ r s s', r = splice (Z.to_nat off) src buf ∧ s' = s).
Proof. intros s H. unfold wp, memcpy. by rewrite decide_True. Qed.

#[export] Instance spec_memcpy_block b off src :
  Spec (memcpy_block b off src)
    (λ s, alive (Some b) s ∧ 0 ≤ off ∧ off + len src ≤ len (obj_val b))
    (λ r s s', r = set_val b (splice (Z.to_nat off) src (obj_val b)) ∧ s' = s).
Proof.
  intros s [Hb H]. unfold memcpy_block. apply wp_bind.
  eapply wp_spec; [apply _|done|]. intros r s' [-> ->]. apply wp_bind.
  eapply wp_spec; [apply _|done|]. intros r s' [-> ->]. by apply wp_ret.
Qed.

#[export] Instance spec_cleanse buf n :
  Spec (cleanse buf n) (λ _, 0 ≤ n ≤ len buf)
    (λ r s s', r = splice 0 (zeros (Z.to_nat n)) buf ∧ s' = s).
Proof. intros s H. apply (spec_memcpy buf 0 _ s). autorewrite with len. lia. Qed.

Lemma cleanse_whole buf : splice 0 (zeros (Z.to_nat (len buf))) buf = zeros (length buf).
Proof.
  unfold splice, len. rewrite Nat2Z.id, length_zeros. cbn. rewrite drop_ge by lia. apply app_nil_r.
Qed.

Lemma zeroed_cleanse buf n : len buf = n → zeroed (splice 0 (zeros (Z.to_nat n)) buf).
Proof. intros <-. rewrite cleanse_whole. apply zeroed_zeros. Qed.

Lemma zeroed_prefix buf n :
  0 ≤ n ≤ len buf → zeroed (ztake n (splice 0 (zeros (Z.to_nat n)) buf)).
Proof.
  intros Hn. assert (Hz : len (zeros (Z.to_nat n)) = n) by (rewrite len_zeros; lia).
  rewrite <-Hz at 1. rewrite splice_prefix by lia. apply zeroed_zeros.
Qed.

Lemma len_cleanse buf n : len buf = n → len (splice 0 (zeros (Z.to_nat n)) buf) = n.
Proof. intros <-. rewrite cleanse_whole, len_zeros. done. Qed.

#[export] Instance spec_retire b :
  Spec (retire b) (λ _, zeroed b) (λ r s s', frame ∅ ∅ s s').
Proof.
  intros s H. unfold wp, retire. split; [cbn; multiset_solver| |done|done].
  exists [b]. split; [done|by apply Forall_singleton].
Qed.

(** What is printed does not change what is owned. *)
Lemma frame_add_output t g l s s' :
  frame t g (add_output l s) s' → ∃ s1, frame t g s s1 ∧ s' = add_output l s1.
Proof.
  intros [L R F O]. cbn in *.
  exists (State (tick s') (live s') (next s') (residue s') (files s') (output s)).
  split; [by split|]. destruct s'. unfold add_output. cbn in *. by subst.
Qed.

(** Neither does a change of the file system. *)
Lemma frame_with_files t g fs s s' :
  frame t g (with_files fs s) s' → ∃ s1, frame t g s s1 ∧ s' = with_files fs s1.
Proof.
  intros [L R F O]. cbn in *.
  exists (State (tick s') (live s') (next s') (residue s') (files s) (output s')).
  split; [by split|]. destruct s'. unfold with_files. cbn in *. by subst.
Qed.

Lemma with_files_files s : with_files (files s) s = s.
Proof. by destruct s. Qed.

(** Storage given back as it is. *)
Lemma wp_retire_any b Φ s : Φ tt (add_residue b s) → wp (retire b) Φ s.
Proof. done. Qed.

#[export] Instance spec_clear_free p n :
  Spec (clear_free p n)
    (λ s, alive p s ∧ match p with None => True | Some b => n = len (obj_val b) end)
    (λ r s s', frame (owns p) ∅ s s').
Proof.
  intros s [Hp Hn]. destruct p as [b|]; cbn; [subst n|by apply wp_ret, frame_refl].
  apply wp_bind. eapply wp_spec; [apply _|done|]. intros r s1 [-> ->]. apply wp_bind.
  eapply wp_spec; [apply _|cbn; pose proof (len_nonneg (obj_val b)); lia|]. intros r s2 [-> ->]. apply wp_bind.
  rewrite cleanse_whole. eapply wp_spec; [apply _|apply zeroed_zeros|]. intros r s3 F3.
  eapply wp_spec; [apply _| |].
  - destruct F3 as [L _ _ _]. unfold alive in *. multiset_solver.
  - intros r' s4 F4. eapply frame_conv; [exact (frame_trans _ _ _ _ _ _ _ F3 F4)|]. clear. cbn. multiset_solver.
Qed.

#[export] Instance spec_malloc `{Libc} n :
  Spec (malloc n) (λ _, 0 ≤ n)
    (λ r s s', frame ∅ (owns r) s s' ∧
       match r with None => alloc_ok n (tick s) = false | Some b => len (obj_val b) = n end).
Proof.
  intros s Hn. eapply wp_spec; [apply _|done|]. intros r s' [F E]. split; [done|].
  destruct (alloc_ok n (tick s)), r as [b|]; cbn in E; try done.
  injection E as <-. by apply len_fresh_bytes.
Qed.

#[export] Instance spec_local_array `{Libc} n :
  Spec (local_array n) (λ _, 0 ≤ n) (λ r s s', frame ∅ ∅ s s' ∧ len r = n).
Proof.
  intros s Hn. eapply wp_spec; [apply _|done|]. intros r s' [F <-]. split; [done|by apply len_fresh_bytes].
Qed.

(** A block filled from the left: the next write extends the part [pre]
    already written. *)
Lemma wp_append b pre rest off src Φ s :
  alive (Some b) s → obj_val b = pre ++ rest → off = len pre → len src ≤ len rest →
  (∀ rest', len rest' = len rest - len src → Φ (set_val b ((pre ++ src) ++ rest')) s) →
  wp (memcpy_block b off src) Φ s.
Proof.
  intros Hb Hv -> Hl HΦ. pose proof (len_nonneg pre). pose proof (len_nonneg src).
  eapply wp_spec; [apply _|split; [done|rewrite Hv, len_app; lia]|].
  intros r s' [-> ->]. rewrite Hv, splice_append. apply HΦ. rewrite len_zdrop; lia.
Qed.

(** A pointer and length that a function may be given: [n] bytes are readable
    at [p], or [p] is [NULL]. *)
Definition valid (p : ptr) (n : Z) : Prop :=
  0 ≤ n ≤ SIZE_MAX ∧ match p with None => True | Some b => n ≤ len b end.

Lemma valid_readable p n : valid p n → is_Some p ∨ n = 0 → readable p n.
Proof. intros [Hn H] Hp. destruct p; cbn in *; [lia|]. by destruct Hp as [[? ?]|?]. Qed.

(** The guard [p == NULL && n != 0] that the code puts before a read. *)
Lemma valid_guard p n : valid p n → is_null p && negb (n =? 0) = false → readable p n.
Proof.
  intros Hv Hg. apply valid_readable; [done|]. destruct p; [by left; eexists|].
  right. destruct (Z.eqb_spec n 0); done.
Qed.

Lemma valid_nonnull b n : valid (Some b) n → readable (Some b) n.
Proof. intros. apply valid_readable; [done|]. by left; eexists. Qed.

Create HintDb wp.
#[export] Hint Resolve valid_guard valid_nonnull zeroed_zeros zeroed_cleanse : wp.

Lemma len_bytes_at p n : valid p n → is_Some p ∨ n = 0 → len (bytes_at p n) = n.
Proof.
  destruct p as [b|]; intros [Hn H] Hp; unfold bytes_at; cbn.
  - apply len_ztake. lia.
  - destruct Hp as [[? ?]| ->]; done.
Qed.

Lemma bytes_at_null n : bytes_at None n = [].
Proof. unfold bytes_at, ztake. cbn. by destruct (Z.to_nat n). Qed.

Lemma bytes_at_full b n : len b = n → bytes_at (Some b) n = b.
Proof. intros <-. by apply ztake_all. Qed.

Lemma len_bytes_at_some b n : valid (Some b) n → len (bytes_at (Some b) n) = n.
Proof. intros. apply len_bytes_at; [done|]. by left; eexists. Qed.

(** The result of a function with an output pair: the block and length written
    on success satisfy [P]; on failure the pair is reset. *)
Definition out_post (P : block → Z → Prop) (r : bool * outbuf) : Prop :=
  match r with
  | (true, o) => ∃ b n, o = set_out b n ∧ P b n
  | (false, o) => o = fresh_out
  end.

(** The reference such a result carries. *)
Definition out_owns (r : bool * outbuf) : gmultiset positive := owns (out_block (snd r)).

Lemma out_post_impl (P Q : block → Z → Prop) r :
  out_post P r → (∀ b n, P b n → Q b n) → out_post Q r.
Proof. destruct r as [[] o]; cbn; naive_solver. Qed.

(** ** Symbolic execution *)

Lemma ms_left_id (X : gmultiset positive) : ∅ ⊎ X = X.
Proof. apply (left_id_L ∅ (⊎)). Qed.
Lemma ms_right_id (X : gmultiset positive) : X ⊎ ∅ = X.
Proof. apply (right_id_L ∅ (⊎)). Qed.

(** Combines consecutive frames, so that one frame relates the initial state
    to the current one. *)
Ltac frame_merge :=
  repeat match goal with
  | F : frame _ _ (add_output _ _) ?s2 |- _ =>
      let s := fresh "s" in let F' := fresh "F" in let E := fresh "E" in
      destruct (frame_add_output _ _ _ _ _ F) as (s & F' & E); clear F; subst s2
  end;
  repeat match goal with
  | F : frame _ _ (with_files _ _) ?s2 |- _ =>
      let s := fresh "s" in let F' := fresh "F" in let E := fresh "E" in
      destruct (frame_with_files _ _ _ _ _ F) as (s & F' & E); clear F; subst s2
  end;
  repeat match goal with
  | |- context [with_files ?fs (with_files ?fs' ?s)] =>
      change (with_files fs (with_files fs' s)) with (with_files fs s)
  end;
  repeat match goal with
  | F1 : frame ?t1 ?g1 ?s1 ?s2, F2 : frame ?t2 ?g2 ?s2 ?s3 |- _ =>
      let F := fresh "F" in
      pose proof (frame_trans _ _ _ _ _ _ _ F1 F2) as F; clear F1 F2;
      cbn [owns] in F; rewrite ?ms_left_id, ?ms_right_id in F
  end.

Ltac frame_live_facts :=
  repeat match goal with
  | F : frame _ _ _ _ |- _ => let L := fresh "L" in pose proof (frame_live _ _ _ _ F) as L; clear F
  end.

Lemma ms_eq_mult (X Y : gmultiset positive) x : X = Y → multiplicity x X = multiplicity x Y.
Proof. by intros ->. Qed.
Lemma ms_sub_mult (X Y : gmultiset positive) x : X ⊆ Y → (multiplicity x X ≤ multiplicity x Y)%nat.
Proof. intros H. apply H. Qed.
Lemma ms_sub_intro (X Y : gmultiset positive) :
  (∀ x, multiplicity x X ≤ multiplicity x Y)%nat → X ⊆ Y.
Proof. intros H x. apply H. Qed.

(** Decides equations and inclusions of sums of multisets that follow, name by
    name, by linear arithmetic on multiplicities from those of the context. *)
Ltac ms_lia :=
  let x := fresh "x" in
  first [apply gmultiset_eq; intros x | apply ms_sub_intro; intros x];
  repeat match goal with
  | H : @eq (gmultiset positive) _ _ |- _ => apply (ms_eq_mult _ _ x) in H
  | H : @subseteq (gmultiset positive) _ _ _ |- _ => apply (ms_sub_mult _ _ x) in H
  end;
  repeat match goal with
  | H : ?P |- _ => lazymatch type of P with Prop =>
      lazymatch P with context [multiplicity] => fail | _ => clear H end end
  end;
  rewrite ?multiplicity_disj_union, ?multiplicity_union, ?multiplicity_empty in *; lia.

Ltac owns_simpl :=
  cbn [owns fst snd obj_id obj_val set_val default out_block set_out fresh_out fmap option_fmap option_map from_option id] in *.

(** Extended by the components that define the references a structure holds. *)
Ltac owns_unfold := unfold out_owns in *.

Ltac owns_lia := owns_unfold; owns_simpl; ms_lia.

Ltac solve_alive :=
  unfold alive in *;
  repeat match goal with
  | |- context [live (add_output ?l ?s)] => change (live (add_output l s)) with (live s)
  | |- context [live (with_files ?l ?s)] => change (live (with_files l s)) with (live s)
  end; frame_live_facts; owns_unfold; owns_simpl; ms_lia.

Ltac solve_frame :=
  eapply frame_conv; [eassumption|owns_unfold; owns_simpl; ms_lia].

Ltac wp_side :=
  try assumption;
  cbn beta iota delta [from_option];
  repeat match goal with |- _ ∧ _ => split end;
  first
  [ done
  | match goal with |- alive _ _ => solve_alive | |- _ ⊆ _ => solve_alive end
  | match goal with |- frame _ _ _ _ => solve_frame end
  | match goal with |- readable _ _ => unfold readable; cbn [fmap option_fmap option_map]; size_lia end
  | autorewrite with len in *; lia
  | solve [eauto with wp]
  | match goal with |- valid _ _ => unfold valid in *; cbn [fmap option_fmap option_map]; size_lia end
  | idtac ].

Ltac wp_pure :=
  match goal with
  | |- wp (mbind _ _) _ _ => apply wp_bind
  | |- wp (mret _) _ _ => apply wp_ret
  end.

(** One call: its specification is found by instance search. *)
Tactic Notation "wp_call" "as" simple_intropattern(r) simple_intropattern(H) :=
  repeat wp_pure;
  eapply wp_spec; [apply _|wp_side|
    let s := fresh "s" in intros r s; cbv beta; intros H;
    repeat match goal with E : ?s' = ?s'' |- _ => is_var s'; is_var s''; subst s' end;
    frame_merge; cbn beta iota zeta delta [fst snd]].

(** Proves that a sequence of calls occurred from their recorded outcomes. *)
Ltac once_auto :=
  repeat match goal with
  | E : ?f ?t = _ |- once _ ?f _ => exists t; rewrite E; cbn [on_some on_pos fst snd]
  | E : context [?f (tick ?u)] |- once _ ?f _ => exists (tick u); cbn [on_some on_pos fst snd]
  | |- on_some _ _ => cbn [on_some]
  | |- on_pos _ _ => split; cbn [fst snd]
  | |- _ ∧ _ => split
  end; try done; try lia.

(** Uses that a sequence of calls always goes well on the recorded outcomes. *)
Ltac always_auto :=
  repeat match goal with
  | H : always _ ?f _, E : ?f ?t = _ |- _ =>
      let H' := fresh H in
      pose proof (H t) as H'; clear H; rewrite E in H'; cbn [on_some on_pos fst snd] in H'
  | H : always _ ?f _, E : context [?f (tick ?u)] |- _ =>
      let H' := fresh H in
      pose proof (H (tick u)) as H'; clear H; cbn [on_some on_pos fst snd] in H'
  | H : False |- _ => destruct H
  | H : on_pos _ _ |- _ => destruct H as [? H]; cbn [fst snd] in *
  | H : on_some _ None |- _ => destruct H
  | H : on_some _ (Some _) |- _ => cbn [on_some] in H
  | H : _ ∧ _ |- _ => destruct H as [? H]
  end; try done; try lia.

(** Case analysis on a condition of the code. *)
Tactic Notation "wp_case" constr(c) :=
  repeat wp_pure; let E := fresh "E" in destruct c eqn:E; simpl_bool; simplify_eq/=.

(** Starts the proof of a specification. *)
Ltac wp_start :=
  let s := fresh "s" in let P := fresh "P" in
  intros s P; pose proof (frame_refl s).

(** One line printed. *)
Lemma add_output_app l l' s : add_output l' (add_output l s) = add_output (l ++ l') s.
Proof. unfold add_output. cbn. by rewrite app_assoc. Qed.

Lemma wp_print {B} line (k : unit → M B) Φ s :
  wp (k tt) Φ (add_output [line] s) → wp (print line ≫= k) Φ s.
Proof. intros Hk. apply wp_bind. exact Hk. Qed.

Ltac wp_prints := repeat (apply wp_print); rewrite ?add_output_app; cbn [app].

(** Ends a path: the frame, then the facts about the result. *)
Ltac wp_end :=
  repeat wp_pure; split; [unfold out_owns; solve_frame|].
