(* ===== verification/External.v ===== *)
(** * The libraries the code calls

    OpenSSL, the Dilithium2 reference implementation and liboqs are not part
    of the repository: each is an interface, a class of the functions the code
    calls, under their C names. A last argument [N] is the moment of a call
    whose outcome may vary. What the theorems rely on is stated as separate
    classes of laws. *)

From S2P Require Import Prelude Machine.

(** ** The Dilithium2 reference implementation (third_party/dilithium) *)

(** [pqcrystals_dilithium2_ref_*]: a return code, zero on success, and the
    bytes written. *)
Class Dilithium2 := {
  dilithium2_ref_keypair : N → Z * list byte * list byte;
  dilithium2_ref_signature : list byte → list byte → list byte → N → Z * list byte;
  dilithium2_ref_verify : list byte → list byte → list byte → list byte → Z
}.

(** The sizes [api.h] documents: keys and signatures never exceed the
    [CRYPTO_*BYTES] constants, and are exactly as long on success. *)
Class Dilithium2Sizes `{Dilithium2} : Prop := {
  dilithium2_keypair_fits t rc pk sk :
    dilithium2_ref_keypair t = (rc, pk, sk) → len pk ≤ 1312 ∧ len sk ≤ 2560;
  dilithium2_keypair_sizes t pk sk :
    dilithium2_ref_keypair t = (0, pk, sk) → len pk = 1312 ∧ len sk = 2560;
  dilithium2_signature_size m ctx sk t rc sig :
    dilithium2_ref_signature m ctx sk t = (rc, sig) → len sig ≤ 2420
}.

(** ** OpenSSL: message digests and keys (libcrypto) *)

Class OpenSSL := {
  (* keys *)
  EVP_PKEY : Type;
  EVP_PKEY_is_a : EVP_PKEY → string → Z;
  EVP_PKEY_up_ref : N → Z;
  (* [EVP_PKEY_get_octet_string_param(key, "pub", buf, cap, &len)]: the return
     code and the octets written to [buf] *)
  EVP_PKEY_get_pub : EVP_PKEY → Z → N → Z * list byte;
  (* key contexts *)
  EVP_PKEY_CTX : Type;
  EVP_PKEY_CTX_new_from_name : string → N → option EVP_PKEY_CTX;
  EVP_PKEY_CTX_new_from_pkey : option EVP_PKEY → N → option EVP_PKEY_CTX;
  EVP_PKEY_keygen_init : EVP_PKEY_CTX → N → Z * EVP_PKEY_CTX;
  EVP_PKEY_generate : EVP_PKEY_CTX → N → Z * option EVP_PKEY;
  EVP_PKEY_fromdata_init : EVP_PKEY_CTX → N → Z * EVP_PKEY_CTX;
  (* public key of the named group, from its octets *)
  EVP_PKEY_fromdata_public : EVP_PKEY_CTX → string → list byte → N → Z * option EVP_PKEY;
  EVP_PKEY_public_check : EVP_PKEY_CTX → N → Z;
  EVP_PKEY_private_check : EVP_PKEY_CTX → N → Z;
  (* one-shot digests *)
  EVP_Digest_sm3 : list byte → N → option (list byte);
  EVP_Digest_sha256 : list byte → N → option (list byte);
  (* signature contexts; the [EVP_PKEY_CTX] that an [Init] returns lives in
     its [EVP_MD_CTX] *)
  EVP_MD_CTX : Type;
  EVP_MD_CTX_new : N → option EVP_MD_CTX;
  EVP_DigestSignInit_ex : EVP_MD_CTX → string → EVP_PKEY → N → Z * EVP_MD_CTX;
  EVP_DigestVerifyInit_ex : EVP_MD_CTX → string → EVP_PKEY → N → Z * EVP_MD_CTX;
  EVP_PKEY_CTX_set1_id : EVP_MD_CTX → list byte → N → Z * EVP_MD_CTX;
  EVP_DigestSign_size : EVP_MD_CTX → list byte → N → Z * Z;
  EVP_DigestSign : EVP_MD_CTX → Z → list byte → N → Z * list byte;
  EVP_DigestVerify : EVP_MD_CTX → list byte → list byte → N → Z;
  (* ECDSA-Sig-Value; BIGNUMs are integers *)
  ECDSA_SIG : Type;
  ECDSA_SIG_get0 : ECDSA_SIG → option Z * option Z;
  (* the value and the number of bytes consumed *)
  d2i_ECDSA_SIG : list byte → N → option (ECDSA_SIG * Z);
  (* the returned length and the allocated encoding *)
  i2d_ECDSA_SIG : ECDSA_SIG → N → Z * option (list byte)
}.

(** Size contracts of the functions that write to a caller's buffer. *)
Class OpenSSLSizes `{OpenSSL} : Prop := {
  get_pub_size k cap t rc pub :
    EVP_PKEY_get_pub k cap t = (rc, pub) → 0 ≤ cap → len pub ≤ cap;
  (* [EVP_MAX_MD_SIZE] *)
  digest_fits m t d : EVP_Digest_sm3 m t = Some d → len d ≤ 64;
  sha256_size m t d : EVP_Digest_sha256 m t = Some d → len d = 32;
  digest_sign_size c m t n :
    EVP_DigestSign_size c m t = n → 0 ≤ snd n ≤ SIZE_MAX;
  digest_sign_fits c cap m t rc sig :
    EVP_DigestSign c cap m t = (rc, sig) → 0 ≤ cap → len sig ≤ cap;
  i2d_ecdsa_size s t n buf :
    i2d_ECDSA_SIG s t = (n, buf) → 0 < n → n ≤ INT_MAX ∧ ∃ der, buf = Some der ∧ len der = n
}.

(** ** OpenSSL: certificates and ASN.1 (libcrypto) *)

(** [X509V3_EXT_*] structures whose public fields the code reads. *)
Record BASIC_CONSTRAINTS := BasicConstraints { bc_ca : Z }.
Record AUTHORITY_KEYID := AuthorityKeyid { akid_keyid : option (list byte) }.
Record GENERAL_NAME := GeneralName { gn_type : Z; gn_dNSName : option (list byte) }.

(** ASN.1 strings are their contents; a bit string also has its flags. *)
Record ASN1_BIT_STRING := BitString { bits_flags : Z; bits_data : list byte }.

(** [X509_get_ext_d2i] is one function per extension: its result is a new
    object of that extension's type, next to the criticality it reports. *)
Class X509Library `{OpenSSL} := {
  X509 : Type;
  X509_NAME : Type;
  ASN1_TIME : Type;
  ASN1_OBJECT : Type;
  X509_ALGOR : Type;
  X509_PUBKEY : Type;
  X509_EXTENSION : Type;
  (* fields of a certificate *)
  X509_get_subject_name : X509 → X509_NAME;
  X509_get_issuer_name : X509 → X509_NAME;
  X509_NAME_cmp : X509_NAME → X509_NAME → Z;
  X509_get0_notBefore : X509 → ASN1_TIME;
  X509_get0_notAfter : X509 → ASN1_TIME;
  X509_cmp_current_time : ASN1_TIME → N → Z;
  X509_get0_signature : X509 → option ASN1_BIT_STRING * option X509_ALGOR;
  X509_get0_tbs_sigalg : X509 → option X509_ALGOR;
  X509_get_X509_PUBKEY : X509 → option X509_PUBKEY;
  X509_get0_pubkey_bitstr : X509 → option ASN1_BIT_STRING;
  X509_get_pubkey : X509 → N → option EVP_PKEY;
  i2d_re_X509_tbs : X509 → N → Z * option (list byte);
  (* the certificate and the number of bytes consumed *)
  d2i_X509 : list byte → N → option (X509 * Z);
  X509_check_host : X509 → string → Z;
  (* algorithms and keys *)
  X509_ALGOR_get0 : X509_ALGOR → option ASN1_OBJECT * Z;
  X509_PUBKEY_get0_param : X509_PUBKEY → Z * (ptr * Z * option X509_ALGOR);
  OBJ_txt2obj : string → Z → N → option ASN1_OBJECT;
  OBJ_obj2txt : Z → ASN1_OBJECT → Z → Z * string;
  OBJ_obj2nid : ASN1_OBJECT → Z;
  OBJ_cmp : ASN1_OBJECT → ASN1_OBJECT → Z;
  (* extensions *)
  X509_get_ext_by_OBJ : X509 → ASN1_OBJECT → Z → Z;
  X509_get_ext : X509 → Z → option X509_EXTENSION;
  X509_EXTENSION_get_critical : X509_EXTENSION → Z;
  X509_EXTENSION_get_data : X509_EXTENSION → option (list byte);
  ASN1_BIT_STRING_get_bit : ASN1_BIT_STRING → Z → Z;
  X509_get_ext_basic_constraints : X509 → N → option BASIC_CONSTRAINTS * Z;
  X509_get_ext_key_usage : X509 → N → option ASN1_BIT_STRING * Z;
  X509_get_ext_ext_key_usage : X509 → N → option (list ASN1_OBJECT);
  X509_get_ext_subject_alt_name : X509 → N → option (list GENERAL_NAME);
  X509_get_ext_subject_key_identifier : X509 → N → option (list byte);
  X509_get_ext_authority_key_identifier : X509 → N → option AUTHORITY_KEYID
}.

(** Size contracts: a returned length is that of the returned buffer, and an
    ASN.1 string is no longer than an [int] can say, and a decoder does not
    read past its input. *)
Class X509Sizes `{X509Library} : Prop := {
  i2d_tbs_size c t n buf :
    i2d_re_X509_tbs c t = (n, buf) → 0 < n → n ≤ INT_MAX ∧ ∃ der, buf = Some der ∧ len der = n;
  pubkey_param_size k rc p n a :
    X509_PUBKEY_get0_param k = (rc, (p, n, a)) → rc ≠ 0 →
    n ≤ INT_MAX ∧ (0 < n → ∃ b, p = Some b ∧ len b = n);
  d2i_x509_size e t c n : d2i_X509 e t = Some (c, n) → 0 ≤ n ≤ len e;
  signature_bits_size c b a :
    X509_get0_signature c = (Some b, a) → len (bits_data b) ≤ INT_MAX
}.

(** Decoding is determined by the bytes it consumes: a certificate decoded
    from the start of a buffer is the one decoded from exactly its bytes. *)
Class X509Decoding `{X509Library} : Prop := {
  d2i_x509_prefix a b t t' c c' n :
    d2i_X509 (a ++ b) t = Some (c, len a) → d2i_X509 a t' = Some (c', n) → c' = c
}.

(** ** OpenSSL: building, storing and showing certificates (libcrypto) *)

(** The two times of an [X509_VAL]. *)
Record X509_VAL `{X509Library} := Validity { val_notBefore : ASN1_TIME; val_notAfter : ASN1_TIME }.
Arguments Validity {_ _}.
Arguments val_notBefore {_ _}.
Arguments val_notAfter {_ _}.

(** [ASN1_INTEGER]s are integers and [ASN1_OCTET_STRING]s their contents. A
    function that changes a structure gives its return code and what the
    structure holds then. *)
Class X509Builder `{X509Library} := {
  (* new structures *)
  X509_NAME_new : N → option X509_NAME;
  X509_NAME_dup : X509_NAME → N → option X509_NAME;
  X509_VAL_new : N → option X509_VAL;
  X509_ALGOR_new : N → option X509_ALGOR;
  X509_PUBKEY_new : N → option X509_PUBKEY;
  ASN1_INTEGER_new : N → option Z;
  ASN1_BIT_STRING_new : N → option ASN1_BIT_STRING;
  ASN1_OCTET_STRING_new : N → option (list byte);
  AUTHORITY_KEYID_new : N → option AUTHORITY_KEYID;
  (* whether the structure of a template is allocated, a stack of extensions
     created, and one of the given size extended *)
  ASN1_item_alloc : N → bool;
  OPENSSL_sk_new : N → bool;
  OPENSSL_sk_grow : Z → N → bool;
  (* field, type and value, up to its terminator, appended as a set of its own *)
  X509_NAME_add_entry_by_txt : X509_NAME → string → Z → string → N → Z * X509_NAME;
  ASN1_INTEGER_set : Z → Z → N → Z * Z;
  ASN1_OCTET_STRING_set : list byte → list byte → N → Z * list byte;
  ASN1_BIT_STRING_set : ASN1_BIT_STRING → list byte → N → Z * ASN1_BIT_STRING;
  X509_gmtime_adj : ASN1_TIME → Z → N → option ASN1_TIME;
  (* the parameter type says that there is no parameter *)
  X509_ALGOR_set0 : X509_ALGOR → ASN1_OBJECT → Z → N → Z * X509_ALGOR;
  (* algorithm, type of the parameter, parameter, key octets *)
  X509_PUBKEY_set0_param :
    X509_PUBKEY → ASN1_OBJECT → Z → option ASN1_OBJECT → list byte → N → Z * X509_PUBKEY;
  (* extensions: identifier and criticality or, from a configuration string,
     its value *)
  X509V3_EXT_conf_nid : Z → string → N → option X509_EXTENSION;
  X509V3_EXT_i2d_octet_string : Z → Z → list byte → N → option X509_EXTENSION;
  X509V3_EXT_i2d_authority_keyid : Z → Z → AUTHORITY_KEYID → N → option X509_EXTENSION;
  X509_EXTENSION_create_by_OBJ : ASN1_OBJECT → Z → list byte → N → option X509_EXTENSION;
  (* the DER encodings of the library's types *)
  i2d_ASN1_INTEGER : Z → list byte;
  i2d_X509_ALGOR : X509_ALGOR → list byte;
  i2d_X509_NAME : X509_NAME → list byte;
  i2d_X509_VAL : X509_VAL → list byte;
  i2d_X509_PUBKEY : X509_PUBKEY → list byte;
  i2d_ASN1_BIT_STRING : ASN1_BIT_STRING → list byte;
  i2d_X509_EXTENSION : X509_EXTENSION → list byte;
  (* what encoding a structure returns when the encoding that its template
     describes is the argument *)
  ASN1_item_i2d : list byte → N → Z * option (list byte);
  (* a return code and the bytes written to the stream; the content of the
     stream *)
  PEM_write_X509 : X509 → N → Z * list byte;
  i2d_X509_fp : X509 → N → Z * list byte;
  PEM_read_X509 : list byte → N → option X509;
  X509_NAME_oneline : X509_NAME → N → option string
}.

(** An encoder returns what the template describes, a setter that succeeds
    stores its argument, and an algorithm identifier without parameter is set
    without allocating. *)
Class X509BuilderContracts `{X509Builder} : Prop := {
  item_i2d_size e t n buf :
    ASN1_item_i2d e t = (n, buf) → 0 < n → n ≤ INT_MAX ∧ buf = Some e ∧ n = len e;
  integer_set_value i v t : fst (ASN1_INTEGER_set i v t) ≠ 0 → snd (ASN1_INTEGER_set i v t) = v;
  octets_set_value o d t :
    fst (ASN1_OCTET_STRING_set o d t) ≠ 0 → snd (ASN1_OCTET_STRING_set o d t) = d;
  bits_set_value b d t :
    fst (ASN1_BIT_STRING_set b d t) ≠ 0 → bits_data (snd (ASN1_BIT_STRING_set b d t)) = d;
  algor_set0_absent a o t : fst (X509_ALGOR_set0 a o (-1) t) ≠ 0
}.

(** ** OpenSSL: random bytes, key derivation, AES-256-GCM and PEM (libcrypto) *)

Class OpenSSLCipher `{OpenSSL} := {
  RAND_bytes : Z → N → Z * list byte;
  (* passphrase, salt, iterations, digest, length *)
  PKCS5_PBKDF2_HMAC : list byte → list byte → Z → string → Z → N → Z * list byte;
  (* cipher contexts; [EVP_EncryptInit_ex] is called once with the cipher and
     once with the key and the initialisation vector *)
  EVP_CIPHER_CTX : Type;
  EVP_CIPHER_CTX_new : N → option EVP_CIPHER_CTX;
  EVP_EncryptInit_cipher : EVP_CIPHER_CTX → string → N → Z * EVP_CIPHER_CTX;
  EVP_EncryptInit_key : EVP_CIPHER_CTX → list byte → list byte → N → Z * EVP_CIPHER_CTX;
  EVP_DecryptInit_cipher : EVP_CIPHER_CTX → string → N → Z * EVP_CIPHER_CTX;
  EVP_DecryptInit_key : EVP_CIPHER_CTX → list byte → list byte → N → Z * EVP_CIPHER_CTX;
  EVP_CIPHER_CTX_set_ivlen : EVP_CIPHER_CTX → Z → N → Z * EVP_CIPHER_CTX;
  (* additional data: the output pointer is [NULL] *)
  EVP_EncryptUpdate_aad : EVP_CIPHER_CTX → list byte → N → Z * EVP_CIPHER_CTX;
  EVP_DecryptUpdate_aad : EVP_CIPHER_CTX → list byte → N → Z * EVP_CIPHER_CTX;
  (* the bytes written to the output *)
  EVP_EncryptUpdate : EVP_CIPHER_CTX → list byte → N → Z * (list byte * EVP_CIPHER_CTX);
  EVP_DecryptUpdate : EVP_CIPHER_CTX → list byte → N → Z * (list byte * EVP_CIPHER_CTX);
  EVP_EncryptFinal_ex : EVP_CIPHER_CTX → N → Z * (list byte * EVP_CIPHER_CTX);
  EVP_DecryptFinal_ex : EVP_CIPHER_CTX → N → Z * (list byte * EVP_CIPHER_CTX);
  EVP_CIPHER_CTX_get_tag : EVP_CIPHER_CTX → Z → N → Z * list byte;
  EVP_CIPHER_CTX_set_tag : EVP_CIPHER_CTX → list byte → N → Z * EVP_CIPHER_CTX;
  (* a return code and the bytes written to the stream: key, cipher,
     passphrase *)
  PEM_write_PKCS8PrivateKey : EVP_PKEY → string → list byte → N → Z * list byte;
  (* the content of the stream, and the password callback: given the size of
     the buffer, the length it returns and the bytes it stored *)
  PEM_read_PrivateKey : list byte → (Z → Z * list byte) → N → option EVP_PKEY
}.

(** Size contracts. GCM turns every byte into one byte, and finishing writes
    nothing more. *)
Class CipherSizes `{OpenSSLCipher} : Prop := {
  rand_size n t rc l : RAND_bytes n t = (rc, l) → 0 ≤ n → len l ≤ n ∧ (0 < rc → len l = n);
  pbkdf2_size p s i d n t rc k :
    PKCS5_PBKDF2_HMAC p s i d n t = (rc, k) → 0 ≤ n → len k ≤ n ∧ (rc = 1 → len k = n);
  encrypt_update_size c m t rc o c' : EVP_EncryptUpdate c m t = (rc, (o, c')) → len o ≤ len m;
  decrypt_update_size c m t rc o c' : EVP_DecryptUpdate c m t = (rc, (o, c')) → len o ≤ len m;
  encrypt_final_size c t rc o c' : EVP_EncryptFinal_ex c t = (rc, (o, c')) → o = [];
  decrypt_final_size c t rc o c' : EVP_DecryptFinal_ex c t = (rc, (o, c')) → o = [];
  get_tag_size c n t rc l :
    EVP_CIPHER_CTX_get_tag c n t = (rc, l) → 0 ≤ n → len l ≤ n ∧ (0 < rc → len l = n)
}.

(** ** liboqs *)

(** The public fields of [OQS_KEM] the code reads. *)
Record OQS_KEM := OqsKem {
  method_name : option string;
  alg_version : option string;
  length_public_key : Z;
  length_secret_key : Z;
  length_ciphertext : Z;
  length_shared_secret : Z
}.

(** Each operation: a status, zero on success, and the bytes written to each
    output. *)
Class Liboqs := {
  OQS_version : string;
  OQS_KEM_alg_is_enabled : string → Z;
  OQS_KEM_new : string → N → option OQS_KEM;
  OQS_KEM_keypair : OQS_KEM → N → Z * (list byte * list byte);
  OQS_KEM_encaps : OQS_KEM → list byte → N → Z * (list byte * list byte);
  OQS_KEM_decaps : OQS_KEM → list byte → list byte → N → Z * list byte
}.

(** An operation writes no more than the length the structure declares, and
    all of it when it succeeds. *)
Definition fills (rc : Z) (l : list byte) (n : Z) : Prop :=
  0 ≤ n → len l ≤ n ∧ (rc = 0 → len l = n).

Class LiboqsSizes `{Liboqs} : Prop := {
  kem_keypair_sizes k t rc pk sk :
    OQS_KEM_keypair k t = (rc, (pk, sk)) →
    fills rc pk (length_public_key k) ∧ fills rc sk (length_secret_key k);
  kem_encaps_sizes k pk t rc ct ss :
    OQS_KEM_encaps k pk t = (rc, (ct, ss)) →
    fills rc ct (length_ciphertext k) ∧ fills rc ss (length_shared_secret k);
  kem_decaps_size k ct sk t rc ss :
    OQS_KEM_decaps k ct sk t = (rc, ss) → fills rc ss (length_shared_secret k)
}.

(** The correctness of the mechanism: decapsulation yields the secret that
    was encapsulated. *)
Class KemCorrect `{Liboqs} : Prop := {
  kem_decaps_encaps name t0 k t t' t'' pk sk ct ss rc ss' :
    OQS_KEM_new name t0 = Some k →
    OQS_KEM_keypair k t = (0, (pk, sk)) → OQS_KEM_encaps k pk t' = (0, (ct, ss)) →
    OQS_KEM_decaps k ct sk t'' = (rc, ss') → rc = 0 ∧ ss' = ss
}.
