(* ===== verification/Posix.v ===== *)
(** * Files, as the key store uses them

    The POSIX and stdio functions the code calls, on the file system of the
    state: a flat name space from paths to nodes. A call can fail for reasons
    of its own, and a transfer can be short: both are decided by the
    environment. An output stream keeps at most [BUFSIZ] bytes back; what
    exceeds them is handed to the file when it is written, the rest when the
    stream is flushed or closed. Descriptors and streams are objects, so that
    one that is not closed is seen in the references a function leaves
    behind. *)

From S2P Require Import Prelude Machine.

#[global] Arguments Z.land : simpl never.
#[global] Arguments Z.ldiff : simpl never.

Definition ENOENT : Z := 2.
Definition EEXIST : Z := 17.
Definition ENOTDIR : Z := 20.
Definition EISDIR : Z := 21.
Definition ELOOP : Z := 40.

(** - [sys_fault name path]: the error with which a call fails whatever the
      file system holds, zero when it does not;
    - [io_count name n]: how many of the [n] bytes asked for a transfer
      handles, not positive when it fails;
    - [BUFSIZ]: how many bytes the buffer of a stream holds. *)
Class Posix := {
  umask : Z;
  BUFSIZ : Z;
  sys_fault : string → string → N → Z;
  io_count : string → Z → N → Z
}.

(** ** C strings *)

(** The string at a pointer: the bytes before the first NUL. *)
Fixpoint c_string (b : list byte) : string :=
  match b with
  | [] => ""
  | x :: b => if decide (x = Byte.x00) then "" else String (Ascii.ascii_of_byte x) (c_string b)
  end.

(** [s] can be passed as a [const char *]. *)
Definition nul_free (s : string) : Prop := Forall (λ b, b ≠ Byte.x00) (lit s).

Lemma lit_cons a s : lit (String a s) = Ascii.byte_of_ascii a :: lit s.
Proof. done. Qed.

Lemma c_string_lit s rest : nul_free s → c_string (lit s ++ Byte.x00 :: rest) = s.
Proof.
  unfold nul_free. induction s as [|a s IH]; [done|]. rewrite lit_cons. inversion_clear 1 as [|? ? Ha Hs].
  cbn [app c_string]. rewrite decide_False by done. rewrite Ascii.ascii_of_byte_of_ascii. f_equal. by apply IH.
Qed.

Lemma lit_app s1 s2 : lit (s1 ++ s2) = lit s1 ++ lit s2.
Proof.
  induction s1 as [|a s1 IH]; [done|].
  change (Ascii.byte_of_ascii a :: lit (s1 ++ s2) = Ascii.byte_of_ascii a :: (lit s1 ++ lit s2)).
  by rewrite IH.
Qed.

Lemma nul_free_app s1 s2 : nul_free s1 → nul_free s2 → nul_free (s1 ++ s2).
Proof. unfold nul_free. rewrite lit_app. by apply Forall_app_2. Qed.

Lemma len_lit s : len (lit s) = strlen s.
Proof. unfold len, strlen. by rewrite length_lit. Qed.

(** ** Nodes *)

Inductive file_type := S_IFREG | S_IFDIR | S_IFLNK.
#[export] Instance file_type_eq_dec : EqDecision file_type.
Proof. solve_decision. Defined.

(** [struct stat]: the file type and the permission bits of [st_mode], and
    the size. *)
Record stat := Stat { st_type : file_type; st_mode : Z; st_size : Z }.

Definition node_stat (n : node) : stat :=
  match n with
  | Regular m c => Stat S_IFREG m (len c)
  | Directory m => Stat S_IFDIR m 0
  | Symlink t => Stat S_IFLNK 0x1ff (strlen t)
  end.

(** The node a path leads to when symbolic links are followed. *)
Fixpoint resolve (links : nat) (fs : gmap string node) (path : string) : (string * node) + Z :=
  match fs !! path with
  | None => inr ENOENT
  | Some (Symlink target) =>
      match links with O => inr ELOOP | S links => resolve links fs target end
  | Some n => inl (path, n)
  end.

Lemma resolve_unfold links fs path :
  resolve links fs path =
  match fs !! path with
  | None => inr ENOENT
  | Some (Symlink target) =>
      match links with O => inr ELOOP | S links => resolve links fs target end
  | Some n => inl (path, n)
  end.
Proof. by destruct links. Qed.

(** The path at which a file is opened for writing: symbolic links are
    followed, and the last one may lead to a file that does not exist. *)
Fixpoint resolve_target (links : nat) (fs : gmap string node) (path : string) : string + Z :=
  match fs !! path with
  | Some (Symlink target) =>
      match links with O => inr ELOOP | S links => resolve_target links fs target end
  | Some (Directory _) => inr EISDIR
  | _ => inl path
  end.

Lemma resolve_target_plain links fs path :
  (∀ t, fs !! path ≠ Some (Symlink t)) → (∀ m, fs !! path ≠ Some (Directory m)) →
  resolve_target links fs path = inl path.
Proof. intros Hs Hd. destruct links; cbn; destruct (fs !! path) as [[]|]; naive_solver. Qed.

Lemma resolve_target_regular links fs path p :
  resolve_target links fs path = inl p → ∀ n, fs !! p = Some n → ∃ m c, n = Regular m c.
Proof.
  revert path. induction links as [|links IH]; intros path; cbn; destruct (fs !! path) as [[]|] eqn:E;
    try done; try (intros [= <-]; rewrite E; intros ? [= <-]; eauto). apply IH.
Qed.

(** The limit Linux sets. *)
Definition MAXSYMLINKS : nat := 40.

(** ** Calls *)

Section calls.
Context `{Posix}.

Definition get_files : M (gmap string node) := λ s, Some (files s, s).
Definition put_files (fs : gmap string node) : M unit := λ s, Some (tt, with_files fs s).

(** A call that reads the file system: its answer, or [errno]. *)
Definition sys_query {A} (name path : string) (f : gmap string node → A + Z) : M (A + Z) :=
  e ← call (sys_fault name path);
  if e =? 0 then fs ← get_files; mret (f fs) else mret (inr e).

(** A call that changes it: zero, or [errno]. *)
Definition sys_update (name path : string) (f : gmap string node → gmap string node + Z) : M Z :=
  e ← call (sys_fault name path);
  if e =? 0 then
    fs ← get_files;
    match f fs with inl fs' => put_files fs';; mret 0 | inr e => mret e end
  else mret e.

Definition lstat (path : string) : M (stat + Z) :=
  sys_query "lstat" path (λ fs,
    match fs !! path with Some n => inl (node_stat n) | None => inr ENOENT end).

(** [access(path, F_OK)]: zero, or [errno]. *)
Definition access_node (fs : gmap string node) (path : string) : Z :=
  match resolve MAXSYMLINKS fs path with inl _ => 0 | inr e => e end.
Definition access (path : string) : M Z :=
  r ← sys_query "access" path (λ fs, inl (access_node fs path));
  mret (match r with inl e => e | inr e => e end).

Definition mkdir (path : string) (mode : Z) : M Z :=
  sys_update "mkdir" path (λ fs,
    match fs !! path with
    | Some _ => inr EEXIST
    | None => inl (<[path := Directory (Z.ldiff mode umask)]> fs)
    end).

Definition unlink (path : string) : M Z :=
  sys_update "unlink" path (λ fs,
    match fs !! path with
    | None => inr ENOENT
    | Some (Directory _) => inr EISDIR
    | Some _ => inl (delete path fs)
    end).

(** ** Descriptors *)

Record fd := Fd { fd_path : string; fd_offset : Z }.

(** [open(path, O_WRONLY | O_CREAT | O_EXCL | O_NOFOLLOW, mode)] *)
Definition open_create (path : string) (mode : Z) : M (option (obj fd)) :=
  e ← sys_update "open" path (λ fs,
    match fs !! path with
    | Some _ => inr EEXIST
    | None => inl (<[path := Regular (Z.ldiff mode umask) []]> fs)
    end);
  if e =? 0 then new_object (λ _, Some (Fd path 0)) else mret None.

(** [open(path, O_RDONLY | O_NOFOLLOW)] *)
Definition open_read (path : string) : M (option (obj fd)) :=
  r ← sys_query "open" path (λ fs,
    match fs !! path with
    | None => inr ENOENT
    | Some (Symlink _) => inr ELOOP
    | Some _ => inl tt
    end);
  match r with inl _ => new_object (λ _, Some (Fd path 0)) | inr _ => mret None end.

(** The content of [path] with [data] written at an offset. *)
Definition write_at (fs : gmap string node) (path : string) (off : Z) (data : list byte)
    : option (gmap string node) :=
  match fs !! path with
  | Some (Regular m c) =>
      Some (<[path := Regular m (ztake off c ++ data ++ zdrop (off + len data) c)]> fs)
  | _ => None
  end.

(** [write(d, data, |data|)]: the count and the descriptor at its new
    offset. *)
Definition write (d : obj fd) (data : list byte) : M (Z * obj fd) :=
  v ← deref d;
  n ← call (io_count "write" (len data));
  if n <=? 0 then mret (n, d)
  else
    let data := ztake (Z.min n (len data)) data in
    fs ← get_files;
    match write_at fs (fd_path v) (fd_offset v) data with
    | Some fs' => put_files fs';; mret (len data, set_val d (Fd (fd_path v) (fd_offset v + len data)))
    | None => mret (-1, d)
    end.

(** [read(d, buf, n)]: the count, the bytes and the descriptor at its new
    offset. *)
Definition read_fd (d : obj fd) (n : Z) : M (Z * list byte * obj fd) :=
  v ← deref d;
  k ← call (io_count "read" n);
  if k <=? 0 then mret (-1, [], d)
  else
    fs ← get_files;
    match fs !! fd_path v with
    | Some (Regular _ c) =>
        let bytes := ztake (Z.min k n) (zdrop (fd_offset v) c) in
        mret (len bytes, bytes, set_val d (Fd (fd_path v) (fd_offset v + len bytes)))
    | _ => mret (-1, [], d)
    end.

Definition fsync (d : obj fd) : M Z := v ← deref d; call (sys_fault "fsync" (fd_path v)).

(** The descriptor is released even when an error is reported. *)
Definition close (d : obj fd) : M Z :=
  v ← deref d; free_object (Some d);; call (sys_fault "close" (fd_path v)).

(** ** Streams *)

(** A stream holds what was written to it and not yet handed to the file. *)
Record FILE := Stream { file_path : string; file_offset : Z; file_pending : list byte }.

(** [fdopen(d, "wb")]: on success the descriptor belongs to the stream. *)
Definition fdopen (d : obj fd) : M (option (obj FILE)) :=
  v ← deref d;
  e ← call (sys_fault "fdopen" (fd_path v));
  if e =? 0 then
    free_object (Some d);; new_object (λ _, Some (Stream (fd_path v) (fd_offset v) []))
  else mret None.

(** [fopen(path, "rb")] *)
Definition fopen_read (path : string) : M (option (obj FILE)) :=
  r ← sys_query "fopen" path (λ fs, resolve MAXSYMLINKS fs path);
  match r with
  | inl (path, _) => new_object (λ _, Some (Stream path 0 []))
  | inr _ => mret None
  end.

(** [fopen(path, "wb")]: the file is created, or emptied. *)
Definition open_truncate (fs : gmap string node) (path : string) : gmap string node + Z :=
  match resolve_target MAXSYMLINKS fs path with
  | inr e => inr e
  | inl p =>
      let mode := match fs !! p with Some (Regular m _) => m | _ => Z.ldiff 0x1b6 umask end in
      inl (<[p := Regular mode []]> fs)
  end.
Definition fopen_write (path : string) : M (option (obj FILE)) :=
  fs ← get_files;
  rc ← sys_update "fopen" path (λ fs, open_truncate fs path);
  match resolve_target MAXSYMLINKS fs path with
  | inl p => if rc =? 0 then new_object (λ _, Some (Stream p 0 [])) else mret None
  | inr _ => mret None
  end.

(** What reading the stream to its end yields. *)
Definition stream_content (f : obj FILE) : M (list byte) :=
  v ← deref f;
  fs ← get_files;
  mret (match fs !! file_path v with Some (Regular _ c) => zdrop (file_offset v) c | _ => [] end).

(** Writing to the stream, and whether that succeeds. What exceeds the buffer
    is handed to the file, and as much more as the environment decides; when
    that fails, some of it may have been written and the rest is lost. *)
Definition stream_write (f : obj FILE) (data : list byte) : M (bool * obj FILE) :=
  v ← deref f;
  let all := file_pending v ++ data in
  if len all <=? BUFSIZ then mret (true, set_val f (Stream (file_path v) (file_offset v) all))
  else
    e ← call (sys_fault "fwrite" (file_path v));
    n ← call (io_count "fwrite" (len all));
    let n := if e =? 0 then Z.max (len all - BUFSIZ) n else n in
    let handed := ztake n all in
    fs ← get_files;
    match write_at fs (file_path v) (file_offset v) handed with
    | Some fs' =>
        put_files fs';;
        mret (e =? 0, set_val f (Stream (file_path v) (file_offset v + len handed)
                                        (if e =? 0 then zdrop n all else [])))
    | None => mret (false, f)
    end.

(** [fflush(f)]: when it fails, some of the bytes may have been written. *)
Definition fflush (f : obj FILE) : M (Z * obj FILE) :=
  v ← deref f;
  e ← call (sys_fault "fflush" (file_path v));
  n ← call (io_count "fflush" (len (file_pending v)));
  let data := if e =? 0 then file_pending v else ztake n (file_pending v) in
  fs ← get_files;
  match write_at fs (file_path v) (file_offset v) data with
  | Some fs' =>
      put_files fs';;
      mret (e, set_val f (Stream (file_path v) (file_offset v + len data)
                                 (zdrop (len data) (file_pending v))))
  | None => mret (-1, f)
  end.

Definition fsync_stream (f : obj FILE) : M Z :=
  v ← deref f; call (sys_fault "fsync" (file_path v)).

(** The stream is released even when an error is reported. *)
Definition fclose (f : obj FILE) : M Z :=
  '(rc, f) ← fflush f;
  v ← deref f;
  e ← call (sys_fault "fclose" (file_path v));
  free_object (Some f);;
  mret (if rc =? 0 then e else rc).

(** [fclose] of a stream opened for reading. *)
Definition fclose_input (f : obj FILE) : M Z :=
  v ← deref f; free_object (Some f);; call (sys_fault "fclose" (file_path v)).
End calls.

#[global] Arguments resolve : simpl never.
#[global] Arguments resolve_target : simpl never.
#[global] Arguments get_files : simpl never.
#[global] Arguments put_files : simpl never.
#[global] Arguments sys_query : simpl never.
#[global] Arguments sys_update : simpl never.
#[global] Arguments lstat : simpl never.
#[global] Arguments access : simpl never.
#[global] Arguments mkdir : simpl never.
#[global] Arguments unlink : simpl never.
#[global] Arguments open_create : simpl never.
#[global] Arguments open_read : simpl never.
#[global] Arguments write : simpl never.
#[global] Arguments read_fd : simpl never.
#[global] Arguments fsync : simpl never.
#[global] Arguments close : simpl never.
#[global] Arguments fdopen : simpl never.
#[global] Arguments fopen_read : simpl never.
#[global] Arguments fopen_write : simpl never.
#[global] Arguments stream_content : simpl never.
#[global] Arguments stream_write : simpl never.
#[global] Arguments fflush : simpl never.
#[global] Arguments fsync_stream : simpl never.
#[global] Arguments fclose : simpl never.
#[global] Arguments fclose_input : simpl never.

(** ** Specifications *)

(** The file system of a state, through the frames that lead to it. *)
Ltac fs_simpl :=
  repeat match goal with
  | F : frame _ _ ?s ?s', H : context [files ?s'] |- _ => rewrite (frame_files _ _ _ _ F) in H
  | F : frame _ _ ?s ?s' |- context [files ?s'] => rewrite (frame_files _ _ _ _ F)
  | H : context [files (with_files ?fs ?s)] |- _ => change (files (with_files fs s)) with fs in H
  | |- context [files (with_files ?fs ?s)] => change (files (with_files fs s)) with fs
  end.

Section specs.
Context `{Posix}.

(** The environment made the call fail with [e]. *)
Definition fault (name path : string) (e : Z) : Prop := e ≠ 0 ∧ ∃ t, sys_fault name path t = e.

(** No call fails for reasons of its own, and every transfer progresses. *)
Definition reliable_files : Prop :=
  (∀ name path t, sys_fault name path t = 0) ∧ ∀ name n t, 0 < io_count name n t.

Lemma reliable_no_fault name path e : reliable_files → ¬ fault name path e.
Proof. intros [Hr _] (Hn & t & <-). by rewrite Hr in Hn. Qed.

#[export] Instance spec_get_files :
  Spec get_files (λ _, True) (λ r s s', s' = s ∧ r = files s).
Proof. done. Qed.

#[export] Instance spec_put_files fs :
  Spec (put_files fs) (λ _, True) (λ r s s', s' = with_files fs s).
Proof. done. Qed.

#[export] Instance spec_sys_query {A} name path (f : gmap string node → A + Z) :
  Spec (sys_query name path f) (λ _, True)
    (λ r s s', frame ∅ ∅ s s' ∧ (r = f (files s') ∨ ∃ e, r = inr e ∧ fault name path e)).
Proof.
  wp_start. unfold sys_query. wp_call as e [F He]. wp_case (e =? 0).
  - wp_call as r [-> ->]. apply wp_ret. split; [solve_frame|]. by left.
  - apply wp_ret. split; [solve_frame|]. right. eexists. split; [done|]. split; [done|]. by eexists.
Qed.

#[export] Instance spec_sys_update name path f :
  Spec (sys_update name path f) (λ _, ∀ fs e, f fs = inr e → e ≠ 0)
    (λ r s s', ∃ s1 fs, frame ∅ ∅ s s1 ∧ s' = with_files fs s1 ∧
       (r = 0 ∧ f (files s1) = inl fs ∨
        r ≠ 0 ∧ fs = files s1 ∧ (f (files s1) = inr r ∨ fault name path r))).
Proof.
  wp_start. unfold sys_update. wp_call as e [F He]. wp_case (e =? 0).
  - wp_call as fs [-> ->]. destruct (f (files s0)) as [fs'|e'] eqn:Ef.
    + wp_call as r ->. apply wp_ret. exists s0, fs'. split; [solve_frame|]. by auto.
    + apply wp_ret. exists s0, (files s0). rewrite with_files_files. split; [solve_frame|]. split; [done|].
      right. split; [by eapply P|]. split; [done|]. by left.
  - apply wp_ret. exists s0, (files s0). rewrite with_files_files. split; [solve_frame|]. split; [done|].
    right. split; [done|]. split; [done|]. right. split; [done|]. by eexists.
Qed.

#[export] Instance spec_lstat path :
  Spec (lstat path) (λ _, True)
    (λ r s s', frame ∅ ∅ s s' ∧
       ((∃ n, files s' !! path = Some n ∧ r = inl (node_stat n)) ∨
        (files s' !! path = None ∧ r = inr ENOENT) ∨ ∃ e, r = inr e ∧ fault "lstat" path e)).
Proof.
  wp_start. unfold lstat. eapply wp_spec; [apply _|done|]. intros r s' [F [->|He]].
  - split; [done|]. destruct (files s' !! path) as [n|]; [left; by eexists|right; by left].
  - split; [done|]. right. by right.
Qed.

#[export] Instance spec_access path :
  Spec (access path) (λ _, True)
    (λ r s s', frame ∅ ∅ s s' ∧ (r = access_node (files s') path ∨ fault "access" path r)).
Proof.
  wp_start. unfold access. wp_call as r [F Hr]. apply wp_ret. split; [solve_frame|].
  destruct Hr as [->|(e & -> & He)]; [by left|by right].
Qed.

#[export] Instance spec_mkdir path mode :
  Spec (mkdir path mode) (λ _, True)
    (λ r s s', ∃ s1 fs, frame ∅ ∅ s s1 ∧ s' = with_files fs s1 ∧
       (r = 0 ∧ files s1 !! path = None ∧ fs = <[path := Directory (Z.ldiff mode umask)]> (files s1) ∨
        r ≠ 0 ∧ fs = files s1 ∧ (is_Some (files s1 !! path) ∨ fault "mkdir" path r))).
Proof.
  wp_start. unfold mkdir. eapply wp_spec; [apply _| |].
  { intros fs e. destruct (fs !! path); intros [=]; by subst. }
  cbn beta. intros r s' (s1 & fs & F & -> & Hr). exists s1, fs. split; [done|]. split; [done|].
  destruct (files s1 !! path) as [n|] eqn:E.
  - right. destruct Hr as [(_ & [=])|(? & ? & Hr)]. split; [done|]. split; [done|]. left. by eexists.
  - destruct Hr as [(-> & [= <-])|(? & ? & [[=]|?])]; [by left|right]. by auto.
Qed.

#[export] Instance spec_unlink path :
  Spec (unlink path) (λ _, True)
    (λ r s s', ∃ s1 fs, frame ∅ ∅ s s1 ∧ s' = with_files fs s1 ∧
       (r = 0 ∧ is_Some (files s1 !! path) ∧ (∀ m, files s1 !! path ≠ Some (Directory m)) ∧
          fs = delete path (files s1) ∨
        r ≠ 0 ∧ fs = files s1 ∧
          (files s1 !! path = None ∨ (∃ m, files s1 !! path = Some (Directory m)) ∨
           fault "unlink" path r))).
Proof.
  wp_start. unfold unlink. eapply wp_spec; [apply _| |].
  { intros fs e. destruct (fs !! path) as [[]|]; intros [=]; by subst. }
  cbn beta. intros r s' (s1 & fs & F & -> & Hr). exists s1, fs. split; [done|]. split; [done|].
  destruct (files s1 !! path) as [[m c|m|t]|] eqn:E;
    destruct Hr as [(-> & [= <-])|(? & ? & [[= <-]|?])];
    first [left; by split_and!|right; split_and!; try done].
  - by auto.
  - right. left. by eexists.
  - by auto.
  - by auto.
  - by left.
  - by auto.
Qed.

#[export] Instance spec_open_create path mode :
  Spec (open_create path mode) (λ _, True)
    (λ r s s', ∃ s1 fs, frame ∅ (owns r) s s1 ∧ s' = with_files fs s1 ∧
       match r with
       | Some d => obj_val d = Fd path 0 ∧ files s1 !! path = None ∧
           fs = <[path := Regular (Z.ldiff mode umask) []]> (files s1)
       | None => fs = files s1 ∧ (is_Some (files s1 !! path) ∨ ∃ e, fault "open" path e)
       end).
Proof.
  wp_start. unfold open_create. wp_call as e (s1 & fs & F & -> & He).
  { intros fs e. destruct (fs !! path); intros [=]; by subst. }
  wp_case (e =? 0).
  - destruct He as [(_ & Hf)|(? & _)]; [|done].
    destruct (files s1 !! path) as [n|] eqn:E; [done|]. injection Hf as <-.
    eapply wp_spec; [apply _|done|]. intros [d|] s' [F1 Hd]; [|done]. injection Hd as Hd.
    destruct (frame_with_files _ _ _ _ _ F1) as (s2 & F2 & ->). pose proof (frame_files _ _ _ _ F2) as Hfs.
    frame_merge. eexists s2, _. rewrite Hfs. by split; [solve_frame|].
  - apply wp_ret. exists s1, fs. split; [solve_frame|]. split; [done|].
    destruct He as [(? & _)|(_ & -> & Hr)]; [done|]. split; [done|].
    destruct (files s1 !! path) as [n|] eqn:E'; [left; by eexists|]. destruct Hr as [[=]|Hr]. right. by eexists.
Qed.

#[export] Instance spec_open_read path :
  Spec (open_read path) (λ _, True)
    (λ r s s', frame ∅ (owns r) s s' ∧
       match r with
       | Some d => obj_val d = Fd path 0 ∧ is_Some (files s' !! path) ∧
           ∀ t, files s' !! path ≠ Some (Symlink t)
       | None => files s' !! path = None ∨ (∃ t, files s' !! path = Some (Symlink t)) ∨
           ∃ e, fault "open" path e
       end).
Proof.
  wp_start. unfold open_read. wp_call as r [F Hr]. destruct r as [[]|e].
  - destruct Hr as [Hr|(? & [=] & _)]. eapply wp_spec; [apply _|done|]. intros [d|] s' [F1 Hd]; [|done].
    injection Hd as Hd. rewrite (frame_files _ _ _ _ F1). frame_merge. split; [solve_frame|]. split; [done|].
    destruct (files s0 !! path) as [[]|] eqn:E; try done.
  - apply wp_ret. split; [solve_frame|].
    destruct Hr as [Hr|(e' & _ & Hf)]; [|right; right; by eexists].
    destruct (files s0 !! path) as [[]|] eqn:E; try done; [right; left; by eexists|by left].
Qed.

#[export] Instance spec_fsync d :
  Spec (fsync d) (alive (Some d))
    (λ r s s', frame ∅ ∅ s s' ∧ (r = 0 ∨ fault "fsync" (fd_path (obj_val d)) r)).
Proof.
  wp_start. unfold fsync. wp_call as v [-> ->]. eapply wp_spec; [apply _|done|].
  intros r s' [F Hr]. split; [done|]. destruct (decide (r = 0)); [by left|right]. split; [done|]. by eexists.
Qed.

#[export] Instance spec_close d :
  Spec (close d) (alive (Some d))
    (λ r s s', frame (owns (Some d)) ∅ s s' ∧ (r = 0 ∨ fault "close" (fd_path (obj_val d)) r)).
Proof.
  wp_start. unfold close. wp_call as v [-> ->]. wp_call as ? ?. eapply wp_spec; [apply _|done|].
  intros rc s' [F' Hr]. frame_merge. split; [solve_frame|].
  destruct (decide (rc = 0)); [by left|right]. split; [done|]. by eexists.
Qed.

(** [write] at the end of a regular file appends part of the data. *)
#[export] Instance spec_write d data :
  Spec (write d data) (alive (Some d))
    (λ r s s', ∃ s1 fs, frame ∅ ∅ s s1 ∧ s' = with_files fs s1 ∧
       (fst r ≤ len data ∧ obj_id (snd r) = obj_id d ∧ fd_path (obj_val (snd r)) = fd_path (obj_val d)) ∧
       ∀ m c, files s1 !! fd_path (obj_val d) = Some (Regular m c) → fd_offset (obj_val d) = len c →
         0 ≤ fst r ∧ (data = [] ∨ 0 < fst r) ∧
           snd r = set_val d (Fd (fd_path (obj_val d)) (len c + fst r)) ∧
           fs = <[fd_path (obj_val d) := Regular m (c ++ ztake (fst r) data)]> (files s1) ∨
         fst r ≤ 0 ∧ fs = files s1 ∧ ¬ reliable_files).
Proof.
  wp_start. unfold write. wp_call as v [-> ->]. wp_call as n [F Hn]. pose proof (len_nonneg data).
  wp_case (n <=? 0).
  { apply wp_ret. exists s0, (files s0). rewrite with_files_files. split; [solve_frame|]. split; [done|].
    split; [split_and!; cbn; done || lia|]. intros m c Hc Ho. right. split; [done|]. split; [done|].
    intros [_ Hr]. specialize (Hr "write"%string (len data) (tick s)). lia. }
  set (k := Z.min _ (len data)). wp_call as fs [-> ->].
  assert (Hk : len (ztake k data) = k) by (apply len_ztake; lia).
  unfold write_at. destruct (files s0 !! fd_path (obj_val d)) as [[m c|m|t]|] eqn:Ef.
  2-4: apply wp_ret; exists s0, (files s0); rewrite with_files_files, Ef;
    (split; [solve_frame|]; split; [done|]; split; [split_and!; cbn; done || lia|done]).
  wp_call as u ->. apply wp_ret. eexists s0, _. split; [solve_frame|]. split; [done|]. cbn [fst snd].
  rewrite Hk. split; [split_and!; [lia|done..]|].
  intros m' c' Hc Ho. rewrite Ef in Hc. injection Hc as <- <-. left. split; [lia|]. split.
  { destruct data; [by left|right]. unfold k, len in *. cbn in *. lia. }
  rewrite Ho. split; [done|]. rewrite ztake_all by lia. do 3 f_equal.
  assert (0 ≤ k) by lia. unfold zdrop. rewrite (drop_ge c) by (unfold len; lia). by rewrite app_nil_r.
Qed.

(** [read] returns the next bytes of a regular file, at least one of them
    before its end. *)
#[export] Instance spec_read_fd d n :
  Spec (read_fd d n) (λ s, alive (Some d) s ∧ 0 < n)
    (λ r s s', frame ∅ ∅ s s' ∧
       let '(k, bytes, d') := r in (len bytes = Z.max 0 k ∧ k ≤ n ∧ obj_id d' = obj_id d) ∧
       (0 < k → ∃ m c, files s' !! fd_path (obj_val d) = Some (Regular m c) ∧
          bytes = ztake k (zdrop (fd_offset (obj_val d)) c) ∧
          d' = set_val d (Fd (fd_path (obj_val d)) (fd_offset (obj_val d) + k))) ∧
       (∀ m c, files s' !! fd_path (obj_val d) = Some (Regular m c) → reliable_files →
          0 ≤ fd_offset (obj_val d) < len c → 0 < k)).
Proof.
  wp_start. destruct P as [P Hn]. unfold read_fd. wp_call as v [-> ->]. wp_call as k [F Hk]. wp_case (k <=? 0).
  { apply wp_ret. split; [solve_frame|]. split; [split_and!; done || lia|]. split; [lia|].
    intros m c _ [_ Hr]. specialize (Hr "read"%string n (tick s)). lia. }
  wp_call as fs [-> ->]. destruct (files s0 !! fd_path (obj_val d)) as [[m c| |]|] eqn:Ef;
    [|by (apply wp_ret; split; [solve_frame|]; split; [split_and!; done || lia|]; split; [lia|]; rewrite Ef)..].
  apply wp_ret. split; [solve_frame|]. set (bytes := ztake _ _).
  assert (Hl : 0 ≤ len bytes ≤ Z.min (io_count "read" n (tick s)) n).
  { unfold bytes, len, ztake. rewrite length_take. lia. }
  split; [split_and!; [lia|lia|done]|]. split.
  - intros _. exists m, c. split; [done|]. split; [|done]. symmetry. apply ztake_len_ztake.
  - intros m' c' Hc _ Ho. rewrite Ef in Hc. injection Hc as <- <-. unfold bytes, len, ztake, zdrop. rewrite length_take, length_drop.
    unfold len in Ho. lia.
Qed.

#[export] Instance spec_fdopen d :
  Spec (fdopen d) (alive (Some d))
    (λ r s s', match r with
       | Some f => frame (owns (Some d)) (owns (Some f)) s s' ∧
           obj_val f = Stream (fd_path (obj_val d)) (fd_offset (obj_val d)) []
       | None => frame ∅ ∅ s s' ∧ ∃ e, fault "fdopen" (fd_path (obj_val d)) e
       end).
Proof.
  wp_start. unfold fdopen. wp_call as v [-> ->]. wp_call as e [F He]. wp_case (e =? 0).
  - wp_call as ? ?. eapply wp_spec; [apply _|done|]. intros [f|] s' [F' Hf]; [|done]. injection Hf as Hf.
    frame_merge. by split; [solve_frame|].
  - apply wp_ret. split; [solve_frame|]. eexists. split; [done|]. by eexists.
Qed.

#[export] Instance spec_fopen_read path :
  Spec (fopen_read path) (λ _, True)
    (λ r s s', frame ∅ (owns r) s s' ∧
       match r with
       | Some f => ∃ p n, resolve MAXSYMLINKS (files s') path = inl (p, n) ∧ obj_val f = Stream p 0 []
       | None => (∃ e, resolve MAXSYMLINKS (files s') path = inr e) ∨ ∃ e, fault "fopen" path e
       end).
Proof.
  wp_start. unfold fopen_read. wp_call as r [F Hr]. destruct r as [[p n]|e].
  - destruct Hr as [Hr|(? & [=] & _)]. eapply wp_spec; [apply _|done|]. intros [f|] s' [F1 Hf]; [|done].
    injection Hf as Hf. rewrite (frame_files _ _ _ _ F1). frame_merge. split; [solve_frame|].
    exists p, n. by rewrite Hr.
  - apply wp_ret. split; [solve_frame|]. destruct Hr as [Hr|(e' & _ & Hf)]; [left|right]; by eexists.
Qed.

Lemma resolve_target_error links fs path e : resolve_target links fs path = inr e → e ≠ 0.
Proof.
  revert path. induction links as [|links IH]; intros path;
    unfold resolve_target; fold resolve_target; destruct (fs !! path) as [[]|]; intros ?; simplify_eq; try done.
  by eapply IH.
Qed.

(** The stream is at the start of an empty file. *)
#[export] Instance spec_fopen_write path :
  Spec (fopen_write path) (λ _, True)
    (λ r s s', ∃ s1 fs, frame ∅ (owns r) s s1 ∧ s' = with_files fs s1 ∧
       match r with
       | Some f => ∃ p m, resolve_target MAXSYMLINKS (files s1) path = inl p ∧
           obj_val f = Stream p 0 [] ∧ fs = <[p := Regular m []]> (files s1) ∧
           m = match files s1 !! p with Some (Regular m _) => m | _ => Z.ldiff 0x1b6 umask end
       | None => fs = files s1 ∧
           ((∃ e, resolve_target MAXSYMLINKS (files s1) path = inr e) ∨ ∃ e, fault "fopen" path e)
       end).
Proof.
  wp_start. unfold fopen_write. wp_call as fs0 [-> ->].
  wp_call as rc (s1 & fs & F & -> & Hrc).
  { intros fs e. unfold open_truncate. destruct (resolve_target _ _ _) eqn:E; intros [=]; subst.
    by eapply resolve_target_error. }
  assert (Hfs : files s1 = files s) by by fs_simpl.
  unfold open_truncate in Hrc. rewrite <-Hfs.
  destruct (resolve_target MAXSYMLINKS (files s1) path) as [p|e] eqn:E.
  - wp_case (rc =? 0).
    + destruct Hrc as [(_ & [= <-])|(? & _)]; [|done]. eapply wp_spec; [apply _|done|].
      intros [f|] s' [F1 Hf]; [|done]. injection Hf as Hf.
      destruct (frame_with_files _ _ _ _ _ F1) as (s2 & F2 & ->). pose proof (frame_files _ _ _ _ F2) as Hfs2.
      frame_merge. eexists s2, _. split; [solve_frame|]. split; [done|]. rewrite Hfs2.
      exists p. eexists. by split_and!.
    + apply wp_ret. exists s1, fs. split; [solve_frame|]. split; [done|].
      destruct Hrc as [(? & _)|(_ & -> & [[=]|Hr])]; [done|]. split; [done|]. right. by eexists.
  - apply wp_ret. exists s1, fs. split; [solve_frame|]. split; [done|].
    destruct Hrc as [(_ & [=])|(_ & -> & _)]. split; [done|]. left. by eexists.
Qed.

#[export] Instance spec_stream_content f :
  Spec (stream_content f) (alive (Some f))
    (λ r s s', s' = s ∧ ∀ m c, files s !! file_path (obj_val f) = Some (Regular m c) →
       file_offset (obj_val f) = 0 → r = c).
Proof.
  wp_start. unfold stream_content. wp_call as v [-> ->]. wp_call as fs [-> ->]. apply wp_ret. split; [done|].
  intros m c -> ->. done.
Qed.

(** The stream is at the end of what was written to its file, which is the
    only difference to [base]: [total] has reached the stream so far. *)
Definition stream_at (v : FILE) (m : Z) (total : list byte) (base fs : gmap string node) : Prop :=
  ∃ done, fs = <[file_path v := Regular m done]> base ∧ file_offset v = len done ∧ total = done ++ file_pending v.

Lemma stream_at_start p m base : stream_at (Stream p 0 []) m [] base (<[p := Regular m []]> base).
Proof. by exists []. Qed.

(** [data] written where the stream is. *)
Lemma stream_at_write v m total base fs data rest :
  stream_at v m total base fs →
  ∃ fs', write_at fs (file_path v) (file_offset v) data = Some fs' ∧
    ∀ done, total = done ++ file_pending v →
      stream_at (Stream (file_path v) (file_offset v + len data) rest) m (done ++ data ++ rest) base fs'.
Proof.
  intros (done & -> & Ho & ->). unfold write_at. rewrite lookup_insert_eq. eexists. split; [done|].
  intros done' ->%app_inv_tail. exists (done' ++ data). cbn [file_path file_offset file_pending].
  pose proof (len_nonneg data). rewrite insert_insert_eq, Ho, len_app, ztake_all, <-app_assoc by lia. split_and!; [|done..].
  do 3 f_equal. unfold zdrop. rewrite (drop_ge done') by (unfold len; lia). by rewrite app_nil_r.
Qed.

(** The buffer keeps some of [n] bytes back. *)
Definition buffer_keeps (n : Z) : Prop := 0 < BUFSIZ ∧ ∀ t, io_count "fwrite" n t < n.

#[export] Instance spec_stream_write f data :
  Spec (stream_write f data) (alive (Some f))
    (λ r s s', ∃ s1 fs v, frame ∅ ∅ s s1 ∧ s' = with_files fs s1 ∧ snd r = set_val f v ∧
       file_path v = file_path (obj_val f) ∧
       ∀ m total base, stream_at (obj_val f) m total base (files s) →
         (fst r = true ∨ ∃ e, fault "fwrite" (file_path (obj_val f)) e) ∧
         ∃ total', stream_at v m total' base fs ∧ (fst r = true → total' = total ++ data ∧
           (total = [] → buffer_keeps (len data) → data ≠ [] → file_pending v ≠ []))).
Proof.
  wp_start. unfold stream_write. wp_call as v [-> ->]. destruct (obj_val f) as [p off pend] eqn:Ef.
  cbn [file_path file_offset file_pending].
  destruct (Z.leb_spec (len (pend ++ data)) BUFSIZ) as [Hfit|Hover].
  { apply wp_ret. exists s, (files s), (Stream p off (pend ++ data)). rewrite with_files_files. split_and!; [done..|].
    intros m total base (done & -> & Ho & ->). split; [by left|]. cbn [file_pending] in *.
    exists ((done ++ pend) ++ data). split; [exists done; cbn [file_path file_offset file_pending]; by rewrite <-app_assoc|].
    intros _. split; [done|]. intros [-> ->]%app_eq_nil _ Hd. by destruct data. }
  wp_call as e [F He]. wp_call as n [F1 Hn]. wp_call as fs0 [-> ->].
  set (k := if e =? 0 then _ else n). set (rest := if e =? 0 then zdrop k _ else []).
  destruct (write_at _ _ _ _) as [fs'|] eqn:Ew.
  - wp_call as ? ->. apply wp_ret. eexists _, fs', _. split; [solve_frame|]. split_and!; [done..|].
    fs_simpl. intros m total base Hat.
    split. { destruct (Z.eqb_spec e 0); [by left|right]. exists e. split; [done|by eexists]. }
    destruct (stream_at_write _ _ _ _ _ (ztake k (pend ++ data)) rest Hat) as (fs1 & Ew' & Hat').
    cbn [file_path file_offset file_pending] in *. rewrite Ew in Ew'. injection Ew' as <-.
    destruct Hat as (done & _ & _ & ->). specialize (Hat' done eq_refl). eexists. split; [exact Hat'|].
    cbn [fst]. intros Hz. subst rest. rewrite Hz in *. unfold ztake, zdrop. rewrite take_drop, app_assoc. split; [done|].
    cbn [file_pending]. intros [-> ->]%app_eq_nil [Hb Hk] Hne Hnil. cbn [app] in *. apply Hne.
    specialize (Hk (tick s0)). apply (f_equal length) in Hnil. rewrite length_drop in Hnil. cbn [length] in Hnil.
    subst k. rewrite Hz in Hnil. destruct data; [done|]. unfold len in *. cbn [length] in *. lia.
  - apply wp_ret. eexists _, _, (Stream p off pend). rewrite with_files_files. split; [solve_frame|].
    split; [done|]. split; [by rewrite <-Ef; destruct f|]. split; [done|]. fs_simpl. intros m total base Hat.
    by destruct (stream_at_write _ _ _ _ _ (ztake k (pend ++ data)) rest Hat) as (fs1 & Ew' & _); cbn in Ew'; rewrite Ew in Ew'.
Qed.

(** Nothing of what the buffers hold can be written any more. *)
Definition nothing_flushed : Prop := (∀ path t, sys_fault "fflush" path t ≠ 0) ∧ ∀ n t, io_count "fflush" n t ≤ 0.

(** Flushing a stream hands over what is pending, all of it when it succeeds. *)
#[export] Instance spec_fflush f :
  Spec (fflush f) (alive (Some f))
    (λ r s s', ∃ s1 fs v, frame ∅ ∅ s s1 ∧ s' = with_files fs s1 ∧ snd r = set_val f v ∧
       file_path v = file_path (obj_val f) ∧
       ∀ m total base, stream_at (obj_val f) m total base (files s) →
         (fst r = 0 ∨ fault "fflush" (file_path (obj_val f)) (fst r)) ∧ stream_at v m total base fs ∧
         (fst r = 0 → file_pending v = []) ∧
         (nothing_flushed → file_pending v = file_pending (obj_val f) ∧ fst r ≠ 0)).
Proof.
  wp_start. unfold fflush. wp_call as v [-> ->]. wp_call as e [F He]. wp_call as n [F1 Hn].
  wp_call as fs0 [-> ->]. destruct (obj_val f) as [p off pend] eqn:Ef. cbn [file_path file_offset file_pending].
  set (data := if e =? 0 then _ else _).
  assert (Hdata : pend = data ++ zdrop (len data) pend ∧ (e = 0 → zdrop (len data) pend = []) ∧
    (nothing_flushed → data = [] ∧ e ≠ 0)).
  { unfold nothing_flushed, data. destruct (Z.eqb_spec e 0) as [->|].
    - unfold zdrop. rewrite drop_ge by (unfold len; lia). rewrite app_nil_r. split_and!; [done..|].
      intros [Hf _]. by destruct (Hf p (tick s)).
    - split_and!; [|done|].
      { rewrite <-(ztake_len_ztake n pend) at 1. symmetry. apply take_drop. }
       intros [_ Hc]. split; [|done].
      assert (n ≤ 0) by (rewrite <-Hn; apply Hc). unfold ztake. by replace (Z.to_nat n) with O by lia. }
  clearbody data. destruct Hdata as (Hall & Hzero & Hnone).
  destruct (write_at _ _ _ _) as [fs'|] eqn:Ew.
  - wp_call as ? ->. apply wp_ret. eexists _, fs', _. split; [solve_frame|]. split_and!; [done..|].
    fs_simpl. intros m total base Hat.
    destruct (stream_at_write _ _ _ _ _ data (zdrop (len data) pend) Hat) as (fs1 & Ew' & Hat').
    cbn [file_path file_offset file_pending fst] in *. rewrite Ew in Ew'. injection Ew' as <-.
    split. { destruct (decide (e = 0)); [by left|right]. split; [done|by eexists]. }
    destruct Hat as (done & _ & _ & ->). specialize (Hat' done eq_refl). rewrite <-Hall in Hat'. cbn [file_pending].
    split; [done|]. split; [done|]. intros [-> ?]%Hnone. split; [done|done].
  - apply wp_ret. eexists _, _, (Stream p off pend). rewrite with_files_files. split; [solve_frame|].
    split; [done|]. split; [by rewrite <-Ef; destruct f|]. split; [done|]. fs_simpl. intros m total base Hat.
    by destruct (stream_at_write _ _ _ _ _ data [] Hat) as (fs1 & Ew' & _); cbn in Ew'; rewrite Ew in Ew'.
Qed.

#[export] Instance spec_fsync_stream f :
  Spec (fsync_stream f) (alive (Some f))
    (λ r s s', frame ∅ ∅ s s' ∧ (r = 0 ∨ fault "fsync" (file_path (obj_val f)) r)).
Proof.
  wp_start. unfold fsync_stream. wp_call as v [-> ->]. eapply wp_spec; [apply _|done|].
  intros r s' [F Hr]. split; [done|]. destruct (decide (r = 0)); [by left|right]. split; [done|]. by eexists.
Qed.

(** The file is left with what has been handed over, all that reached the
    stream when closing succeeds. *)
#[export] Instance spec_fclose f :
  Spec (fclose f) (alive (Some f))
    (λ r s s', ∃ s1 fs, frame (owns (Some f)) ∅ s s1 ∧ s' = with_files fs s1 ∧
       ∀ m total base, stream_at (obj_val f) m total base (files s) →
         (r = 0 ∨ ∃ name, fault name (file_path (obj_val f)) r) ∧
         ∃ data lost, fs = <[file_path (obj_val f) := Regular m data]> base ∧ total = data ++ lost ∧
           (r = 0 → lost = []) ∧ (nothing_flushed → lost = file_pending (obj_val f))).
Proof.
  wp_start. unfold fclose. wp_call as [rc f'] (s1 & fs & v & F & -> & Hv & Hp & Hf). cbn [fst snd] in *. subst f'.
  wp_call as v' [-> ->]. wp_call as e [F1 He]. wp_call as ? ?. apply wp_ret.
  eexists _, fs. split; [solve_frame|]. split; [done|]. intros m total base Hat.
  destruct (Hf m total base Hat) as (Hrc & (done & -> & _ & ->) & Hz & Hnone).
  cbn [obj_val set_val] in *. rewrite Hp in *. split.
  - destruct (Z.eqb_spec rc 0) as [->|Hn].
    + destruct (decide (e = 0)) as [|]; [by left|]. right. exists "fclose"%string. split; [done|]. by eexists.
    + right. destruct Hrc as [|Hrc]; [done|]. by eexists.
  - exists done, (file_pending v). split_and!; [done|done| |by intros [? _]%Hnone].
    destruct (Z.eqb_spec rc 0) as [->|Hn]; [by intros _; apply Hz|done].
Qed.

#[export] Instance spec_fclose_input f :
  Spec (fclose_input f) (alive (Some f)) (λ r s s', frame (owns (Some f)) ∅ s s').
Proof.
  wp_start. unfold fclose_input. wp_call as v [-> ->]. wp_call as ? ?. eapply wp_spec; [apply _|done|].
  intros rc s' [F' _]. frame_merge. solve_frame.
Qed.
End specs.
