(* ===== verification/Tools.v ===== *)
(** * What the command line tools share

    Exit codes and reports: a report is a list of lines. *)

From stdpp Require Import pretty.
From S2P Require Import Prelude Machine.

Definition EXIT_SUCCESS : Z := 0.
Definition EXIT_FAILURE : Z := 1.

(** [%u], [%zu] *)
Definition dec (n : Z) : string := pretty n.

Definition verdict (ok : bool) (yes no : string) : string := if ok then yes else no.

Fixpoint print_lines (lines : list string) : M unit :=
  match lines with [] => mret tt | line :: lines => print line;; print_lines lines end.
#[global] Arguments verdict : simpl never.
#[global] Arguments dec : simpl never.
#[global] Arguments print_lines : simpl never.
#[export] Hint Opaque print_lines : typeclass_instances.

#[export] Instance spec_print_lines lines :
  Spec (print_lines lines) (λ _, True) (λ r s s', s' = add_output lines s).
Proof.
  induction lines as [|line lines IH]; wp_start; unfold print_lines; fold print_lines.
  - apply wp_ret. by destruct s; unfold add_output; cbn; rewrite app_nil_r.
  - apply wp_print. eapply wp_spec; [apply IH|done|]. cbn beta. intros _ s' ->. by rewrite add_output_app.
Qed.
