(* ===== verification/BenchStats.v ===== *)
(** * tools/benchmark_composite_verify.c (numbers)

    Counts on the command line, and the statistics of a list of measured
    times. Times and counts are 64-bit numbers; the conversion of the results
    to milliseconds is floating-point arithmetic and is left to [Benchmark.v]. *)

From Stdlib Require Import Strings.Ascii.
From stdpp Require Import pretty sorting.
From S2P Require Import Prelude Tools.

(** ** Reading a count *)

Definition UINT64_MAX : Z := 2 ^ 64 - 1.

(** [isspace], [isdigit] in the C locale *)
Definition is_space (c : Ascii.ascii) : bool :=
  let n := Z.of_N (Ascii.N_of_ascii c) in (n =? 32) || ((9 <=? n) && (n <=? 13)).
Definition digit_value (c : Ascii.ascii) : option Z :=
  let n := Z.of_N (Ascii.N_of_ascii c) in if (48 <=? n) && (n <=? 57) then Some (n - 48) else None.

Fixpoint skip_spaces (s : string) : string :=
  match s with String c rest => if is_space c then skip_spaces rest else s | "" => s end.

(** The number that the digits at the head of a text continue, and what
    follows them. *)
Fixpoint read_digits (n : Z) (s : string) : Z * string :=
  match s with
  | String c rest => match digit_value c with Some d => read_digits (10 * n + d) rest | None => (n, s) end
  | "" => (n, s)
  end.

(** [strtoumax(text, &end, 10)]: the value, the text at [end] unless nothing
    could be converted, and whether [errno] is set. *)
Definition strtoumax (text : string) : Z * option string * bool :=
  let s := skip_spaces text in
  let '(negative, digits) :=
    match s with
    | String c rest => if (c =? "-")%char then (true, rest) else if (c =? "+")%char then (false, rest) else (false, s)
    | "" => (false, s)
    end in
  match digits with
  | String c _ =>
      match digit_value c with
      | None => (0, None, false)
      | Some _ =>
          let '(n, rest) := read_digits 0 digits in
          if n >? UINT64_MAX then (UINT64_MAX, Some rest, true)
          else (if negative then size_of_Z (- n) else n, Some rest, false)
      end
  | "" => (0, None, false)
  end.

(** What is written to [value], if anything is. [text] is not [NULL]. *)
Definition parse_count (text : string) : option Z :=
  match text with
  | "" => None
  | String c _ =>
      check negb (c =? "-")%char else None;;
      let '(parsed, tail, error) := strtoumax text in
      if error || negb (bool_decide (tail = Some ""%string)) || (parsed >? SIZE_MAX) then None
      else Some parsed
  end.

(** ** Statistics *)

Definition compare_u64 (a b : Z) : Z := Z.b2z (a >? b) - Z.b2z (a <? b).

(** [qsort] with [compare_u64]. *)
Definition ordered (a b : Z) : Prop := compare_u64 a b ≤ 0.
#[export] Instance ordered_dec : RelDecision ordered := λ a b, decide (compare_u64 a b ≤ 0).
Definition sort_samples (samples : list Z) : list Z := merge_sort ordered samples.

(** [None] outside the array. *)
Definition sample (sorted : list Z) (i : Z) : option Z :=
  if i <? 0 then None else sorted !! Z.to_nat i.

Definition nearest_rank (sorted : list Z) (count numerator denominator : Z) : option Z :=
  let rank := size_mul (count / denominator) numerator in
  let rank := if negb (count mod denominator =? 0)
              then size_add rank (size_sub (size_add (size_mul (count mod denominator) numerator) denominator) 1
                                    / denominator)
              else rank in
  let rank := if rank =? 0 then 1 else rank in
  sample sorted (size_sub rank 1).

(** On [uint64_t], as [size_t]. *)
Definition median_ns (samples : list Z) (iterations : Z) : option Z :=
  if negb (Z.land iterations 1 =? 0) then sample samples (iterations / 2)
  else
    a ← sample samples (size_sub (iterations / 2) 1);
    b ← sample samples (iterations / 2);
    Some (size_add (size_add (a / 2) (b / 2)) (size_add (Z.land a 1) (Z.land b 1) / 2)).

(** ** Numerals *)

Lemma digit_value_char d : (d < 10)%N → digit_value (pretty_N_char d) = Some (Z.of_N d).
Proof.
  intros Hd. assert (d = 0 ∨ d = 1 ∨ d = 2 ∨ d = 3 ∨ d = 4 ∨ d = 5 ∨ d = 6 ∨ d = 7 ∨ d = 8 ∨ d = 9)%N
    by lia. by destruct_or!; subst d.
Qed.

Lemma read_digits_pretty x : ∀ s, (0 < x)%N → read_digits 0 (pretty_N_go x s) = read_digits (Z.of_N x) s.
Proof.
  induction x as [x IH] using (well_founded_induction N.lt_wf_0). intros s Hx. rewrite pretty_N_go_step by done.
  pose proof (N.mod_lt x 10 ltac:(done)) as Hm. pose proof (N.div_mod x 10 ltac:(done)) as Hd.
  assert (Hs : ∀ n, read_digits n (String (pretty_N_char (x `mod` 10)) s) = read_digits (10 * n + Z.of_N (x `mod` 10)) s).
  { intros n. cbn [read_digits]. by rewrite digit_value_char by done. }
  destruct (decide (x / 10 = 0)%N) as [E|E].
  - rewrite E. cbn [pretty_N_go]. rewrite pretty_N_go_0, Hs. f_equal. lia.
  - rewrite IH by (try apply N.div_lt; lia). rewrite Hs. f_equal. lia.
Qed.

(** A numeral starts with a digit. *)
Lemma pretty_head x : ∀ s, (0 < x)%N → ∃ c rest, pretty_N_go x s = String c rest ∧ is_Some (digit_value c).
Proof.
  induction x as [x IH] using (well_founded_induction N.lt_wf_0). intros s Hx. rewrite pretty_N_go_step by done.
  pose proof (N.mod_lt x 10 ltac:(done)) as Hm.
  destruct (decide (x / 10 = 0)%N) as [E|E].
  - rewrite E, pretty_N_go_0. eexists _, _. split; [done|]. rewrite digit_value_char by done. by eexists.
  - apply IH; [apply N.div_lt; lia|by apply N.neq_0_lt_0].
Qed.

Lemma digit_facts c : is_Some (digit_value c) → is_space c = false ∧ c ≠ "-"%char ∧ c ≠ "+"%char.
Proof.
  intros Hc. split_and!; [|intros ->; by destruct Hc|intros ->; by destruct Hc].
  destruct Hc as [d Hc]. unfold digit_value, is_space in *. destruct (_ && _) eqn:E in Hc; [|done]. lia.
Qed.

(** The numeral of a natural number. *)
Lemma dec_numeral n : 0 ≤ n → ∃ c rest, dec n = String c rest ∧ is_Some (digit_value c) ∧
  read_digits 0 (dec n) = (n, ""%string).
Proof.
  intros Hn. unfold dec. destruct n as [|p|p]; [by exists "0"%char, ""%string|..|lia].
  change (pretty (Z.pos p)) with (pretty_N_go (N.pos p) "").
  destruct (pretty_head (N.pos p) "" ltac:(done)) as (c & rest & E & Hc). exists c, rest.
  split; [done|]. split; [done|]. by rewrite read_digits_pretty.
Qed.

(** What is converted after blanks and a sign. *)
Lemma strtoumax_signed (negative : bool) n :
  0 ≤ n → strtoumax ((if negative then " -" else "") ++ dec n) =
    if n >? UINT64_MAX then (UINT64_MAX, Some ""%string, true)
    else (if negative then size_of_Z (- n) else n, Some ""%string, false).
Proof.
  intros Hn. destruct (dec_numeral n Hn) as (c & rest & E & [d Hc] & Hr). rewrite E in *.
  destruct (digit_facts c ltac:(by eexists)) as (Hs & Hm & Hp). unfold strtoumax.
  destruct negative.
  - change (" -" ++ String c rest)%string with (String " " (String "-" (String c rest))).
    cbn [skip_spaces]. change (is_space " ") with true. change (is_space "-") with false.
    cbv beta iota. change ("-" =? "-")%char with true. cbv beta iota. by rewrite Hc, Hr.
  - change ("" ++ String c rest)%string with (String c rest). cbn [skip_spaces]. rewrite Hs.
    rewrite (proj2 (Ascii.eqb_neq _ _) Hm), (proj2 (Ascii.eqb_neq _ _) Hp), Hc. by rewrite Hr.
Qed.

Lemma read_digits_nonneg s : ∀ n, 0 ≤ n → 0 ≤ fst (read_digits n s).
Proof.
  induction s as [|c s IH]; intros n Hn; cbn [read_digits]; [done|].
  destruct (digit_value c) as [d|] eqn:E; [|done]. apply IH. unfold digit_value in E.
  destruct (_ && _) eqn:Ec in E; [|done]. injection E as <-. lia.
Qed.

(** A count is a [size_t]. *)
Lemma parse_count_range text n : parse_count text = Some n → 0 ≤ n ≤ SIZE_MAX.
Proof.
  unfold parse_count. destruct text as [|c text]; [done|]. destruct (negb _); [|done].
  destruct (strtoumax _) as [[v tail] error] eqn:E. destruct (_ || _ || _) eqn:Er; [done|]. intros [= <-].
  assert (0 ≤ v); [|lia]. revert E. unfold strtoumax.
  match goal with |- context [match ?p with pair _ _ => _ end] => destruct p as [negative digits] end.
  destruct digits as [|d rest]; [intros [= <- _ _]; done|]. destruct (digit_value d); [|intros [= <- _ _]; done].
  pose proof (read_digits_nonneg (String d rest) 0 ltac:(done)) as Hr. destruct (read_digits _ _) as [m rest'].
  cbn [fst] in Hr. destruct (m >? UINT64_MAX); intros [= <- _ _]; [done|].
  destruct negative; [|done]. apply Z.mod_pos_bound. done.
Qed.

(** A count given in decimal is read as it is, if it fits [size_t], and
    rejected otherwise. *)
Theorem parse_count_numeral n :
  0 ≤ n → parse_count (dec n) = if n <=? SIZE_MAX then Some n else None.
Proof.
  intros Hn. assert (Hs : strtoumax (dec n) = if n >? UINT64_MAX then (UINT64_MAX, Some ""%string, true)
    else (n, Some ""%string, false)) by exact (strtoumax_signed false n Hn).
  destruct (dec_numeral n Hn) as (c & rest & E & Hc & _). rewrite E in *.
  destruct (digit_facts c Hc) as (_ & Hm & _). unfold parse_count.
  rewrite (proj2 (Ascii.eqb_neq _ _) Hm), Hs. unfold UINT64_MAX, SIZE_MAX.
  destruct (Z.gtb_spec n (2 ^ 64 - 1)), (Z.leb_spec n (2 ^ 64 - 1)); try lia; cbn [negb orb]; [done|].
  rewrite bool_decide_eq_true_2 by done. destruct (Z.gtb_spec n (2 ^ 64 - 1)); [lia|done].
Qed.

(** A negative count is rejected only when the sign comes first: after a
    blank it is taken for a huge one. *)
Theorem parse_count_blank_minus n :
  0 < n ≤ SIZE_MAX → parse_count ("-" ++ dec n) = None ∧ parse_count (" -" ++ dec n) = Some (2 ^ 64 - n).
Proof.
  intros Hn. assert (Hs : strtoumax (" -" ++ dec n) = if n >? UINT64_MAX then (UINT64_MAX, Some ""%string, true)
    else (size_of_Z (- n), Some ""%string, false)) by exact (strtoumax_signed true n ltac:(lia)). split; [done|].
  unfold parse_count. change (" -" ++ dec n)%string with (String " " ("-" ++ dec n)) in *.
  change (" " =? "-")%char with false. cbn [negb]. rewrite Hs.
  unfold UINT64_MAX, SIZE_MAX in *. destruct (Z.gtb_spec n (2 ^ 64 - 1)); [lia|]. cbn [orb].
  rewrite bool_decide_eq_true_2 by done. cbn [negb orb].
  assert (size_of_Z (- n) = 2 ^ 64 - n) as ->.
  { unfold size_of_Z. symmetry. apply Z.mod_unique with (-1); lia. }
  destruct (Z.gtb_spec (2 ^ 64 - n) (2 ^ 64 - 1)); [lia|done].
Qed.

(** ** Sorted samples *)

Lemma compare_u64_spec a b :
  (compare_u64 a b < 0 ↔ a < b) ∧ (compare_u64 a b = 0 ↔ a = b) ∧ (0 < compare_u64 a b ↔ b < a).
Proof. unfold compare_u64. destruct (Z.gtb_spec a b), (Z.ltb_spec a b); cbn; lia. Qed.

Lemma ordered_le a b : ordered a b ↔ a ≤ b.
Proof. unfold ordered. pose proof (compare_u64_spec a b). lia. Qed.

#[export] Instance ordered_trans : Transitive ordered.
Proof. intros a b c. rewrite !ordered_le. lia. Qed.
#[export] Instance ordered_total : Total ordered.
Proof. intros a b. rewrite !ordered_le. lia. Qed.

Lemma sort_samples_permutation l : sort_samples l ≡ₚ l.
Proof. apply merge_sort_Permutation. Qed.

Lemma sort_samples_sorted l : StronglySorted Z.le (sort_samples l).
Proof.
  assert (H : StronglySorted ordered (sort_samples l)) by (apply StronglySorted_merge_sort; apply _).
  induction H as [|x l' _ IH Hx]; constructor; [done|].
  eapply Forall_impl; [|exact Hx]. intros y Hy. by apply ordered_le.
Qed.

Lemma len_sort_samples l : len (sort_samples l) = len l.
Proof. unfold len. by rewrite (sort_samples_permutation l). Qed.

Lemma sample_Some l i : 0 ≤ i < len l → ∃ v, sample l i = Some v ∧ l !! Z.to_nat i = Some v ∧ v ∈ l.
Proof.
  intros Hi. unfold sample. destruct (Z.ltb_spec i 0); [lia|].
  destruct (lookup_lt_is_Some_2 l (Z.to_nat i)) as [v Hv]; [unfold len in Hi; lia|].
  exists v. split; [done|]. split; [done|]. by eapply list_elem_of_lookup_2.
Qed.

(** How many samples are at most, and how many are less than [v]. *)
Definition at_most (v : Z) (l : list Z) : Z := len (filter (λ x, x ≤ v) l).
Definition less_than (v : Z) (l : list Z) : Z := len (filter (λ x, x < v) l).

Lemma filter_all {A} (P : A → Prop) `{!∀ x, Decision (P x)} l : Forall P l → filter P l = l.
Proof. induction 1 as [|x l Hx _ IH]; [done|]. rewrite filter_cons_True by done. by rewrite IH. Qed.

Lemma filter_none {A} (P : A → Prop) `{!∀ x, Decision (P x)} l : Forall (λ x, ¬ P x) l → filter P l = [].
Proof. induction 1 as [|x l Hx _ IH]; [done|]. by rewrite filter_cons_False. Qed.

Lemma sorted_counts l i v :
  StronglySorted Z.le l → l !! i = Some v → Z.of_nat i < at_most v l ∧ less_than v l ≤ Z.of_nat i.
Proof.
  intros Hl Hi. pose proof (take_drop_middle _ _ _ Hi) as E. rewrite <-E in Hl.
  apply StronglySorted_app in Hl as (Hle & _ & Hge). inversion Hge as [|? ? _ Hd]; subst.
  assert (length (take i l) = i) as Hlen by (rewrite length_take; apply lookup_lt_Some in Hi; lia).
  unfold at_most, less_than, len. rewrite <-E, !list.filter_app, !length_app. split.
  - rewrite filter_all by (apply Forall_forall; intros x Hx; apply Hle; [by apply list_elem_of_In|left]).
    rewrite filter_cons_True by lia. cbn [length]. lia.
  - rewrite (filter_none _ (v :: _)), (Nat.add_0_r _).
    + rewrite <-Hlen at 2. apply Nat2Z.inj_le, length_filter.
    + constructor; [lia|]. eapply Forall_impl; [|exact Hd]. cbn. lia.
Qed.

(** The rank that [nearest_rank] computes, without wrapping around. *)
Lemma rank_computed count numerator denominator :
  0 ≤ count ≤ SIZE_MAX → 0 < numerator ≤ denominator → denominator * (numerator + 1) ≤ SIZE_MAX →
  let rank := size_mul (count / denominator) numerator in
  (if negb (count mod denominator =? 0)
   then size_add rank (size_sub (size_add (size_mul (count mod denominator) numerator) denominator) 1 / denominator)
   else rank) = (count * numerator + denominator - 1) / denominator ∧
  (count * numerator + denominator - 1) / denominator ≤ count.
Proof.
  intros Hc Hn Hd rank. subst rank.
  pose proof (Z.div_mod count denominator ltac:(lia)) as E.
  pose proof (Z.mod_pos_bound count denominator ltac:(lia)) as Hr.
  set (q := count / denominator) in *. set (r := count mod denominator) in *. clearbody q r.
  assert (0 ≤ q) by nia. assert (q * numerator ≤ count) by nia.
  assert (Hle : (count * numerator + denominator - 1) / denominator ≤ count).
  { apply Z.lt_succ_r, Z.div_lt_upper_bound; nia. }
  split; [|done]. unfold size_mul. rewrite !size_of_Z_small by nia.
  assert (Hsum : (count * numerator + denominator - 1) / denominator =
    q * numerator + (r * numerator + denominator - 1) / denominator).
  { rewrite E. replace ((denominator * q + r) * numerator + denominator - 1)
      with (q * numerator * denominator + (r * numerator + denominator - 1)) by ring.
    apply Z.div_add_l. lia. }
  rewrite Hsum in *. destruct (Z.eqb_spec r 0) as [->|Hr0]; cbn [negb].
  - rewrite (Z.div_small (0 * numerator + denominator - 1)) by lia. lia.
  - assert (0 ≤ (r * numerator + denominator - 1) / denominator) by (apply Z.div_pos; nia).
    rewrite (size_add_small (r * numerator)) by nia. unfold size_sub. rewrite size_of_Z_small by nia.
    apply size_add_small. lia.
Qed.

(** On sorted samples [nearest_rank] stays inside the array, no product or
    sum wraps around, and the sample it returns is the percentile: at least the
    given fraction of the samples is at most it, and less than that fraction is
    less than it. *)
Theorem nearest_rank_correct samples numerator denominator :
  0 < len samples ≤ SIZE_MAX → 0 < numerator ≤ denominator → denominator * (numerator + 1) ≤ SIZE_MAX →
  let sorted := sort_samples samples in
  ∃ v, nearest_rank sorted (len sorted) numerator denominator = Some v ∧ v ∈ samples ∧
    numerator * len samples ≤ denominator * at_most v samples ∧
    denominator * less_than v samples < numerator * len samples.
Proof.
  intros Hl Hn Hd sorted. assert (Hls : len sorted = len samples) by apply len_sort_samples.
  destruct (rank_computed (len sorted) numerator denominator) as [Hrank Hle]; [lia..|].
  unfold nearest_rank. rewrite Hrank. set (rank := (len sorted * numerator + denominator - 1) / denominator) in *.
  assert (Hpos : 1 ≤ rank) by (apply Z.div_le_lower_bound; nia).
  destruct (Z.eqb_spec rank 0); [lia|]. unfold size_sub. rewrite size_of_Z_small by (unfold SIZE_MAX in *; lia).
  destruct (sample_Some sorted (rank - 1)) as (v & -> & Hi & Hv); [lia|]. exists v. split; [done|].
  split; [by unfold sorted in Hv; rewrite (sort_samples_permutation samples) in Hv|].
  destruct (sorted_counts sorted _ v (sort_samples_sorted _) Hi) as [Ha Hb].
  assert (Hp : at_most v sorted = at_most v samples ∧ less_than v sorted = less_than v samples).
  { unfold at_most, less_than, len, sorted. by rewrite !(sort_samples_permutation samples). }
  destruct Hp as [<- <-].
  pose proof (Z.mul_div_le (len sorted * numerator + denominator - 1) denominator ltac:(lia)) as Hmul.
  pose proof (Z.mul_succ_div_gt (len sorted * numerator + denominator - 1) denominator ltac:(lia)) as Hgt.
  fold rank in Hmul, Hgt. rewrite Z2Nat.id in Ha, Hb by lia. rewrite <-Hls. split; nia.
Qed.

Lemma land_1 a : Z.land a 1 = a mod 2.
Proof. exact (Z.land_ones a 1 ltac:(lia)). Qed.

(** The median of an even number of samples is the mean of the middle two,
    rounded down, and that of an odd number the middle one; the halves are
    added so that nothing wraps around, whatever the times are. *)
Theorem median_ns_correct samples :
  0 < len samples ≤ SIZE_MAX → Forall (λ x, 0 ≤ x ≤ UINT64_MAX) samples →
  let sorted := sort_samples samples in
  ∃ m, median_ns sorted (len sorted) = Some m ∧
    (Z.odd (len samples) = true → sorted !! Z.to_nat (len samples / 2) = Some m) ∧
    (Z.odd (len samples) = false → ∃ a b, sorted !! Z.to_nat (len samples / 2 - 1) = Some a ∧
       sorted !! Z.to_nat (len samples / 2) = Some b ∧ m = (a + b) / 2).
Proof.
  intros Hl Hx sorted. assert (Hls : len sorted = len samples) by apply len_sort_samples. rewrite Hls.
  assert (Hsx : Forall (λ x, 0 ≤ x ≤ UINT64_MAX) sorted) by (unfold sorted; by rewrite (sort_samples_permutation samples)).
  unfold median_ns. rewrite land_1, Zmod_odd. destruct (Z.odd (len samples)) eqn:Ho; cbn [Z.eqb negb].
  - destruct (sample_Some sorted (len samples / 2)) as (v & -> & Hi & _); [split; [apply Z.div_pos; lia|apply Z.div_lt_upper_bound; lia]|].
    by exists v.
  - assert (Hev : len samples = 2 * (len samples / 2)).
    { pose proof (Z.div_mod (len samples) 2 ltac:(lia)) as E. rewrite Zmod_odd, Ho in E. lia. }
    set (h := len samples / 2) in *. unfold size_sub. rewrite size_of_Z_small by (unfold SIZE_MAX in *; lia).
    destruct (sample_Some sorted (h - 1)) as (a & -> & Ha & Hai); [lia|].
    destruct (sample_Some sorted h) as (b & -> & Hb & Hbi); [lia|].
    pose proof (proj1 (Forall_forall _ _) Hsx a) as Hra. pose proof (proj1 (Forall_forall _ _) Hsx b) as Hrb.
    rewrite <-list_elem_of_In in *. specialize (Hra Hai). specialize (Hrb Hbi). cbn in Hra, Hrb.
    cbn [mbind option_bind]. rewrite !land_1.
    unfold UINT64_MAX, SIZE_MAX in *.
    pose proof (Z.div_mod a 2 ltac:(lia)). pose proof (Z.mod_pos_bound a 2 ltac:(lia)).
    pose proof (Z.div_mod b 2 ltac:(lia)). pose proof (Z.mod_pos_bound b 2 ltac:(lia)).
    rewrite !size_add_small by (unfold SIZE_MAX; rewrite ?size_add_small by (unfold SIZE_MAX; lia); Z.div_mod_to_equations; lia).
    eexists. split; [done|]. split; [done|]. intros _. exists a, b. split; [done|]. split; [done|].
    Z.div_mod_to_equations. lia.
Qed.

Lemma sorted_lookup l i j a b :
  StronglySorted Z.le l → l !! i = Some a → l !! j = Some b → (i ≤ j)%nat → a ≤ b.
Proof.
  intros Hl. revert i j. induction Hl as [|x l _ IH Hx]; intros i j Ha Hb Hij; [done|].
  destruct i as [|i], j as [|j]; cbn in *; simplify_eq; try lia; [|by eapply (IH i j); try lia].
  apply list_elem_of_lookup_2 in Hb. apply list_elem_of_In in Hb. by apply (proj1 (Forall_forall _ _) Hx).
Qed.

(** The first and the last of the sorted samples bound all of them. *)
Lemma extremes_correct samples :
  0 < len samples ≤ SIZE_MAX →
  let sorted := sort_samples samples in
  ∃ low high, sample sorted 0 = Some low ∧ sample sorted (size_sub (len samples) 1) = Some high ∧
    low ∈ samples ∧ high ∈ samples ∧ Forall (λ x, low ≤ x ≤ high) samples.
Proof.
  intros Hl sorted. assert (Hls : len sorted = len samples) by apply len_sort_samples.
  unfold size_sub. rewrite size_of_Z_small by (unfold SIZE_MAX in *; lia).
  destruct (sample_Some sorted 0) as (low & -> & Hlow & Hli); [lia|].
  destruct (sample_Some sorted (len samples - 1)) as (high & -> & Hhigh & Hhi); [lia|].
  exists low, high. unfold sorted in Hli, Hhi. rewrite (sort_samples_permutation samples) in Hli, Hhi.
  split_and!; try done. apply Forall_forall. intros x Hx%list_elem_of_In.
  rewrite <-(sort_samples_permutation samples) in Hx. apply list_elem_of_lookup_1 in Hx as [i Hi].
  pose proof (lookup_lt_Some _ _ _ Hi) as Hlt. fold sorted in Hi, Hlt. unfold len in *.
  pose proof (sort_samples_sorted samples). split; [eapply (sorted_lookup sorted 0 i); [done|exact Hlow|done|lia]|].
  eapply (sorted_lookup sorted i); [done|done|exact Hhigh|lia].
Qed.

(** Sorting has one outcome, whatever algorithm [qsort] uses. *)
Lemma sort_samples_unique l l' : l' ≡ₚ l → StronglySorted Z.le l' → l' = sort_samples l.
Proof.
  intros Hp Hs. apply (StronglySorted_unique Z.le); [done|apply sort_samples_sorted|].
  by rewrite (sort_samples_permutation l).
Qed.

(** ** Concrete inputs *)

Definition example_samples : list Z := [40; 10; 30; 20; 50; 2 ^ 64 - 1].

Lemma parse_count_numeral_witness :
  0 ≤ 18446744073709551616 ∧ parse_count (dec 18446744073709551616) = None.
Proof. split; [done|]. apply (parse_count_numeral 18446744073709551616). done. Defined.

Lemma parse_count_blank_minus_witness :
  0 < 1 ≤ SIZE_MAX ∧ parse_count "-1" = None ∧ parse_count " -1" = Some (2 ^ 64 - 1).
Proof. split; [done|]. apply (parse_count_blank_minus 1). done. Defined.

Lemma nearest_rank_correct_witness :
  let sorted := sort_samples example_samples in
  nearest_rank sorted 6 95 100 = Some (2 ^ 64 - 1) ∧
  ∃ v, nearest_rank sorted (len sorted) 95 100 = Some v ∧ v ∈ example_samples ∧
    95 * len example_samples ≤ 100 * at_most v example_samples ∧
    100 * less_than v example_samples < 95 * len example_samples.
Proof. split; [by vm_compute|]. apply (nearest_rank_correct example_samples 95 100); done. Defined.

Lemma median_ns_correct_witness :
  let sorted := sort_samples example_samples in
  median_ns sorted 6 = Some 35 ∧
  ∃ m, median_ns sorted (len sorted) = Some m ∧
    (Z.odd (len example_samples) = true → sorted !! Z.to_nat (len example_samples / 2) = Some m) ∧
    (Z.odd (len example_samples) = false → ∃ a b, sorted !! Z.to_nat (len example_samples / 2 - 1) = Some a ∧
       sorted !! Z.to_nat (len example_samples / 2) = Some b ∧ m = (a + b) / 2).
Proof. split; [by vm_compute|]. apply (median_ns_correct example_samples); [done|]. by repeat constructor. Defined.
