(* ===== verification/Der.v ===== *)
(** * DER

    The encoding of the elements the ASN.1 templates describe, and a reader of
    elements: an encoding determines its parts. *)

From S2P Require Import Prelude.

(** ** Encoding *)

(** The octets of a positive number, most significant first. *)
Fixpoint be_octets (fuel : nat) (n : Z) : list byte :=
  match fuel with
  | O => []
  | S fuel => if n <=? 0 then [] else be_octets fuel (n / 256) ++ [byte_of_Z (n mod 256)]
  end.

(** The length of a content, at most [2 ^ 64 - 1]. *)
Definition der_length (n : Z) : list byte :=
  if n <? 128 then [byte_of_Z n]
  else let octets := be_octets 8 n in byte_of_Z (128 + len octets) :: octets.

Definition der_tlv (tag : Z) (content : list byte) : list byte :=
  byte_of_Z tag :: der_length (len content) ++ content.

Lemma len_der_tlv_pos tag content : 0 < len (der_tlv tag content).
Proof. unfold der_tlv. rewrite len_cons. pose proof (len_nonneg (der_length (len content) ++ content)). lia. Qed.

(** [ASN1_SIMPLE], [ASN1_EXP_OPT], [ASN1_IMP_OPT]: an absent field contributes
    nothing, an implicit tag replaces the first octet. *)
Definition asn1_simple (e : option (list byte)) : list byte := default [] e.
Definition asn1_exp_opt (n : Z) (e : option (list byte)) : list byte :=
  from_option (der_tlv (0xa0 + n)) [] e.
Definition asn1_imp_opt (n : Z) (e : option (list byte)) : list byte :=
  match e with Some (_ :: rest) => byte_of_Z (0x80 + n) :: rest | _ => [] end.
Definition asn1_sequence (fields : list (list byte)) : list byte := der_tlv 0x30 (concat fields).


Lemma len_der_tlv tag content : len content ≤ len (der_tlv tag content).
Proof.
  unfold der_tlv. rewrite len_cons, len_app. pose proof (len_nonneg (der_length (len content))). lia.
Qed.

(** ** Reading *)

(** The number that octets denote. *)
Definition be_value (l : list byte) : Z := foldl (λ n b, 256 * n + Z_of_byte b) 0 l.

(** The octet at the head of the length gives the length, or the number of
    octets that do: the length and what follows. *)
Definition der_read_length (l : list byte) : option (Z * list byte) :=
  match l with
  | [] => None
  | b :: l =>
      let n := Z_of_byte b in
      if n <? 128 then Some (n, l)
      else if len l <? n - 128 then None
      else Some (be_value (ztake (n - 128) l), zdrop (n - 128) l)
  end.

(** An element: its tag, its content, what follows it. *)
Definition der_read (l : list byte) : option (Z * list byte * list byte) :=
  match l with
  | [] => None
  | tag :: l =>
      match der_read_length l with
      | Some (n, l) => if len l <? n then None else Some (Z_of_byte tag, ztake n l, zdrop n l)
      | None => None
      end
  end.

Lemma be_value_app l b : be_value (l ++ [b]) = 256 * be_value l + Z_of_byte b.
Proof. unfold be_value. by rewrite foldl_app. Qed.

Lemma be_value_octets fuel n : 0 ≤ n < 256 ^ Z.of_nat fuel → be_value (be_octets fuel n) = n.
Proof.
  revert n. induction fuel as [|fuel IH]; intros n; cbn [be_octets]; [change (be_value []) with 0; lia|].
  rewrite Nat2Z.inj_succ, Z.pow_succ_r by lia. intros Hn. destruct (Z.leb_spec n 0); [unfold be_value; cbn; lia|].
  assert (0 ≤ n / 256 < 256 ^ Z.of_nat fuel) by (split; [apply Z.div_pos|apply Z.div_lt_upper_bound]; lia).
  rewrite be_value_app, IH, Z_of_byte_of_Z, Z.mod_mod by lia. pose proof (Z.div_mod n 256). lia.
Qed.

Lemma len_be_octets fuel n : len (be_octets fuel n) ≤ Z.of_nat fuel.
Proof.
  revert n. induction fuel as [|fuel IH]; intros n; cbn [be_octets]; [done|].
  destruct (n <=? 0); [rewrite len_nil; lia|]. rewrite len_app, len_cons, len_nil.
  specialize (IH (n / 256)). lia.
Qed.

Lemma der_read_length_app n rest :
  0 ≤ n < 2 ^ 64 → der_read_length (der_length n ++ rest) = Some (n, rest).
Proof.
  intros Hn. unfold der_length. destruct (Z.ltb_spec n 128).
  - cbn [app der_read_length]. rewrite Z_of_byte_of_Z, Z.mod_small by lia.
    by destruct (Z.ltb_spec n 128); [|lia].
  - pose proof (len_be_octets 8 n) as Hl. pose proof (len_nonneg (be_octets 8 n)).
    cbn [app der_read_length]. rewrite Z_of_byte_of_Z, Z.mod_small by lia.
    destruct (Z.ltb_spec (128 + len (be_octets 8 n)) 128); [lia|].
    rewrite Z.add_simpl_l, len_app.
    pose proof (len_nonneg rest). destruct (Z.ltb_spec (len (be_octets 8 n) + len rest) (len (be_octets 8 n))); [lia|].
    rewrite ztake_app, zdrop_app by done. by rewrite be_value_octets.
Qed.

(** An element is read back, and what follows it is left. *)
Lemma der_read_tlv tag content rest :
  0 ≤ tag < 256 → len content < 2 ^ 64 →
  der_read (der_tlv tag content ++ rest) = Some (tag, content, rest).
Proof.
  intros Ht Hc. pose proof (len_nonneg content). unfold der_tlv. cbn [app der_read].
  rewrite <-app_assoc, der_read_length_app by lia. rewrite len_app. pose proof (len_nonneg rest).
  destruct (Z.ltb_spec (len content + len rest) (len content)); [lia|].
  rewrite Z_of_byte_of_Z, Z.mod_small by lia. by rewrite ztake_app, zdrop_app.
Qed.

(** [e] is an element. *)
Definition element (e : list byte) : Prop :=
  ∃ tag content, e = der_tlv tag content ∧ 0 ≤ tag < 256 ∧ len content < 2 ^ 64.

(** Elements at the head of equal lists are equal. *)
Lemma element_app_inj e e' r r' : element e → element e' → e ++ r = e' ++ r' → e = e' ∧ r = r'.
Proof.
  intros (t & c & -> & Ht & Hc) (t' & c' & -> & Ht' & Hc') Heq. apply (f_equal der_read) in Heq.
  rewrite !der_read_tlv in Heq by done. by injection Heq as <- <- <-.
Qed.

(** An element is not empty, so a list of elements is read off their concatenation. *)
Lemma element_not_nil e : element e → e ≠ [].
Proof. by intros (t & c & -> & _). Qed.

Lemma elements_inj l l' :
  Forall element l → Forall element l' → concat l = concat l' → l = l'.
Proof.
  intros Hl. revert l'. induction Hl as [|e l He Hl IH]; intros l' Hl'; destruct Hl' as [|e' l' He' Hl']; cbn.
  - done.
  - intros Heq. symmetry in Heq. apply app_nil in Heq as [Heq _]. by apply element_not_nil in He'.
  - intros Heq. apply app_nil in Heq as [Heq _]. by apply element_not_nil in He.
  - intros Heq. apply element_app_inj in Heq as [-> Heq]; [|done..]. f_equal. by apply IH.
Qed.

Lemma der_tlv_inj tag tag' c c' :
  0 ≤ tag < 256 → 0 ≤ tag' < 256 → len c < 2 ^ 64 → len c' < 2 ^ 64 →
  der_tlv tag c = der_tlv tag' c' → tag = tag' ∧ c = c'.
Proof.
  intros Ht Ht' Hc Hc' Heq. apply (f_equal der_read) in Heq.
  rewrite <-(app_nil_r (der_tlv tag c)), <-(app_nil_r (der_tlv tag' c')), !der_read_tlv in Heq by done.
  by injection Heq as <- <-.
Qed.

#[global] Arguments be_octets : simpl never.
#[global] Arguments der_length : simpl never.
#[global] Arguments der_tlv : simpl never.
