(* ===== verification/Environment.v ===== *)
(** * A concrete environment

    Small functions in the place of the libraries, on which the hypotheses of
    the theorems hold: keys are bytes, digests are prefixes, a signature
    repeats its key and its message, certificates are records, encryption
    leaves the text as it is and files never fail. They make no claim about the
    libraries. *)

From S2P Require Import Prelude Machine External Posix.

Definition env_libc : Libc := {| alloc_ok _ _ := true; uninit _ _ := Byte.xaa |}.

(** The first [n] bytes of [l], padded. *)
Definition fit (n : Z) (l : list byte) : list byte := ztake n (l ++ zeros (Z.to_nat n)).

Lemma len_fit n l : 0 ≤ n → len (fit n l) = n.
Proof.
  intros. apply len_ztake. rewrite len_app, len_zeros. pose proof (len_nonneg l). lia.
Qed.

(** ** Dilithium2 *)

Definition env_dilithium_sign (b : byte) (m : list byte) : list byte := fit 2420 (b :: m).

Definition env_dilithium : Dilithium2 := {|
  dilithium2_ref_keypair t :=
    (0, fit 1312 [byte_of_Z (Z.of_N t)], fit 2560 [byte_of_Z (Z.of_N t)]);
  dilithium2_ref_signature m _ sk _ := (0, env_dilithium_sign (hd Byte.x00 sk) m);
  dilithium2_ref_verify sig m _ pk :=
    if decide (sig = env_dilithium_sign (hd Byte.x00 pk) m) then 0 else -1
|}.

Lemma env_dilithium_sizes : @Dilithium2Sizes env_dilithium.
Proof.
  split; cbn.
  - intros t rc pk sk [= <- <- <-]. rewrite !len_fit; lia.
  - intros t pk sk [= <- <-]. rewrite !len_fit; lia.
  - intros m ctx sk t rc sig [= <- <-]. unfold env_dilithium_sign. rewrite len_fit; lia.
Qed.

(** ** SM2 and SM3 *)

Definition env_point (k : byte) : list byte := Byte.x04 :: replicate 64 k.

(** An ECDSA-Sig-Value of two one-byte integers. *)
Definition env_der (r s : byte) : list byte :=
  [Byte.x30; Byte.x06; Byte.x02; Byte.x01; r; Byte.x02; Byte.x01; s].

Definition env_small (z : Z) : byte := byte_of_Z (1 + z mod 100).

Definition env_sm2_sign (k : byte) (m : list byte) : list byte :=
  env_der (env_small (Z_of_byte k)) (env_small (foldr (λ b z, Z_of_byte b + z) 0 m)).

Definition env_decode (e : list byte) : option ((Z * Z) * Z) :=
  match e with
  | b0 :: b1 :: b2 :: b3 :: r :: b5 :: b6 :: s :: _ =>
      if decide ([b0; b1; b2; b3; b5; b6] = [Byte.x30; Byte.x06; Byte.x02; Byte.x01; Byte.x02; Byte.x01])
      then Some ((Z_of_byte r, Z_of_byte s), 8) else None
  | _ => None
  end.

Definition env_openssl : OpenSSL := {|
  EVP_PKEY := byte;
  EVP_PKEY_is_a _ name := if String.eqb name "SM2" then 1 else 0;
  EVP_PKEY_up_ref _ := 1;
  EVP_PKEY_get_pub k cap _ := if 65 <=? cap then (1, env_point k) else (0, []);
  EVP_PKEY_CTX := option byte;
  EVP_PKEY_CTX_new_from_name _ _ := Some None;
  EVP_PKEY_CTX_new_from_pkey k _ := Some k;
  EVP_PKEY_keygen_init c _ := (1, c);
  EVP_PKEY_generate _ t := (1, Some (byte_of_Z (Z.of_N t)));
  EVP_PKEY_fromdata_init c _ := (1, c);
  EVP_PKEY_fromdata_public _ _ e _ :=
    match e with
    | _ :: k :: _ => if decide (e = env_point k) then (1, Some k) else (0, None)
    | _ => (0, None)
    end;
  EVP_PKEY_public_check _ _ := 1;
  EVP_PKEY_private_check _ _ := 1;
  EVP_Digest_sm3 m _ := Some (fit 32 m);
  EVP_Digest_sha256 m _ := Some (fit 32 (Byte.xff :: m));
  EVP_MD_CTX := option byte;
  EVP_MD_CTX_new _ := Some None;
  EVP_DigestSignInit_ex _ _ k _ := (1, Some k);
  EVP_DigestVerifyInit_ex _ _ k _ := (1, Some k);
  EVP_PKEY_CTX_set1_id c _ _ := (1, c);
  EVP_DigestSign_size _ _ _ := (1, 16);
  EVP_DigestSign c cap m _ :=
    match c with
    | Some k => if 8 <=? cap then (1, env_sm2_sign k m) else (0, [])
    | None => (0, [])
    end;
  EVP_DigestVerify c sig m _ :=
    match c with
    | Some k => if decide (sig = env_sm2_sign k m) then 1 else 0
    | None => -1
    end;
  ECDSA_SIG := Z * Z;
  ECDSA_SIG_get0 s := (Some (fst s), Some (snd s));
  d2i_ECDSA_SIG e _ := env_decode e;
  i2d_ECDSA_SIG s _ := (8, Some (env_der (byte_of_Z (fst s)) (byte_of_Z (snd s))))
|}.

Lemma env_openssl_sizes : @OpenSSLSizes env_openssl.
Proof.
  split; cbn.
  - intros k cap t rc pub. destruct (Z.leb_spec 65 cap); intros [= <- <-]; unfold len; cbn; lia.
  - intros m t d [= <-]. rewrite len_fit; lia.
  - intros m t d [= <-]. by rewrite len_fit.
  - intros _ _ _ n <-. cbn. unfold SIZE_MAX. lia.
  - intros c cap m t rc sig. destruct c as [k|]; [|intros [= <- <-]]; unfold len; cbn;
      [destruct (Z.leb_spec 8 cap); intros [= <- <-]; cbn; lia|lia].
  - intros s t n buf [= <- <-] _. split; [unfold INT_MAX; lia|]. by eexists.
Qed.

(** ** Ciphers, PEM and files *)

Definition env_pem_write (k : byte) (_ : string) (pass : list byte) (_ : N) : Z * list byte :=
  (1, k :: pass).
Definition env_pem_read (content : list byte) (cb : Z → Z * list byte) (_ : N) : option byte :=
  match content with
  | k :: pass => if decide (0 < fst (cb 1024) ∧ snd (cb 1024) = pass) then Some k else None
  | [] => None
  end.

(** A context collects what it was given; the ciphertext is the text, the tag
    a prefix of what was collected. *)
Definition env_cipher : @OpenSSLCipher env_openssl := {|
  RAND_bytes n t := (1, fit n [byte_of_Z (Z.of_N t)]);
  PKCS5_PBKDF2_HMAC p salt _ _ n _ := (1, fit n (p ++ salt));
  EVP_CIPHER_CTX := list byte * list byte;
  EVP_CIPHER_CTX_new _ := Some ([], []);
  EVP_EncryptInit_cipher c _ _ := (1, c);
  EVP_EncryptInit_key c key iv _ := (1, (fst c ++ key ++ iv, snd c));
  EVP_DecryptInit_cipher c _ _ := (1, c);
  EVP_DecryptInit_key c key iv _ := (1, (fst c ++ key ++ iv, snd c));
  EVP_CIPHER_CTX_set_ivlen c _ _ := (1, c);
  EVP_EncryptUpdate_aad c a _ := (1, (fst c ++ a, snd c));
  EVP_DecryptUpdate_aad c a _ := (1, (fst c ++ a, snd c));
  EVP_EncryptUpdate c m _ := (1, (m, (fst c ++ m, snd c)));
  EVP_DecryptUpdate c m _ := (1, (m, (fst c ++ m, snd c)));
  EVP_EncryptFinal_ex c _ := (1, ([], c));
  EVP_DecryptFinal_ex c _ := (if decide (snd c = fit 16 (fst c)) then 1 else 0, ([], c));
  EVP_CIPHER_CTX_get_tag c n _ := (1, fit n (fst c));
  EVP_CIPHER_CTX_set_tag c t _ := (1, (fst c, t));
  PEM_write_PKCS8PrivateKey := env_pem_write : @EVP_PKEY env_openssl → string → list byte → N → Z * list byte;
  PEM_read_PrivateKey := env_pem_read : list byte → (Z → Z * list byte) → N → option (@EVP_PKEY env_openssl)
|}.

Lemma env_cipher_sizes : @CipherSizes _ env_cipher.
Proof.
  split; cbn.
  - intros n t rc l [= <- <-] ?. rewrite len_fit by done. lia.
  - intros p s i d n t rc k [= <- <-] ?. rewrite len_fit by done. lia.
  - intros c m t rc o c' [= <- <- <-]. lia.
  - intros c m t rc o c' [= <- <- <-]. lia.
  - by intros c t rc o c' [= <- <- <-].
  - by intros c t rc o c' [= <- <- <-].
  - intros c n t rc l [= <- <-] ?. rewrite len_fit by done. lia.
Qed.

(** No call fails; a transfer handles seven bytes at a time. *)
Definition env_posix : Posix := {|
  umask := 0x12;
  BUFSIZ := 4096;
  sys_fault _ _ _ := 0;
  io_count _ _ _ := 7
|}.

Lemma env_reliable_files : @reliable_files env_posix.
Proof. by split. Qed.

(** ** Certificates *)

Record env_cert := Cert {
  c_subject : Z;
  c_issuer : Z;
  (* the comparisons of the validity with the current time *)
  c_before : Z;
  c_after : Z;
  c_tbs : list byte;
  c_signature : list byte;
  c_algorithm : string;
  c_spki_algorithm : string;
  c_spki : list byte;
  c_sm2 : option byte;
  c_ca : Z;
  c_usage : list byte;
  c_purposes : list string;
  c_names : list GENERAL_NAME;
  c_subject_id : list byte;
  c_authority_id : list byte;
  c_marker : option (list byte);
  c_host : string
}.

Definition env_fits (l : list byte) : bool := len l <=? INT_MAX.

(** Certificates have no encoding of their own: [decode] supplies one. *)
Definition env_x509_with (decode : list byte → option (env_cert * Z)) : @X509Library env_openssl := {|
  X509 := env_cert;
  X509_NAME := Z;
  ASN1_TIME := Z;
  ASN1_OBJECT := string;
  X509_ALGOR := string;
  X509_PUBKEY := string * list byte;
  X509_EXTENSION := list byte;
  X509_get_subject_name := c_subject;
  X509_get_issuer_name := c_issuer;
  X509_NAME_cmp a b := a - b;
  X509_get0_notBefore := c_before;
  X509_get0_notAfter := c_after;
  X509_cmp_current_time v _ := v;
  X509_get0_signature c :=
    (if env_fits (c_signature c) then Some (BitString 0 (c_signature c)) else None,
     Some (c_algorithm c));
  X509_get0_tbs_sigalg c := Some (c_algorithm c);
  X509_get_X509_PUBKEY c := Some (c_spki_algorithm c, c_spki c);
  X509_get0_pubkey_bitstr c := Some (BitString 0 (c_spki c));
  X509_get_pubkey := λ c _, c_sm2 c : option (@EVP_PKEY env_openssl);
  i2d_re_X509_tbs c _ :=
    if env_fits (c_tbs c) then (len (c_tbs c), Some (c_tbs c)) else (-1, None);
  d2i_X509 e _ := decode e;
  X509_check_host c host := if String.eqb host (c_host c) then 1 else 0;
  X509_ALGOR_get0 a := (Some a, -1);
  X509_PUBKEY_get0_param k :=
    if env_fits (snd k) then (1, (Some (snd k), len (snd k), Some (fst k))) else (0, (None, 0, None));
  OBJ_txt2obj o _ _ := Some o;
  OBJ_obj2txt _ o _ := (strlen o, o);
  OBJ_obj2nid o := if String.eqb o "1.3.6.1.5.5.7.3.1" then 129 else 0;
  OBJ_cmp a b := if String.eqb a b then 0 else 1;
  X509_get_ext_by_OBJ c o start :=
    if String.eqb o "1.3.6.1.4.1.2.267.7" && negb (is_null (c_marker c)) && (start <? 0) then 0 else -1;
  X509_get_ext c _ := c_marker c;
  X509_EXTENSION_get_critical _ := 0;
  X509_EXTENSION_get_data := Some;
  ASN1_BIT_STRING_get_bit u n := if decide (byte_of_Z n ∈ bits_data u) then 1 else 0;
  X509_get_ext_basic_constraints c _ := (Some (BasicConstraints (c_ca c)), 1);
  X509_get_ext_key_usage c _ := (Some (BitString 0 (c_usage c)), 1);
  X509_get_ext_ext_key_usage c _ := Some (c_purposes c);
  X509_get_ext_subject_alt_name c _ := Some (c_names c);
  X509_get_ext_subject_key_identifier c _ := Some (c_subject_id c);
  X509_get_ext_authority_key_identifier c _ := Some (AuthorityKeyid (Some (c_authority_id c)))
|}.

Definition env_x509 : @X509Library env_openssl := env_x509_with (λ _, None).

Lemma env_x509_with_sizes decode :
  (∀ e c n, decode e = Some (c, n) → 0 ≤ n ≤ len e) → @X509Sizes _ (env_x509_with decode).
Proof.
  intros Hd. split; cbn.
  - intros c t n buf. destruct (env_fits _) eqn:E; intros [= <- <-] ?; [|lia].
    split; [by apply Z.leb_le|]. by eexists.
  - intros [o k] rc p n a. cbn. destruct (env_fits k) eqn:E; intros [= <- <- <- <-] ?; [|done].
    split; [by apply Z.leb_le|]. by eexists.
  - intros e _ c n. apply Hd.
  - intros c b a. destruct (env_fits _) eqn:E; [|done]. intros [= <- <-]. by apply Z.leb_le.
Qed.

Lemma env_x509_sizes : @X509Sizes _ env_x509.
Proof. by apply env_x509_with_sizes. Qed.

(** ** ML-KEM *)

(** A key pair is a byte, a ciphertext another, the secret both. *)
Definition env_liboqs : Liboqs := {|
  OQS_version := "0.0.0";
  OQS_KEM_alg_is_enabled _ := 1;
  OQS_KEM_new name _ := Some (OqsKem (Some name) (Some "FIPS203") 1184 2400 1088 32);
  OQS_KEM_keypair k t :=
    (0, (fit (length_public_key k) [byte_of_Z (Z.of_N t)],
         fit (length_secret_key k) [byte_of_Z (Z.of_N t)]));
  OQS_KEM_encaps k pk t :=
    (0, (fit (length_ciphertext k) [byte_of_Z (Z.of_N t)],
         fit (length_shared_secret k) [hd Byte.x00 pk; byte_of_Z (Z.of_N t)]));
  OQS_KEM_decaps k ct sk _ :=
    (0, fit (length_shared_secret k) [hd Byte.x00 sk; hd Byte.x00 ct])
|}.

Lemma env_liboqs_sizes : @LiboqsSizes env_liboqs.
Proof.
  assert (Hf : ∀ rc n l, fills rc (fit n l) n) by (intros rc n l Hn; rewrite len_fit; lia).
  split; cbn.
  - intros k t rc pk sk [= <- <- <-]. done.
  - intros k pk t rc ct ss [= <- <- <-]. done.
  - intros k ct sk t rc ss [= <- <-]. done.
Qed.

Lemma env_kem_correct : @KemCorrect env_liboqs.
Proof.
  split. cbn. intros name t0 k t t' t'' pk sk ct ss rc ss' [= <-] [= <- <-] [= <- <-] [= <- <-].
  done.
Qed.

(** ** States *)

(** A state with nothing allocated and no file. *)
Definition empty_state : state := State 0 ∅ 1 [] ∅ [].

(** The same with the objects named in [l] live. *)
Definition env_state (l : list positive) : state :=
  State 0 (list_to_set_disj l) 100 [] ∅ [].

Lemma env_alive {A} (o : obj A) l : obj_id o ∈ l → alive (Some o) (env_state l).
Proof.
  intros H. unfold alive, owns, env_state. cbn [live].
  apply gmultiset_singleton_subseteq_l. by apply elem_of_list_to_set_disj.
Qed.
