(* ===== verification/Dilithium.v ===== *)
(** * dilithium_wrapper.c

    The wrapper of the Dilithium2 reference implementation: argument checks,
    the ownership of the signature buffer and the size check of its result. *)

From S2P Require Import Prelude Machine External.

Definition DILITHIUM_PUBLIC_KEY_BYTES : Z := 1312.
Definition DILITHIUM_SECRET_KEY_BYTES : Z := 2560.
Definition DILITHIUM_SIGNATURE_BYTES : Z := 2420.

#[export] Hint Unfold DILITHIUM_PUBLIC_KEY_BYTES DILITHIUM_SECRET_KEY_BYTES
  DILITHIUM_SIGNATURE_BYTES : consts.

Definition dilithium_algorithm_name : string := "CRYSTALS-Dilithium2".

Section dilithium.
Context `{Libc, Dilithium2}.

(** The keys are written into the caller's buffers, whose new contents are
    returned with the result. *)
Definition dilithium_generate_keypair
    (public_key : ptr) (public_key_capacity : Z)
    (secret_key : ptr) (secret_key_capacity : Z) : M (bool * (ptr * ptr)) :=
  match public_key, secret_key with
  | Some pkbuf, Some skbuf =>
      if (public_key_capacity <? DILITHIUM_PUBLIC_KEY_BYTES) ||
         (secret_key_capacity <? DILITHIUM_SECRET_KEY_BYTES)
      then mret (false, (public_key, secret_key))
      else
        '(rc, pk, sk) ← call dilithium2_ref_keypair;
        pkbuf ← memcpy pkbuf 0 pk;
        skbuf ← memcpy skbuf 0 sk;
        mret (rc =? 0, (Some pkbuf, Some skbuf))
  | _, _ => mret (false, (public_key, secret_key))
  end.

Definition dilithium_sign
    (secret_key : ptr) (secret_key_len : Z)
    (message : ptr) (message_len : Z) (signature : outbuf) : M (bool * outbuf) :=
  if out_null signature then mret (false, signature)
  else
    let signature := fresh_out in
    if is_null secret_key || negb (secret_key_len =? DILITHIUM_SECRET_KEY_BYTES) ||
       (is_null message && negb (message_len =? 0))
    then mret (false, signature)
    else
      output ← malloc DILITHIUM_SIGNATURE_BYTES;
      match output with
      | None => mret (false, signature)
      | Some buf =>
          m ← read message message_len;
          sk ← read secret_key secret_key_len;
          '(rc, sig) ← call (dilithium2_ref_signature m [] sk);
          buf ← memcpy_block buf 0 sig;
          let output_len := len sig in
          if negb (rc =? 0) || negb (output_len =? DILITHIUM_SIGNATURE_BYTES)
          then free_object (Some buf);; mret (false, signature)
          else mret (true, set_out buf output_len)
      end.

Definition dilithium_verify
    (public_key : ptr) (public_key_len : Z)
    (message : ptr) (message_len : Z)
    (signature : ptr) (signature_len : Z) : M bool :=
  if is_null public_key || negb (public_key_len =? DILITHIUM_PUBLIC_KEY_BYTES) ||
     is_null signature || negb (signature_len =? DILITHIUM_SIGNATURE_BYTES) ||
     (is_null message && negb (message_len =? 0))
  then mret false
  else
    sig ← read signature signature_len;
    m ← read message message_len;
    pk ← read public_key public_key_len;
    mret (dilithium2_ref_verify sig m [] pk =? 0).

Definition dilithium_clear_secret_key (secret_key : ptr) (secret_key_len : Z) : M ptr :=
  match secret_key with
  | None => mret None
  | Some buf => buf ← cleanse buf secret_key_len; mret (Some buf)
  end.
End dilithium.

#[global] Arguments dilithium_generate_keypair : simpl never.
#[global] Arguments dilithium_sign : simpl never.
#[global] Arguments dilithium_verify : simpl never.
#[global] Arguments dilithium_clear_secret_key : simpl never.

(** ** Specifications *)

Section specs.
Context `{Libc, Dilithium2, !Dilithium2Sizes}.

(** [sig] was produced by the reference signer for [m] under [sk], with an
    empty context. *)
Definition dilithium_signed (sk m sig : list byte) : Prop :=
  ∃ t, dilithium2_ref_signature m [] sk t = (0, sig).

(** The signer never fails on [m] under [sk]. *)
Definition dilithium_always_signs (sk m : list byte) : Prop :=
  always _ (dilithium2_ref_signature m [] sk) (λ r,
    fst r = 0 ∧ len (snd r) = DILITHIUM_SIGNATURE_BYTES).

(** The reference verifier accepts [sig] for [m] under [pk], with an empty
    context. *)
Definition dilithium_verifies (pk m sig : list byte) : bool :=
  dilithium2_ref_verify sig m [] pk =? 0.

(** [pk] and [sk] are the halves of a key pair the reference generated. *)
Definition dilithium_keypair (pk sk : list byte) : Prop :=
  ∃ t, dilithium2_ref_keypair t = (0, pk, sk).

(** Key generation never fails. *)
Definition dilithium_always_generates : Prop := always _ dilithium2_ref_keypair (λ r, fst (fst r) = 0).

#[export] Instance spec_dilithium_generate_keypair pkbuf pkcap skbuf skcap :
  Spec (dilithium_generate_keypair (Some pkbuf) pkcap (Some skbuf) skcap)
    (λ _, pkcap = len pkbuf ∧ skcap = len skbuf)
    (λ r s s', frame ∅ ∅ s s' ∧ ∃ pkbuf' skbuf',
       snd r = (Some pkbuf', Some skbuf') ∧ len pkbuf' = len pkbuf ∧ len skbuf' = len skbuf ∧
       (fst r = true → ∃ pk sk, dilithium_keypair pk sk ∧
          pkbuf' = splice 0 pk pkbuf ∧ skbuf' = splice 0 sk skbuf) ∧
       (DILITHIUM_PUBLIC_KEY_BYTES ≤ pkcap → DILITHIUM_SECRET_KEY_BYTES ≤ skcap →
          dilithium_always_generates → fst r = true)).
Proof.
  wp_start. destruct P as [-> ->]. unfold dilithium_generate_keypair.
  wp_case ((len pkbuf <? DILITHIUM_PUBLIC_KEY_BYTES) || (len skbuf <? DILITHIUM_SECRET_KEY_BYTES)).
  { apply wp_ret. split; [done|]. eexists _, _. split_and!; [done..|lia]. }
  wp_call as [[rc pk] sk] [F Hk]. pose proof (dilithium2_keypair_fits _ _ _ _ Hk) as [? ?].
  unfold DILITHIUM_PUBLIC_KEY_BYTES, DILITHIUM_SECRET_KEY_BYTES in *.
  wp_call as r [-> ->]. wp_call as r [-> ->].
  apply wp_ret. split; [solve_frame|]. eexists _, _. split; [done|].
  rewrite !len_splice by lia. split_and!; try done.
  - intros Hrc%Z.eqb_eq. subst rc. exists pk, sk. split; [by eexists|done].
  - intros _ _ Hal. unfold dilithium_always_generates in Hal. always_auto. by apply Z.eqb_eq.
Qed.

#[export] Instance spec_dilithium_sign sk sklen m mlen out :
  Spec (dilithium_sign sk sklen m mlen out)
    (λ _, out_null out = false ∧ valid sk sklen ∧ valid m mlen)
    (λ r s s', yields ∅ out_owns (out_post (λ b n,
         n = DILITHIUM_SIGNATURE_BYTES ∧ len (obj_val b) = n ∧
         dilithium_signed (bytes_at sk sklen) (bytes_at m mlen) (obj_val b))) r s s' ∧
       (reliable_malloc → is_Some sk → sklen = DILITHIUM_SECRET_KEY_BYTES → readable m mlen →
          dilithium_always_signs (bytes_at sk sklen) (bytes_at m mlen) → fst r = true)).
Proof.
  wp_start. destruct P as (Hout & Hsk & Hm). unfold dilithium_sign. rewrite Hout.
  wp_case (is_null sk || negb (sklen =? DILITHIUM_SECRET_KEY_BYTES) || (is_null m && negb (mlen =? 0))).
  { apply wp_ret. split; [by wp_end|]. intros _ [? ->] -> Hr _. destruct m; cbn in *; lia. }
  wp_call as [buf|] [F Hbuf]; [|by (apply wp_ret; split; [by wp_end|]; intros Hr; rewrite Hr in Hbuf)].
  wp_call as r [-> ->]. wp_call as r [-> ->].
  wp_call as [rc sig] [F1 Hsig].
  wp_call as r [-> ->].
  { apply dilithium2_signature_size in Hsig. unfold DILITHIUM_SIGNATURE_BYTES in Hbuf. lia. }
  wp_case (negb (rc =? 0) || negb (len sig =? DILITHIUM_SIGNATURE_BYTES)).
  { wp_call as r F2. apply wp_ret. split; [by wp_end|]. intros _ _ _ _ Hal.
    unfold dilithium_always_signs in Hal. always_auto. }
  apply wp_ret. split; [|done]. wp_end. eexists _, _. split; [done|]. cbn [obj_val set_val].
  rewrite splice_whole by congruence. split_and!; [done..|by eexists].
Qed.

#[export] Instance spec_dilithium_verify pk pklen m mlen sig siglen :
  Spec (dilithium_verify pk pklen m mlen sig siglen)
    (λ _, valid pk pklen ∧ valid m mlen ∧ valid sig siglen)
    (λ r s s', s' = s ∧
       r = (negb (is_null pk || negb (pklen =? DILITHIUM_PUBLIC_KEY_BYTES) ||
                  is_null sig || negb (siglen =? DILITHIUM_SIGNATURE_BYTES) ||
                  (is_null m && negb (mlen =? 0))) &&
            dilithium_verifies (bytes_at pk pklen) (bytes_at m mlen) (bytes_at sig siglen))).
Proof.
  wp_start. destruct P as (Hpk & Hm & Hsig). unfold dilithium_verify.
  destruct (_ || _) eqn:E; simpl_bool; simplify_eq/=; [by apply wp_ret|].
  wp_call as r [-> ->]. wp_call as r [-> ->]. wp_call as r [-> ->]. by apply wp_ret.
Qed.

#[export] Instance spec_dilithium_clear_secret_key b n :
  Spec (dilithium_clear_secret_key (Some b) n) (λ _, n = len b)
    (λ r s s', s' = s ∧ r = Some (zeros (length b))).
Proof.
  wp_start. subst. unfold dilithium_clear_secret_key. pose proof (len_nonneg b).
  wp_call as r [-> ->]. apply wp_ret. by rewrite cleanse_whole.
Qed.
End specs.
