(* ===== verification/Sm2.v ===== *)
(** * sm2_wrapper.c

    Key generation, SM2-with-SM3 signing and verification through OpenSSL's
    EVP interface, with the default user identifier. *)

From S2P Require Import Prelude Machine External.

Definition SM2_DEFAULT_USER_ID : list byte := lit "1234567812345678".

Section sm2.
Context `{Libc, OpenSSL}.

Definition hybrid_sm2_generate_keypair : M (option (obj EVP_PKEY)) :=
  context ← new_object (EVP_PKEY_CTX_new_from_name "SM2");
  key ← match context with
        | None => mret None
        | Some cx =>
            c ← deref cx;
            '(rc, c) ← call (EVP_PKEY_keygen_init c);
            if rc <=? 0 then mret None
            else
              r ← call (EVP_PKEY_generate c);
              key ← new_object (λ _, snd r);
              if fst r <=? 0 then free_object key;; mret None else mret key
        end;
  free_object context;;
  mret key.

Definition hybrid_sm2_sign (private_key : option (obj EVP_PKEY))
    (message : ptr) (message_len : Z) (signature : outbuf) : M (bool * outbuf) :=
  if out_null signature then mret (false, signature)
  else
    let signature := fresh_out in
    match private_key with
    | None => mret (false, signature)
    | Some key =>
        if is_null message && negb (message_len =? 0) then mret (false, signature)
        else
          context ← new_object EVP_MD_CTX_new;
          let done (output : option block) (r : bool * outbuf) :=
            free_object output;; free_object context;; mret r in
          match context with
          | None => done None (false, signature)
          | Some cx =>
              k ← deref key;
              '(rc, c) ← call (EVP_DigestSignInit_ex (obj_val cx) "SM3" k);
              check negb (rc <=? 0) else done None (false, signature);;
              '(rc, c) ← call (EVP_PKEY_CTX_set1_id c SM2_DEFAULT_USER_ID);
              check negb (rc <=? 0) else done None (false, signature);;
              m ← read message message_len;
              '(rc, output_len) ← call (EVP_DigestSign_size c m);
              check negb (rc <=? 0) else done None (false, signature);;
              output ← malloc output_len;
              match output with
              | None => done None (false, signature)
              | Some buf =>
                  '(rc, sig) ← call (EVP_DigestSign c output_len m);
                  buf ← memcpy_block buf 0 sig;
                  check negb (rc <=? 0) else done (Some buf) (false, signature);;
                  done None (true, set_out buf (len sig))
              end
          end
    end.

Definition hybrid_sm2_verify (public_key : option (obj EVP_PKEY))
    (message : ptr) (message_len : Z)
    (signature : ptr) (signature_len : Z) : M bool :=
  match public_key with
  | None => mret false
  | Some key =>
      if is_null signature || (is_null message && negb (message_len =? 0)) then mret false
      else
        context ← new_object EVP_MD_CTX_new;
        let done (r : bool) := free_object context;; mret r in
        match context with
        | None => done false
        | Some cx =>
            k ← deref key;
            '(rc, c) ← call (EVP_DigestVerifyInit_ex (obj_val cx) "SM3" k);
            check negb (rc <=? 0) else done false;;
            '(rc, c) ← call (EVP_PKEY_CTX_set1_id c SM2_DEFAULT_USER_ID);
            check negb (rc <=? 0) else done false;;
            sig ← read signature signature_len;
            m ← read message message_len;
            rc ← call (EVP_DigestVerify c sig m);
            done (rc =? 1)
        end
  end.
End sm2.

#[global] Arguments hybrid_sm2_generate_keypair : simpl never.
#[global] Arguments hybrid_sm2_sign : simpl never.
#[global] Arguments hybrid_sm2_verify : simpl never.

(** ** Specifications *)

Section specs.
Context `{Libc, OpenSSL, !OpenSSLSizes}.

(** A fresh digest context, initialised with SM3, the key [k] and the default
    user identifier, verifies [sig] for [m]. *)
Definition sm2_verification (Q : modality) (k : EVP_PKEY) (m sig : list byte) : Prop :=
  Q _ EVP_MD_CTX_new (on_some (λ c,
    Q _ (EVP_DigestVerifyInit_ex c "SM3" k) (on_pos (λ c,
      Q _ (EVP_PKEY_CTX_set1_id c SM2_DEFAULT_USER_ID) (on_pos (λ c,
        Q _ (EVP_DigestVerify c sig m) (eq 1))))))).

Definition sm2_verified := sm2_verification once.
Definition sm2_always_verifies := sm2_verification always.

(** Such a context, initialised for signing, produced [sig]. *)
Definition sm2_signed (k : EVP_PKEY) (m sig : list byte) : Prop :=
  once _ EVP_MD_CTX_new (on_some (λ c,
    once _ (EVP_DigestSignInit_ex c "SM3" k) (on_pos (λ c,
      once _ (EVP_PKEY_CTX_set1_id c SM2_DEFAULT_USER_ID) (on_pos (λ c,
        ∃ cap, once _ (EVP_DigestSign c cap m) (on_pos (eq sig)))))))).

(** Signing [m] with [k] never fails. *)
Definition sm2_always_signs (k : EVP_PKEY) (m : list byte) : Prop :=
  always _ EVP_MD_CTX_new (on_some (λ c,
    always _ (EVP_DigestSignInit_ex c "SM3" k) (on_pos (λ c,
      always _ (EVP_PKEY_CTX_set1_id c SM2_DEFAULT_USER_ID) (on_pos (λ c,
        always _ (EVP_DigestSign_size c m) (λ n, 0 < fst n ∧
          always _ (EVP_DigestSign c (snd n) m) (on_pos (λ _, True))))))))).

(** [k] was generated by an SM2 key context. *)
Definition sm2_generated (k : EVP_PKEY) : Prop :=
  once _ (EVP_PKEY_CTX_new_from_name "SM2") (on_some (λ c,
    once _ (EVP_PKEY_keygen_init c) (on_pos (λ c,
      once _ (EVP_PKEY_generate c) (on_pos (eq (Some k))))))).

(** Key generation never fails. *)
Definition sm2_always_generates : Prop :=
  always _ (EVP_PKEY_CTX_new_from_name "SM2") (on_some (λ c,
    always _ (EVP_PKEY_keygen_init c) (on_pos (λ c,
      always _ (EVP_PKEY_generate c) (on_pos is_Some))))).

(** A failing exit of [hybrid_sm2_generate_keypair]. *)
Ltac generation_failed :=
  repeat wp_call as ? ?; wp_end; unfold sm2_always_generates; intros Hal; always_auto.

#[export] Instance spec_hybrid_sm2_generate_keypair :
  Spec hybrid_sm2_generate_keypair (λ _, True)
    (yields ∅ owns (λ r, match r with
       | None => ¬ sm2_always_generates
       | Some o => sm2_generated (obj_val o)
       end)).
Proof.
  wp_start. unfold hybrid_sm2_generate_keypair.
  wp_call as [cx|] [F Hcx]; cbn in Hcx; [|by generation_failed].
  wp_call as r [-> ->]. wp_call as [rc c] [F1 Hc].
  wp_case (rc <=? 0); [by generation_failed|].
  wp_call as [rc' k] [F2 Hk]. wp_call as [key|] [F3 Hkey]; cbn in Hkey; subst k; cbn.
  - wp_case (rc' <=? 0); [by generation_failed|].
    wp_call as r F4. wp_end. unfold sm2_generated. once_auto.
  - wp_case (rc' <=? 0); by generation_failed.
Qed.

(** A failing exit of [hybrid_sm2_sign]. *)
Ltac sm2_failed :=
  do 2 wp_call as ? ?; apply wp_ret; split; [by wp_end|];
  intros ? [= <-] _ _ Hal; always_auto.

#[export] Instance spec_hybrid_sm2_sign key m mlen out :
  Spec (hybrid_sm2_sign key m mlen out)
    (λ s, out_null out = false ∧ alive key s ∧ valid m mlen)
    (λ r s s', yields ∅ out_owns (out_post (λ b n, 0 ≤ n ≤ len (obj_val b) ∧ n ≤ SIZE_MAX ∧
         ∃ k, key = Some k ∧
              sm2_signed (obj_val k) (bytes_at m mlen) (ztake n (obj_val b)))) r s s' ∧
       (∀ k, key = Some k → reliable_malloc → readable m mlen →
          sm2_always_signs (obj_val k) (bytes_at m mlen) → fst r = true)).
Proof.
  wp_start. destruct P as (Hout & Hkey & Hm). unfold hybrid_sm2_sign. rewrite Hout.
  destruct key as [key|]; [|apply wp_ret; by split; [wp_end|]].
  wp_case (is_null m && negb (mlen =? 0)).
  { apply wp_ret. split; [by wp_end|]. intros ? _ _ Hr _. cbn in Hr; lia. }
  unfold sm2_always_signs.
  wp_call as [cx|] [F Hcx]; cbn in Hcx; [|by sm2_failed].
  wp_call as r [-> ->]. wp_call as [r1 c1] [F1 Hr1].
  wp_case (negb (r1 <=? 0)); [|by sm2_failed].
  wp_call as [r2 c2] [F2 Hr2].
  wp_case (negb (r2 <=? 0)); [|by sm2_failed].
  wp_call as r [-> ->]. wp_call as [r3 cap] [F3 Hr3].
  wp_case (negb (r3 <=? 0)); [|by sm2_failed].
  pose proof (digest_sign_size _ _ _ _ Hr3) as Hcap. cbn [snd] in Hcap.
  wp_call as [buf|] [F4 Hr4].
  2: { do 2 wp_call as ? ?. apply wp_ret. split; [by wp_end|]. intros ? _ Hr. by rewrite Hr in Hr4. }
  wp_call as [r5 sig] [F5 Hr5]. pose proof (digest_sign_fits _ _ _ _ _ _ Hr5 ltac:(lia)).
  wp_call as r [-> ->].
  wp_case (negb (r5 <=? 0)).
  2: { do 2 wp_call as ? ?. apply wp_ret. split; [by wp_end|]. intros ? [= <-] _ _ Hal.
       always_auto. }
  do 2 wp_call as ? ?. apply wp_ret. split; [|done]. wp_end. eexists _, _. split; [done|].
  cbn [obj_val set_val]. rewrite len_splice, splice_prefix by lia.
  split; [split; [apply len_nonneg|lia]|]. split; [lia|]. exists key. split; [done|].
  unfold sm2_signed. once_auto. exists (len (obj_val buf)). once_auto.
Qed.

#[export] Instance spec_hybrid_sm2_verify key m mlen sig siglen :
  Spec (hybrid_sm2_verify key m mlen sig siglen)
    (λ s, alive key s ∧ valid m mlen ∧ valid sig siglen)
    (λ r s s', frame ∅ ∅ s s' ∧
       (r = true → ∃ k, key = Some k ∧ is_Some sig ∧
          sm2_verified (obj_val k) (bytes_at m mlen) (bytes_at sig siglen)) ∧
       (∀ k, key = Some k → is_Some sig → is_null m && negb (mlen =? 0) = false →
          sm2_always_verifies (obj_val k) (bytes_at m mlen) (bytes_at sig siglen) → r = true)).
Proof.
  wp_start. destruct P as (Hkey & Hm & Hsig). unfold hybrid_sm2_verify.
  destruct key as [key|]; [|apply wp_ret; naive_solver].
  destruct sig as [sig|]; cbn [is_null orb].
  2: { apply wp_ret. split_and!; [done..|]. intros ? _ [? ?]. done. }
  wp_case (is_null m && negb (mlen =? 0)); [apply wp_ret; naive_solver|].
  wp_call as [cx|] [F Hcx]; cbn in Hcx.
  2: { wp_call as ? ?. apply wp_ret. split; [solve_frame|]. split; [done|].
       intros k [= <-] _ _ Hal. unfold sm2_always_verifies, sm2_verification in Hal. always_auto. }
  wp_call as r [-> ->]. wp_call as [r1 c1] [F1 Hr1].
  wp_case (negb (r1 <=? 0)).
  2: { wp_call as ? ?. apply wp_ret. split; [solve_frame|]. split; [done|].
       intros k [= <-] _ _ Hal. unfold sm2_always_verifies, sm2_verification in Hal. always_auto. }
  wp_call as [r2 c2] [F2 Hr2].
  wp_case (negb (r2 <=? 0)).
  2: { wp_call as ? ?. apply wp_ret. split; [solve_frame|]. split; [done|].
       intros k [= <-] _ _ Hal. unfold sm2_always_verifies, sm2_verification in Hal. always_auto. }
  wp_call as r [-> ->]. wp_call as r [-> ->]. wp_call as r3 [F3 Hr3]. wp_call as ? ?.
  apply wp_ret. split; [solve_frame|]. split.
  - intros ->%Z.eqb_eq. exists key. split; [done|]. split; [by eexists|].
    unfold sm2_verified, sm2_verification. once_auto.
  - intros k [= <-] _ _ Hal. unfold sm2_always_verifies, sm2_verification in Hal. always_auto.
Qed.
End specs.
