(* ===== verification/CompositeKey.v ===== *)
(** * composite_key.h, composite_key.c

    Hybrid key pairs: their two components, the sharing of one [EVP_PKEY] by
    the private and public halves, and the raw encoding
    [Dilithium2PublicKey || SM2PublicKey] of a public key. *)

From S2P Require Import Prelude Machine External Environment Dilithium Sm2.

Definition SM2_UNCOMPRESSED_PUBLIC_KEY_BYTES : Z := 65.
Definition COMPOSITE_PUBLIC_KEY_BYTES : Z :=
  DILITHIUM_PUBLIC_KEY_BYTES + SM2_UNCOMPRESSED_PUBLIC_KEY_BYTES.

#[export] Hint Unfold SM2_UNCOMPRESSED_PUBLIC_KEY_BYTES COMPOSITE_PUBLIC_KEY_BYTES : consts.

Section keys.
Context `{OpenSSL}.

Record HYBRID_PRIVATE_KEY := PrivateKey {
  sm2_private_key : option (obj EVP_PKEY);
  dilithium_secret_key : list byte
}.

Record HYBRID_PUBLIC_KEY := PublicKey {
  sm2_public_key : option (obj EVP_PKEY);
  dilithium_public_key : list byte
}.

(** [memset] of the whole structure to zero *)
Definition zero_private_key : HYBRID_PRIVATE_KEY :=
  PrivateKey None (zeros (Z.to_nat DILITHIUM_SECRET_KEY_BYTES)).
Definition zero_public_key : HYBRID_PUBLIC_KEY :=
  PublicKey None (zeros (Z.to_nat DILITHIUM_PUBLIC_KEY_BYTES)).

(** A function that is given a pointer to a key returns the content it left
    there. *)
Definition hybrid_private_key_init (key : option HYBRID_PRIVATE_KEY) : option HYBRID_PRIVATE_KEY :=
  match key with None => None | Some _ => Some zero_private_key end.

Definition hybrid_private_key_cleanup (key : option HYBRID_PRIVATE_KEY)
    : M (option HYBRID_PRIVATE_KEY) :=
  match key with
  | None => mret None
  | Some k =>
      free_object (sm2_private_key k);;
      sk ← dilithium_clear_secret_key (Some (dilithium_secret_key k)) DILITHIUM_SECRET_KEY_BYTES;
      mret (hybrid_private_key_init (Some (PrivateKey (sm2_private_key k) (default [] sk))))
  end.

Definition hybrid_public_key_init (key : option HYBRID_PUBLIC_KEY) : option HYBRID_PUBLIC_KEY :=
  match key with None => None | Some _ => Some zero_public_key end.

Definition hybrid_public_key_cleanup (key : option HYBRID_PUBLIC_KEY)
    : M (option HYBRID_PUBLIC_KEY) :=
  match key with
  | None => mret None
  | Some k =>
      free_object (sm2_public_key k);;
      mret (hybrid_public_key_init (Some k))
  end.

(** [EVP_PKEY_up_ref]: zero on failure, otherwise one more reference. *)
Definition pkey_up_ref (key : obj EVP_PKEY) : M Z :=
  rc ← call EVP_PKEY_up_ref;
  if rc =? 0 then mret rc else share_object key;; mret rc.
End keys.

Section composite_key.
Context `{Libc, OpenSSL, Dilithium2}.

(** [generated_private] is a local of the function: what it holds when the
    function returns is what stays on the stack. *)
Definition composite_key_generate
    (private_key : option HYBRID_PRIVATE_KEY) (public_key : option HYBRID_PUBLIC_KEY)
    : M (bool * (option HYBRID_PRIVATE_KEY * option HYBRID_PUBLIC_KEY)) :=
  if is_null private_key || is_null public_key
  then mret (false, (private_key, public_key))
  else
    let generated_private := zero_private_key in
    let generated_public := zero_public_key in
    let error generated_private generated_public :=
      gp ← hybrid_private_key_cleanup (Some generated_private);
      hybrid_public_key_cleanup (Some generated_public);;
      retire (default [] (dilithium_secret_key <$> gp));;
      mret (false, (private_key, public_key)) in
    sm2 ← hybrid_sm2_generate_keypair;
    let generated_private := PrivateKey sm2 (dilithium_secret_key generated_private) in
    match sm2 with
    | None => error generated_private generated_public
    | Some key =>
        rc ← pkey_up_ref key;
        if rc =? 0 then error generated_private generated_public
        else
          let generated_public := PublicKey (Some key) (dilithium_public_key generated_public) in
          '(ok, (pk, sk)) ← dilithium_generate_keypair
            (Some (dilithium_public_key generated_public)) DILITHIUM_PUBLIC_KEY_BYTES
            (Some (dilithium_secret_key generated_private)) DILITHIUM_SECRET_KEY_BYTES;
          let generated_public := PublicKey (Some key) (default [] pk) in
          let generated_private := PrivateKey (Some key) (default [] sk) in
          if negb ok then error generated_private generated_public
          else
            hybrid_private_key_cleanup private_key;;
            hybrid_public_key_cleanup public_key;;
            retire (dilithium_secret_key generated_private);;
            mret (true, (Some generated_private, Some generated_public))
    end.

(** Writes to the 65-byte array at [output]. *)
Definition serialize_sm2_public_key (key : option (obj EVP_PKEY)) (output : list byte)
    : M (bool * list byte) :=
  match key with
  | None => mret (false, output)
  | Some key =>
      k ← deref key;
      if EVP_PKEY_is_a k "SM2" =? 0 then mret (false, output)
      else
        '(rc, pub) ← call (EVP_PKEY_get_pub k SM2_UNCOMPRESSED_PUBLIC_KEY_BYTES);
        output ← memcpy output 0 pub;
        let output_len := len pub in
        if (rc <=? 0) || negb (output_len =? SM2_UNCOMPRESSED_PUBLIC_KEY_BYTES) ||
           negb (bool_decide (output !! 0%nat = Some Byte.x04))
        then mret (false, output) else mret (true, output)
  end.

Definition composite_serialize_public_key (key : option HYBRID_PUBLIC_KEY) (serialized : outbuf)
    : M (bool * outbuf) :=
  if out_null serialized then mret (false, serialized)
  else
    let serialized := fresh_out in
    match key with
    | None => mret (false, serialized)
    | Some k =>
        if is_null (sm2_public_key k) then mret (false, serialized)
        else
          output ← malloc COMPOSITE_PUBLIC_KEY_BYTES;
          match output with
          | None => mret (false, serialized)
          | Some buf =>
              pk ← read (Some (dilithium_public_key k)) DILITHIUM_PUBLIC_KEY_BYTES;
              buf ← memcpy_block buf 0 pk;
              '(ok, tail) ← serialize_sm2_public_key (sm2_public_key k)
                (zdrop DILITHIUM_PUBLIC_KEY_BYTES (obj_val buf));
              let buf := set_val buf (ztake DILITHIUM_PUBLIC_KEY_BYTES (obj_val buf) ++ tail) in
              if negb ok then free_object (Some buf);; mret (false, serialized)
              else mret (true, set_out buf COMPOSITE_PUBLIC_KEY_BYTES)
          end
    end.

Definition parse_sm2_public_key (encoded : ptr) (encoded_len : Z) : M (option (obj EVP_PKEY)) :=
  match encoded with
  | None => mret None
  | Some e =>
      if negb (encoded_len =? SM2_UNCOMPRESSED_PUBLIC_KEY_BYTES) ||
         negb (bool_decide (e !! 0%nat = Some Byte.x04))
      then mret None
      else
        context ← new_object (EVP_PKEY_CTX_new_from_name "SM2");
        let done (check_context : option (obj EVP_PKEY_CTX)) (key : option (obj EVP_PKEY)) :=
          free_object check_context;; free_object context;; mret key in
        match context with
        | None => done None None
        | Some cx =>
            '(rc, c) ← call (EVP_PKEY_fromdata_init (obj_val cx));
            check negb (rc <=? 0) else done None None;;
            octets ← read encoded encoded_len;
            r ← call (EVP_PKEY_fromdata_public c "SM2" octets);
            key ← new_object (λ _, snd r);
            check negb (fst r <=? 0) else (free_object key;; done None None);;
            check_context ← new_object (EVP_PKEY_CTX_new_from_pkey (obj_val <$> key));
            match check_context with
            | None => free_object key;; done None None
            | Some cc =>
                rc ← call (EVP_PKEY_public_check (obj_val cc));
                if rc <=? 0 then free_object key;; done check_context None
                else done check_context key
            end
        end
  end.

Definition composite_parse_public_key (serialized : ptr) (serialized_len : Z)
    (key : option HYBRID_PUBLIC_KEY) : M (bool * option HYBRID_PUBLIC_KEY) :=
  match serialized with
  | None => mret (false, key)
  | Some bytes =>
      if is_null key || negb (serialized_len =? COMPOSITE_PUBLIC_KEY_BYTES) then mret (false, key)
      else
        sm2 ← parse_sm2_public_key (Some (zdrop DILITHIUM_PUBLIC_KEY_BYTES bytes))
                                   SM2_UNCOMPRESSED_PUBLIC_KEY_BYTES;
        if is_null sm2 then mret (false, key)
        else
          pk ← read serialized DILITHIUM_PUBLIC_KEY_BYTES;
          hybrid_public_key_cleanup key;;
          mret (true, Some (PublicKey sm2 pk))
  end.

Definition composite_get_sm2_public_key_octets (key : option HYBRID_PUBLIC_KEY) (output : ptr)
    : M (bool * ptr) :=
  match key, output with
  | Some k, Some buf =>
      '(ok, buf) ← serialize_sm2_public_key (sm2_public_key k) buf;
      mret (ok, Some buf)
  | _, _ => mret (false, output)
  end.
End composite_key.

#[global] Arguments zero_private_key : simpl never.
#[global] Arguments zero_public_key : simpl never.
#[global] Arguments hybrid_private_key_init : simpl never.
#[global] Arguments hybrid_public_key_init : simpl never.
#[global] Arguments hybrid_private_key_cleanup : simpl never.
#[global] Arguments hybrid_public_key_cleanup : simpl never.
#[global] Arguments pkey_up_ref : simpl never.
#[global] Arguments composite_key_generate : simpl never.
#[global] Arguments serialize_sm2_public_key : simpl never.
#[global] Arguments composite_serialize_public_key : simpl never.
#[global] Arguments parse_sm2_public_key : simpl never.
#[global] Arguments composite_parse_public_key : simpl never.
#[global] Arguments composite_get_sm2_public_key_octets : simpl never.

(** ** Specifications *)

Section ownership.
Context `{OpenSSL}.

(** The references a key structure holds. *)
Definition private_owns (k : option HYBRID_PRIVATE_KEY) : gmultiset positive :=
  match k with None => ∅ | Some k => owns (sm2_private_key k) end.
Definition public_owns (k : option HYBRID_PUBLIC_KEY) : gmultiset positive :=
  match k with None => ∅ | Some k => owns (sm2_public_key k) end.
End ownership.

Ltac owns_unfold ::=
  unfold out_owns, zero_private_key, zero_public_key in *;
  cbn [fst snd private_owns public_owns sm2_private_key sm2_public_key] in *.

Section specs.
Context `{Libc, OpenSSL, !OpenSSLSizes, Dilithium2, !Dilithium2Sizes}.

(** The arrays of a key have their declared sizes. *)
Definition private_key_wf (k : HYBRID_PRIVATE_KEY) : Prop :=
  len (dilithium_secret_key k) = DILITHIUM_SECRET_KEY_BYTES.
Definition public_key_wf (k : HYBRID_PUBLIC_KEY) : Prop :=
  len (dilithium_public_key k) = DILITHIUM_PUBLIC_KEY_BYTES.

(** The uncompressed encoding of the SM2 key [k] satisfies [P]. *)
Definition sm2_encoding (Q : modality) (k : EVP_PKEY) (P : list byte → Prop) : Prop :=
  EVP_PKEY_is_a k "SM2" ≠ 0 ∧
  Q _ (EVP_PKEY_get_pub k SM2_UNCOMPRESSED_PUBLIC_KEY_BYTES) (on_pos (λ pub,
    len pub = SM2_UNCOMPRESSED_PUBLIC_KEY_BYTES ∧ pub !! 0%nat = Some Byte.x04 ∧ P pub)).

(** [pub] is the encoding OpenSSL returned for [k]. *)
Definition sm2_octets (k : EVP_PKEY) (pub : list byte) : Prop := sm2_encoding once k (eq pub).
Definition sm2_always_octets (k : EVP_PKEY) : Prop := sm2_encoding always k (λ _, True).

(** OpenSSL imports a public key that satisfies [P] from the octets [e], and
    its public check accepts it. *)
Definition sm2_import (Q : modality) (e : list byte) (P : EVP_PKEY → Prop) : Prop :=
  Q _ (EVP_PKEY_CTX_new_from_name "SM2") (on_some (λ c,
    Q _ (EVP_PKEY_fromdata_init c) (on_pos (λ c,
      Q _ (EVP_PKEY_fromdata_public c "SM2" e) (on_pos (on_some (λ k,
        Q _ (EVP_PKEY_CTX_new_from_pkey (Some k)) (on_some (λ c,
          Q _ (EVP_PKEY_public_check c) (λ rc, 0 < rc ∧ P k)))))))))).

Definition sm2_imported (e : list byte) (k : EVP_PKEY) : Prop := sm2_import once e (eq k).
Definition sm2_always_imports (e : list byte) : Prop := sm2_import always e (λ _, True).

Lemma zero_private_key_wf : private_key_wf zero_private_key.
Proof. unfold private_key_wf, zero_private_key. cbn. by rewrite len_zeros. Qed.

Lemma zero_public_key_wf : public_key_wf zero_public_key.
Proof. unfold public_key_wf, zero_public_key. cbn. by rewrite len_zeros. Qed.

Lemma init_private_key_zeroed k :
  zeroed (default [] (dilithium_secret_key <$> hybrid_private_key_init (Some k))).
Proof. apply zeroed_zeros. Qed.

#[local] Hint Resolve zero_private_key_wf zero_public_key_wf init_private_key_zeroed : wp.

#[export] Instance spec_hybrid_private_key_cleanup key :
  Spec (hybrid_private_key_cleanup key)
    (λ s, private_owns key ⊆ live s ∧ from_option private_key_wf True key)
    (λ r s s', frame (private_owns key) ∅ s s' ∧ r = hybrid_private_key_init key).
Proof.
  wp_start. destruct P as [Hl Hk]. unfold hybrid_private_key_cleanup.
  destruct key as [k|]; cbn in *; [|by apply wp_ret].
  unfold private_key_wf in Hk. wp_call as r F. wp_call as r' [-> ->]. apply wp_ret. split; [solve_frame|done].
Qed.

#[export] Instance spec_hybrid_public_key_cleanup key :
  Spec (hybrid_public_key_cleanup key) (λ s, public_owns key ⊆ live s)
    (λ r s s', frame (public_owns key) ∅ s s' ∧ r = hybrid_public_key_init key).
Proof.
  wp_start. unfold hybrid_public_key_cleanup. destruct key as [k|]; cbn in *; [|by apply wp_ret].
  wp_call as r F. apply wp_ret. split; [solve_frame|done].
Qed.

#[export] Instance spec_pkey_up_ref key :
  Spec (pkey_up_ref key) (alive (Some key))
    (yields ∅ (λ rc, if rc =? 0 then ∅ else owns (Some key)) (λ rc, ∃ t, EVP_PKEY_up_ref t = rc)).
Proof.
  wp_start. unfold pkey_up_ref. wp_call as rc [F Hrc].
  assert (∃ t, EVP_PKEY_up_ref t = rc) by by eexists. destruct (rc =? 0) eqn:E.
  - apply wp_ret. split; [rewrite E; solve_frame|done].
  - wp_call as r F1. apply wp_ret. split; [rewrite E; solve_frame|done].
Qed.

#[export] Instance spec_serialize_sm2_public_key key output :
  Spec (serialize_sm2_public_key key output)
    (λ s, alive key s ∧ len output = SM2_UNCOMPRESSED_PUBLIC_KEY_BYTES)
    (λ r s s', frame ∅ ∅ s s' ∧ len (snd r) = len output ∧
       (fst r = true → ∃ k, key = Some k ∧ sm2_octets (obj_val k) (snd r)) ∧
       (∀ k, key = Some k → sm2_always_octets (obj_val k) → fst r = true)).
Proof.
  wp_start. destruct P as [Hk Hout]. unfold serialize_sm2_public_key.
  destruct key as [key|]; [|by apply wp_ret].
  wp_call as k [-> ->]. wp_case (EVP_PKEY_is_a (obj_val key) "SM2" =? 0).
  { apply wp_ret. split_and!; try done. by intros k [= <-] [? _]. }
  wp_call as [rc pub] [F Hpub]. pose proof (get_pub_size _ _ _ _ _ Hpub ltac:(done)).
  wp_call as r [-> ->].
  destruct (_ || _) eqn:E'; simpl_bool; apply wp_ret; split_and!; try solve_frame; cbn [fst snd];
    rewrite ?len_splice by lia; try done.
  - intros k [= <-] [_ Hal]. always_auto. rewrite splice_whole, bool_decide_eq_true_2 in E' by congruence.
    cbn in E'. apply orb_true_iff in E' as [E'|E']; [|done].
    apply orb_true_iff in E' as [E'|E']; simpl_bool; congruence || lia.
  - intros _. exists key. split; [done|]. rewrite splice_whole in * by congruence.
    split; [done|]. once_auto.
Qed.

(** No step of the generation of a key pair fails. *)
Definition always_generates : Prop :=
  sm2_always_generates ∧ dilithium_always_generates ∧ always _ EVP_PKEY_up_ref (λ rc, rc ≠ 0).

#[export] Instance spec_composite_key_generate priv pub :
  Spec (composite_key_generate priv pub)
    (λ s, private_owns priv ⊎ public_owns pub ⊆ live s ∧ from_option private_key_wf True priv)
    (λ r s s',
      match r with
      | (true, (Some sk, Some pk)) =>
          ∃ key s1, sm2_private_key sk = Some key ∧ sm2_public_key pk = Some key ∧
            sm2_generated (obj_val key) ∧
            dilithium_keypair (dilithium_public_key pk) (dilithium_secret_key sk) ∧
            frame (private_owns priv ⊎ public_owns pub) {[+ obj_id key; obj_id key +]} s s1 ∧
            s' = add_residue (dilithium_secret_key sk) s1
      | (true, _) => False
      | (false, k) => k = (priv, pub) ∧ frame ∅ ∅ s s' ∧ ¬ (is_Some priv ∧ is_Some pub ∧ always_generates)
      end).
Proof.
  wp_start. destruct P as [Hl Hwf]. unfold composite_key_generate.
  wp_case (is_null priv || is_null pub).
  { apply wp_ret. split_and!; [done..|]. intros ([? Hs] & [? Hp] & _). by rewrite Hs, Hp in E. }
  rename x into pub. rename x0 into priv.
  wp_call as [key|] [F Hgen].
  2: { wp_call as r [F1 ->]. wp_call as r [F2 ->]. wp_call as r F3.
       apply wp_ret. split_and!; [done|solve_frame|]. by intros (_ & _ & ? & _). }
  wp_call as rc [F1 [u Hrc]]. destruct (Z.eqb_spec rc 0).
  { wp_call as r [F2 ->]. wp_call as r [F3 ->]. wp_call as r F4.
    apply wp_ret. split_and!; [done|solve_frame|]. intros (_ & _ & _ & _ & Hal). by destruct (Hal u); subst. }
  wp_call as [ok [pk sk]] [F2 (pk' & sk' & Hk & Hpk & Hsk & Hok & Hal)].
  cbn [fst snd dilithium_secret_key dilithium_public_key] in *. injection Hk as -> ->.
  rewrite len_zeros in Hpk, Hsk.
  destruct ok; cbn [negb].
  - destruct (Hok eq_refl) as (pk0 & sk0 & [t Hkp] & -> & ->).
    pose proof (dilithium2_keypair_sizes _ _ _ Hkp) as [? ?].
    rewrite !splice_whole by (by rewrite len_zeros).
    wp_call as r [F3 ->]. wp_call as r [F4 ->]. repeat wp_pure. apply wp_retire_any, wp_ret.
    eexists key, _. split_and!; [done|done|done|by eexists|solve_frame|done].
  - wp_call as r [F3 ->]. wp_call as r [F4 ->]. wp_call as r F5.
    apply wp_ret. split_and!; [done|solve_frame|]. intros (_ & _ & _ & Hd & _). by specialize (Hal ltac:(done) ltac:(done) Hd).
Qed.

#[export] Instance spec_composite_serialize_public_key key out :
  Spec (composite_serialize_public_key key out)
    (λ s, out_null out = false ∧ public_owns key ⊆ live s ∧ from_option public_key_wf True key)
    (λ r s s', yields ∅ out_owns (out_post (λ b n,
       n = COMPOSITE_PUBLIC_KEY_BYTES ∧ len (obj_val b) = n ∧
       ∃ k o pub, key = Some k ∧ sm2_public_key k = Some o ∧ sm2_octets (obj_val o) pub ∧
         obj_val b = dilithium_public_key k ++ pub)) r s s' ∧
       (∀ k o, key = Some k → sm2_public_key k = Some o → reliable_malloc →
          sm2_always_octets (obj_val o) → fst r = true)).
Proof.
  wp_start. destruct P as (Hout & Hl & Hwf). unfold composite_serialize_public_key. rewrite Hout.
  destruct key as [k|]; [|by apply wp_ret]. cbn in Hwf, Hl. unfold public_key_wf in Hwf.
  wp_case (is_null (sm2_public_key k)); [apply wp_ret; split; [done|naive_solver]|].
  rename x into o. rename E into Ho.
  wp_call as [buf|] [F Hbuf].
  2: { apply wp_ret. split; [by wp_end|]. intros ? ? _ _ Hr. by rewrite Hr in Hbuf. }
  unfold COMPOSITE_PUBLIC_KEY_BYTES, DILITHIUM_PUBLIC_KEY_BYTES, SM2_UNCOMPRESSED_PUBLIC_KEY_BYTES in *.
  wp_call as r [-> ->]. unfold bytes_at. cbn [default from_option id].
  rewrite (ztake_all _ 1312) by lia. wp_call as r [-> ->].
  cbn [obj_val set_val]. rewrite Ho in Hl |- *.
  set (body := splice (Z.to_nat 0) (dilithium_public_key k) (obj_val buf)).
  assert (Hlb : len body = 1377) by (unfold body; rewrite len_splice; lia).
  wp_call as [ok tail] (F1 & Ht & Hok & Hall).
  { unfold SM2_UNCOMPRESSED_PUBLIC_KEY_BYTES. rewrite len_zdrop; lia. }
  cbn [fst snd] in Ht, Hok, Hall. rewrite len_zdrop in Ht by lia.
  destruct ok; cbn [negb].
  - destruct (Hok eq_refl) as (o' & [= <-] & Hpub). apply wp_ret. split; [|done].
    wp_end. eexists _, _. split; [done|]. cbn [obj_val set_val].
    assert (Hpre : ztake 1312 body = dilithium_public_key k).
    { unfold body. rewrite <-Hwf. apply splice_prefix. lia. }
    rewrite Hpre, len_app. split; [done|]. split; [lia|]. by eexists k, o, tail.
  - wp_call as r F2. apply wp_ret. split; [by wp_end|]. intros k' o' [= <-] ? _ Hal. simplify_eq.
    by rewrite (Hall _ eq_refl Hal).
Qed.

#[export] Instance spec_parse_sm2_public_key encoded n :
  Spec (parse_sm2_public_key encoded n) (λ _, valid encoded n)
    (λ r s s', yields ∅ owns (λ r, ∀ o, r = Some o → ∃ e, encoded = Some e ∧
         n = SM2_UNCOMPRESSED_PUBLIC_KEY_BYTES ∧ e !! 0%nat = Some Byte.x04 ∧
         sm2_imported (ztake n e) (obj_val o)) r s s' ∧
       (∀ e, encoded = Some e → n = SM2_UNCOMPRESSED_PUBLIC_KEY_BYTES → e !! 0%nat = Some Byte.x04 →
          sm2_always_imports (ztake n e) → is_Some r)).
Proof.
  wp_start. unfold parse_sm2_public_key. destruct encoded as [e|]; [|by apply wp_ret].
  wp_case (negb (n =? SM2_UNCOMPRESSED_PUBLIC_KEY_BYTES) || negb (bool_decide (e !! 0%nat = Some Byte.x04))).
  { apply wp_ret. split; [done|]. intros ? [= <-] -> He _. by rewrite bool_decide_eq_true_2 in E. }
  wp_call as [cx|] [F Hcx]; cbn in Hcx.
  2: { do 2 wp_call as ? ?. apply wp_ret. split; [by wp_end|]. intros ? [= <-] _ _ Hal.
       unfold sm2_always_imports, sm2_import in Hal. always_auto. }
  wp_call as [rc1 c1] [F1 Hc1]. wp_case (negb (rc1 <=? 0)).
  2: { do 2 wp_call as ? ?. apply wp_ret. split; [by wp_end|]. intros ? [= <-] _ _ Hal.
       unfold sm2_always_imports, sm2_import in Hal. always_auto. }
  wp_call as r [-> ->]. unfold bytes_at; cbn [default from_option id].
  wp_call as [rc2 k] [F2 Hk]. wp_call as key [F3 Hkey]. cbn [snd] in Hkey. subst k.
  wp_case (negb (rc2 <=? 0)).
  2: { do 3 wp_call as ? ?. apply wp_ret. split; [by wp_end|]. intros ? [= <-] _ _ Hal.
       unfold sm2_always_imports, sm2_import in Hal. always_auto. }
  wp_call as [cc|] [F4 Hcc]; cbn [fmap option_fmap option_map] in Hcc.
  2: { do 3 wp_call as ? ?. apply wp_ret. split; [by wp_end|]. intros ? [= <-] _ _ Hal.
       unfold sm2_always_imports, sm2_import in Hal. destruct key; owns_simpl; always_auto. }
  wp_call as rc3 [F5 Hchk]. wp_case (rc3 <=? 0).
  - do 3 wp_call as ? ?. apply wp_ret. split; [by wp_end|]. intros ? [= <-] _ _ Hal.
    unfold sm2_always_imports, sm2_import in Hal. destruct key; owns_simpl; always_auto.
  - do 2 wp_call as ? ?. apply wp_ret. split.
    + wp_end. intros o ->. owns_simpl. exists e. split; [done|]. split; [done|]. split; [done|].
      unfold sm2_imported, sm2_import. once_auto.
    + intros ? [= <-] _ _ Hal. unfold sm2_always_imports, sm2_import in Hal. destruct key; [done|]; owns_simpl; always_auto.
Qed.

(** On success the key at the pointer is replaced: the reference it held is
    released and it holds a new one. *)
#[export] Instance spec_composite_parse_public_key bytes n key :
  Spec (composite_parse_public_key bytes n key)
    (λ s, valid bytes n ∧ public_owns key ⊆ live s)
    (λ r s s', yields (public_owns key) (λ r, public_owns (snd r)) (λ r,
         match r with
         | (true, k') => ∃ e o, bytes = Some e ∧ is_Some key ∧ n = COMPOSITE_PUBLIC_KEY_BYTES ∧
             e !! Z.to_nat DILITHIUM_PUBLIC_KEY_BYTES = Some Byte.x04 ∧
             k' = Some (PublicKey (Some o) (ztake DILITHIUM_PUBLIC_KEY_BYTES e)) ∧
             sm2_imported (ztake SM2_UNCOMPRESSED_PUBLIC_KEY_BYTES
                            (zdrop DILITHIUM_PUBLIC_KEY_BYTES e)) (obj_val o)
         | (false, k') => k' = key
         end) r s s' ∧
       (∀ e, bytes = Some e → is_Some key → n = COMPOSITE_PUBLIC_KEY_BYTES →
          e !! Z.to_nat DILITHIUM_PUBLIC_KEY_BYTES = Some Byte.x04 →
          sm2_always_imports (ztake SM2_UNCOMPRESSED_PUBLIC_KEY_BYTES
                               (zdrop DILITHIUM_PUBLIC_KEY_BYTES e)) → fst r = true)).
Proof.
  wp_start. destruct P as [Hv Hl]. unfold composite_parse_public_key.
  destruct bytes as [e|]; [|apply wp_ret; split; [by wp_end|done]].
  wp_case (is_null key || negb (n =? COMPOSITE_PUBLIC_KEY_BYTES)).
  { apply wp_ret. split; [by wp_end|]. intros ? [= <-] [? ->] -> _ _. by rewrite Z.eqb_refl in E. }
  unfold COMPOSITE_PUBLIC_KEY_BYTES, DILITHIUM_PUBLIC_KEY_BYTES, SM2_UNCOMPRESSED_PUBLIC_KEY_BYTES,
    valid in *. destruct Hv as [_ Hv].
  assert (Hlen : 1377 ≤ len e) by exact Hv.
  wp_call as sm2 ([F Hs] & Hc).
  { unfold SM2_UNCOMPRESSED_PUBLIC_KEY_BYTES, DILITHIUM_PUBLIC_KEY_BYTES.
    split; [unfold SIZE_MAX; lia|]. rewrite len_zdrop; lia. }
  unfold SM2_UNCOMPRESSED_PUBLIC_KEY_BYTES, DILITHIUM_PUBLIC_KEY_BYTES in *.
  destruct sm2 as [o|]; cbn [is_null].
  - wp_call as pk [-> ->]. unfold bytes_at; cbn [default from_option id].
    wp_call as r [F1 ->]. apply wp_ret. split; [|done]. split; [solve_frame|].
    destruct (Hs o eq_refl) as (? & [= <-] & _ & H4 & Hi). eexists e, o. split_and!; try done.
    unfold zdrop in H4. by rewrite lookup_drop, Nat.add_0_r in H4.
  - apply wp_ret. split; [by wp_end|]. intros ? [= <-] _ _ He Hal.
    edestruct (Hc _ eq_refl eq_refl) as [? ?]; [|done|done].
    unfold zdrop. by rewrite lookup_drop, Nat.add_0_r.
Qed.

#[export] Instance spec_composite_get_sm2_public_key_octets key output :
  Spec (composite_get_sm2_public_key_octets key output)
    (λ s, public_owns key ⊆ live s ∧
          from_option (λ b, len b = SM2_UNCOMPRESSED_PUBLIC_KEY_BYTES) True output)
    (λ r s s', frame ∅ ∅ s s' ∧ (is_null output = is_null (snd r)) ∧
       from_option (λ b, len b = SM2_UNCOMPRESSED_PUBLIC_KEY_BYTES) True (snd r) ∧
       (fst r = true → ∃ k o pub, key = Some k ∧ sm2_public_key k = Some o ∧
          snd r = Some pub ∧ sm2_octets (obj_val o) pub) ∧
       (∀ k o, key = Some k → sm2_public_key k = Some o → is_Some output →
          sm2_always_octets (obj_val o) → fst r = true)).
Proof.
  wp_start. destruct P as [Hl Ho]. unfold composite_get_sm2_public_key_octets.
  destruct key as [k|]; [|by apply wp_ret]. destruct output as [buf|]; cbn in Ho.
  2: { apply wp_ret. split_and!; try done. }
  wp_call as [ok buf'] (F & Hb & Hok & Hall). cbn [fst snd] in *. apply wp_ret.
  cbn [fst snd from_option is_null]. split; [done|]. split; [done|]. split; [congruence|]. split.
  - intros ->. destruct (Hok eq_refl) as (o & ? & ?). by eexists k, o, buf'.
  - intros ? o [= <-] ? _ Hal. by eapply Hall.
Qed.

(** ** Properties *)

(** OpenSSL's uncompressed encoding of a key imported from the octets [e] is
    [e]. *)
Class Sm2Octets : Prop := {
  sm2_import_octets c e t rc k t' rc' pub :
    len e = SM2_UNCOMPRESSED_PUBLIC_KEY_BYTES → e !! 0%nat = Some Byte.x04 →
    EVP_PKEY_fromdata_public c "SM2" e t = (rc, Some k) → 0 < rc →
    EVP_PKEY_get_pub k SM2_UNCOMPRESSED_PUBLIC_KEY_BYTES t' = (rc', pub) → 0 < rc' → pub = e
}.

Lemma sm2_imported_octets `{!Sm2Octets} e k pub :
  len e = SM2_UNCOMPRESSED_PUBLIC_KEY_BYTES → e !! 0%nat = Some Byte.x04 →
  sm2_imported e k → sm2_octets k pub → pub = e.
Proof.
  intros Hl He (? & Hc) [_ (t' & Hrc' & _ & _ & Hpub)].
  destruct (EVP_PKEY_CTX_new_from_name "SM2" x) as [c|]; [|done].
  destruct Hc as (t1 & _ & t2 & Hrc & Hk). cbn [fst snd] in *.
  destruct (EVP_PKEY_fromdata_public _ _ _ t2) as [rc [k'|]] eqn:Ek; [|done].
  cbn [on_some fst snd] in *. destruct Hk as (t3 & Hk).
  destruct (EVP_PKEY_CTX_new_from_pkey _ t3) as [cc|]; [|done]. destruct Hk as (t4 & _ & ->).
  destruct (EVP_PKEY_get_pub k' _ t') as [rc' p] eqn:Ep. cbn [fst snd] in *. subst p.
  by eapply sm2_import_octets.
Qed.

(** The two parts of an encoded public key. *)
Lemma len_key_octets e n :
  valid (Some e) n → n = COMPOSITE_PUBLIC_KEY_BYTES →
  len (ztake SM2_UNCOMPRESSED_PUBLIC_KEY_BYTES (zdrop DILITHIUM_PUBLIC_KEY_BYTES e)) =
  SM2_UNCOMPRESSED_PUBLIC_KEY_BYTES.
Proof.
  intros [_ Hv] ->. autounfold with consts in *. apply len_ztake. rewrite len_zdrop; size_lia.
Qed.

Lemma lookup_key_octets (e : list byte) b :
  e !! Z.to_nat DILITHIUM_PUBLIC_KEY_BYTES = Some b →
  ztake SM2_UNCOMPRESSED_PUBLIC_KEY_BYTES (zdrop DILITHIUM_PUBLIC_KEY_BYTES e) !! 0%nat = Some b.
Proof.
  intros He. unfold ztake, zdrop. rewrite lookup_take_lt by (by apply (Z2Nat.inj_lt 0)). by rewrite lookup_drop, Nat.add_0_r.
Qed.

Lemma key_octets_split e :
  ztake DILITHIUM_PUBLIC_KEY_BYTES e ++
    ztake SM2_UNCOMPRESSED_PUBLIC_KEY_BYTES (zdrop DILITHIUM_PUBLIC_KEY_BYTES e) =
  bytes_at (Some e) COMPOSITE_PUBLIC_KEY_BYTES.
Proof.
  unfold bytes_at, ztake, zdrop, COMPOSITE_PUBLIC_KEY_BYTES. cbn [default from_option id].
  rewrite Z2Nat.inj_add by done. apply take_take_drop.
Qed.

(** Decoding a public key and encoding it again. *)
Definition reencode_public_key (bytes : ptr) (n : Z) : M (bool * bool * ptr) :=
  '(ok, k) ← composite_parse_public_key bytes n (Some zero_public_key);
  '(ok', out) ← composite_serialize_public_key k fresh_out;
  encoded ← borrow (out_block out);
  free_object (out_block out);;
  hybrid_public_key_cleanup k;;
  mret (ok, ok', encoded).

(** A composite public key that parses has exactly 1377 bytes and, encoded
    again, gives back exactly those bytes. It parses whenever the octet after
    the Dilithium2 key is 4 and OpenSSL imports the SM2 key. Nothing is left
    allocated. *)
Theorem composite_public_key_reencoded `{!Sm2Octets} bytes n s :
  valid bytes n →
  wp (reencode_public_key bytes n) (λ '(ok, ok', encoded) s', frame ∅ ∅ s s' ∧
    (ok = true → n = COMPOSITE_PUBLIC_KEY_BYTES) ∧
    (ok' = true → ok = true ∧ encoded = Some (bytes_at bytes n)) ∧
    (∀ e, bytes = Some e → n = COMPOSITE_PUBLIC_KEY_BYTES → e !! 1312%nat = Some Byte.x04 →
       sm2_always_imports (ztake 65 (zdrop 1312 e)) → ok = true)) s.
Proof.
  intros Hv. pose proof (frame_refl s). unfold reencode_public_key.
  wp_call as [ok k] ([F Hk] & Hok). cbn [fst snd] in *.
  assert (Hwf : from_option public_key_wf True k).
  { destruct ok; [|subst k; apply zero_public_key_wf]. destruct Hk as (e & o & -> & _ & -> & _ & -> & _).
    unfold public_key_wf. cbn. apply len_ztake. destruct Hv as [_ Hv]. unfold COMPOSITE_PUBLIC_KEY_BYTES in Hv. size_lia. }
  wp_call as [ok' out] ([F1 Hout] & _). wp_call as r [-> ->]. cbn [out_owns snd] in *.
  wp_call as ? ?. wp_call as ? [? ?]. apply wp_ret. split; [solve_frame|]. split; [|split].
  - intros ->. by destruct Hk as (e & o & _ & _ & -> & _).
  - intros ->. destruct Hout as (b & n' & -> & -> & Hl & k' & o & pub & -> & Ho & Hpub & Hb).
    destruct ok; [|injection Hk as ->; done].
    destruct Hk as (e & o' & -> & _ & -> & He & [= ->] & Hi). injection Ho as ->. split; [done|].
    change (Some (obj_val b) = Some (bytes_at (Some e) COMPOSITE_PUBLIC_KEY_BYTES)). rewrite Hb. cbn [dilithium_public_key].
    rewrite (sm2_imported_octets _ _ _ (len_key_octets _ _ Hv eq_refl) (lookup_key_octets _ _ He) Hi Hpub).
    by rewrite key_octets_split.
  - intros e -> -> He Hi. by apply (Hok e).
Qed.

(** A key encoded, and the encoding decoded into an empty key. *)
Definition copy_public_key (key : HYBRID_PUBLIC_KEY)
    : M (bool * bool * ptr * option HYBRID_PUBLIC_KEY) :=
  '(ok, out) ← composite_serialize_public_key (Some key) fresh_out;
  encoded ← borrow (out_block out);
  '(ok', k) ← composite_parse_public_key encoded (out_len out) (Some zero_public_key);
  free_object (out_block out);;
  mret (ok, ok', encoded, k).

(** The two parts of what is serialized. *)
Lemma serialized_parts (pk pub : list byte) :
  len pk = DILITHIUM_PUBLIC_KEY_BYTES → len pub = SM2_UNCOMPRESSED_PUBLIC_KEY_BYTES →
  ztake DILITHIUM_PUBLIC_KEY_BYTES (pk ++ pub) = pk ∧
  ztake SM2_UNCOMPRESSED_PUBLIC_KEY_BYTES (zdrop DILITHIUM_PUBLIC_KEY_BYTES (pk ++ pub)) = pub ∧
  (pk ++ pub) !! Z.to_nat DILITHIUM_PUBLIC_KEY_BYTES = pub !! 0%nat.
Proof.
  intros <- Hpub. unfold ztake, zdrop, len. rewrite Nat2Z.id, take_app_length, drop_app_length, <-Hpub.
  unfold len. rewrite Nat2Z.id, take_ge by done. split_and!; [done..|].
  by rewrite lookup_app_r, Nat.sub_diag by done.
Qed.

Lemma sm2_octets_shape k pub :
  sm2_octets k pub → len pub = SM2_UNCOMPRESSED_PUBLIC_KEY_BYTES ∧ pub !! 0%nat = Some Byte.x04.
Proof. intros [_ (t & _ & Hl & Hh & ->)]. done. Qed.

Lemma sm2_always_once k : sm2_always_octets k → ∃ pub, sm2_octets k pub.
Proof.
  intros [Hk Hal]. destruct (Hal 0%N) as (Hrc & Hl & Hh & _). eexists. split; [done|]. exists 0%N. by split_and!.
Qed.

(** C32. A composite public key serialized and parsed again is the same key.
    Serializing writes 1377 bytes, the Dilithium2 key and OpenSSL's encoding of
    the SM2 key; when the parser accepts them it yields a key with the same
    Dilithium2 bytes and an SM2 key, of its own, that has no other encoding
    than the one written. It accepts them whenever memory can be allocated,
    OpenSSL always encodes the SM2 key and always imports its encodings. The
    caller's key is not touched, a failure leaves the new key empty, and
    nothing else stays allocated. *)
Theorem composite_public_key_round_trip `{!Sm2Octets} key s :
  public_owns (Some key) ⊆ live s → public_key_wf key →
  wp (copy_public_key key) (λ '(ok, ok', encoded, k) s', frame ∅ (public_owns k) s s' ∧
    (ok = true → ∃ o pub, sm2_public_key key = Some o ∧ sm2_octets (obj_val o) pub ∧
       encoded = Some (dilithium_public_key key ++ pub) ∧ len (dilithium_public_key key ++ pub) = 1377) ∧
    (ok' = true → ok = true ∧ ∃ o', k = Some (PublicKey (Some o') (dilithium_public_key key)) ∧
       ∀ pub, encoded = Some (dilithium_public_key key ++ pub) →
         (∀ pub', sm2_octets (obj_val o') pub' → pub' = pub) ∧
         (sm2_always_octets (obj_val o') → sm2_octets (obj_val o') pub)) ∧
    (ok' = false → k = Some zero_public_key) ∧
    (∀ o, sm2_public_key key = Some o → reliable_malloc → sm2_always_octets (obj_val o) →
       (∀ pub, sm2_octets (obj_val o) pub → sm2_always_imports pub) → ok' = true)) s.
Proof.
  intros Hl Hwf. pose proof (frame_refl s). unfold copy_public_key.
  wp_call as [ok out] ([F Hout] & Hser). cbn [fst snd] in *.
  destruct ok.
  - destruct Hout as (b & n & -> & -> & Hn & k0 & o & pub & [= <-] & Ho & Hpub & Hb).
    destruct (sm2_octets_shape _ _ Hpub) as [Hlp Hhp].
    destruct (serialized_parts _ _ Hwf Hlp) as (Hpk & Htail & Hhead). rewrite <-Hb in Hpk, Htail, Hhead.
    wp_call as e [-> ->].
    wp_call as [ok' k] ([F1 Hk] & Hparse). { change (valid (Some (obj_val b)) COMPOSITE_PUBLIC_KEY_BYTES). unfold valid. rewrite Hn. by vm_compute. }
    wp_call as ? ?. apply wp_ret. cbn [fst snd] in *.
    split; [solve_frame|]. split; [|split; [|split]].
    + intros _. exists o, pub. rewrite <-Hb. by split_and!.
    + intros ->. split; [done|]. destruct Hk as (e & o' & [= <-] & _ & _ & _ & -> & Hi). rewrite Hpk, Htail in *.
      exists o'. split; [done|]. intros pub0 [= Hb0]. rewrite Hb in Hb0. apply app_inv_head in Hb0 as <-.
      assert (Hone : ∀ pub', sm2_octets (obj_val o') pub' → pub' = pub) by (intros; by eapply sm2_imported_octets).
      split; [done|]. intros [pub' Hp']%sm2_always_once. by rewrite <-(Hone _ Hp').
    + by intros ->.
    + intros o0 Ho0 _ _ Himp. rewrite Ho in Ho0. injection Ho0 as <-.
      apply (Hparse (obj_val b)); [done..|by rewrite Hhead|]. rewrite Htail. by apply Himp.
  - cbn [out_post] in Hout. subst out. wp_call as e [-> ->].
    wp_call as [ok' k] ([F1 Hk] & _). wp_call as ? ?. apply wp_ret. cbn [fst snd] in *.
    split; [solve_frame|]. destruct ok'; [by destruct Hk as (? & ? & [=] & _)|]. split_and!; [done|done|done|].
    intros o Ho Hr Ho' _. by specialize (Hser _ _ eq_refl Ho Hr Ho').
Qed.

(** Key generation gives both halves one SM2 key, to which each holds a
    reference of its own, and the two halves of one Dilithium2 key pair, after
    releasing what the caller's structures held; a null argument or a failure
    at any step leaves them as they were and keeps nothing. It succeeds when no
    step fails. *)
Theorem composite_key_generate_correct priv pub s :
  private_owns priv ⊎ public_owns pub ⊆ live s → from_option private_key_wf True priv →
  wp (composite_key_generate priv pub) (λ '(ok, (priv', pub')) s',
    (ok = false → priv' = priv ∧ pub' = pub ∧ frame ∅ ∅ s s') ∧
    (ok = true → ∃ key sk pk, priv' = Some (PrivateKey (Some key) sk) ∧
       pub' = Some (PublicKey (Some key) pk) ∧ sm2_generated (obj_val key) ∧ dilithium_keypair pk sk ∧
       live s' ⊎ (private_owns priv ⊎ public_owns pub) = live s ⊎ {[+ obj_id key; obj_id key +]}) ∧
    (is_Some priv → is_Some pub → always_generates → ok = true)) s.
Proof.
  intros Hl Hwf. eapply wp_mono; [by apply spec|]. intros [[] [priv' pub']] s' Hp; cbn in Hp.
  - destruct priv' as [[o sk]|], pub' as [[o' pk]|]; try done.
    destruct Hp as (key & s1 & Hsk & Hpk & ? & ? & [L _ _ _] & ->). cbn in *. subst. split; [done|].
    split; [|done]. intros _. by exists key, sk, pk.
  - destruct Hp as ([= -> ->] & ? & Hal). split_and!; [done|by intros [=]|]. intros. by destruct Hal.
Qed.

(** C33. When key generation succeeds, the local structure that received the
    private key is given back without being wiped: the Dilithium2 secret key
    of the new pair stays in storage the program no longer owns. *)
Theorem composite_key_generate_residue priv pub s :
  private_owns priv ⊎ public_owns pub ⊆ live s → from_option private_key_wf True priv →
  wp (composite_key_generate priv pub) (λ '(ok, (priv', _)) s',
    ok = true → ∃ key, priv' = Some key ∧ dilithium_secret_key key ∈ residue s') s.
Proof.
  intros Hl Hwf. eapply wp_mono; [by apply spec|]. intros [[] [priv' pub']] s' Hp; cbn in Hp; [|done].
  destruct priv' as [sk|], pub' as [pk|]; try done. destruct Hp as (key & s1 & _ & _ & _ & _ & _ & ->).
  intros _. exists sk. split; [done|]. cbn. by left.
Qed.

(** Parsing a composite public key changes the caller's key only when it
    succeeds: the bytes are then exactly as many as an encoding has, the SM2
    octets were imported and checked, the reference the caller's key held is
    released and the new key holds one. *)
Theorem composite_parse_public_key_correct bytes n key s :
  valid bytes n → public_owns key ⊆ live s →
  wp (composite_parse_public_key bytes n key) (λ '(ok, key') s',
    frame (public_owns key) (public_owns key') s s' ∧
    (ok = false → key' = key) ∧
    (ok = true → ∃ e o, bytes = Some e ∧ n = COMPOSITE_PUBLIC_KEY_BYTES ∧
       e !! 1312%nat = Some Byte.x04 ∧ key' = Some (PublicKey (Some o) (ztake 1312 e)) ∧
       sm2_imported (ztake 65 (zdrop 1312 e)) (obj_val o))) s.
Proof.
  intros Hv Hl. eapply wp_mono; [by apply spec|]. intros [ok key'] s' ([F Hk] & _).
  split; [done|]. split; [by intros ->|]. intros ->. destruct Hk as (e & o & ? & ? & ? & ? & ? & ?).
  by exists e, o.
Qed.
End specs.

(** ** Examples *)

Section witnesses.
#[local] Existing Instances env_libc env_openssl env_dilithium env_openssl_sizes env_dilithium_sizes.

Lemma env_sm2_octets : Sm2Octets.
Proof.
  split. cbn. intros c e t rc k t' rc' pub _ _ Hk Hrc [= <- <-] _.
  destruct e as [|b [|k' e]]; try done. case_decide as He; simplify_eq. done.
Qed.

(** An encoded public key. *)
Definition env_public_bytes : list byte := fit 1312 [Byte.x07] ++ env_point Byte.x07.

Lemma composite_public_key_reencoded_witness :
  Sm2Octets ∧ sm2_always_imports (env_point Byte.x07) ∧
  wp (reencode_public_key (Some env_public_bytes) 1377) (λ '(ok, ok', encoded) s',
    frame ∅ ∅ empty_state s' ∧ (ok = true → 1377 = COMPOSITE_PUBLIC_KEY_BYTES) ∧
    (ok' = true → ok = true ∧ encoded = Some (bytes_at (Some env_public_bytes) 1377)) ∧
    (∀ e, Some env_public_bytes = Some e → 1377 = COMPOSITE_PUBLIC_KEY_BYTES → e !! 1312%nat = Some Byte.x04 →
       sm2_always_imports (ztake 65 (zdrop 1312 e)) → ok = true)) empty_state.
Proof.
  pose proof env_sm2_octets. split; [done|]. split.
  { intros t t1. split; [done|]. intros t2. split; [done|]. by intros t3 t4. }
  apply (composite_public_key_reencoded (Some env_public_bytes) 1377 empty_state). by vm_compute.
Defined.

Definition env_public_key : HYBRID_PUBLIC_KEY :=
  PublicKey (Some (Obj 1%positive Byte.x07)) (fit 1312 [Byte.x09]).

Lemma composite_public_key_round_trip_witness :
  let key := env_public_key in let s := env_state [1]%positive in
  (∃ k s', copy_public_key key s = Some (true, true, Some (fit 1312 [Byte.x09] ++ env_point Byte.x07), Some k, s') ∧
     dilithium_public_key k = dilithium_public_key key) ∧
  wp (copy_public_key key) (λ '(ok, ok', encoded, k) s', frame ∅ (public_owns k) s s' ∧
    (ok = true → ∃ o pub, sm2_public_key key = Some o ∧ sm2_octets (obj_val o) pub ∧
       encoded = Some (dilithium_public_key key ++ pub) ∧ len (dilithium_public_key key ++ pub) = 1377) ∧
    (ok' = true → ok = true ∧ ∃ o', k = Some (PublicKey (Some o') (dilithium_public_key key)) ∧
       ∀ pub, encoded = Some (dilithium_public_key key ++ pub) →
         (∀ pub', sm2_octets (obj_val o') pub' → pub' = pub) ∧
         (sm2_always_octets (obj_val o') → sm2_octets (obj_val o') pub)) ∧
    (ok' = false → k = Some zero_public_key) ∧
    (∀ o, sm2_public_key key = Some o → reliable_malloc → sm2_always_octets (obj_val o) →
       (∀ pub, sm2_octets (obj_val o) pub → sm2_always_imports pub) → ok' = true)) s.
Proof.
  intros key s. split; [by eexists _, _; split; vm_compute|].
  pose proof env_sm2_octets. apply (composite_public_key_round_trip key s).
  - unfold key, s. cbn. multiset_solver.
  - by vm_compute.
Defined.

Lemma composite_key_generate_correct_witness :
  wp (composite_key_generate (Some zero_private_key) (Some zero_public_key)) (λ '(ok, (priv', pub')) s',
    (ok = false → priv' = Some zero_private_key ∧ pub' = Some zero_public_key ∧ frame ∅ ∅ empty_state s') ∧
    (ok = true → ∃ key sk pk, priv' = Some (PrivateKey (Some key) sk) ∧
       pub' = Some (PublicKey (Some key) pk) ∧ sm2_generated (obj_val key) ∧ dilithium_keypair pk sk ∧
       live s' ⊎ (private_owns (Some zero_private_key) ⊎ public_owns (Some zero_public_key)) =
       live empty_state ⊎ {[+ obj_id key; obj_id key +]}) ∧
    (is_Some (Some zero_private_key) → is_Some (Some zero_public_key) → always_generates → ok = true)) empty_state.
Proof.
  apply (composite_key_generate_correct (Some zero_private_key) (Some zero_public_key) empty_state).
  - cbn. multiset_solver.
  - apply zero_private_key_wf.
Defined.

Lemma composite_key_generate_residue_witness :
  wp (composite_key_generate (Some zero_private_key) (Some zero_public_key)) (λ '(ok, (priv', _)) s',
    ok = true → ∃ key, priv' = Some key ∧ dilithium_secret_key key ∈ residue s') empty_state.
Proof.
  apply (composite_key_generate_residue (Some zero_private_key) (Some zero_public_key) empty_state).
  - cbn. multiset_solver.
  - apply zero_private_key_wf.
Defined.

Lemma composite_parse_public_key_correct_witness :
  valid (Some env_public_bytes) 1377 ∧
  wp (composite_parse_public_key (Some env_public_bytes) 1377 (Some zero_public_key)) (λ '(ok, key') s',
    frame (public_owns (Some zero_public_key)) (public_owns key') empty_state s' ∧ (ok = false → key' = Some zero_public_key) ∧
    (ok = true → ∃ e o, Some env_public_bytes = Some e ∧ 1377 = COMPOSITE_PUBLIC_KEY_BYTES ∧
       e !! 1312%nat = Some Byte.x04 ∧ key' = Some (PublicKey (Some o) (ztake 1312 e)) ∧
       sm2_imported (ztake 65 (zdrop 1312 e)) (obj_val o))) empty_state.
Proof.
  split; [by vm_compute|].
  apply (composite_parse_public_key_correct (Some env_public_bytes) 1377 (Some zero_public_key) empty_state); [by vm_compute|].
  cbn. multiset_solver.
Defined.
End witnesses.
