(* ===== verification/CompositeSig.v ===== *)
(** * composite_sig.h, composite_sig.c

    The composite signature scheme: the message representative
    [prefix || label || len(ctx) || ctx || SM3(message)], the encoding
    [Dilithium2Signature || SM2SignatureDER] of a signature, and signing and
    verification with both components. *)

From S2P Require Import Prelude Machine External Environment Dilithium Sm2 CompositeKey.

Definition COMPOSITE_SIGNATURE_PREFIX : string := "CompositeAlgorithmSignatures2025".
Definition COMPOSITE_SIGNATURE_LABEL : string := "COMPSIG-DILITHIUM2-SM2-SM3".
Definition COMPOSITE_PREHASH_NAME : string := "SM3".
Definition COMPOSITE_MAX_CONTEXT_BYTES : Z := 255.
Definition EVP_MAX_MD_SIZE : Z := 64.

#[export] Hint Unfold COMPOSITE_MAX_CONTEXT_BYTES EVP_MAX_MD_SIZE : consts.

Record COMPOSITE_VERIFY_RESULT := VerifyResult {
  format_valid : bool;
  dilithium_valid : bool;
  sm2_valid : bool;
  composite_valid : bool
}.

(** An output pair [const uint8_t **p, size_t *n] through which a function
    returns a part of its input. *)
Abbreviation view := (option ptr * option Z)%type.

Definition view_null (v : view) : bool := is_null (fst v) || is_null (snd v).
Definition fresh_view : view := (Some None, Some 0).
Definition set_view (p : list byte) (n : Z) : view := (Some (Some p), Some n).
Definition view_ptr (v : view) : ptr := default None (fst v).
Definition view_len (v : view) : Z := default 0 (snd v).

Section composite_sig.
Context `{Libc, OpenSSL, Dilithium2}.

Definition sm2_signature_der_is_valid (der : ptr) (der_len : Z) : M bool :=
  if is_null der || (der_len =? 0) || (der_len >? LONG_MAX) then mret false
  else
    e ← read der der_len;
    decoded ← call (d2i_ECDSA_SIG e);
    signature ← new_object (λ _, fst <$> decoded);
    let cursor := default 0 (snd <$> decoded) in
    let done (canonical : option block) (valid : bool) :=
      free_object canonical;; free_object signature;; mret valid in
    match signature with
    | None => done None false
    | Some sig =>
        check cursor =? der_len else done None false;;
        sg ← deref sig;
        match ECDSA_SIG_get0 sg with
        | (Some r, Some s) =>
            if (r <? 0) || (r =? 0) || (s <? 0) || (s =? 0) then done None false
            else
              '(canonical_len, encoding) ← call (i2d_ECDSA_SIG sg);
              canonical ← new_object (λ _, encoding);
              if (canonical_len <=? 0) || negb (size_of_Z canonical_len =? der_len)
              then done canonical false
              else
                c ← borrow canonical;
                c ← read c der_len;
                e ← read der der_len;
                done canonical (bool_decide (c = e))
        | _ => done None false
        end
    end.

Definition composite_build_message (message : ptr) (message_len : Z)
    (ctx : ptr) (ctx_len : Z) (m_prime : outbuf) : M (bool * outbuf) :=
  let prefix_len := strlen COMPOSITE_SIGNATURE_PREFIX in
  let label_len := strlen COMPOSITE_SIGNATURE_LABEL in
  if out_null m_prime then mret (false, m_prime)
  else
    let m_prime := fresh_out in
    if (is_null message && negb (message_len =? 0)) ||
       (is_null ctx && negb (ctx_len =? 0)) || (ctx_len >? COMPOSITE_MAX_CONTEXT_BYTES)
    then mret (false, m_prime)
    else
      digest ← local_array EVP_MAX_MD_SIZE;
      m ← read message message_len;
      hash ← call (EVP_Digest_sm3 m);
      match hash with
      | None => mret (false, m_prime)
      | Some h =>
          digest ← memcpy digest 0 h;
          let digest_len := len h in
          if negb (digest_len =? 32) then mret (false, m_prime)
          else if ctx_len >? size_sub (size_sub (size_sub (size_sub SIZE_MAX prefix_len)
                                                   label_len) 1) digest_len
          then cleanse digest EVP_MAX_MD_SIZE;; mret (false, m_prime)
          else
            let output_len :=
              size_add (size_add (size_add (size_add prefix_len label_len) 1) ctx_len) digest_len in
            output ← malloc output_len;
            match output with
            | None => cleanse digest EVP_MAX_MD_SIZE;; mret (false, m_prime)
            | Some output =>
                let offset := 0 in
                output ← memcpy_block output offset (lit COMPOSITE_SIGNATURE_PREFIX);
                let offset := size_add offset prefix_len in
                output ← memcpy_block output offset (lit COMPOSITE_SIGNATURE_LABEL);
                let offset := size_add offset label_len in
                output ← memcpy_block output offset [byte_of_Z ctx_len];
                let offset := size_add offset 1 in
                '(output, offset) ←
                  (if negb (ctx_len =? 0) then
                     c ← read ctx ctx_len;
                     output ← memcpy_block output offset c;
                     mret (output, size_add offset ctx_len)
                   else mret (output, offset));
                d ← read (Some digest) digest_len;
                output ← memcpy_block output offset d;
                let offset := size_add offset digest_len in
                cleanse digest EVP_MAX_MD_SIZE;;
                if negb (offset =? output_len)
                then free_object (Some output);; mret (false, m_prime)
                else mret (true, set_out output output_len)
            end
      end.

Definition composite_serialize_signature
    (dilithium_signature : ptr) (dilithium_signature_len : Z)
    (sm2_signature_der : ptr) (sm2_signature_der_len : Z)
    (signature : outbuf) : M (bool * outbuf) :=
  if out_null signature then mret (false, signature)
  else
    let signature := fresh_out in
    if is_null dilithium_signature ||
       negb (dilithium_signature_len =? DILITHIUM_SIGNATURE_BYTES)
    then mret (false, signature)
    else
      valid ← sm2_signature_der_is_valid sm2_signature_der sm2_signature_der_len;
      if negb valid ||
         (sm2_signature_der_len >? size_sub SIZE_MAX DILITHIUM_SIGNATURE_BYTES)
      then mret (false, signature)
      else
        output ← malloc (size_add DILITHIUM_SIGNATURE_BYTES sm2_signature_der_len);
        match output with
        | None => mret (false, signature)
        | Some output =>
            d ← read dilithium_signature DILITHIUM_SIGNATURE_BYTES;
            output ← memcpy_block output 0 d;
            s ← read sm2_signature_der sm2_signature_der_len;
            output ← memcpy_block output DILITHIUM_SIGNATURE_BYTES s;
            mret (true, set_out output (size_add DILITHIUM_SIGNATURE_BYTES sm2_signature_der_len))
        end.

Definition composite_parse_signature (signature : ptr) (signature_len : Z)
    (dilithium_signature sm2_signature_der : view) : M (bool * (view * view)) :=
  if view_null dilithium_signature || view_null sm2_signature_der
  then mret (false, (dilithium_signature, sm2_signature_der))
  else
    match signature with
    | None => mret (false, (fresh_view, fresh_view))
    | Some sig =>
        if signature_len <=? DILITHIUM_SIGNATURE_BYTES
        then mret (false, (fresh_view, fresh_view))
        else
          let sm2_len := size_sub signature_len DILITHIUM_SIGNATURE_BYTES in
          let sm2 := zdrop DILITHIUM_SIGNATURE_BYTES sig in
          valid ← sm2_signature_der_is_valid (Some sm2) sm2_len;
          if negb valid then mret (false, (fresh_view, fresh_view))
          else mret (true, (set_view sig DILITHIUM_SIGNATURE_BYTES, set_view sm2 sm2_len))
    end.

Definition composite_sign (key : option HYBRID_PRIVATE_KEY)
    (message : ptr) (message_len : Z) (ctx : ptr) (ctx_len : Z)
    (signature : outbuf) : M (bool * outbuf) :=
  if out_null signature then mret (false, signature)
  else
    let signature := fresh_out in
    let done (m_prime dilithium_signature sm2_signature : outbuf) (r : bool * outbuf) :=
      clear_free (out_block m_prime) (out_len m_prime);;
      free_object (out_block dilithium_signature);;
      free_object (out_block sm2_signature);;
      mret r in
    match key with
    | None => done fresh_out fresh_out fresh_out (false, signature)
    | Some k =>
        check negb (is_null (sm2_private_key k))
          else done fresh_out fresh_out fresh_out (false, signature);;
        '(ok, m_prime) ← composite_build_message message message_len ctx ctx_len fresh_out;
        if negb ok then done m_prime fresh_out fresh_out (false, signature) else
        m ← borrow (out_block m_prime);
        '(ok, dilithium_signature) ←
          dilithium_sign (Some (dilithium_secret_key k)) DILITHIUM_SECRET_KEY_BYTES
                         m (out_len m_prime) fresh_out;
        if negb ok then done m_prime dilithium_signature fresh_out (false, signature) else
        '(ok, sm2_signature) ←
          hybrid_sm2_sign (sm2_private_key k) m (out_len m_prime) fresh_out;
        if negb ok then done m_prime dilithium_signature sm2_signature (false, signature) else
        d ← borrow (out_block dilithium_signature);
        s ← borrow (out_block sm2_signature);
        r ← composite_serialize_signature d (out_len dilithium_signature)
                                          s (out_len sm2_signature) signature;
        done m_prime dilithium_signature sm2_signature r
    end.

Definition composite_verify_detailed (key : option HYBRID_PUBLIC_KEY)
    (message : ptr) (message_len : Z) (ctx : ptr) (ctx_len : Z)
    (signature : ptr) (signature_len : Z) (result : option COMPOSITE_VERIFY_RESULT)
    : M (bool * option COMPOSITE_VERIFY_RESULT) :=
  let local := VerifyResult false false false false in
  let done (m_prime : outbuf) (local : COMPOSITE_VERIFY_RESULT) :=
    clear_free (out_block m_prime) (out_len m_prime);;
    mret (composite_valid local, match result with None => None | Some _ => Some local end) in
  match key with
  | None => done fresh_out local
  | Some k =>
      check negb (is_null (sm2_public_key k)) else done fresh_out local;;
      '(ok, (d, s)) ← composite_parse_signature signature signature_len fresh_view fresh_view;
      if negb ok then done fresh_out local else
      let local := VerifyResult true false false false in
      '(ok, m_prime) ← composite_build_message message message_len ctx ctx_len fresh_out;
      if negb ok then done m_prime local else
      m ← borrow (out_block m_prime);
      dilithium_ok ← dilithium_verify (Some (dilithium_public_key k)) DILITHIUM_PUBLIC_KEY_BYTES
                       m (out_len m_prime) (view_ptr d) (view_len d);
      sm2_ok ← hybrid_sm2_verify (sm2_public_key k) m (out_len m_prime) (view_ptr s) (view_len s);
      done m_prime (VerifyResult true dilithium_ok sm2_ok (dilithium_ok && sm2_ok))
  end.

Definition composite_verify (key : option HYBRID_PUBLIC_KEY)
    (message : ptr) (message_len : Z) (ctx : ptr) (ctx_len : Z)
    (signature : ptr) (signature_len : Z) : M bool :=
  '(valid, _) ← composite_verify_detailed key message message_len ctx ctx_len
                  signature signature_len None;
  mret valid.
End composite_sig.
#[global] Arguments sm2_signature_der_is_valid : simpl never.
#[global] Arguments composite_build_message : simpl never.
#[global] Arguments composite_serialize_signature : simpl never.
#[global] Arguments composite_parse_signature : simpl never.
#[global] Arguments composite_sign : simpl never.
#[global] Arguments composite_verify_detailed : simpl never.
#[global] Arguments composite_verify : simpl never.

(** ** Specifications *)

Lemma len_prefix : len (lit COMPOSITE_SIGNATURE_PREFIX) = 32.
Proof. done. Qed.
Lemma len_label : len (lit COMPOSITE_SIGNATURE_LABEL) = 26.
Proof. done. Qed.
#[export] Hint Rewrite len_prefix len_label : len.

Section specs.
Context `{Libc, OpenSSL, !OpenSSLSizes, Dilithium2, !Dilithium2Sizes}.

(** A signature with both integers present and positive. *)
Definition ecdsa_positive (s : ECDSA_SIG) : Prop :=
  ∃ a b, ECDSA_SIG_get0 s = (Some a, Some b) ∧ 0 < a ∧ 0 < b.

(** [e] decodes, with no byte left over, to a positive signature whose
    encoding is [e] again. *)
Definition sm2_der (Q : modality) (e : list byte) : Prop :=
  Q _ (d2i_ECDSA_SIG e) (on_some (λ r, snd r = len e ∧ ecdsa_positive (fst r) ∧
    Q _ (i2d_ECDSA_SIG (fst r)) (eq (len e, Some e)))).

Definition sm2_der_valid := sm2_der once.
Definition sm2_der_always_valid := sm2_der always.

(** [d] is the SM3 digest of [m] that OpenSSL returned, or always returns. *)
Definition sm3_digest (m d : list byte) : Prop :=
  len d = 32 ∧ ∃ t, EVP_Digest_sm3 m t = Some d.
Definition sm3_always (m d : list byte) : Prop :=
  len d = 32 ∧ ∀ t, EVP_Digest_sm3 m t = Some d.

(** The message representative of the digest [d] in the context [ctx]. *)
Definition composite_message (ctx d : list byte) : list byte :=
  lit COMPOSITE_SIGNATURE_PREFIX ++ lit COMPOSITE_SIGNATURE_LABEL ++
  [byte_of_Z (len ctx)] ++ ctx ++ d.

Ltac destruct_ecdsa :=
  match goal with H : ecdsa_positive _ |- _ => destruct H as (? & ? & ? & ? & ?); cbn [fst snd] in *; try congruence; merge_calls end.

#[local] Arguments composite_message : simpl never.

#[export] Instance spec_sm2_signature_der_is_valid der n :
  Spec (sm2_signature_der_is_valid der n) (λ _, valid der n)
    (λ r s s', frame ∅ ∅ s s' ∧
       (r = true → is_Some der ∧ 0 < n ≤ LONG_MAX ∧ sm2_der_valid (bytes_at der n)) ∧
       (is_Some der → 0 < n ≤ LONG_MAX → sm2_der_always_valid (bytes_at der n) → r = true)).
Proof.
  wp_start. unfold sm2_signature_der_is_valid. destruct der as [e|]; cbn [is_null orb].
  2: { apply wp_ret. split; [done|]. split; [done|]. by intros [? ?]. }
  pose proof (proj1 P). wp_case ((n =? 0) || (n >? LONG_MAX)).
  { apply wp_ret. split; [done|]. split; [done|]. intros _ ? _.
    apply orb_true_iff in E as [?|?]; simpl_bool; simpl_bool; lia. }
  wp_call as r [-> ->]. pose proof (len_bytes_at _ _ P ltac:(by left; eexists)) as Hlen.
  set (b := bytes_at (Some e) n) in *.
  unfold sm2_der_always_valid, sm2_der_valid, sm2_der.
  wp_call as decoded [F1 Hd]. wp_call as [sig|] [F2 Hs]; destruct decoded as [[sg cursor]|]; simplify_eq/=.
  2: { do 2 wp_call as ? ?. apply wp_ret. split; [solve_frame|]. split; [done|]. intros _ _ Hal. always_auto. }
  wp_case (cursor =? n).
  2: { do 2 wp_call as ? ?. apply wp_ret. split; [solve_frame|]. split; [done|]. intros _ _ Hal.
       always_auto. }
  wp_call as r [-> ->].
  destruct (ECDSA_SIG_get0 (obj_val sig)) as [[r|] [sv|]] eqn:Hg.
  2-4: do 2 wp_call as ? ?; apply wp_ret; split; [solve_frame|]; split; [done|]; intros _ _ Hal;
       always_auto; destruct_ecdsa.
  wp_case ((r <? 0) || (r =? 0) || (sv <? 0) || (sv =? 0)).
  { do 2 wp_call as ? ?; apply wp_ret; split; [solve_frame|]; split; [done|]; intros _ _ Hal.
    always_auto. destruct_ecdsa. lia. }
  simpl_bool. wp_call as [cl enc] [F3 Hi]. wp_call as canonical [F4 Hc]. subst enc.
  assert (Hpos : ecdsa_positive (obj_val sig)) by (exists r, sv; split_and!; [done|lia|lia]).
  wp_case ((cl <=? 0) || negb (size_of_Z cl =? n)).
  { do 2 wp_call as ? ?. apply wp_ret; split; [solve_frame|]; split; [done|]; intros _ _ Hal.
    always_auto. simplify_eq. rewrite size_of_Z_small in E by lia. lia. }
  pose proof (i2d_ecdsa_size _ _ _ _ Hi ltac:(done)) as (Him & enc & Henc & Hle).
  destruct canonical as [canonical|]; simplify_eq/=.
  unfold INT_MAX in Him. rewrite size_of_Z_small in * by (unfold SIZE_MAX; lia).
  wp_call as c [-> ->]. wp_call as c [-> ->]. wp_call as c [-> ->].
  do 2 wp_call as ? ?. apply wp_ret. split; [solve_frame|].
  fold b. unfold bytes_at; cbn [default from_option id fmap option_fmap option_map].
  rewrite ztake_all by lia. rewrite bool_decide_eq_true. split.
  - intros Heq. split; [by eexists|]. split; [lia|]. once_auto. congruence.
  - intros _ _ Hal. always_auto. congruence.
Qed.

Lemma bytes_at_0 p : bytes_at p 0 = [].
Proof. done. Qed.

(** The write of the context, which is skipped when it is empty. *)
Lemma wp_append_context b pre rest p n off off' Φ s :
  alive (Some b) s → obj_val b = pre ++ rest → off = len pre → off' = off + n →
  n ≤ len rest → readable p n →
  (∀ rest', len rest' = len rest - n →
     Φ (set_val b ((pre ++ bytes_at p n) ++ rest'), off + n) s) →
  wp (if negb (n =? 0) then
        c ← read p n; b ← memcpy_block b off c; mret (b, off')
      else mret (b, off)) Φ s.
Proof.
  intros Hb Hv Ho Hr Hl Hp HΦ. destruct (n =? 0) eqn:E; simpl_bool; cbn [negb].
  - subst n. apply wp_ret. specialize (HΦ rest). rewrite bytes_at_0, app_nil_r, <-Hv, !Z.add_0_r in HΦ.
    destruct b. apply HΦ. lia.
  - assert (len (bytes_at p n) = n).
    { destruct p; unfold bytes_at; cbn in *; [rewrite len_ztake; lia|lia]. }
    wp_call as c [-> ->]. wp_pure. eapply wp_append; [done|done|done|lia|].
    intros rest' Hrest. apply wp_ret. subst off'. apply HΦ. lia.
Qed.

#[export] Instance spec_composite_build_message m mlen ctx clen out :
  Spec (composite_build_message m mlen ctx clen out)
    (λ _, out_null out = false ∧ valid m mlen ∧ valid ctx clen)
    (λ r s s', yields ∅ out_owns (out_post (λ b n, n = len (obj_val b) ∧
         clen ≤ COMPOSITE_MAX_CONTEXT_BYTES ∧ readable m mlen ∧ readable ctx clen ∧
         ∃ d, sm3_digest (bytes_at m mlen) d ∧
              obj_val b = composite_message (bytes_at ctx clen) d)) r s s' ∧
       (∀ d, reliable_malloc → sm3_always (bytes_at m mlen) d →
          readable m mlen → readable ctx clen →
          clen ≤ COMPOSITE_MAX_CONTEXT_BYTES → fst r = true)).
Proof.
  wp_start. destruct P as (Hout & Hm & Hc). unfold composite_build_message. rewrite Hout.
  wp_case ((is_null m && negb (mlen =? 0)) || (is_null ctx && negb (clen =? 0)) ||
           (clen >? COMPOSITE_MAX_CONTEXT_BYTES)).
  { apply wp_ret. split; [by wp_end|]. intros d _ _ Hr1 Hr2 Hr3. destruct m, ctx; cbn in *; lia. }
  pose proof (proj1 Hc).
  assert (Hcl : len (bytes_at ctx clen) = clen).
  { apply len_bytes_at; [done|]. destruct ctx; [by left; eexists|right]; cbn in *; lia. }
  unfold COMPOSITE_MAX_CONTEXT_BYTES, EVP_MAX_MD_SIZE in *.
  wp_call as digest [F1 Hdl]. wp_call as r [-> ->]. wp_call as [h|] [F2 Hh].
  2: { apply wp_ret. split; [by wp_end|]. intros d _ [_ Hal]. congruence. }
  pose proof (digest_fits _ _ _ Hh). wp_call as r [-> ->].
  wp_case (negb (len h =? 32)).
  { apply wp_ret. split; [by wp_end|]. intros d _ [Hd Hal]. rewrite Hal in Hh. congruence. }
  assert (Hds : sm3_digest (bytes_at m mlen) h) by (split; [done|by eexists]).
  change (strlen COMPOSITE_SIGNATURE_PREFIX) with 32.
  change (strlen COMPOSITE_SIGNATURE_LABEL) with 26.
  rewrite E. size_norm.
  wp_case (clen >? SIZE_MAX - 32 - 26 - 1 - 32); [unfold SIZE_MAX in *; lia|].
  assert (Hdg : len (splice (Z.to_nat 0) h digest) = 64) by (rewrite len_splice; lia).
  assert (Hdt : ztake 32 (splice (Z.to_nat 0) h digest) = h) by (rewrite <-E; apply splice_prefix; lia).
  set (dg := splice (Z.to_nat 0) h digest) in *.
  wp_call as [output|] [F3 Hb].
  2: { wp_call as ? [-> ->]. apply wp_ret. split; [by wp_end|]. intros d Hr. by rewrite Hr in Hb. }
  wp_pure. eapply (wp_append _ [] (obj_val output)); [solve_alive|done|done|by rewrite len_prefix; lia|].
  intros r1 Hr1. rewrite len_prefix in Hr1. cbn [app]. wp_pure.
  eapply wp_append; [solve_alive|done|done|by rewrite len_label; lia|]. rewrite len_label.
  intros r2 Hr2. wp_pure.
  eapply wp_append; [solve_alive|done|by autorewrite with len; size_norm|autorewrite with len; lia|].
  autorewrite with len. intros r3 Hr3. size_norm. set (pre := (_ ++ _) ++ [_]).
  assert (Hpre : len pre = 59) by (unfold pre; by autorewrite with len).
  wp_pure. eapply wp_append_context; [solve_alive|done|by rewrite Hpre|done|lia|by eapply valid_guard|].
  intros r4 Hr4. wp_call as d [-> ->]. change (bytes_at (Some dg) 32) with (ztake 32 dg). rewrite Hdt. size_norm.
  wp_pure. eapply wp_append; [solve_alive|done|rewrite len_app; lia|lia|].
  intros r5 Hr5. wp_call as c [-> ->]. rewrite (proj2 (Z.eqb_eq _ _)) by lia. cbn [negb].
  apply wp_ret. split; [|done]. wp_end. eexists _, _. split; [done|]. cbn [obj_val set_val].
  assert (r5 = []) as -> by (apply nil_length_inv; unfold len in *; lia).
  split; [autorewrite with len; lia|]. split; [done|].
  split; [by eapply valid_guard|]. split; [by eapply valid_guard|]. exists h. split; [done|].
  unfold composite_message, pre. by rewrite Hcl, app_nil_r, <-!app_assoc.
Qed.

#[export] Instance spec_composite_serialize_signature d dlen sm2 slen out :
  Spec (composite_serialize_signature d dlen sm2 slen out)
    (λ _, out_null out = false ∧ valid d dlen ∧ valid sm2 slen)
    (λ r s s', yields ∅ out_owns (out_post (λ b n, n = len (obj_val b) ∧
         is_Some d ∧ dlen = DILITHIUM_SIGNATURE_BYTES ∧ is_Some sm2 ∧ 0 < slen ≤ LONG_MAX ∧
         sm2_der_valid (bytes_at sm2 slen) ∧
         obj_val b = bytes_at d dlen ++ bytes_at sm2 slen)) r s s' ∧
       (reliable_malloc → is_Some d → dlen = DILITHIUM_SIGNATURE_BYTES → is_Some sm2 →
          0 < slen ≤ LONG_MAX → sm2_der_always_valid (bytes_at sm2 slen) → fst r = true)).
Proof.
  wp_start. destruct P as (Hout & Hd & Hs). unfold composite_serialize_signature. rewrite Hout.
  wp_case (is_null d || negb (dlen =? DILITHIUM_SIGNATURE_BYTES)).
  { apply wp_ret. split; [by wp_end|]. intros _ [? ->] ->. cbn in *. lia. }
  unfold DILITHIUM_SIGNATURE_BYTES in *.
  wp_call as valid (F & Hval & Hall).
  wp_case (negb valid || (slen >? size_sub SIZE_MAX 2420)).
  { apply wp_ret. split; [by wp_end|]. intros _ _ _ Hsn Hr Hal. rewrite Hall in E by done.
    rewrite size_sub_small in E; unfold LONG_MAX, SIZE_MAX in *; lia. }
  destruct (Hval eq_refl) as ([e ->] & Hr & Hder).
  assert (Hsl : len (bytes_at (Some e) slen) = slen) by (apply len_bytes_at; [done|by left; eexists]).
  rewrite size_add_small by (unfold LONG_MAX, SIZE_MAX in *; lia).
  assert (Hdl : len (bytes_at (Some x) 2420) = 2420) by (apply len_bytes_at; [done|by left; eexists]).
  wp_call as [output|] [F1 Hb]; [|by (apply wp_ret; split; [by wp_end|]; intros Hrel; rewrite Hrel in Hb)].
  wp_call as r [-> ->].
  wp_pure. eapply (wp_append _ [] (obj_val output)); [solve_alive|done|done|rewrite Hdl, Hb; lia|].
  intros r1 Hr1. wp_call as r [-> ->]. cbn [app].
  wp_pure. eapply wp_append; [solve_alive|done|by rewrite Hdl|lia|].
  intros r2 Hr2. apply wp_ret. split; [|done]. wp_end. eexists _, _. split; [done|]. cbn [obj_val set_val].
  assert (r2 = []) as -> by (apply nil_length_inv; unfold len in *; lia).
  rewrite app_nil_r, len_app, Hdl, Hsl. split_and!; try done; try lia; by eexists.
Qed.

#[export] Instance spec_composite_parse_signature sig n dv sv :
  Spec (composite_parse_signature sig n dv sv)
    (λ _, view_null dv || view_null sv = false ∧ valid sig n)
    (λ r s s', frame ∅ ∅ s s' ∧
       match r with
       | (true, (dv', sv')) => ∃ b, sig = Some b ∧
           0 < n - DILITHIUM_SIGNATURE_BYTES ≤ LONG_MAX ∧
           dv' = set_view b DILITHIUM_SIGNATURE_BYTES ∧
           sv' = set_view (zdrop DILITHIUM_SIGNATURE_BYTES b) (n - DILITHIUM_SIGNATURE_BYTES) ∧
           sm2_der_valid (ztake (n - DILITHIUM_SIGNATURE_BYTES) (zdrop DILITHIUM_SIGNATURE_BYTES b))
       | (false, (dv', sv')) => dv' = fresh_view ∧ sv' = fresh_view
       end ∧
       (∀ b, sig = Some b → 0 < n - DILITHIUM_SIGNATURE_BYTES ≤ LONG_MAX →
          sm2_der_always_valid (ztake (n - DILITHIUM_SIGNATURE_BYTES)
                                  (zdrop DILITHIUM_SIGNATURE_BYTES b)) → fst r = true)).
Proof.
  wp_start. destruct P as (Hv & Hs). unfold composite_parse_signature. rewrite Hv.
  destruct sig as [b|]; [|by apply wp_ret]. unfold DILITHIUM_SIGNATURE_BYTES in *.
  wp_case (n <=? 2420); [apply wp_ret; split_and!; try done; intros; lia|].
  destruct Hs as [Hn Hl]. rewrite size_sub_small by lia.
  wp_call as valid (F & Hval & Hall).
  { split; [lia|]. rewrite len_zdrop; lia. }
  wp_case (negb valid); apply wp_ret; (split; [done|]); (split; [|cbn [fst]]).
  - done.
  - intros ? [= <-] Hr Hal. apply Hall; [by eexists|done|done].
  - destruct (Hval eq_refl) as (_ & Hr & Hder). by exists b.
  - done.
Qed.

(** [sig] is a composite signature made with the private key [k]. *)
Definition composite_signed (k : HYBRID_PRIVATE_KEY) (m ctx sig : list byte) : Prop :=
  ∃ o d ds ss, sm2_private_key k = Some o ∧ sm3_digest m d ∧
    len ctx ≤ COMPOSITE_MAX_CONTEXT_BYTES ∧
    dilithium_signed (dilithium_secret_key k) (composite_message ctx d) ds ∧
    sm2_signed (obj_val o) (composite_message ctx d) ss ∧
    sig = ds ++ ss ∧ len ds = DILITHIUM_SIGNATURE_BYTES ∧ 0 < len ss ≤ LONG_MAX ∧ sm2_der_valid ss.

Lemma bytes_at_all b : bytes_at (Some b) (len b) = b.
Proof. by apply ztake_all. Qed.

Lemma valid_all b : len b ≤ SIZE_MAX → valid (Some b) (len b).
Proof. split; [pose proof (len_nonneg b); lia|done]. Qed.

Lemma len_context ctx clen :
  valid ctx clen → readable ctx clen → len (bytes_at ctx clen) = clen.
Proof. intros Hv Hr. apply len_bytes_at; [done|]. destruct ctx; [by left; eexists|by right]. Qed.

Lemma len_composite_message ctx d :
  len ctx ≤ COMPOSITE_MAX_CONTEXT_BYTES → len d = 32 →
  len (composite_message ctx d) ≤ SIZE_MAX.
Proof.
  unfold composite_message, COMPOSITE_MAX_CONTEXT_BYTES, SIZE_MAX.
  autorewrite with len. lia.
Qed.

(** Signing with [k] never fails, and the SM2 signatures made are valid. *)
Definition composite_always_signs (k : HYBRID_PRIVATE_KEY) (m ctx : list byte) : Prop :=
  ∃ o d, sm2_private_key k = Some o ∧ sm3_always m d ∧
    len ctx ≤ COMPOSITE_MAX_CONTEXT_BYTES ∧
    dilithium_always_signs (dilithium_secret_key k) (composite_message ctx d) ∧
    sm2_always_signs (obj_val o) (composite_message ctx d) ∧
    ∀ ss, sm2_signed (obj_val o) (composite_message ctx d) ss →
      0 < len ss ≤ LONG_MAX ∧ sm2_der_always_valid ss.

(** A failing exit of [composite_sign]. *)
Ltac sign_failed :=
  do 3 wp_call as ? ?; apply wp_ret; split; [by wp_end|];
  intros ? [= <-] Hrel Hr1 Hr2 (o' & d' & Ho' & Hd' & Hc' & Hds' & Hss' & Hder').

#[export] Instance spec_composite_sign key m mlen ctx clen out :
  Spec (composite_sign key m mlen ctx clen out)
    (λ s, out_null out = false ∧ private_owns key ⊆ live s ∧
          from_option private_key_wf True key ∧ valid m mlen ∧ valid ctx clen)
    (λ r s s', yields ∅ out_owns (out_post (λ b n,
         n = len (obj_val b) ∧ readable m mlen ∧ readable ctx clen ∧
         ∃ k, key = Some k ∧
              composite_signed k (bytes_at m mlen) (bytes_at ctx clen) (obj_val b))) r s s' ∧
       (∀ k, key = Some k → reliable_malloc → readable m mlen → readable ctx clen →
          composite_always_signs k (bytes_at m mlen) (bytes_at ctx clen) → fst r = true)).
Proof.
  wp_start. destruct P as (Hout & Hl & Hwf & Hm & Hc). unfold composite_sign. rewrite Hout.
  destruct key as [k|]; [|do 3 wp_call as ? ?; apply wp_ret; by (split; [wp_end|])].
  cbn in Hl, Hwf. unfold private_key_wf in Hwf.
  destruct (sm2_private_key k) as [o|] eqn:Ho; cbn [is_null negb]; [|sign_failed; congruence].
  wp_call as [[] mp] ([F Hmp] & Hmall); cbn [negb fst out_post] in *.
  2: { subst mp. sign_failed. eapply Hmall; try done. by rewrite <-(len_context _ _ Hc Hr2). }
  destruct Hmp as (mb & ? & -> & -> & Hcl & Hmr & Hcr & d & Hd & Hmb).
  pose proof (len_context _ _ Hc Hcr) as Hlc.
  assert (Hd1 : ∀ d', sm3_always (bytes_at m mlen) d' → d' = d).
  { intros d' [_ Hd']. destruct Hd as [_ [t Hd]]. specialize (Hd' t). congruence. }
  assert (Hlm : len (obj_val mb) ≤ SIZE_MAX).
  { rewrite Hmb. apply len_composite_message; [by rewrite Hlc|apply Hd]. }
  assert (Hsk : bytes_at (Some (dilithium_secret_key k)) DILITHIUM_SECRET_KEY_BYTES = dilithium_secret_key k)
    by by apply bytes_at_full.
  assert (Hmr' : readable (Some (obj_val mb)) (len (obj_val mb))).
  { cbn. pose proof (len_nonneg (obj_val mb)). lia. }
  cbn [out_block out_len set_out fst snd default from_option id].
  wp_call as mm [-> ->]. cbn [fmap option_fmap option_map].
  wp_call as [[] dso] [[F1 Hds] Hdall]; cbn [negb fst out_post] in *; rewrite Hsk, bytes_at_all in *.
  2: { subst dso. sign_failed. apply Hd1 in Hd' as ->. rewrite <-Hmb in Hds'. by apply Hdall. }
  destruct Hds as (db & ? & -> & -> & Hdl & Hds).
  cbn [out_block out_len set_out fst snd default from_option id].
  wp_call as [[] sso] [[F1 Hss] Hsall]; cbn [negb fst out_post] in *; rewrite bytes_at_all in *.
  2: { subst sso. sign_failed. apply Hd1 in Hd' as ->. rewrite Ho in Ho'. simplify_eq.
       rewrite <-Hmb in Hss'. by eapply Hsall. }
  destruct Hss as (sb & sn & -> & Hsn & ? & ? & [= <-] & Hss).
  cbn [out_block out_len set_out fst snd default from_option id].
  wp_call as r [-> ->]. wp_call as r [-> ->]. cbn [fmap option_fmap option_map].
  wp_call as [ok out'] ([F1 Hr] & Hall). do 3 wp_call as ? ?. apply wp_ret.
  rewrite Hmb in Hds, Hss. rewrite <-Hdl, bytes_at_all in Hr. cbn [fst] in *. split.
  - wp_end. eapply out_post_impl; [exact Hr|]. cbn beta.
    intros b n (-> & _ & _ & _ & Hsl & Hder & Hbv). split_and!; try done. exists k. split; [done|].
    exists o, d, (obj_val db), (ztake sn (obj_val sb)).
    split_and!; try done; rewrite ?Hlc, ?len_ztake; try done; try lia.
  - intros ? [= <-] Hrel Hr1 Hr2 (o' & d' & Ho' & Hd' & Hc' & Hds' & Hss' & Hder').
    apply Hd1 in Hd' as ->. rewrite Ho in Ho'. simplify_eq.
    destruct (Hder' _ Hss) as [Hsl Hder]. rewrite len_ztake in Hsl by lia.
    apply Hall; try done; by eexists.
Qed.

(** The two components of a serialized signature. *)
Definition dilithium_part (sig : list byte) : list byte := ztake DILITHIUM_SIGNATURE_BYTES sig.
Definition sm2_part (sig : list byte) : list byte := zdrop DILITHIUM_SIGNATURE_BYTES sig.

(** What a verification reports, by its stage: [o] is the SM2 key of [k]. *)
Definition composite_report (k : HYBRID_PUBLIC_KEY) (o : obj EVP_PKEY)
    (m ctx sig : list byte) (r : COMPOSITE_VERIFY_RESULT) : Prop :=
  DILITHIUM_SIGNATURE_BYTES < len sig ∧ sm2_der_valid (sm2_part sig) ∧
  (dilithium_valid r = true ∨ sm2_valid r = true →
   len ctx ≤ COMPOSITE_MAX_CONTEXT_BYTES ∧ ∃ d, sm3_digest m d ∧
     dilithium_valid r = dilithium_verifies (dilithium_public_key k)
                           (composite_message ctx d) (dilithium_part sig) ∧
     (sm2_valid r = true →
      sm2_verified (obj_val o) (composite_message ctx d) (sm2_part sig))).

(** The verification of a well-formed signature cannot fail for want of
    memory or of a digest, and tells what its components verify. *)
Definition composite_decides (k : HYBRID_PUBLIC_KEY) (o : obj EVP_PKEY)
    (m ctx sig : list byte) (r : COMPOSITE_VERIFY_RESULT) : Prop :=
  ∀ d, 0 < len sig - DILITHIUM_SIGNATURE_BYTES ≤ LONG_MAX →
    sm2_der_always_valid (sm2_part sig) → reliable_malloc → sm3_always m d →
    len ctx ≤ COMPOSITE_MAX_CONTEXT_BYTES →
    dilithium_valid r = dilithium_verifies (dilithium_public_key k)
                          (composite_message ctx d) (dilithium_part sig) ∧
    (sm2_always_verifies (obj_val o) (composite_message ctx d) (sm2_part sig) →
     sm2_valid r = true).

Lemma bytes_at_parts b n :
  DILITHIUM_SIGNATURE_BYTES ≤ n →
  ztake DILITHIUM_SIGNATURE_BYTES b = dilithium_part (bytes_at (Some b) n) ∧
  ztake (n - DILITHIUM_SIGNATURE_BYTES) (zdrop DILITHIUM_SIGNATURE_BYTES b) =
    sm2_part (bytes_at (Some b) n).
Proof.
  unfold dilithium_part, sm2_part, bytes_at, DILITHIUM_SIGNATURE_BYTES. intros.
  cbn [default from_option id]. rewrite ztake_ztake, ztake_of_zdrop by lia. done.
Qed.

#[export] Instance spec_composite_verify_detailed key m mlen ctx clen sig n result :
  Spec (composite_verify_detailed key m mlen ctx clen sig n result)
    (λ s, public_owns key ⊆ live s ∧ from_option public_key_wf True key ∧
          valid m mlen ∧ valid ctx clen ∧ valid sig n)
    (λ r s s', frame ∅ ∅ s s' ∧ ∃ local,
       r = (composite_valid local, (λ _, local) <$> result) ∧
       composite_valid local = dilithium_valid local && sm2_valid local ∧
       (format_valid local = false → dilithium_valid local = false ∧ sm2_valid local = false) ∧
       (format_valid local = true → ∃ k o, key = Some k ∧ sm2_public_key k = Some o ∧ is_Some sig ∧
          composite_report k o (bytes_at m mlen) (bytes_at ctx clen) (bytes_at sig n) local) ∧
       (∀ k o, key = Some k → sm2_public_key k = Some o → is_Some sig →
          readable m mlen → readable ctx clen →
          composite_decides k o (bytes_at m mlen) (bytes_at ctx clen) (bytes_at sig n) local)).
Proof.
  wp_start. destruct P as (Hl & Hwf & Hm & Hc & Hs). unfold composite_verify_detailed.
  destruct key as [k|].
  2: { wp_call as ? ?. apply wp_ret. split; [solve_frame|]. by exists (VerifyResult false false false false). }
  cbn in Hl, Hwf. unfold public_key_wf in Hwf.
  destruct (sm2_public_key k) as [o|] eqn:Ho; cbn [is_null negb].
  2: { wp_call as ? ?. apply wp_ret. split; [solve_frame|]. exists (VerifyResult false false false false).
       repeat split; try done; naive_solver. }
  wp_call as [[] [dv sv]] (F & Hp & Hpall); cbn [negb fst] in *.
  2: { wp_call as ? ?. apply wp_ret. split; [solve_frame|]. exists (VerifyResult false false false false).
       split; [done|]. split; [done|]. split; [done|]. split; [done|].
       intros ? ? [= <-] _ [b ->] _ _ d Hn Hal. rewrite len_bytes_at_some in Hn by done.
       destruct (bytes_at_parts b n ltac:(lia)) as [_ Hsp]. rewrite <-Hsp in Hal. by specialize (Hpall b eq_refl Hn Hal). }
  destruct Hp as (b & -> & Hn & -> & -> & Hder).
  destruct (bytes_at_parts b n ltac:(lia)) as [Hdp Hsp]. pose proof (len_bytes_at_some _ _ Hs) as Hln.
  assert (Hlb : n ≤ len b) by apply Hs. assert (Hn0 : 0 ≤ n ≤ SIZE_MAX) by apply Hs.
  assert (Hvs : valid (Some (zdrop DILITHIUM_SIGNATURE_BYTES b)) (n - DILITHIUM_SIGNATURE_BYTES)).
  { unfold valid. rewrite len_zdrop by size_lia. size_lia. }
  assert (Hvd : valid (Some b) DILITHIUM_SIGNATURE_BYTES) by (unfold valid; size_lia).
  rewrite Hsp in Hder. set (S := bytes_at (Some b) n) in *.
  wp_call as [[] mp] ([F1 Hmp] & Hmall); cbn [negb out_post fst] in *.
  2: { subst mp. wp_call as ? ?. apply wp_ret. split; [solve_frame|].
       exists (VerifyResult true false false false). split; [done|]. split; [done|]. split; [done|]. split.
       - intros _. exists k, o. split; [done|]. split; [done|]. split; [by eexists|]. split; [lia|]. split; [done|]. intros [?|?]; done.
       - intros ? ? [= <-] _ _ Hmr Hcr d Hn1 Hal Hrel Hd Hcl. rewrite (len_context _ _ Hc Hcr) in Hcl.
         by specialize (Hmall d Hrel Hd Hmr Hcr Hcl). }
  destruct Hmp as (mb & ? & -> & -> & Hcl & Hmr & Hcr & d & Hd & Hmb).
  pose proof (len_context _ _ Hc Hcr) as Hlc.
  assert (Hlm : len (obj_val mb) ≤ SIZE_MAX).
  { rewrite Hmb. apply len_composite_message; [by rewrite Hlc|apply Hd]. }
  cbn [out_block out_len set_out set_view view_ptr view_len fst snd default from_option id].
  assert (Hpk : bytes_at (Some (dilithium_public_key k)) DILITHIUM_PUBLIC_KEY_BYTES = dilithium_public_key k).
  { rewrite <-Hwf. apply bytes_at_all. }
  wp_call as mm [-> ->]. wp_call as dok [-> Hdok].
  cbn [is_null negb orb andb fmap option_fmap option_map] in Hdok. rewrite !Z.eqb_refl, bytes_at_all, Hpk in Hdok.
  change (bytes_at (Some b) DILITHIUM_SIGNATURE_BYTES) with (ztake DILITHIUM_SIGNATURE_BYTES b) in Hdok.
  rewrite Hdp, Hmb in Hdok. cbn [negb orb andb] in Hdok.
  wp_call as sok (F1 & Hsound & Hcomp).
  change (bytes_at (Some (zdrop DILITHIUM_SIGNATURE_BYTES b)) (n - DILITHIUM_SIGNATURE_BYTES))
    with (ztake (n - DILITHIUM_SIGNATURE_BYTES) (zdrop DILITHIUM_SIGNATURE_BYTES b)) in *.
  cbn [fmap option_fmap option_map] in *. rewrite bytes_at_all, Hmb, Hsp in Hsound, Hcomp.
  wp_call as ? ?. apply wp_ret. split; [solve_frame|].
  exists (VerifyResult true dok sok (dok && sok)). cbn [composite_valid dilithium_valid sm2_valid format_valid].
  split; [by destruct result|]. split; [done|]. split; [done|]. split.
  - intros _. exists k, o. split; [done|]. split; [done|]. split; [by eexists|]. split; [lia|]. split; [done|].
    intros _. split; [lia|]. exists d. split; [done|]. split; [done|].
    intros Hsok. by destruct (Hsound Hsok) as (? & [= <-] & _ & ?).
  - intros ? ? [= <-] Ho' _ _ _ d' Hn1 Hal Hrel [Hd'1 Hd'2] _. rewrite Ho in Ho'. simplify_eq.
    destruct Hd as [_ [t Hd]]. rewrite Hd'2 in Hd. simplify_eq. split; [done|].
    intros Hv. eapply (Hcomp _ eq_refl); [by eexists|done|done].
Qed.

(** Both components of [sig] verify for [m] under [k]. *)
Definition composite_accepted (k : HYBRID_PUBLIC_KEY) (m ctx sig : list byte) : Prop :=
  ∃ o local, sm2_public_key k = Some o ∧ composite_report k o m ctx sig local ∧
    dilithium_valid local = true ∧ sm2_valid local = true.

(** They verify whenever they are tried. *)
Definition composite_always_accepted (k : HYBRID_PUBLIC_KEY) (m ctx sig : list byte) : Prop :=
  ∃ o d, sm2_public_key k = Some o ∧
    0 < len sig - DILITHIUM_SIGNATURE_BYTES ≤ LONG_MAX ∧
    sm2_der_always_valid (sm2_part sig) ∧ sm3_always m d ∧
    len ctx ≤ COMPOSITE_MAX_CONTEXT_BYTES ∧
    dilithium_verifies (dilithium_public_key k) (composite_message ctx d) (dilithium_part sig) = true ∧
    sm2_always_verifies (obj_val o) (composite_message ctx d) (sm2_part sig).

Lemma composite_decides_accepted k o m ctx sig r :
  sm2_public_key k = Some o → composite_decides k o m ctx sig r → reliable_malloc →
  composite_always_accepted k m ctx sig → dilithium_valid r && sm2_valid r = true.
Proof.
  intros Ho Hd Hrel (o' & d & Ho' & Hn & Hder & Hsm3 & Hc & Hdv & Hsv). simplify_eq.
  destruct (Hd d) as [Hr1 Hr2]; try done. by rewrite Hr1, Hdv, Hr2.
Qed.

(** A successful verification accepts; a signature that always verifies is
    not refused. *)
#[export] Instance spec_composite_verify key m mlen ctx clen sig n :
  Spec (composite_verify key m mlen ctx clen sig n)
    (λ s, public_owns key ⊆ live s ∧ from_option public_key_wf True key ∧
          valid m mlen ∧ valid ctx clen ∧ valid sig n)
    (λ r s s', frame ∅ ∅ s s' ∧
       (r = true → ∃ k, key = Some k ∧ is_Some sig ∧
          composite_accepted k (bytes_at m mlen) (bytes_at ctx clen) (bytes_at sig n)) ∧
       (∀ k, key = Some k → is_Some sig → readable m mlen → readable ctx clen → reliable_malloc →
          composite_always_accepted k (bytes_at m mlen) (bytes_at ctx clen) (bytes_at sig n) →
          r = true)).
Proof.
  wp_start. unfold composite_verify.
  wp_call as r (F & local & -> & Hv & Hf & Ht & Hd).
  apply wp_ret. split; [done|]. rewrite Hv. split.
  - intros [Hdv Hsv]%andb_true_iff.
    destruct (format_valid local) eqn:E; [|destruct (Hf eq_refl); congruence].
    destruct (Ht eq_refl) as (k & o & Hk & Ho & Hs & Hr). exists k. split_and!; try done. by exists o, local.
  - intros k Hk Hs Hmr Hcr Hrel Hal. destruct (id Hal) as (o & d & Ho & _).
    eapply composite_decides_accepted; [done|by apply Hd|done|done].
Qed.
End specs.

(** The representative determines the context and the digest. *)
Lemma composite_message_inj ctx d ctx' d' :
  len ctx ≤ COMPOSITE_MAX_CONTEXT_BYTES → len ctx' ≤ COMPOSITE_MAX_CONTEXT_BYTES →
  len d = 32 → len d' = 32 →
  composite_message ctx d = composite_message ctx' d' → ctx = ctx' ∧ d = d'.
Proof.
  unfold composite_message, len. intros Hc Hc' Hd Hd' E.
  apply (f_equal (drop 58)) in E. change (drop 58 (lit COMPOSITE_SIGNATURE_PREFIX ++ lit COMPOSITE_SIGNATURE_LABEL ++ ?l)) with l in E.
  cbn [app] in E. injection E as _ E. apply app_inj_2 in E; [done|lia].
Qed.

(** ** Properties *)

Section properties.
Context `{Libc, OpenSSL, !OpenSSLSizes, Dilithium2, !Dilithium2Sizes}.

(** What the scheme expects of its components and of memory: no allocation
    fails, SM3 is a function, keys sign, and what they sign verifies. *)
Class SchemeLaws : Prop := {
  law_malloc : reliable_malloc;
  law_sm3 m : ∃ d, sm3_always m d;
  law_dilithium_signs pk sk m : dilithium_keypair pk sk → dilithium_always_signs sk m;
  law_dilithium pk sk m sig :
    dilithium_keypair pk sk → dilithium_signed sk m sig → dilithium_verifies pk m sig = true;
  law_sm2_signs k m : sm2_generated k → sm2_always_signs k m;
  law_sm2 k m sig : sm2_generated k → sm2_signed k m sig →
    sm2_always_verifies k m sig ∧ 0 < len sig ≤ LONG_MAX ∧ sm2_der_always_valid sig
}.

(** A generated private key signs every message. *)
Lemma generated_always_signs `{!SchemeLaws} sk pk o m ctx :
  sm2_private_key sk = Some o → sm2_generated (obj_val o) → dilithium_keypair pk (dilithium_secret_key sk) →
  len ctx ≤ COMPOSITE_MAX_CONTEXT_BYTES → composite_always_signs sk m ctx.
Proof.
  intros Hsk Hgen Hkp Hc. destruct (law_sm3 m) as [d Hd]. exists o, d.
  split_and!; try done; [by eapply law_dilithium_signs|by apply law_sm2_signs|].
  intros ss Hss. by destruct (law_sm2 _ _ _ Hgen Hss) as (_ & ? & ?).
Qed.

(** What a key pair signed, its public half always accepts. *)
Lemma signed_always_accepted `{!SchemeLaws} sk pk o m ctx sig :
  sm2_private_key sk = Some o → sm2_public_key pk = Some o → sm2_generated (obj_val o) →
  dilithium_keypair (dilithium_public_key pk) (dilithium_secret_key sk) →
  composite_signed sk m ctx sig → composite_always_accepted pk m ctx sig.
Proof.
  intros Hsk Hpk Hgen Hkp (o' & d' & ds & ss & Ho' & [_ [t Hd']] & Hcl & Hds & Hss & Hb & Hdl & Hsl & _).
  destruct (law_sm3 m) as [d Hd]. rewrite (proj2 Hd) in Hd'. simplify_eq.
  destruct (law_sm2 _ _ _ Hgen Hss) as (Hver & _ & Hder).
  pose proof (law_dilithium _ _ _ _ Hkp Hds) as Hdv.
  exists o, d'. split; [done|]. unfold dilithium_part, sm2_part. rewrite ztake_app, zdrop_app by done.
  split_and!; try done; rewrite ?len_app; lia.
Qed.

(** A client: signs, then verifies with the other half of the pair. *)
Definition sign_then_verify (sk : HYBRID_PRIVATE_KEY) (pk : HYBRID_PUBLIC_KEY)
    (m : ptr) (mlen : Z) (ctx : ptr) (clen : Z) : M bool :=
  '(ok, sig) ← composite_sign (Some sk) m mlen ctx clen fresh_out;
  bytes ← borrow (out_block sig);
  r ← composite_verify (Some pk) m mlen ctx clen bytes (out_len sig);
  free_object (out_block sig);;
  mret (ok && r).

Lemma spec_sign_then_verify `{!SchemeLaws} sk pk o m mlen ctx clen :
  sm2_private_key sk = Some o → sm2_public_key pk = Some o → sm2_generated (obj_val o) →
  dilithium_keypair (dilithium_public_key pk) (dilithium_secret_key sk) →
  Spec (sign_then_verify sk pk m mlen ctx clen)
    (λ s, alive (Some o) s ∧ valid m mlen ∧ valid ctx clen ∧ readable m mlen ∧ readable ctx clen ∧
          clen ≤ COMPOSITE_MAX_CONTEXT_BYTES)
    (λ r s s', frame ∅ ∅ s s' ∧ r = true).
Proof.
  intros Hsk Hpk Hgen Hkp. wp_start. destruct P as (Ho & Hm & Hc & Hmr & Hcr & Hcl). unfold sign_then_verify.
  assert (private_key_wf sk ∧ public_key_wf pk) as [Hwf1 Hwf2].
  { destruct Hkp as [t Hkp]. by destruct (dilithium2_keypair_sizes _ _ _ Hkp). }
  assert (private_owns (Some sk) ⊆ live s) by (cbn; by rewrite Hsk).
  assert (public_owns (Some pk) ⊆ live s) by (cbn; by rewrite Hpk).
  pose proof (len_context _ _ Hc Hcr) as Hlc.
  wp_call as [ok sig] ([F Hsig] & Hall). cbn [fst] in Hall.
  assert (ok = true) as ->.
  { apply (Hall sk eq_refl law_malloc Hmr Hcr). eapply generated_always_signs; try done. lia. }
  destruct Hsig as (b & ? & -> & -> & _ & _ & ? & [= <-] & Hsig).
  pose proof Hsig as (_ & _ & ds & ss & _ & _ & _ & _ & _ & Hb & Hdl & Hsl & _).
  cbn [out_block out_len set_out fst snd default from_option id].
  assert (Hlb : len (obj_val b) ≤ SIZE_MAX) by (rewrite Hb; size_lia).
  wp_call as r [-> ->]. cbn [fmap option_fmap option_map].
  assert (public_owns (Some pk) ⊆ live s0) by (cbn; rewrite Hpk; solve_alive).
  wp_call as r (F1 & _ & Hcomp). wp_call as ? ?. apply wp_ret. split; [solve_frame|]. cbn [andb].
  apply (Hcomp pk eq_refl ltac:(by eexists) Hmr Hcr law_malloc).
  rewrite bytes_at_all. by eapply signed_always_accepted.
Qed.

(** A client: a fresh key pair, a signature with it, its verification, and
    the release of everything. [None] when no key pair could be made. *)
Definition generate_sign_verify (m : ptr) (mlen : Z) (ctx : ptr) (clen : Z) : M (option bool) :=
  '(ok, (sk, pk)) ← composite_key_generate (Some zero_private_key) (Some zero_public_key);
  if negb ok then mret None
  else
    match sk, pk with
    | Some k, Some p =>
        r ← sign_then_verify k p m mlen ctx clen;
        hybrid_private_key_cleanup sk;;
        hybrid_public_key_cleanup pk;;
        mret (Some r)
    | _, _ => undefined
    end.

(** C2. A signature made with a freshly generated key pair, for any message
    and any context of at most 255 bytes, is accepted by the verifier; when
    both halves of the pair have been cleaned up no reference is left over.
    There is no such signature only if a step of key generation fails. *)
Theorem generated_key_signs_and_verifies `{!SchemeLaws} m mlen ctx clen s :
  valid m mlen → valid ctx clen → readable m mlen → readable ctx clen →
  clen ≤ COMPOSITE_MAX_CONTEXT_BYTES →
  wp (generate_sign_verify m mlen ctx clen)
    (λ r s', live s' = live s ∧ (r = Some true ∨ r = None ∧ ¬ always_generates)) s.
Proof.
  intros Hm Hc Hmr Hcr Hcl. unfold generate_sign_verify. wp_pure.
  eapply wp_spec; [apply _|split; [owns_lia|apply zero_private_key_wf]|].
  intros [[] [sk pk]] s1; cbv beta iota.
  2: { intros (_ & F & Hal). apply wp_ret. split; [pose proof (frame_live _ _ _ _ F); owns_lia|]. right. split; [done|]. intros Hg. apply Hal. split_and!; [by eexists..|done]. }
  destruct sk as [sk|], pk as [pk|]; [|done..].
  intros (o & s0 & Hsk & Hpk & Hgen & Hkp & F & ->). cbn [negb].
  pose proof (frame_live _ _ _ _ F) as L0. cbn [private_owns public_owns zero_private_key zero_public_key
    sm2_private_key sm2_public_key owns] in L0.
  assert (Hl : live (add_residue (dilithium_secret_key sk) s0) = live s0) by done.
  wp_pure. eapply wp_mono; [eapply (spec_sign_then_verify sk pk o); try done; split_and!; try done|].
  { unfold alive. rewrite Hl. owns_lia. }
  cbv beta. intros r s2 [F2 ->]. pose proof (frame_live _ _ _ _ F2) as L2. rewrite Hl in L2.
  assert (private_key_wf sk).
  { destruct Hkp as [t Hkp]. by destruct (dilithium2_keypair_sizes _ _ _ Hkp). }
  wp_pure. eapply wp_spec; [apply _|split; [cbn; rewrite Hsk; owns_lia|done]|].
  cbn [private_owns]. rewrite Hsk. intros r s3 [F3 _]. pose proof (frame_live _ _ _ _ F3) as L3.
  wp_pure. eapply wp_spec; [apply _|cbn; rewrite Hpk; owns_lia|].
  cbn [public_owns]. rewrite Hpk. intros r' s4 [F4 _]. pose proof (frame_live _ _ _ _ F4) as L4.
  apply wp_ret. split; [owns_lia|by left].
Qed.

(** C1. A successful verification has checked a strictly encoded signature of
    more than 2420 bytes and a context of at most 255 bytes, and both
    components for the one message representative of the message's digest:
    the AND rule. Verification never has undefined behaviour, whatever the
    arguments, and leaves no reference behind. *)
Theorem composite_verify_sound key m mlen ctx clen sig n s :
  public_owns key ⊆ live s → from_option public_key_wf True key →
  valid m mlen → valid ctx clen → valid sig n →
  wp (composite_verify key m mlen ctx clen sig n)
    (λ r s', frame ∅ ∅ s s' ∧ (r = true →
       ∃ k o d, key = Some k ∧ sm2_public_key k = Some o ∧
         sm3_digest (bytes_at m mlen) d ∧
         let M := composite_message (bytes_at ctx clen) d in
         let S := bytes_at sig n in
         len (bytes_at ctx clen) ≤ COMPOSITE_MAX_CONTEXT_BYTES ∧
         DILITHIUM_SIGNATURE_BYTES < len S ∧ sm2_der_valid (sm2_part S) ∧
         dilithium_verifies (dilithium_public_key k) M (dilithium_part S) = true ∧
         sm2_verified (obj_val o) M (sm2_part S))) s.
Proof.
  intros. eapply wp_mono; [by apply spec|]. intros r s' (F & Hs & _). split; [done|].
  intros Hr. destruct (Hs Hr) as (k & Hk & _ & o & local & Ho & (Hn & Hder & Hrep) & Hd & Hsm2).
  destruct Hrep as (Hcl & d & Hd' & Hdv & Hsv); [by left|]. exists k, o, d. cbv zeta. rewrite <-Hdv. by auto 10.
Qed.

(** [composite_build_message] writes exactly
    [prefix || label || one length byte || context || SM3(message)], that is
    [91 + ctx_len] bytes; without allocation and digest failures it succeeds
    exactly when the context has at most 255 bytes, and on failure it leaves
    a null pointer and a zero length. *)
Theorem composite_build_message_correct m mlen ctx clen s :
  valid m mlen → valid ctx clen → readable m mlen → readable ctx clen →
  wp (composite_build_message m mlen ctx clen fresh_out)
    (λ r s', frame ∅ (out_owns r) s s' ∧
       (fst r = false → snd r = fresh_out) ∧
       (fst r = true → ∃ b d, snd r = set_out b (91 + clen) ∧ len (obj_val b) = 91 + clen ∧
          sm3_digest (bytes_at m mlen) d ∧
          obj_val b = lit "CompositeAlgorithmSignatures2025" ++ lit "COMPSIG-DILITHIUM2-SM2-SM3" ++
                      [byte_of_Z clen] ++ bytes_at ctx clen ++ d) ∧
       (∀ d, reliable_malloc → sm3_always (bytes_at m mlen) d → fst r = (clen <=? 255))) s.
Proof.
  intros Hm Hc Hmr Hcr. eapply wp_mono; [by apply spec|].
  intros [ok out] s' [[F Hout] Hall]. cbn [fst snd] in *. pose proof (len_context _ _ Hc Hcr) as Hl.
  split; [done|]. split; [by destruct ok|]. destruct ok.
  - destruct Hout as (b & ? & -> & -> & Hcl & _ & _ & d & Hd & Hb).
    assert (Hlb : len (obj_val b) = 91 + clen).
    { rewrite Hb. unfold composite_message. autorewrite with len. rewrite Hl, (proj1 Hd). lia. }
    split; [|intros; symmetry; by apply Z.leb_le].
    intros _. exists b, d. rewrite Hlb. split_and!; try done. rewrite Hb. unfold composite_message. by rewrite Hl.
  - split; [done|]. intros d Hrel Hd. symmetry. apply Z.leb_gt.
    destruct (Z.le_gt_cases clen 255); [|done]. by specialize (Hall d Hrel Hd Hmr Hcr ltac:(done)).
Qed.

(** C23. The message representative is binding: two calls that produce the
    same bytes were given the same context and messages with one digest. *)
Theorem composite_build_message_binding m mlen ctx clen m' mlen' ctx' clen' s s1 s' s1' b n b' n' :
  valid m mlen → valid ctx clen → valid m' mlen' → valid ctx' clen' →
  composite_build_message m mlen ctx clen fresh_out s = Some ((true, set_out b n), s1) →
  composite_build_message m' mlen' ctx' clen' fresh_out s' = Some ((true, set_out b' n'), s1') →
  obj_val b = obj_val b' →
  bytes_at ctx clen = bytes_at ctx' clen' ∧
  ∃ d, sm3_digest (bytes_at m mlen) d ∧ sm3_digest (bytes_at m' mlen') d.
Proof.
  intros Hm Hc Hm' Hc' E E' Hb.
  assert (W := wp_elim _ _ _ _ _ (spec_composite_build_message m mlen ctx clen fresh_out s
            (conj eq_refl (conj Hm Hc))) E).
  assert (W' := wp_elim _ _ _ _ _ (spec_composite_build_message m' mlen' ctx' clen' fresh_out s'
            (conj eq_refl (conj Hm' Hc'))) E').
  destruct W as [[_ (? & ? & [= <- <-] & _ & Hcl & _ & Hcr & d & Hd & Hv)] _].
  destruct W' as [[_ (? & ? & [= <- <-] & _ & Hcl' & _ & Hcr' & d' & Hd' & Hv')] _].
  rewrite Hv, Hv' in Hb. apply composite_message_inj in Hb as [-> ->];
    rewrite ?len_context by done; try done; [by eauto|apply Hd|apply Hd'].
Qed.

(** C24. An SM2 signature is accepted as DER only if OpenSSL decodes it to the
    last byte, to two positive integers, and encodes them to the same bytes
    again; every such encoding is accepted when decoding does not fail. *)
Theorem sm2_signature_der_strict e n s :
  valid (Some e) n → 0 < n ≤ LONG_MAX →
  wp (sm2_signature_der_is_valid (Some e) n)
    (λ r s', frame ∅ ∅ s s' ∧
       (r = true → ∃ sg a b t t',
          d2i_ECDSA_SIG (ztake n e) t = Some (sg, n) ∧
          ECDSA_SIG_get0 sg = (Some a, Some b) ∧ 0 < a ∧ 0 < b ∧
          i2d_ECDSA_SIG sg t' = (n, Some (ztake n e))) ∧
       ((∀ t, ∃ sg a b, d2i_ECDSA_SIG (ztake n e) t = Some (sg, n) ∧
           ECDSA_SIG_get0 sg = (Some a, Some b) ∧ 0 < a ∧ 0 < b ∧
           ∀ t', i2d_ECDSA_SIG sg t' = (n, Some (ztake n e))) → r = true)) s.
Proof.
  intros Hv Hn. pose proof (len_bytes_at_some _ _ Hv) as Hl. cbn in Hl.
  eapply wp_mono; [by apply spec|]. intros r s' (F & Hs & Hc). split; [done|].
  change (bytes_at (Some e) n) with (ztake n e) in *. split.
  - intros Hr. destruct (Hs Hr) as (_ & _ & t & Hder).
    destruct (d2i_ECDSA_SIG (ztake n e) t) as [[sg k]|] eqn:Hd; [|done]. cbn in Hder.
    destruct Hder as (-> & (a & b & Hg & Ha & Hb) & t' & Hi). rewrite Hl in *. by exists sg, a, b, t, t'.
  - intros Hal. apply Hc; [by eexists|done|]. intros t.
    destruct (Hal t) as (sg & a & b & -> & Hg & Ha & Hb & Hi). cbn. rewrite Hl.
    split; [done|]. split; [by exists a, b|]. by intros t'.
Qed.

(** C22. Serializing two components and parsing the result gives the two
    components back; a pair that is always valid DER makes both succeed. *)
Theorem composite_signature_round_trip d dlen sm2 slen s :
  valid d dlen → valid sm2 slen →
  wp ('(ok, sig) ← composite_serialize_signature d dlen sm2 slen fresh_out;
      bytes ← borrow (out_block sig);
      r ← composite_parse_signature bytes (out_len sig) fresh_view fresh_view;
      free_object (out_block sig);;
      mret (ok, r))
    (λ '(ok, (ok', (dv, sv))) s', frame ∅ ∅ s s' ∧
       (ok' = true → ok = true ∧
          bytes_at (view_ptr dv) (view_len dv) = bytes_at d dlen ∧
          bytes_at (view_ptr sv) (view_len sv) = bytes_at sm2 slen) ∧
       (reliable_malloc → is_Some d → dlen = DILITHIUM_SIGNATURE_BYTES → is_Some sm2 →
          0 < slen ≤ LONG_MAX → sm2_der_always_valid (bytes_at sm2 slen) → ok' = true)) s.
Proof.
  intros Hd Hs. pose proof (frame_refl s).
  wp_call as [[] sig] ([F Hsig] & Hall); cbn [fst] in *.
  - destruct Hsig as (b & ? & -> & -> & [? Hd1] & Hdl & [? Hs1] & Hsl & Hder & Hb).
    cbn [out_block out_len set_out fst snd default from_option id].
    assert (Hl1 : len (bytes_at d dlen) = DILITHIUM_SIGNATURE_BYTES).
    { rewrite len_bytes_at; [done|done|left; by eexists]. }
    assert (Hl2 : len (bytes_at sm2 slen) = slen) by (apply len_bytes_at; [done|left; by eexists]).
    assert (Hlb : len (obj_val b) - DILITHIUM_SIGNATURE_BYTES = slen) by (rewrite Hb, len_app; lia).
    assert (Hz : zdrop DILITHIUM_SIGNATURE_BYTES (obj_val b) = bytes_at sm2 slen)
      by (rewrite Hb; by apply zdrop_app).
    assert (len (obj_val b) ≤ SIZE_MAX) by size_lia.
    wp_call as r [-> ->]. wp_call as [ok' [dv sv]] (F1 & Hp & Hpall). wp_call as ? ?.
    apply wp_ret. split; [solve_frame|]. cbn [fst] in Hpall. split.
    + intros ->. destruct Hp as (? & [= <-] & _ & -> & -> & _). split; [done|].
      cbn [view_ptr view_len set_view fst snd default from_option id]. rewrite Hlb, Hz. split.
      * rewrite Hb. by apply ztake_app.
      * by apply bytes_at_full.
    + intros _ _ _ _ Hsl' Hal. apply (Hpall _ eq_refl); rewrite Hlb; [done|].
      rewrite Hz, ztake_all by lia. done.
  - cbn in Hsig. subst sig. wp_call as r [-> ->]. repeat wp_pure. cbn [out_block out_len fresh_out default fst snd from_option id].
    wp_call as [ok' [dv sv]] (F1 & Hp & Hpall). wp_call as ? ?.
    apply wp_ret. split; [solve_frame|]. destruct ok'; [by destruct Hp as (? & ? & _)|].
    split; [done|]. intros. by apply Hall.
Qed.

(** C7. A signature that [composite_sign] returns is the Dilithium2 signature,
    2420 bytes, followed by the SM2 signature in strict DER, both made with
    the two halves of the key over the one message representative; on failure
    the output is reset. It succeeds whenever neither memory nor a component
    fails. The representative is wiped before it is freed. *)
Theorem composite_sign_correct k m mlen ctx clen s :
  owns (sm2_private_key k) ⊆ live s → private_key_wf k →
  valid m mlen → valid ctx clen → readable m mlen → readable ctx clen →
  wp (composite_sign (Some k) m mlen ctx clen fresh_out)
    (λ r s', frame ∅ (out_owns r) s s' ∧
       (fst r = false → snd r = fresh_out) ∧
       (fst r = true → ∃ b o d ds ss, snd r = set_out b (len (obj_val b)) ∧
          sm2_private_key k = Some o ∧ sm3_digest (bytes_at m mlen) d ∧
          obj_val b = ds ++ ss ∧ len ds = DILITHIUM_SIGNATURE_BYTES ∧ sm2_der_valid ss ∧
          dilithium_signed (dilithium_secret_key k) (composite_message (bytes_at ctx clen) d) ds ∧
          sm2_signed (obj_val o) (composite_message (bytes_at ctx clen) d) ss) ∧
       (reliable_malloc → composite_always_signs k (bytes_at m mlen) (bytes_at ctx clen) →
          fst r = true)) s.
Proof.
  intros Hl Hwf Hm Hc Hmr Hcr. eapply wp_mono; [apply spec; by split_and!|].
  intros [ok out] s' [[F Hout] Hall]. split; [done|]. split; [by destruct ok|]. split.
  - cbn. intros ->. destruct Hout as (b & ? & -> & -> & _ & _ & ? & [= <-] & Hsig).
    destruct Hsig as (o & d & ds & ss & Ho & Hd & _ & Hds & Hss & Hb & Hdl & _ & Hder).
    by exists b, o, d, ds, ss.
  - intros Hrel. by apply (Hall k).
Qed.

(** A composite signature both of whose components always verify is
    accepted, and the report marks every stage as passed. *)
Theorem composite_verify_detailed_complete k m mlen ctx clen sig n s :
  owns (sm2_public_key k) ⊆ live s → public_key_wf k →
  valid m mlen → valid ctx clen → valid (Some sig) n → readable m mlen → readable ctx clen →
  reliable_malloc → composite_always_accepted k (bytes_at m mlen) (bytes_at ctx clen) (ztake n sig) →
  wp (composite_verify_detailed (Some k) m mlen ctx clen (Some sig) n
        (Some (VerifyResult false false false false)))
    (λ r s', frame ∅ ∅ s s' ∧ r = (true, Some (VerifyResult true true true true))) s.
Proof.
  intros Hl Hwf Hm Hc Hs Hmr Hcr Hrel Hacc. eapply wp_mono; [apply spec; by split_and!|].
  intros r s' (F & local & -> & Hcv & Hf & Ht & Hd). split; [done|].
  destruct (id Hacc) as (o & d & Ho & _).
  assert (Hv : dilithium_valid local && sm2_valid local = true).
  { eapply composite_decides_accepted; [done|by apply Hd; try done; eexists|done|done]. }
  apply andb_true_iff in Hv as [Hdv Hsv]. rewrite Hdv, Hsv in Hcv.
  destruct local as [f dv sv cv]; cbn in *; subst. destruct f; [done|]. by destruct (Hf eq_refl).
Qed.
End properties.

(** ** Witnesses, in the concrete environment *)

Section witnesses.
#[local] Existing Instances env_libc env_openssl env_dilithium env_openssl_sizes env_dilithium_sizes.

Lemma env_small_range z : 1 ≤ Z_of_byte (env_small z) ≤ 100.
Proof.
  unfold env_small. rewrite Z_of_byte_of_Z. pose proof (Z.mod_pos_bound z 100 ltac:(lia)).
  rewrite Z.mod_small; lia.
Qed.

Lemma env_der_always_valid k m : sm2_der_always_valid (env_sm2_sign k m).
Proof.
  intros t. cbn. split; [done|]. split.
  - eexists _, _. split; [done|]. cbn.
    pose proof (env_small_range (Z_of_byte k)).
    pose proof (env_small_range (foldr (λ b z, Z_of_byte b + z) 0 m)). lia.
  - intros t'. cbn. by rewrite !byte_of_Z_of_byte.
Qed.

Lemma env_sm3_always m : sm3_always m (fit 32 m).
Proof. split; [by rewrite len_fit|done]. Qed.

Lemma env_sm2_always_signs k m : sm2_always_signs k m.
Proof. intros t1; cbn; intros t2; split; [done|]; intros t3; split; [done|]; intros t4; split; [done|]; intros t5; done. Qed.

Lemma env_sm2_verifies k m : sm2_always_verifies k m (env_sm2_sign k m).
Proof.
  intros t1; cbn; intros t2; split; [done|]; intros t3; split; [done|]; intros t4; cbn.
  by rewrite decide_True.
Qed.

Lemma env_sm2_signed k m sig : sm2_signed k m sig → sig = env_sm2_sign k m.
Proof.
  intros (t1 & t2 & _ & t3 & _ & cap & t4 & Hc & Hs). cbn in *.
  destruct (8 <=? cap); cbn in *; [done|lia].
Qed.

Lemma env_scheme_laws : SchemeLaws.
Proof.
  split.
  - done.
  - intros m. exists (fit 32 m). apply env_sm3_always.
  - intros pk sk m _ t. cbn. split; [done|]. by apply len_fit.
  - intros pk sk m sig [t [= <- <-]] [t' [= <-]]. unfold dilithium_verifies. cbn. by rewrite decide_True.
  - intros k m _. apply env_sm2_always_signs.
  - intros k m sig _ ->%env_sm2_signed. split; [apply env_sm2_verifies|]. split; [done|].
    apply env_der_always_valid.
Qed.

Lemma env_always_generates : always_generates.
Proof.
  split_and!; [|by intros t|by intros t].
  intros t1; cbn; intros t2; split; [done|]; intros t3; split; [done|by eexists].
Qed.

Lemma generated_key_signs_and_verifies_witness :
  SchemeLaws ∧ always_generates ∧
  wp (generate_sign_verify (Some (lit "message")) 7 (Some (lit "context")) 7)
    (λ r s', live s' = live empty_state ∧ (r = Some true ∨ r = None ∧ ¬ always_generates)) empty_state.
Proof.
  pose proof env_scheme_laws. split; [done|]. split; [exact env_always_generates|].
  apply generated_key_signs_and_verifies; cbn; unfold valid; size_lia.
Defined.

(** One object, a key pair that shares it, a message and its signature. *)
Definition env_key : obj EVP_PKEY := Obj 1%positive Byte.x07.
Definition env_private : HYBRID_PRIVATE_KEY := PrivateKey (Some env_key) (fit 2560 [Byte.x07]).
Definition env_public : HYBRID_PUBLIC_KEY := PublicKey (Some env_key) (fit 1312 [Byte.x07]).
Definition env_signature (m ctx : list byte) : list byte :=
  env_dilithium_sign Byte.x07 (composite_message ctx (fit 32 m)) ++
  env_sm2_sign Byte.x07 (composite_message ctx (fit 32 m)).

Lemma env_key_alive : alive (Some env_key) (env_state [1%positive]).
Proof. apply env_alive. cbn. left. Qed.

Lemma env_private_wf : private_key_wf env_private.
Proof. by apply len_fit. Qed.

Lemma env_public_wf : public_key_wf env_public.
Proof. by apply len_fit. Qed.

Lemma len_env_signature m ctx : len (env_signature m ctx) = 2428.
Proof. unfold env_signature, env_dilithium_sign. rewrite len_app, len_fit by done. done. Qed.

(** Of any key with the same two components. *)
Lemma env_key_always_accepted k o m ctx :
  sm2_public_key k = Some o → obj_val o = Byte.x07 → dilithium_public_key k = fit 1312 [Byte.x07] →
  len ctx ≤ COMPOSITE_MAX_CONTEXT_BYTES →
  composite_always_accepted k m ctx (env_signature m ctx).
Proof.
  intros Ho Hov Hd Hc. exists o, (fit 32 m). rewrite Hov, Hd. split; [done|]. rewrite len_env_signature.
  unfold dilithium_part, sm2_part, env_signature. rewrite ztake_app, zdrop_app by (symmetry; by apply len_fit).
  split; [size_lia|]. split; [apply env_der_always_valid|]. split; [apply env_sm3_always|]. split; [done|].
  split; [unfold dilithium_verifies; cbn; by rewrite decide_True|apply env_sm2_verifies].
Qed.

Lemma env_always_accepted m ctx :
  len ctx ≤ COMPOSITE_MAX_CONTEXT_BYTES →
  composite_always_accepted env_public m ctx (env_signature m ctx).
Proof. by apply (env_key_always_accepted env_public env_key). Qed.

Lemma env_always_signs m ctx :
  len ctx ≤ COMPOSITE_MAX_CONTEXT_BYTES → composite_always_signs env_private m ctx.
Proof.
  intros Hc. exists env_key, (fit 32 m). split; [done|]. split; [apply env_sm3_always|]. split; [done|].
  split; [intros t; split; [done|by apply len_fit]|]. split; [apply env_sm2_always_signs|].
  intros ss ->%env_sm2_signed. split; [done|apply env_der_always_valid].
Qed.

Lemma env_valid l : len l ≤ 4096 → valid (Some l) (len l).
Proof. intros. unfold valid. size_lia. Qed.

Lemma env_valid_signature m ctx : valid (Some (env_signature m ctx)) 2428.
Proof. unfold valid. rewrite len_env_signature. size_lia. Qed.

Lemma composite_verify_sound_witness :
  valid (Some (env_signature (lit "m") (lit "c"))) 2428 ∧
  wp (composite_verify (Some env_public) (Some (lit "m")) 1 (Some (lit "c")) 1
        (Some (env_signature (lit "m") (lit "c"))) 2428)
    (λ r s', frame ∅ ∅ (env_state [1%positive]) s' ∧ (r = true →
       ∃ k o d, Some env_public = Some k ∧ sm2_public_key k = Some o ∧
         sm3_digest (bytes_at (Some (lit "m")) 1) d ∧
         let M := composite_message (bytes_at (Some (lit "c")) 1) d in
         let S := bytes_at (Some (env_signature (lit "m") (lit "c"))) 2428 in
         len (bytes_at (Some (lit "c")) 1) ≤ COMPOSITE_MAX_CONTEXT_BYTES ∧
         DILITHIUM_SIGNATURE_BYTES < len S ∧ sm2_der_valid (sm2_part S) ∧
         dilithium_verifies (dilithium_public_key k) M (dilithium_part S) = true ∧
         sm2_verified (obj_val o) M (sm2_part S))) (env_state [1%positive]).
Proof.
  split; [apply env_valid_signature|].
  apply (composite_verify_sound (Some env_public) (Some (lit "m")) 1 (Some (lit "c")) 1
           (Some (env_signature (lit "m") (lit "c"))) 2428 (env_state [1%positive]));
    [apply env_key_alive|apply env_public_wf|by apply env_valid|by apply env_valid|apply env_valid_signature].
Defined.

Lemma composite_build_message_correct_witness :
  valid (Some (lit "m")) 1 ∧
  wp (composite_build_message (Some (lit "m")) 1 None 0 fresh_out)
    (λ r s', frame ∅ (out_owns r) empty_state s' ∧
       (fst r = false → snd r = fresh_out) ∧
       (fst r = true → ∃ b d, snd r = set_out b (91 + 0) ∧ len (obj_val b) = 91 + 0 ∧
          sm3_digest (bytes_at (Some (lit "m")) 1) d ∧
          obj_val b = lit "CompositeAlgorithmSignatures2025" ++ lit "COMPSIG-DILITHIUM2-SM2-SM3" ++
                      [byte_of_Z 0] ++ bytes_at None 0 ++ d) ∧
       (∀ d, reliable_malloc → sm3_always (bytes_at (Some (lit "m")) 1) d → fst r = (0 <=? 255))) empty_state.
Proof.
  split; [by apply env_valid|].
  apply (composite_build_message_correct (Some (lit "m")) 1 None 0 empty_state);
    [by apply env_valid|by split|done|done].
Defined.

Lemma composite_build_message_binding_witness :
  ∃ b s1, composite_build_message (Some (lit "m")) 1 (Some (lit "c")) 1 fresh_out empty_state =
            Some ((true, set_out b 92), s1) ∧
    bytes_at (Some (lit "c")) 1 = bytes_at (Some (lit "c")) 1 ∧
    ∃ d, sm3_digest (bytes_at (Some (lit "m")) 1) d ∧ sm3_digest (bytes_at (Some (lit "m")) 1) d.
Proof.
  eexists _, _. split; [vm_compute; reflexivity|].
  eapply (composite_build_message_binding (Some (lit "m")) 1 (Some (lit "c")) 1
            (Some (lit "m")) 1 (Some (lit "c")) 1 empty_state _ empty_state);
    [by apply env_valid..|vm_compute; reflexivity|vm_compute; reflexivity|reflexivity].
Defined.

Definition env_der_example : list byte := env_der Byte.x05 Byte.x06.

Lemma sm2_signature_der_strict_witness :
  0 < 8 ≤ LONG_MAX ∧
  wp (sm2_signature_der_is_valid (Some env_der_example) 8)
    (λ r s', frame ∅ ∅ empty_state s' ∧
       (r = true → ∃ sg a b t t',
          d2i_ECDSA_SIG (ztake 8 env_der_example) t = Some (sg, 8) ∧
          ECDSA_SIG_get0 sg = (Some a, Some b) ∧ 0 < a ∧ 0 < b ∧
          i2d_ECDSA_SIG sg t' = (8, Some (ztake 8 env_der_example))) ∧
       ((∀ t, ∃ sg a b, d2i_ECDSA_SIG (ztake 8 env_der_example) t = Some (sg, 8) ∧
           ECDSA_SIG_get0 sg = (Some a, Some b) ∧ 0 < a ∧ 0 < b ∧
           ∀ t', i2d_ECDSA_SIG sg t' = (8, Some (ztake 8 env_der_example))) → r = true)) empty_state.
Proof.
  split; [done|]. apply (sm2_signature_der_strict env_der_example 8 empty_state); [by apply env_valid|done].
Defined.

Lemma composite_signature_round_trip_witness :
  valid (Some (env_dilithium_sign Byte.x07 [])) 2420 ∧
  wp ('(ok, sig) ← composite_serialize_signature (Some (env_dilithium_sign Byte.x07 [])) 2420
                     (Some env_der_example) 8 fresh_out;
      bytes ← borrow (out_block sig);
      r ← composite_parse_signature bytes (out_len sig) fresh_view fresh_view;
      free_object (out_block sig);;
      mret (ok, r))
    (λ '(ok, (ok', (dv, sv))) s', frame ∅ ∅ empty_state s' ∧
       (ok' = true → ok = true ∧
          bytes_at (view_ptr dv) (view_len dv) = bytes_at (Some (env_dilithium_sign Byte.x07 [])) 2420 ∧
          bytes_at (view_ptr sv) (view_len sv) = bytes_at (Some env_der_example) 8) ∧
       (reliable_malloc → is_Some (Some (env_dilithium_sign Byte.x07 [])) → 2420 = DILITHIUM_SIGNATURE_BYTES →
          is_Some (Some env_der_example) → 0 < 8 ≤ LONG_MAX →
          sm2_der_always_valid (bytes_at (Some env_der_example) 8) → ok' = true)) empty_state.
Proof.
  split; [by vm_compute|].
  apply (composite_signature_round_trip (Some (env_dilithium_sign Byte.x07 [])) 2420
           (Some env_der_example) 8 empty_state); [by vm_compute|by apply env_valid].
Defined.

Lemma composite_sign_correct_witness :
  alive (Some env_key) (env_state [1%positive]) ∧
  wp (composite_sign (Some env_private) (Some (lit "m")) 1 (Some (lit "c")) 1 fresh_out)
    (λ r s', frame ∅ (out_owns r) (env_state [1%positive]) s' ∧
       (fst r = false → snd r = fresh_out) ∧
       (fst r = true → ∃ b o d ds ss, snd r = set_out b (len (obj_val b)) ∧
          sm2_private_key env_private = Some o ∧ sm3_digest (bytes_at (Some (lit "m")) 1) d ∧
          obj_val b = ds ++ ss ∧ len ds = DILITHIUM_SIGNATURE_BYTES ∧ sm2_der_valid ss ∧
          dilithium_signed (dilithium_secret_key env_private)
            (composite_message (bytes_at (Some (lit "c")) 1) d) ds ∧
          sm2_signed (obj_val o) (composite_message (bytes_at (Some (lit "c")) 1) d) ss) ∧
       (reliable_malloc →
          composite_always_signs env_private (bytes_at (Some (lit "m")) 1) (bytes_at (Some (lit "c")) 1) →
          fst r = true)) (env_state [1%positive]).
Proof.
  split; [apply env_key_alive|].
  apply (composite_sign_correct env_private (Some (lit "m")) 1 (Some (lit "c")) 1 (env_state [1%positive]));
    [apply env_key_alive|apply env_private_wf|by apply env_valid|by apply env_valid|done|done].
Defined.

Lemma composite_verify_detailed_complete_witness :
  composite_always_accepted env_public (lit "m") (lit "c") (env_signature (lit "m") (lit "c")) ∧
  wp (composite_verify_detailed (Some env_public) (Some (lit "m")) 1 (Some (lit "c")) 1
        (Some (env_signature (lit "m") (lit "c"))) 2428
        (Some (VerifyResult false false false false)))
    (λ r s', frame ∅ ∅ (env_state [1%positive]) s' ∧ r = (true, Some (VerifyResult true true true true)))
    (env_state [1%positive]).
Proof.
  split; [by apply env_always_accepted|].
  apply (composite_verify_detailed_complete env_public (Some (lit "m")) 1 (Some (lit "c")) 1
           (env_signature (lit "m") (lit "c")) 2428 (env_state [1%positive]));
    [apply env_key_alive|apply env_public_wf|by apply env_valid|by apply env_valid|apply env_valid_signature
    |done|done|done|].
  rewrite (ztake_all (env_signature _ _)) by by rewrite len_env_signature. by apply env_always_accepted.
Defined.
End witnesses.
