(* ===== verification/HybridSign.v ===== *)
(** * hybrid_sign.h, hybrid_sign.c

    The interface with separate components: signing and verifying with the
    composite scheme and an empty context, with the two component signatures
    kept apart. *)

From S2P Require Import Prelude Machine External Dilithium Sm2 CompositeKey CompositeSig Environment.

Record HYBRID_SIGNATURE := Signature {
  sm2_signature : option block;
  sm2_signature_len : Z;
  dilithium_signature : option block;
  dilithium_signature_len : Z
}.

Definition zero_signature : HYBRID_SIGNATURE := Signature None 0 None 0.

Definition hybrid_signature_init (signature : option HYBRID_SIGNATURE) : option HYBRID_SIGNATURE :=
  match signature with None => None | Some _ => Some zero_signature end.

Definition hybrid_signature_cleanup (signature : option HYBRID_SIGNATURE)
    : M (option HYBRID_SIGNATURE) :=
  match signature with
  | None => mret None
  | Some s =>
      free_object (sm2_signature s);;
      free_object (dilithium_signature s);;
      mret (hybrid_signature_init (Some s))
  end.

Section hybrid_sign.
Context `{Libc, OpenSSL, Dilithium2}.

(** The local [key] borrows the caller's SM2 key and holds a copy of the
    Dilithium secret key. *)
Definition hybrid_sign (sm2_private_key : option (obj EVP_PKEY))
    (dilithium_secret_key : ptr) (dilithium_secret_key_len : Z)
    (message : ptr) (message_len : Z) (signature : option HYBRID_SIGNATURE)
    : M (bool * option HYBRID_SIGNATURE) :=
  if is_null signature then mret (false, None)
  else
    signature ← hybrid_signature_cleanup signature;
    let key := zero_private_key in
    let error (key : HYBRID_PRIVATE_KEY) (serialized : outbuf) (signature : option HYBRID_SIGNATURE) :=
      sk ← cleanse (CompositeKey.dilithium_secret_key key) DILITHIUM_SECRET_KEY_BYTES;
      free_object (out_block serialized);;
      signature ← hybrid_signature_cleanup signature;
      retire sk;;
      mret (false, signature) in
    if is_null sm2_private_key || is_null dilithium_secret_key ||
       negb (dilithium_secret_key_len =? DILITHIUM_SECRET_KEY_BYTES)
    then error key fresh_out signature
    else
      sk ← read dilithium_secret_key DILITHIUM_SECRET_KEY_BYTES;
      sk ← memcpy (CompositeKey.dilithium_secret_key key) 0 sk;
      let key := PrivateKey sm2_private_key sk in
      '(ok, serialized) ← composite_sign (Some key) message message_len None 0 fresh_out;
      if negb ok then error key serialized signature
      else
        bytes ← borrow (out_block serialized);
        '(ok, (d, s)) ← composite_parse_signature bytes (out_len serialized) fresh_view fresh_view;
        if negb ok then error key serialized signature
        else
          dblock ← malloc (view_len d);
          sblock ← malloc (view_len s);
          match dblock, sblock with
          | Some db, Some sb =>
              dbytes ← read (view_ptr d) (view_len d);
              db ← memcpy_block db 0 dbytes;
              sbytes ← read (view_ptr s) (view_len s);
              sb ← memcpy_block sb 0 sbytes;
              let signature := Some (Signature (Some sb) (view_len s) (Some db) (view_len d)) in
              sk ← cleanse (CompositeKey.dilithium_secret_key key) DILITHIUM_SECRET_KEY_BYTES;
              free_object (out_block serialized);;
              retire sk;;
              mret (true, signature)
          | _, _ => error key serialized (Some (Signature sblock 0 dblock 0))
          end.

Definition hybrid_verify (sm2_public_key : option (obj EVP_PKEY))
    (dilithium_public_key : ptr) (dilithium_public_key_len : Z)
    (message : ptr) (message_len : Z) (signature : option HYBRID_SIGNATURE) : M bool :=
  match signature with
  | None => mret false
  | Some sg =>
      if is_null sm2_public_key || is_null dilithium_public_key ||
         negb (dilithium_public_key_len =? DILITHIUM_PUBLIC_KEY_BYTES)
      then mret false
      else
        pk ← read dilithium_public_key DILITHIUM_PUBLIC_KEY_BYTES;
        pk ← memcpy (CompositeKey.dilithium_public_key zero_public_key) 0 pk;
        let key := PublicKey sm2_public_key pk in
        d ← borrow (dilithium_signature sg);
        s ← borrow (sm2_signature sg);
        '(ok, serialized) ← composite_serialize_signature d (dilithium_signature_len sg)
                                                          s (sm2_signature_len sg) fresh_out;
        bytes ← borrow (out_block serialized);
        valid ← (if negb ok then mret false
                 else composite_verify (Some key) message message_len None 0
                                       bytes (out_len serialized));
        free_object (out_block serialized);;
        mret valid
  end.
End hybrid_sign.

#[global] Arguments hybrid_signature_init : simpl never.
#[global] Arguments hybrid_signature_cleanup : simpl never.
#[global] Arguments hybrid_sign : simpl never.
#[global] Arguments hybrid_verify : simpl never.

(** ** Specifications *)

Definition signature_owns (sg : option HYBRID_SIGNATURE) : gmultiset positive :=
  match sg with
  | None => ∅
  | Some s => owns (sm2_signature s) ⊎ owns (dilithium_signature s)
  end.

(** The recorded lengths are those of readable bytes. *)
Definition signature_wf (sg : HYBRID_SIGNATURE) : Prop :=
  valid (obj_val <$> dilithium_signature sg) (dilithium_signature_len sg) ∧
  valid (obj_val <$> sm2_signature sg) (sm2_signature_len sg).

(** The bytes of the two components. *)
Definition dilithium_bytes (sg : HYBRID_SIGNATURE) : list byte :=
  bytes_at (obj_val <$> dilithium_signature sg) (dilithium_signature_len sg).
Definition sm2_bytes (sg : HYBRID_SIGNATURE) : list byte :=
  bytes_at (obj_val <$> sm2_signature sg) (sm2_signature_len sg).

(** Both components are there, with a plausible length. *)
Definition signature_present (sg : HYBRID_SIGNATURE) : Prop :=
  is_Some (dilithium_signature sg) ∧ dilithium_signature_len sg = DILITHIUM_SIGNATURE_BYTES ∧
  is_Some (sm2_signature sg) ∧ 0 < sm2_signature_len sg ≤ LONG_MAX.

Ltac owns_unfold ::=
  unfold out_owns, zero_private_key, zero_public_key, hybrid_signature_init, zero_signature in *;
  cbn [fst snd private_owns public_owns sm2_private_key sm2_public_key
       signature_owns sm2_signature dilithium_signature] in *.

Section specs.
Context `{Libc, OpenSSL, !OpenSSLSizes, Dilithium2, !Dilithium2Sizes}.

#[export] Instance spec_hybrid_signature_cleanup sg :
  Spec (hybrid_signature_cleanup sg) (λ s, signature_owns sg ⊆ live s)
    (λ r s s', frame (signature_owns sg) ∅ s s' ∧ r = hybrid_signature_init sg).
Proof.
  wp_start. unfold hybrid_signature_cleanup. destruct sg as [sg|]; cbn in *; [|by apply wp_ret].
  do 2 wp_call as ? ?. apply wp_ret. split; [solve_frame|done].
Qed.

(** The failing exit of [hybrid_sign]. *)
Lemma wp_sign_error skb (ser : option block) sg Φ s :
  len skb = DILITHIUM_SECRET_KEY_BYTES → owns ser ⊎ signature_owns sg ⊆ live s →
  (∀ s', frame (owns ser ⊎ signature_owns sg) ∅ s s' → Φ (false, hybrid_signature_init sg) s') →
  wp (sk ← cleanse skb DILITHIUM_SECRET_KEY_BYTES;
      free_object ser;;
      signature ← hybrid_signature_cleanup sg;
      retire sk;; mret (false, signature)) Φ s.
Proof.
  intros Hsk Hl HΦ. pose proof (frame_refl s).
  wp_call as sk [-> ->]. wp_call as ? ?. wp_call as r0 [F1 ->].
  wp_pure. eapply wp_spec; [apply _|by apply zeroed_cleanse|].
  intros ? s3. cbv beta. intros F3. frame_merge. apply wp_ret, HΦ. solve_frame.
Qed.

Ltac sign_error :=
  eapply wp_sign_error;
  [done|solve_alive|
   let s := fresh "s" in let F := fresh "F" in
   intros s F; frame_merge; split; [solve_frame|by split]].

Lemma owns_init sg : signature_owns (hybrid_signature_init sg) = ∅.
Proof. by destruct sg. Qed.

(** The outcome of [hybrid_sign]: a cleared structure, or the components of
    a composite signature. *)
Definition hybrid_signed (sm2 : option (obj EVP_PKEY)) (dsk m : list byte)
    (sg : option HYBRID_SIGNATURE) (r : bool * option HYBRID_SIGNATURE) : Prop :=
  (fst r = false → snd r = hybrid_signature_init sg) ∧
  (fst r = true → ∃ sg', snd r = Some sg' ∧ signature_wf sg' ∧
     composite_signed (PrivateKey sm2 dsk) m [] (dilithium_bytes sg' ++ sm2_bytes sg') ∧
     len (dilithium_bytes sg') = DILITHIUM_SIGNATURE_BYTES).

#[export] Instance spec_hybrid_sign sm2 dsk dsklen m mlen sg :
  Spec (hybrid_sign sm2 dsk dsklen m mlen sg)
    (λ s, signature_owns sg ⊎ owns sm2 ⊆ live s ∧ valid dsk dsklen ∧ valid m mlen)
    (λ r s s', frame (signature_owns sg) (signature_owns (snd r)) s s' ∧
       hybrid_signed sm2 (bytes_at dsk dsklen) (bytes_at m mlen) sg r).
Proof.
  wp_start. destruct P as (Hl & Hdsk & Hm). unfold hybrid_sign.
  destruct sg as [sg|]; cbn [is_null]; [|by apply wp_ret].
  wp_call as sg' [F ->].
  pose proof zero_private_key_wf as Hz. unfold private_key_wf in Hz.
  wp_case (is_null sm2 || is_null dsk || negb (dsklen =? DILITHIUM_SECRET_KEY_BYTES)); [sign_error|].
  cbn [dilithium_secret_key].
  assert (Hlk : len (bytes_at (Some x) DILITHIUM_SECRET_KEY_BYTES) = DILITHIUM_SECRET_KEY_BYTES)
    by by apply len_bytes_at_some.
  wp_call as sk [-> ->]. wp_call as kb [-> ->]. rewrite splice_whole by by rewrite Hlk, Hz.
  assert (Hv0 : valid None 0) by (split; [size_lia|done]).
  wp_call as [[] ser] [[F1 Hser] _]; cbn [negb out_post] in *; [|subst ser; sign_error].
  destruct Hser as (b & ? & -> & -> & Hmr & _ & k & [= <-] & Hsig).
  pose proof Hsig as (o & d & ds & ss & _ & _ & _ & _ & _ & Hb & Hds & Hss & _).
  cbn [out_block out_len set_out fst snd default from_option id].
  wp_call as r [-> ->].
  assert (Hvb : valid (Some (obj_val b)) (len (obj_val b))).
  { unfold valid. rewrite Hb. size_lia. }
  wp_call as [[] [dv sv]] (F2 & Hp & _); cbn [negb] in *; [|sign_error].
  destruct Hp as (b' & [= <-] & Hn & -> & -> & _).
  cbn [set_view view_ptr view_len fst snd default from_option id].
  wp_call as db [F3 Hdb]. wp_call as sb [F4 Hsb].
  destruct db as [db|]; [|sign_error]. destruct sb as [sb|]; [|sign_error].
  assert (Hds' : bytes_at (Some (obj_val b)) DILITHIUM_SIGNATURE_BYTES = ds)
    by (rewrite Hb; by apply ztake_app).
  assert (Hln : len (obj_val b) - DILITHIUM_SIGNATURE_BYTES = len ss) by (rewrite Hb, len_app; lia).
  assert (Hss' : zdrop DILITHIUM_SIGNATURE_BYTES (obj_val b) = ss)
    by (rewrite Hb; by apply zdrop_app).
  rewrite Hln, Hss' in *.
  wp_call as r [-> ->]. rewrite Hds'. wp_call as db' [-> ->].
  wp_call as r [-> ->]. rewrite bytes_at_all. wp_call as sb' [-> ->].
  rewrite !splice_whole by lia.
  wp_call as sk [-> ->]. wp_call as ? ?. wp_call as ? ?.
  apply wp_ret. split; [solve_frame|]. split; [done|]. intros _. eexists. split; [done|].
  assert (Hvs : valid (Some ss) (len ss)) by (apply valid_all; size_lia).
  unfold signature_wf, dilithium_bytes, sm2_bytes.
  cbn [dilithium_signature sm2_signature dilithium_signature_len sm2_signature_len obj_val set_val
       fmap option_fmap option_map].
  rewrite <-Hds, !bytes_at_all, <-Hb. split_and!; try done. apply valid_all; size_lia.
Qed.

#[export] Instance spec_hybrid_verify sm2 dpk dpklen m mlen sg :
  Spec (hybrid_verify sm2 dpk dpklen m mlen sg)
    (λ s, owns sm2 ⊆ live s ∧ signature_owns sg ⊆ live s ∧
          valid dpk dpklen ∧ valid m mlen ∧ from_option signature_wf True sg)
    (λ r s s', frame ∅ ∅ s s' ∧
       (r = true → ∃ sg', sg = Some sg' ∧ dpklen = DILITHIUM_PUBLIC_KEY_BYTES ∧
          is_Some dpk ∧ dilithium_signature_len sg' = DILITHIUM_SIGNATURE_BYTES ∧
          composite_accepted (PublicKey sm2 (bytes_at dpk dpklen)) (bytes_at m mlen) []
            (dilithium_bytes sg' ++ sm2_bytes sg')) ∧
       (∀ sg', is_Some sm2 → sg = Some sg' → is_Some dpk → dpklen = DILITHIUM_PUBLIC_KEY_BYTES →
          signature_present sg' → readable m mlen → reliable_malloc →
          sm2_der_always_valid (sm2_bytes sg') →
          composite_always_accepted (PublicKey sm2 (bytes_at dpk dpklen)) (bytes_at m mlen) []
            (dilithium_bytes sg' ++ sm2_bytes sg') → r = true)).
Proof.
  wp_start. destruct P as (Hl & Hls & Hd & Hm & Hwf). unfold hybrid_verify.
  destruct sg as [sg|]; [|by apply wp_ret]. destruct Hwf as [Hw1 Hw2].
  wp_case (is_null sm2 || is_null dpk || negb (dpklen =? DILITHIUM_PUBLIC_KEY_BYTES)).
  { apply wp_ret. split; [done|]. split; [done|]. intros ? [? ->] _ [? ->] ->. done. }
  assert (Hlk : len (bytes_at (Some x) DILITHIUM_PUBLIC_KEY_BYTES) = DILITHIUM_PUBLIC_KEY_BYTES)
    by by apply len_bytes_at_some.
  assert (Hv0 : valid None 0) by (split; [size_lia|done]).
  wp_call as pk [-> ->]. wp_call as kb [-> ->]. rewrite splice_whole by by rewrite Hlk; cbn; rewrite len_zeros.
  wp_call as r [-> ->]. wp_call as r [-> ->].
  wp_call as [[] ser] ([F1 Hser] & Hall); cbn [negb out_post fst] in *.
  2: { subst ser. wp_call as r [-> ->]. repeat wp_pure. wp_call as ? ?. apply wp_ret. split; [solve_frame|].
       split; [done|]. intros ? _ [= <-] _ _ ([? Hp1] & Hp2 & [? Hp3] & Hp4) _ Hrel Hal.
       rewrite Hp1, Hp3 in Hall. unfold sm2_bytes in Hal. rewrite Hp3 in Hal.
       specialize (Hall Hrel ltac:(by eexists) Hp2 ltac:(by eexists) Hp4 Hal). done. }
  destruct Hser as (b & ? & -> & -> & _ & Hdl & _ & Hn & Hder & Hb).
  cbn [out_block out_len set_out fst snd default from_option id]. wp_call as r [-> ->].
  fold (dilithium_bytes sg) (sm2_bytes sg) in *.
  assert (Hvb : valid (obj_val <$> Some b) (len (obj_val b))).
  { apply valid_all. rewrite Hb, len_app. unfold dilithium_bytes, sm2_bytes.
    unfold bytes_at, ztake, len. rewrite !length_take. size_lia. }
  wp_call as valid (F2 & Hs & Hc). wp_call as ? ?. apply wp_ret. split; [solve_frame|].
  cbn [fmap option_fmap option_map] in Hs, Hc. rewrite bytes_at_all, Hb in Hs, Hc.
  change (bytes_at None 0) with (@nil byte) in Hs, Hc. split.
  - intros Hv. destruct (Hs Hv) as (k & [= <-] & _ & Hr). by exists sg.
  - intros sg' _ [= <-] _ _ _ Hmr Hrel _. by eapply Hc.
Qed.

(** ** Properties *)

(** The lengths of a structure are those of its bytes. *)
Lemma signature_lengths sg :
  signature_wf sg → 0 < len (dilithium_bytes sg) → 0 < len (sm2_bytes sg) →
  is_Some (dilithium_signature sg) ∧ dilithium_signature_len sg = len (dilithium_bytes sg) ∧
  is_Some (sm2_signature sg) ∧ sm2_signature_len sg = len (sm2_bytes sg).
Proof.
  unfold signature_wf, dilithium_bytes, sm2_bytes. intros [Hd Hs] H1' H2'.
  destruct (dilithium_signature sg) as [d|]; [|by rewrite bytes_at_null in H1'].
  destruct (sm2_signature sg) as [e|]; [|by rewrite bytes_at_null in H2'].
  cbn [fmap option_fmap option_map] in *. rewrite !len_bytes_at_some by done.
  by split_and!; eexists || done.
Qed.

(** What [hybrid_sign] stores for a key pair is present and always verifies. *)
Lemma hybrid_signed_verifies `{!SchemeLaws} o dsk dpk m sg :
  sm2_generated (obj_val o) → dilithium_keypair dpk dsk → signature_wf sg →
  composite_signed (PrivateKey (Some o) dsk) m [] (dilithium_bytes sg ++ sm2_bytes sg) →
  len (dilithium_bytes sg) = DILITHIUM_SIGNATURE_BYTES →
  signature_present sg ∧ sm2_der_always_valid (sm2_bytes sg) ∧
  composite_always_accepted (PublicKey (Some o) dpk) m [] (dilithium_bytes sg ++ sm2_bytes sg).
Proof.
  intros Hgen Hkp Hwf Hsig Hdl.
  pose proof (signed_always_accepted (PrivateKey (Some o) dsk) (PublicKey (Some o) dpk) o _ _ _ eq_refl eq_refl Hgen Hkp Hsig) as Hacc.
  pose proof Hacc as (_ & d & _ & Hl & Hder & _). unfold sm2_part in Hder.
  rewrite zdrop_app in Hder by done. rewrite len_app, Hdl in Hl.
  destruct (signature_lengths sg Hwf) as (? & Hd' & ? & Hs'); [rewrite Hdl; done|lia|].
  unfold signature_present. rewrite Hd', Hs'. split_and!; try done; lia.
Qed.

(** A client of the interface: sign, verify, release. *)
Definition hybrid_sign_then_verify (key : obj EVP_PKEY) (dsk dpk m : ptr) (mlen : Z) : M (bool * bool) :=
  '(ok, sg) ← hybrid_sign (Some key) dsk DILITHIUM_SECRET_KEY_BYTES m mlen (Some zero_signature);
  r ← hybrid_verify (Some key) dpk DILITHIUM_PUBLIC_KEY_BYTES m mlen sg;
  hybrid_signature_cleanup sg;;
  mret (ok, r).

(** C25. What [hybrid_sign] produces with the halves of one key pair,
    [hybrid_verify] accepts, and when signing fails verification fails too;
    the cleared signature holds no reference. *)
Theorem hybrid_sign_verify_agree `{!SchemeLaws} key dsk dpk m mlen s :
  alive (Some key) s → sm2_generated (obj_val key) → dilithium_keypair dpk dsk →
  valid m mlen → readable m mlen →
  wp (hybrid_sign_then_verify key (Some dsk) (Some dpk) m mlen)
    (λ r s', frame ∅ ∅ s s' ∧ snd r = fst r) s.
Proof.
  intros Hk Hgen Hkp Hm Hmr. pose proof (frame_refl s). unfold hybrid_sign_then_verify.
  assert (len dpk = DILITHIUM_PUBLIC_KEY_BYTES ∧ len dsk = DILITHIUM_SECRET_KEY_BYTES) as [Hl1 Hl2].
  { destruct Hkp as [t Hkp]. by destruct (dilithium2_keypair_sizes _ _ _ Hkp). }
  wp_call as [ok sg] (F & Hno & Hok).
  cbn [fst snd] in *. rewrite bytes_at_full in Hok by done.
  assert (Hwf : from_option signature_wf True sg).
  { destruct ok; [|by rewrite Hno]. by destruct Hok as (sg' & -> & ? & _). }
  wp_call as r (F1 & Hs & Hc). wp_call as r' [F2 _]. apply wp_ret. split; [solve_frame|].
  cbn [snd fst]. destruct ok.
  - destruct Hok as (sg' & -> & Hwf' & Hsig & Hdl); [done|].
    destruct (hybrid_signed_verifies key dsk dpk _ sg' Hgen Hkp Hwf' Hsig Hdl) as (Hp & Hder & Hacc).
    pose proof law_malloc as Hrel. rewrite bytes_at_full in Hc by done. apply (Hc sg'); try done; by eexists.
  - apply not_true_iff_false. intros (sg' & Hsg & _ & _ & Hn & _)%Hs. rewrite Hno in Hsg by done. injection Hsg as <-. done.
Qed.
End specs.

(** ** Examples *)

Section witnesses.
#[local] Existing Instances env_libc env_openssl env_dilithium env_openssl_sizes env_dilithium_sizes.

Lemma hybrid_sign_verify_agree_witness :
  SchemeLaws ∧ dilithium_keypair (fit 1312 [Byte.x07]) (fit 2560 [Byte.x07]) ∧
  wp (hybrid_sign_then_verify env_key (Some (fit 2560 [Byte.x07])) (Some (fit 1312 [Byte.x07]))
        (Some (lit "m")) 1)
    (λ r s', frame ∅ ∅ (env_state [1%positive]) s' ∧ snd r = fst r) (env_state [1%positive]).
Proof.
  pose proof env_scheme_laws. assert (dilithium_keypair (fit 1312 [Byte.x07]) (fit 2560 [Byte.x07])).
  { by exists 7%N. }
  split; [done|]. split; [done|].
  apply (hybrid_sign_verify_agree env_key (fit 2560 [Byte.x07]) (fit 1312 [Byte.x07]) (Some (lit "m")) 1
           (env_state [1%positive])).
  - apply env_key_alive.
  - intros. exists 7%N. exists 7%N. split; [done|]. by exists 7%N.
  - done.
  - by apply env_valid.
  - by split.
Defined.
End witnesses.
