(* ===== verification/KeyStore.v ===== *)
(** * hybrid_key_store.h, hybrid_key_store.c

    Private keys on disk: the SM2 key as encrypted PKCS#8, the Dilithium2 key
    pair in a container encrypted with AES-256-GCM under a key derived from
    the passphrase, both in a directory only their owner can enter. *)

From S2P Require Import Prelude Machine External Posix Dilithium Sm2 CompositeKey CompositeSig.

Definition HYBRID_SM2_PRIVATE_KEY_FILE : string := "sm2_private.pem".
Definition HYBRID_DILITHIUM_PRIVATE_KEY_FILE : string := "dilithium2_private.enc".

Inductive HYBRID_KEY_STORE_STATUS :=
  | HYBRID_KEY_STORE_INCOMPLETE
  | HYBRID_KEY_STORE_MISSING
  | HYBRID_KEY_STORE_COMPLETE.
#[export] Instance HYBRID_KEY_STORE_STATUS_eq_dec : EqDecision HYBRID_KEY_STORE_STATUS.
Proof. solve_decision. Defined.

Definition DILITHIUM_STORE_MAGIC : string := "HPQCDK01".
Definition DILITHIUM_PLAINTEXT_MAGIC : string := "DIL2K001".
Definition DILITHIUM_STORE_SALT_BYTES : Z := 16.
Definition DILITHIUM_STORE_IV_BYTES : Z := 12.
Definition DILITHIUM_STORE_TAG_BYTES : Z := 16.
Definition DILITHIUM_STORE_KEY_BYTES : Z := 32.
Definition DILITHIUM_STORE_ITERATIONS : Z := 200000.
Definition DILITHIUM_STORE_HEADER_BYTES : Z :=
  8 + 4 + DILITHIUM_STORE_SALT_BYTES + DILITHIUM_STORE_IV_BYTES + 4.
Definition DILITHIUM_STORE_PLAINTEXT_BYTES : Z :=
  8 + DILITHIUM_PUBLIC_KEY_BYTES + DILITHIUM_SECRET_KEY_BYTES.
Definition DILITHIUM_STORE_FILE_BYTES : Z :=
  DILITHIUM_STORE_HEADER_BYTES + DILITHIUM_STORE_PLAINTEXT_BYTES + DILITHIUM_STORE_TAG_BYTES.

#[export] Hint Unfold DILITHIUM_STORE_SALT_BYTES DILITHIUM_STORE_IV_BYTES DILITHIUM_STORE_TAG_BYTES
  DILITHIUM_STORE_KEY_BYTES DILITHIUM_STORE_ITERATIONS DILITHIUM_STORE_HEADER_BYTES
  DILITHIUM_STORE_PLAINTEXT_BYTES DILITHIUM_STORE_FILE_BYTES : consts.

Record PASSPHRASE_DATA := PassphraseData { pass_bytes : string; pass_length : Z }.

(** ** Paths, permissions, status *)

Section store.
Context `{Libc, Posix}.

(** The string a path block holds. *)
Definition string_at (p : option block) : M (option string) :=
  match p with None => mret None | Some p => v ← deref p; mret (Some (c_string v)) end.

Definition join_path (directory name : option string) : M (option block) :=
  match directory, name with
  | Some directory, Some name =>
      let directory_len := strlen directory in
      let name_len := strlen name in
      if (directory_len =? 0) || (name_len =? 0) ||
         (directory_len >? size_sub (size_sub SIZE_MAX name_len) 2)
      then mret None
      else
        path ← malloc (size_add (size_add directory_len name_len) 2);
        match path with
        | None => mret None
        | Some p =>
            p ← memcpy_block p 0 (lit directory);
            p ← memcpy_block p directory_len [Byte.x2f];
            p ← memcpy_block p (size_add directory_len 1) (lit name ++ [Byte.x00]);
            mret (Some p)
        end
  | _, _ => mret None
  end.

Definition passphrase_valid (passphrase : option string) : bool :=
  match passphrase with
  | None => false
  | Some p => let length := strlen p in (length >=? 12) && (length <=? INT_MAX)
  end.

(** [S_ISDIR(m) && !S_ISLNK(m) && (m & 0077) == 0], and the same for a regular
    file. *)
Definition owner_only (type : file_type) (st : stat) : bool :=
  bool_decide (st_type st = type) && negb (bool_decide (st_type st = S_IFLNK)) &&
  (Z.land (st_mode st) 0x3f =? 0).

Definition ensure_private_directory (directory : option string) : M bool :=
  match directory with
  | None => mret false
  | Some directory =>
      if strlen directory =? 0 then mret false
      else
        status ← lstat directory;
        match status with
        | inl status => mret (owner_only S_IFDIR status)
        | inr errno =>
            if negb (errno =? ENOENT) then mret false
            else
              rc ← mkdir directory 0x1c0;
              if negb (rc =? 0) then mret false
              else
                status ← lstat directory;
                match status with
                | inl status => mret (owner_only S_IFDIR status)
                | inr _ => mret false
                end
        end
  end.

Definition secure_regular_file (path : option string) (expected_size : Z) : M bool :=
  match path with
  | None => mret false
  | Some path =>
      status ← lstat path;
      match status with
      | inl status =>
          mret (owner_only S_IFREG status &&
                ((expected_size <? 0) || (st_size status =? expected_size)))
      | inr _ => mret false
      end
  end.

Definition hybrid_key_store_status (directory : option string) : M HYBRID_KEY_STORE_STATUS :=
  sm2_path ← join_path directory (Some HYBRID_SM2_PRIVATE_KEY_FILE);
  dilithium_path ← join_path directory (Some HYBRID_DILITHIUM_PRIVATE_KEY_FILE);
  let done (result : HYBRID_KEY_STORE_STATUS) :=
    free_object dilithium_path;; free_object sm2_path;; mret result in
  p ← string_at sm2_path;
  q ← string_at dilithium_path;
  match p, q with
  | Some p, Some q =>
      e ← access p;
      let sm2_exists := e =? 0 in
      e ← access q;
      let dilithium_exists := e =? 0 in
      if negb sm2_exists && negb dilithium_exists then done HYBRID_KEY_STORE_MISSING
      else if sm2_exists && dilithium_exists then done HYBRID_KEY_STORE_COMPLETE
      else done HYBRID_KEY_STORE_INCOMPLETE
  | _, _ => done HYBRID_KEY_STORE_INCOMPLETE
  end.

Definition hybrid_sm2_key_store_status (directory : option string) : M HYBRID_KEY_STORE_STATUS :=
  sm2_path ← join_path directory (Some HYBRID_SM2_PRIVATE_KEY_FILE);
  p ← string_at sm2_path;
  match p with
  | None => mret HYBRID_KEY_STORE_INCOMPLETE
  | Some p =>
      errno ← access p;
      result ←
        (if negb (errno =? 0) then
           mret (if errno =? ENOENT then HYBRID_KEY_STORE_MISSING else HYBRID_KEY_STORE_INCOMPLETE)
         else
           ok ← ensure_private_directory directory;
           if negb ok then mret HYBRID_KEY_STORE_INCOMPLETE
           else
             ok ← secure_regular_file (Some p) (-1);
             mret (if ok : bool then HYBRID_KEY_STORE_COMPLETE else HYBRID_KEY_STORE_INCOMPLETE));
      free_object sm2_path;;
      mret result
  end.

(** ** Integers and transfers *)

Definition put_u32_be (buf : list byte) (off value : Z) : M (list byte) :=
  memcpy buf off [byte_of_Z (Z.shiftr value 24); byte_of_Z (Z.shiftr value 16);
                  byte_of_Z (Z.shiftr value 8); byte_of_Z value].

Definition get_u32_be (input : ptr) : M Z :=
  b ← read input 4;
  match b with
  | [b0; b1; b2; b3] =>
      mret (Z.lor (Z.lor (Z.lor (Z.shiftl (Z_of_byte b0) 24) (Z.shiftl (Z_of_byte b1) 16))
                         (Z.shiftl (Z_of_byte b2) 8)) (Z_of_byte b3))
  | _ => undefined
  end.

(** A round transfers at least one byte, so [length] rounds suffice. *)
Fixpoint write_loop (fuel : nat) (descriptor : obj fd) (data : ptr) (offset length : Z)
    : M (bool * obj fd) :=
  if offset <? length then
    match fuel with
    | O => undefined
    | S fuel =>
        bytes ← read (zdrop offset <$> data) (size_sub length offset);
        '(written, descriptor) ← write descriptor bytes;
        if written <=? 0 then mret (false, descriptor)
        else write_loop fuel descriptor data (size_add offset written) length
    end
  else mret (true, descriptor).

Definition write_all (descriptor : obj fd) (data : ptr) (length : Z) : M (bool * obj fd) :=
  write_loop (Z.to_nat length) descriptor data 0 length.

Fixpoint read_loop (fuel : nat) (descriptor : obj fd) (data : list byte) (offset length : Z)
    : M (bool * (list byte * obj fd)) :=
  if offset <? length then
    match fuel with
    | O => undefined
    | S fuel =>
        '(count, bytes, descriptor) ← read_fd descriptor (size_sub length offset);
        data ← memcpy data offset bytes;
        if count <=? 0 then mret (false, (data, descriptor))
        else read_loop fuel descriptor data (size_add offset count) length
    end
  else mret (true, (data, descriptor)).

Definition read_all (descriptor : obj fd) (data : list byte) (length : Z)
    : M (bool * (list byte * obj fd)) :=
  read_loop (Z.to_nat length) descriptor data 0 length.

(** The buffer has [size] bytes. *)
Definition password_callback (buffer : ptr) (size : Z) (userdata : option PASSPHRASE_DATA)
    : Z * ptr :=
  match buffer, userdata with
  | Some b, Some data =>
      if (size <=? 0) || (pass_length data >? size) then (0, buffer)
      else (pass_length data, Some (splice 0 (ztake (pass_length data) (lit (pass_bytes data))) b))
  | _, _ => (0, buffer)
  end.
End store.

(** ** The SM2 private key *)

Section sm2_store.
Context `{Libc, OpenSSL, !OpenSSLCipher, Posix}.

Definition save_sm2_private_key (path : option string) (private_key : option (obj EVP_PKEY))
    (passphrase : option string) : M bool :=
  match path, private_key, passphrase with
  | Some path, Some private_key, Some pass =>
      if negb (passphrase_valid passphrase) then mret false
      else
        descriptor ← open_create path 0x180;
        match descriptor with
        | None => mret false
        | Some d =>
            let done (output : option (obj FILE)) (ok : bool) :=
              (match output with Some f => fclose f;; mret tt | None => mret tt end);;
              (if negb ok then unlink path;; mret tt else mret tt);;
              mret ok in
            output ← fdopen d;
            match output with
            | None => close d;; done None false
            | Some f =>
                k ← deref private_key;
                '(rc, pem) ← call (PEM_write_PKCS8PrivateKey k "AES-256-CBC" (lit pass));
                '(ok, f) ← stream_write f pem;
                if (rc =? 0) || negb ok then done (Some f) false
                else
                  '(rc, f) ← fflush f;
                  if negb (rc =? 0) then done (Some f) false
                  else
                    rc ← fsync_stream f;
                    if negb (rc =? 0) then done (Some f) false
                    else
                      rc ← fclose f;
                      if negb (rc =? 0) then done None false else done None true
            end
        end
  | _, _, _ => mret false
  end.

(** What [password_callback] gives OpenSSL for a buffer of [size] bytes. *)
Definition pem_password (password : PASSPHRASE_DATA) (size : Z) : Z * list byte :=
  let '(n, b) := password_callback (Some (zeros (Z.to_nat size))) size (Some password) in
  (n, bytes_at b n).

Definition load_sm2_private_key (path : option string) (passphrase : option string)
    : M (option (obj EVP_PKEY)) :=
  ok ← secure_regular_file path (-1);
  if negb ok || negb (passphrase_valid passphrase) then mret None
  else
    match path, passphrase with
    | Some path, Some pass =>
        input ← fopen_read path;
        match input with
        | None => mret None
        | Some f =>
            let password := PassphraseData pass (strlen pass) in
            content ← stream_content f;
            private_key ← new_object (PEM_read_PrivateKey content (pem_password password));
            fclose_input f;;
            is_sm2 ← (match private_key with
                      | None => mret false
                      | Some k => k ← deref k; mret (negb (EVP_PKEY_is_a k "SM2" =? 0))
                      end);
            if negb is_sm2 then free_object private_key;; mret None
            else
              check_context ← new_object (EVP_PKEY_CTX_new_from_pkey (obj_val <$> private_key));
              match check_context with
              | None => free_object private_key;; mret None
              | Some cc =>
                  rc ← call (EVP_PKEY_private_check (obj_val cc));
                  if rc <=? 0 then
                    free_object private_key;; free_object check_context;; mret None
                  else free_object check_context;; mret private_key
              end
        end
    | _, _ => mret None
    end.

Definition hybrid_sm2_key_store_save (directory : option string)
    (private_key : option (obj EVP_PKEY)) (passphrase : option string) : M bool :=
  match directory, private_key with
  | Some _, Some key =>
      k ← deref key;
      if (EVP_PKEY_is_a k "SM2" =? 0) || negb (passphrase_valid passphrase) then mret false
      else
        status ← hybrid_sm2_key_store_status directory;
        if negb (bool_decide (status = HYBRID_KEY_STORE_MISSING)) then mret false
        else
          ok ← ensure_private_directory directory;
          if negb ok then mret false
          else
            path ← join_path directory (Some HYBRID_SM2_PRIVATE_KEY_FILE);
            p ← string_at path;
            ok ← save_sm2_private_key p private_key passphrase;
            free_object path;;
            mret ok
  | _, _ => mret false
  end.

Definition hybrid_sm2_key_store_load (directory passphrase : option string)
    : M (option (obj EVP_PKEY)) :=
  status ← hybrid_sm2_key_store_status directory;
  if negb (bool_decide (status = HYBRID_KEY_STORE_COMPLETE)) || negb (passphrase_valid passphrase)
  then mret None
  else
    path ← join_path directory (Some HYBRID_SM2_PRIVATE_KEY_FILE);
    p ← string_at path;
    key ← (match p with None => mret None | Some _ => load_sm2_private_key p passphrase end);
    free_object path;;
    mret key.
End sm2_store.

(** ** The Dilithium2 container *)

Section dilithium_store.
Context `{Libc, OpenSSL, !OpenSSLCipher, Posix}.

Definition derive_encryption_key (passphrase : option string) (salt : ptr) (key : list byte)
    : M (bool * list byte) :=
  match passphrase with
  | Some pass =>
      if negb (passphrase_valid passphrase) || is_null salt then mret (false, key)
      else
        salt ← read salt DILITHIUM_STORE_SALT_BYTES;
        '(rc, k) ← call (PKCS5_PBKDF2_HMAC (lit pass) salt DILITHIUM_STORE_ITERATIONS "SHA256"
                           DILITHIUM_STORE_KEY_BYTES);
        key ← memcpy key 0 k;
        mret (rc =? 1, key)
  | None => mret (false, key)
  end.

(** The calls on the cipher context when encrypting: the nonce is read from
    [output], the ciphertext and the tag are written to it. *)
Definition gcm_encrypt (cx : EVP_CIPHER_CTX) (encryption_key plaintext output : list byte)
    : M (bool * list byte) :=
  let iv := 12 + DILITHIUM_STORE_SALT_BYTES in
  let ciphertext := DILITHIUM_STORE_HEADER_BYTES in
  let tag := ciphertext + DILITHIUM_STORE_PLAINTEXT_BYTES in
  '(rc, c) ← call (EVP_EncryptInit_cipher cx "AES-256-GCM");
  check negb (rc <=? 0) else mret (false, output);;
  '(rc, c) ← call (EVP_CIPHER_CTX_set_ivlen c DILITHIUM_STORE_IV_BYTES);
  check negb (rc <=? 0) else mret (false, output);;
  nonce ← read (Some (zdrop iv output)) DILITHIUM_STORE_IV_BYTES;
  '(rc, c) ← call (EVP_EncryptInit_key c encryption_key nonce);
  check negb (rc <=? 0) else mret (false, output);;
  header ← read (Some output) DILITHIUM_STORE_HEADER_BYTES;
  '(rc, c) ← call (EVP_EncryptUpdate_aad c header);
  check negb (rc <=? 0) else mret (false, output);;
  '(rc, (o, c)) ← call (EVP_EncryptUpdate c plaintext);
  output ← memcpy output ciphertext o;
  let produced := len o in
  check negb ((rc <=? 0) || negb (produced =? DILITHIUM_STORE_PLAINTEXT_BYTES))
    else mret (false, output);;
  '(rc, (o, c)) ← call (EVP_EncryptFinal_ex c);
  output ← memcpy output (ciphertext + produced) o;
  let final_produced := len o in
  check negb ((rc <=? 0) || negb (final_produced =? 0)) else mret (false, output);;
  '(rc, o) ← call (EVP_CIPHER_CTX_get_tag c DILITHIUM_STORE_TAG_BYTES);
  output ← memcpy output tag o;
  mret (negb (rc <=? 0), output).

(** Writes to the array of [DILITHIUM_STORE_FILE_BYTES] bytes at [output]. *)
Definition encrypt_dilithium_payload (private_key : HYBRID_PRIVATE_KEY)
    (public_key : HYBRID_PUBLIC_KEY) (passphrase : option string) (output : list byte)
    : M (bool * list byte) :=
  let plaintext := zeros (Z.to_nat DILITHIUM_STORE_PLAINTEXT_BYTES) in
  let encryption_key := zeros (Z.to_nat DILITHIUM_STORE_KEY_BYTES) in
  let salt := 12 in
  let iv := salt + DILITHIUM_STORE_SALT_BYTES in
  let done (context : option (obj EVP_CIPHER_CTX)) (encryption_key plaintext output : list byte)
      (ok : bool) :=
    encryption_key ← cleanse encryption_key DILITHIUM_STORE_KEY_BYTES;
    plaintext ← cleanse plaintext DILITHIUM_STORE_PLAINTEXT_BYTES;
    free_object context;;
    retire encryption_key;; retire plaintext;;
    mret (ok, output) in
  output ← memcpy output 0 (lit DILITHIUM_STORE_MAGIC);
  output ← put_u32_be output 8 DILITHIUM_STORE_ITERATIONS;
  output ← put_u32_be output (DILITHIUM_STORE_HEADER_BYTES - 4) DILITHIUM_STORE_PLAINTEXT_BYTES;
  '(rc, r) ← call (RAND_bytes DILITHIUM_STORE_SALT_BYTES);
  output ← memcpy output salt r;
  check negb (rc <=? 0) else done None encryption_key plaintext output false;;
  '(rc, r) ← call (RAND_bytes DILITHIUM_STORE_IV_BYTES);
  output ← memcpy output iv r;
  check negb (rc <=? 0) else done None encryption_key plaintext output false;;
  '(ok, encryption_key) ← derive_encryption_key passphrase (Some (zdrop salt output)) encryption_key;
  check (ok : bool) else done None encryption_key plaintext output false;;
  plaintext ← memcpy plaintext 0 (lit DILITHIUM_PLAINTEXT_MAGIC);
  pk ← read (Some (dilithium_public_key public_key)) DILITHIUM_PUBLIC_KEY_BYTES;
  plaintext ← memcpy plaintext 8 pk;
  sk ← read (Some (dilithium_secret_key private_key)) DILITHIUM_SECRET_KEY_BYTES;
  plaintext ← memcpy plaintext (8 + DILITHIUM_PUBLIC_KEY_BYTES) sk;
  context ← new_object EVP_CIPHER_CTX_new;
  match context with
  | None => done None encryption_key plaintext output false
  | Some cx =>
      '(ok, output) ← gcm_encrypt (obj_val cx) encryption_key plaintext output;
      done context encryption_key plaintext output ok
  end.

Definition save_dilithium_private_key (path : option string) (private_key : HYBRID_PRIVATE_KEY)
    (public_key : HYBRID_PUBLIC_KEY) (passphrase : option string) : M bool :=
  file_data ← malloc DILITHIUM_STORE_FILE_BYTES;
  let done (descriptor : option (obj fd)) (file_data : option block) (ok : bool) :=
    (match descriptor with Some d => close d;; mret tt | None => mret tt end);;
    clear_free file_data DILITHIUM_STORE_FILE_BYTES;;
    (match path with
     | Some path => if negb ok then unlink path;; mret tt else mret tt
     | None => mret tt
     end);;
    mret ok in
  match path, file_data with
  | Some path, Some b =>
      v ← deref b;
      '(ok, v) ← encrypt_dilithium_payload private_key public_key passphrase v;
      let b := set_val b v in
      if negb ok then done None (Some b) false
      else
        descriptor ← open_create path 0x180;
        match descriptor with
        | None => done None (Some b) false
        | Some d =>
            data ← borrow (Some b);
            '(ok, d) ← write_all d data DILITHIUM_STORE_FILE_BYTES;
            if negb ok then done (Some d) (Some b) false
            else
              rc ← fsync d;
              if negb (rc =? 0) then done (Some d) (Some b) false
              else
                rc ← close d;
                if negb (rc =? 0) then done None (Some b) false else done None (Some b) true
        end
  | _, _ => done None file_data false
  end.

(** The calls on the cipher context when decrypting; the plaintext is written
    to [plaintext]. *)
Definition gcm_decrypt (cx : EVP_CIPHER_CTX) (encryption_key plaintext input : list byte)
    : M (bool * list byte) :=
  let iv := 12 + DILITHIUM_STORE_SALT_BYTES in
  let ciphertext := DILITHIUM_STORE_HEADER_BYTES in
  let tag := ciphertext + DILITHIUM_STORE_PLAINTEXT_BYTES in
  '(rc, c) ← call (EVP_DecryptInit_cipher cx "AES-256-GCM");
  check negb (rc <=? 0) else mret (false, plaintext);;
  '(rc, c) ← call (EVP_CIPHER_CTX_set_ivlen c DILITHIUM_STORE_IV_BYTES);
  check negb (rc <=? 0) else mret (false, plaintext);;
  nonce ← read (Some (zdrop iv input)) DILITHIUM_STORE_IV_BYTES;
  '(rc, c) ← call (EVP_DecryptInit_key c encryption_key nonce);
  check negb (rc <=? 0) else mret (false, plaintext);;
  header ← read (Some input) DILITHIUM_STORE_HEADER_BYTES;
  '(rc, c) ← call (EVP_DecryptUpdate_aad c header);
  check negb (rc <=? 0) else mret (false, plaintext);;
  text ← read (Some (zdrop ciphertext input)) DILITHIUM_STORE_PLAINTEXT_BYTES;
  '(rc, (o, c)) ← call (EVP_DecryptUpdate c text);
  plaintext ← memcpy plaintext 0 o;
  let produced := len o in
  check negb ((rc <=? 0) || negb (produced =? DILITHIUM_STORE_PLAINTEXT_BYTES))
    else mret (false, plaintext);;
  t ← read (Some (zdrop tag input)) DILITHIUM_STORE_TAG_BYTES;
  '(rc, c) ← call (EVP_CIPHER_CTX_set_tag c t);
  check negb (rc <=? 0) else mret (false, plaintext);;
  '(rc, (o, c)) ← call (EVP_DecryptFinal_ex c);
  plaintext ← memcpy plaintext produced o;
  let final_produced := len o in
  mret (negb ((rc <=? 0) || negb (final_produced =? 0)), plaintext).

(** [input] has [DILITHIUM_STORE_FILE_BYTES] bytes; the arrays at [public_key]
    and [secret_key] are written on success. *)
Definition decrypt_dilithium_payload (input : list byte) (passphrase : option string)
    (public_key secret_key : list byte) : M (bool * (list byte * list byte)) :=
  let plaintext := zeros (Z.to_nat DILITHIUM_STORE_PLAINTEXT_BYTES) in
  let encryption_key := zeros (Z.to_nat DILITHIUM_STORE_KEY_BYTES) in
  let salt := 12 in
  let done (context : option (obj EVP_CIPHER_CTX)) (encryption_key plaintext : list byte)
      (public_key secret_key : list byte) (ok : bool) :=
    encryption_key ← cleanse encryption_key DILITHIUM_STORE_KEY_BYTES;
    plaintext ← cleanse plaintext DILITHIUM_STORE_PLAINTEXT_BYTES;
    free_object context;;
    retire encryption_key;; retire plaintext;;
    mret (ok, (public_key, secret_key)) in
  magic ← read (Some input) 8;
  check bool_decide (magic = lit DILITHIUM_STORE_MAGIC)
    else done None encryption_key plaintext public_key secret_key false;;
  iterations ← get_u32_be (Some (zdrop 8 input));
  check iterations =? DILITHIUM_STORE_ITERATIONS
    else done None encryption_key plaintext public_key secret_key false;;
  length ← get_u32_be (Some (zdrop (DILITHIUM_STORE_HEADER_BYTES - 4) input));
  check length =? DILITHIUM_STORE_PLAINTEXT_BYTES
    else done None encryption_key plaintext public_key secret_key false;;
  '(ok, encryption_key) ← derive_encryption_key passphrase (Some (zdrop salt input)) encryption_key;
  check (ok : bool) else done None encryption_key plaintext public_key secret_key false;;
  context ← new_object EVP_CIPHER_CTX_new;
  match context with
  | None => done None encryption_key plaintext public_key secret_key false
  | Some cx =>
      '(ok, plaintext) ← gcm_decrypt (obj_val cx) encryption_key plaintext input;
      check (ok : bool) else done context encryption_key plaintext public_key secret_key false;;
      magic ← read (Some plaintext) 8;
      check bool_decide (magic = lit DILITHIUM_PLAINTEXT_MAGIC)
        else done context encryption_key plaintext public_key secret_key false;;
      pk ← read (Some (zdrop 8 plaintext)) DILITHIUM_PUBLIC_KEY_BYTES;
      public_key ← memcpy public_key 0 pk;
      sk ← read (Some (zdrop (8 + DILITHIUM_PUBLIC_KEY_BYTES) plaintext)) DILITHIUM_SECRET_KEY_BYTES;
      secret_key ← memcpy secret_key 0 sk;
      done context encryption_key plaintext public_key secret_key true
  end.

Definition load_dilithium_private_key (path passphrase : option string)
    (public_key secret_key : list byte) : M (bool * (list byte * list byte)) :=
  ok ← secure_regular_file path DILITHIUM_STORE_FILE_BYTES;
  match path with
  | Some path =>
      if negb ok then mret (false, (public_key, secret_key))
      else
        file_data ← malloc DILITHIUM_STORE_FILE_BYTES;
        descriptor ← open_read path;
        let done (descriptor : option (obj fd)) (file_data : option block)
            (r : bool * (list byte * list byte)) :=
          (match descriptor with Some d => close d;; mret tt | None => mret tt end);;
          clear_free file_data DILITHIUM_STORE_FILE_BYTES;;
          mret r in
        match file_data, descriptor with
        | Some b, Some d =>
            v ← deref b;
            '(ok, (v, d)) ← read_all d v DILITHIUM_STORE_FILE_BYTES;
            let b := set_val b v in
            if negb ok then done (Some d) (Some b) (false, (public_key, secret_key))
            else
              data ← deref b;
              r ← decrypt_dilithium_payload data passphrase public_key secret_key;
              done (Some d) (Some b) r
        | _, _ => done descriptor file_data (false, (public_key, secret_key))
        end
  | None => mret (false, (public_key, secret_key))
  end.
End dilithium_store.

(** ** The key store *)

Section key_store.
Context `{Libc, OpenSSL, !OpenSSLCipher, Dilithium2, Posix}.

Definition composite_public_keys_equal (left right : option HYBRID_PUBLIC_KEY) : M bool :=
  let done (left_bytes right_bytes : outbuf) (equal : bool) :=
    free_object (out_block right_bytes);; free_object (out_block left_bytes);; mret equal in
  '(ok, left_bytes) ← composite_serialize_public_key left fresh_out;
  check (ok : bool) else done left_bytes fresh_out false;;
  '(ok, right_bytes) ← composite_serialize_public_key right fresh_out;
  check ok && (out_len left_bytes =? out_len right_bytes) else done left_bytes right_bytes false;;
  lb ← borrow (out_block left_bytes);
  rb ← borrow (out_block right_bytes);
  l ← read lb (out_len left_bytes);
  r ← read rb (out_len left_bytes);
  done left_bytes right_bytes (bool_decide (l = r)).

Definition self_test_challenge : list byte := lit "hybrid-key-store-self-test".

Definition keypair_self_test (private_key : option HYBRID_PRIVATE_KEY)
    (public_key : option HYBRID_PUBLIC_KEY) : M bool :=
  '(ok, signature) ← composite_sign private_key (Some self_test_challenge)
    (len self_test_challenge) None 0 fresh_out;
  valid ← (if ok : bool then
             sig ← borrow (out_block signature);
             composite_verify public_key (Some self_test_challenge) (len self_test_challenge)
               None 0 sig (out_len signature)
           else mret false);
  free_object (out_block signature);;
  mret valid.

Definition hybrid_key_store_save (directory : option string) (private_key : option HYBRID_PRIVATE_KEY)
    (public_key : option HYBRID_PUBLIC_KEY) (passphrase : option string) : M bool :=
  match private_key, public_key with
  | Some priv, Some pub =>
      check passphrase_valid passphrase else mret false;;
      ok ← keypair_self_test private_key public_key;
      check (ok : bool) else mret false;;
      ok ← ensure_private_directory directory;
      check (ok : bool) else mret false;;
      status ← hybrid_key_store_status directory;
      check bool_decide (status = HYBRID_KEY_STORE_MISSING) else mret false;;
      sm2_path ← join_path directory (Some HYBRID_SM2_PRIVATE_KEY_FILE);
      dilithium_path ← join_path directory (Some HYBRID_DILITHIUM_PRIVATE_KEY_FILE);
      p ← string_at sm2_path;
      q ← string_at dilithium_path;
      let done (sm2_saved ok : bool) :=
        (if negb ok then
           (match p with Some p => if sm2_saved then unlink p;; mret tt else mret tt | None => mret tt end);;
           (match q with Some q => unlink q;; mret tt | None => mret tt end)
         else mret tt);;
        free_object dilithium_path;; free_object sm2_path;;
        mret ok in
      match p, q with
      | Some _, Some _ =>
          ok ← save_sm2_private_key p (sm2_private_key priv) passphrase;
          check (ok : bool) else done false false;;
          ok ← save_dilithium_private_key q priv pub passphrase;
          check (ok : bool) else done true false;;
          done true true
      | _, _ => done false false
      end
  | _, _ => mret false
  end.

Definition hybrid_key_store_load (directory passphrase : option string)
    (private_key : option HYBRID_PRIVATE_KEY) (public_key : option HYBRID_PUBLIC_KEY)
    : M (bool * (option HYBRID_PRIVATE_KEY * option HYBRID_PUBLIC_KEY)) :=
  match private_key, public_key with
  | Some _, Some _ =>
      let failed := mret (false, (private_key, public_key)) in
      check passphrase_valid passphrase else failed;;
      ok ← ensure_private_directory directory;
      check (ok : bool) else failed;;
      status ← hybrid_key_store_status directory;
      check bool_decide (status = HYBRID_KEY_STORE_COMPLETE) else failed;;
      let loaded_private := zero_private_key in
      let loaded_public := zero_public_key in
      sm2_path ← join_path directory (Some HYBRID_SM2_PRIVATE_KEY_FILE);
      dilithium_path ← join_path directory (Some HYBRID_DILITHIUM_PRIVATE_KEY_FILE);
      p ← string_at sm2_path;
      q ← string_at dilithium_path;
      let done (loaded_private : HYBRID_PRIVATE_KEY) (loaded_public : HYBRID_PUBLIC_KEY)
          (r : bool * (option HYBRID_PRIVATE_KEY * option HYBRID_PUBLIC_KEY)) :=
        free_object dilithium_path;; free_object sm2_path;;
        hybrid_public_key_cleanup (Some loaded_public);;
        lp ← hybrid_private_key_cleanup (Some loaded_private);
        retire (default [] (dilithium_secret_key <$> lp));;
        mret r in
      match p, q with
      | Some _, Some _ =>
          key ← load_sm2_private_key p passphrase;
          let loaded_private := PrivateKey key (dilithium_secret_key loaded_private) in
          match key with
          | None => done loaded_private loaded_public (false, (private_key, public_key))
          | Some k =>
              '(ok, (pk, sk)) ← load_dilithium_private_key q passphrase
                (dilithium_public_key loaded_public) (dilithium_secret_key loaded_private);
              let loaded_private := PrivateKey key sk in
              let loaded_public := PublicKey None pk in
              check (ok : bool) else done loaded_private loaded_public (false, (private_key, public_key));;
              rc ← pkey_up_ref k;
              check negb (rc =? 0)
                else done loaded_private loaded_public (false, (private_key, public_key));;
              let loaded_public := PublicKey key pk in
              ok ← keypair_self_test (Some loaded_private) (Some loaded_public);
              check (ok : bool) else done loaded_private loaded_public (false, (private_key, public_key));;
              hybrid_private_key_cleanup private_key;;
              hybrid_public_key_cleanup public_key;;
              done zero_private_key zero_public_key (true, (Some loaded_private, Some loaded_public))
          end
      | _, _ => done loaded_private loaded_public (false, (private_key, public_key))
      end
  | _, _ => mret (false, (private_key, public_key))
  end.
End key_store.

#[global] Arguments string_at : simpl never.
#[global] Arguments join_path : simpl never.
#[global] Arguments ensure_private_directory : simpl never.
#[global] Arguments secure_regular_file : simpl never.
#[global] Arguments hybrid_key_store_status : simpl never.
#[global] Arguments hybrid_sm2_key_store_status : simpl never.
#[global] Arguments put_u32_be : simpl never.
#[global] Arguments get_u32_be : simpl never.
#[global] Arguments write_all : simpl never.
#[global] Arguments read_all : simpl never.
#[global] Arguments password_callback : simpl never.
#[global] Arguments save_sm2_private_key : simpl never.
#[global] Arguments load_sm2_private_key : simpl never.
#[global] Arguments hybrid_sm2_key_store_save : simpl never.
#[global] Arguments hybrid_sm2_key_store_load : simpl never.
#[global] Arguments derive_encryption_key : simpl never.
#[global] Arguments gcm_encrypt : simpl never.
#[global] Arguments gcm_decrypt : simpl never.
#[global] Arguments encrypt_dilithium_payload : simpl never.
#[global] Arguments save_dilithium_private_key : simpl never.
#[global] Arguments decrypt_dilithium_payload : simpl never.
#[global] Arguments load_dilithium_private_key : simpl never.
#[global] Arguments composite_public_keys_equal : simpl never.
#[global] Arguments keypair_self_test : simpl never.
#[global] Arguments hybrid_key_store_save : simpl never.
#[global] Arguments hybrid_key_store_load : simpl never.
#[global] Arguments passphrase_valid : simpl never.
