(* ===== verification/KeyStoreFiles.v ===== *)
(** * The key store on the file system

    Specifications of the lower half of [hybrid_key_store.c]: paths,
    permissions, the status of a store, big-endian integers and the transfer
    loops. *)

From S2P Require Import Prelude Machine External Posix Dilithium Sm2 CompositeKey CompositeSig KeyStore.

(** A path of the key store. *)
Definition store_path (directory name : string) : string := directory +:+ "/" +:+ name.

Lemma nul_free_store_path d n : nul_free d → nul_free n → nul_free (store_path d n).
Proof. intros. apply nul_free_app; [done|]. apply nul_free_app; [|done]. by repeat constructor. Qed.

Definition sm2_file (d : string) : string := store_path d HYBRID_SM2_PRIVATE_KEY_FILE.
Definition dilithium_file (d : string) : string := store_path d HYBRID_DILITHIUM_PRIVATE_KEY_FILE.

Lemma string_app_inj (a b c : string) : a +:+ b = a +:+ c → b = c.
Proof. induction a as [|x a IH]; [done|]. intros [= ?]. by apply IH. Qed.

Lemma store_files_differ d : sm2_file d ≠ dilithium_file d.
Proof. unfold sm2_file, dilithium_file, store_path. intros [=]%string_app_inj. Qed.

Lemma store_path_differs d n : store_path d n ≠ d.
Proof.
  unfold store_path. intros Hd. apply (f_equal String.length) in Hd. revert Hd.
  induction d as [|x d IH]; [done|]. intros [= ?]. by apply IH.
Qed.

(** A file name of the store. *)
Definition store_name (n : string) : Prop := nul_free n ∧ 0 < strlen n ≤ 22.

Lemma sm2_file_name : store_name HYBRID_SM2_PRIVATE_KEY_FILE.
Proof. split; [by repeat constructor|done]. Qed.
Lemma dilithium_file_name : store_name HYBRID_DILITHIUM_PRIVATE_KEY_FILE.
Proof. split; [by repeat constructor|done]. Qed.
#[local] Hint Resolve sm2_file_name dilithium_file_name : wp.

(** A directory name the code can form paths in. *)
Definition directory_name (d : string) : Prop := 0 < strlen d ∧ strlen d + 24 ≤ SIZE_MAX.

(** Modes without rights for group and others. *)
Definition private_mode (m : Z) : Prop := Z.land m 0x3f = 0.
Definition private_directory (fs : gmap string node) (d : string) : Prop :=
  ∃ m, fs !! d = Some (Directory m) ∧ private_mode m.
Definition private_file (fs : gmap string node) (p : string) (c : list byte) : Prop :=
  ∃ m, fs !! p = Some (Regular m c) ∧ private_mode m.

Lemma private_ldiff m u : private_mode m → private_mode (Z.ldiff m u).
Proof.
  unfold private_mode. intros Hm. apply Z.bits_inj'. intros n Hn.
  apply (f_equal (λ z, Z.testbit z n)) in Hm.
  rewrite Z.land_spec, Z.bits_0 in Hm. rewrite Z.land_spec, Z.ldiff_spec, Z.bits_0.
  destruct (Z.testbit m n), (Z.testbit 63 n); cbn in *; try done. by rewrite andb_false_r.
Qed.

Section specs.
Context `{Libc, Posix}.

#[export] Instance spec_string_at p :
  Spec (string_at p) (alive p) (λ r s s', s' = s ∧ r = (λ b, c_string (obj_val b)) <$> p).
Proof.
  wp_start. unfold string_at. destruct p as [p|]; [|by apply wp_ret].
  wp_call as v [-> ->]. by apply wp_ret.
Qed.

Lemma spec_join_path directory name :
  Spec (join_path directory (Some name))
    (λ _, from_option nul_free True directory ∧ nul_free name ∧ strlen name + 2 ≤ SIZE_MAX)
    (λ r s s', frame ∅ (owns r) s s' ∧
       match r with
       | Some b => ∃ d, directory = Some d ∧ 0 < strlen d ∧ c_string (obj_val b) = store_path d name ∧
           len (obj_val b) = strlen d + strlen name + 2
       | None => ∀ d, directory = Some d → reliable_malloc → 0 < strlen d → 0 < strlen name →
           SIZE_MAX < strlen d + strlen name + 2
       end).
Proof.
  wp_start. destruct P as (Hd & Hn & Hs). unfold join_path. destruct directory as [d|]; [|by apply wp_ret].
  assert (0 ≤ strlen d ∧ 0 ≤ strlen name) as [Hd0 Hn0] by (unfold strlen; lia).
  rewrite (size_sub_small SIZE_MAX), size_sub_small by size_lia.
  wp_case ((strlen d =? 0) || (strlen name =? 0) || (strlen d >? SIZE_MAX - strlen name - 2)).
  { apply wp_ret. split; [done|]. intros d' [= <-] _ ? ?.
    apply orb_true_iff in E as [[?|?]%orb_true_iff|?]; simpl_bool; lia. }
  rewrite !size_add_small by (rewrite ?size_add_small by size_lia; size_lia).
  wp_call as [p|] [F Hp].
  2: { apply wp_ret. split; [solve_frame|]. intros d' _ Hr. by rewrite Hr in Hp. }
  pose proof (len_lit d). pose proof (len_lit name).
  repeat wp_pure. apply (wp_append p [] (obj_val p)); [solve_alive|done|done|lia|]. intros r1 Hr1.
  repeat wp_pure. eapply (wp_append _ ([] ++ lit d) r1); [solve_alive|done|by rewrite <-len_lit|rewrite len_cons, len_nil; lia|].
  intros r2 Hr2. repeat wp_pure.
  eapply (wp_append _ (([] ++ lit d) ++ [Byte.x2f]) r2);
    [solve_alive|done|rewrite !len_app, len_cons, !len_nil; lia|rewrite len_app, len_cons, len_nil in *; lia|].
  intros r3 Hr3. apply wp_ret. split; [solve_frame|]. exists d. split; [done|]. split; [lia|].
  cbn [obj_val set_val]. rewrite len_app, len_cons, len_nil in *. cbn [app]. split.
  - rewrite <-(c_string_lit (store_path d name) r3) by by apply nul_free_store_path.
    f_equal. unfold store_path. rewrite !lit_app, <-!app_assoc. done.
  - rewrite !len_app, !len_cons, len_nil. lia.
Qed.

(** The directory exists, or has just been created. *)
Definition entered (d : string) (base fs : gmap string node) : Prop :=
  fs = base ∨ base !! d = None ∧ fs = <[d := Directory (Z.ldiff 0x1c0 umask)]> base.

#[export] Instance spec_ensure_private_directory directory :
  Spec (ensure_private_directory directory) (λ _, True)
    (λ r s s', ∃ s1 fs, frame ∅ ∅ s s1 ∧ s' = with_files fs s1 ∧
       (fs = files s1 ∨ ∃ d, directory = Some d ∧ files s1 !! d = None ∧
          fs = <[d := Directory (Z.ldiff 0x1c0 umask)]> (files s1)) ∧
       (r = true → ∃ d, directory = Some d ∧ 0 < strlen d ∧ private_directory fs d) ∧
       (∀ d, directory = Some d → reliable_files → 0 < strlen d →
          files s1 !! d = None ∨ private_directory (files s1) d → r = true)).
Proof.
  wp_start. unfold ensure_private_directory. destruct directory as [d|].
  2: { apply wp_ret. exists s, (files s). rewrite with_files_files. split_and!; try done. by left. }
  wp_case (strlen d =? 0).
  { apply wp_ret. exists s, (files s). rewrite with_files_files. split_and!; try done; [by left|].
    intros ? [= <-] _ ?. lia. }
  assert (0 < strlen d) by (unfold strlen in *; lia).
  assert (Hcheck : ∀ n, owner_only S_IFDIR (node_stat n) = true ↔ ∃ m, n = Directory m ∧ private_mode m).
  { intros n. unfold owner_only, private_mode. rewrite !andb_true_iff, negb_true_iff, bool_decide_eq_true,
      bool_decide_eq_false, Z.eqb_eq. destruct n; cbn; naive_solver. }
  set (Post := λ (r : bool) s', ∃ s1 fs, frame ∅ ∅ s s1 ∧ s' = with_files fs s1 ∧ _).
  assert (Hmk : ∀ s0, frame ∅ ∅ s s0 → (reliable_files → files s !! d = None) →
    wp (rc ← mkdir d 0x1c0;
        if negb (rc =? 0) then mret false
        else
          status ← lstat d;
          match status with
          | inl status => mret (owner_only S_IFDIR status)
          | inr _ => mret false
          end) Post s0).
  { intros s0 F Hno. wp_call as rc (s1 & fs & F1 & -> & Hrc). fs_simpl. wp_case (negb (rc =? 0)).
    { apply wp_ret. eexists _, fs. split; [solve_frame|]. split; [done|]. fs_simpl.
      destruct Hrc as [[? _]|(_ & -> & Hrc)]; [done|]. split; [by left|]. split; [done|].
      intros d' _ Hr. destruct Hrc as [[? Hrc]|Hrc]; [by rewrite Hno in Hrc|].
      by apply reliable_no_fault in Hrc. }
    destruct Hrc as [(_ & Hn & ->)|(? & _)]; [|done].
    wp_call as st [F2 Hst]. fs_simpl. rewrite lookup_insert_eq in Hst.
    assert (Hm : private_directory (<[d:=Directory (Z.ldiff 0x1c0 umask)]> (files s)) d).
    { eexists. rewrite lookup_insert_eq. split; [done|]. by apply private_ldiff. }
    destruct Hst as [(n & [= <-] & ->)|[([=] & _)|(e & -> & He)]];
      apply wp_ret; eexists _, _; (split; [eassumption|]; split; [done|]; fs_simpl);
      (split; [right; by exists d|]); split; try done.
    - intros _. by exists d.
    - intros ? _ _ _ _. apply Hcheck. eexists. split; [done|]. by apply private_ldiff.
    - intros ? _ Hr. by apply reliable_no_fault in He. }
  wp_call as st [F Hst]. destruct Hst as [(n & Hn & ->)|[(Hn & ->)|(e & -> & He)]].
  - apply wp_ret. exists s0, (files s0). rewrite with_files_files. split; [solve_frame|]. split; [done|].
    split; [by left|]. split.
    + intros (m & -> & Hm)%Hcheck. exists d. split; [done|]. split; [done|]. by exists m.
    + intros ? [= <-] _ _ [?|(m & ? & Hm)]; [congruence|]. apply Hcheck. exists m. split; [congruence|done].
  - fs_simpl. apply Hmk; [solve_frame|done].
  - wp_case (negb (e =? ENOENT)).
    + apply wp_ret. exists s0, (files s0). rewrite with_files_files. split; [solve_frame|]. split; [done|].
      split; [by left|]. split; [done|]. intros ? _ Hr. by apply reliable_no_fault in He.
    + apply Hmk; [solve_frame|]. intros Hr. by apply reliable_no_fault in He.
Qed.

#[export] Instance spec_secure_regular_file path n :
  Spec (secure_regular_file path n) (λ _, True)
    (λ r s s', frame ∅ ∅ s s' ∧
       (r = true → ∃ p c, path = Some p ∧ private_file (files s') p c ∧ (n < 0 ∨ len c = n)) ∧
       (∀ p c, path = Some p → reliable_files → private_file (files s') p c → n < 0 ∨ len c = n → r = true)).
Proof.
  wp_start. unfold secure_regular_file. destruct path as [p|]; [|by apply wp_ret].
  assert (Hcheck : ∀ x, owner_only S_IFREG (node_stat x) && ((n <? 0) || (st_size (node_stat x) =? n)) = true ↔
    ∃ m c, x = Regular m c ∧ private_mode m ∧ (n < 0 ∨ len c = n)).
  { intros x. unfold owner_only, private_mode. rewrite !andb_true_iff, orb_true_iff, negb_true_iff, bool_decide_eq_true,
      bool_decide_eq_false, !Z.eqb_eq, Z.ltb_lt. destruct x; cbn; naive_solver. }
  wp_call as st [F Hst]. destruct Hst as [(x & Hx & ->)|[(Hx & ->)|(e & -> & He)]]; apply wp_ret;
    (split; [solve_frame|]); split.
  - intros (m & c & -> & Hm & Hc)%Hcheck. exists p, c. split; [done|]. split; [by exists m|done].
  - intros ? c [= <-] _ (m & Hm & Hp) Hc. apply Hcheck. exists m, c. split; [congruence|done].
  - done.
  - intros ? c [= <-] _ (m & Hm & _). congruence.
  - done.
  - intros ? ? _ Hr. by apply reliable_no_fault in He.
Qed.

(** A path of the store; it exists whenever the directory has a name and
    memory does not run out. *)
#[export] Instance spec_join_store_path directory name :
  Spec (join_path directory (Some name)) (λ _, from_option nul_free True directory ∧ store_name name)
    (λ r s s', frame ∅ (owns r) s s' ∧
       (∀ b, r = Some b → ∃ d, directory = Some d ∧ 0 < strlen d ∧ c_string (obj_val b) = store_path d name) ∧
       (∀ d, directory = Some d → reliable_malloc → directory_name d → is_Some r)).
Proof.
  intros s [Hd [Hn Hl]].
  eapply wp_spec; [apply spec_join_path|split_and!; [done..|size_lia]|].
  intros r s' [F Hr]. split; [done|]. split.
  - intros b ->. destruct Hr as (d & ? & ? & ? & _). by exists d.
  - intros d Hd' Hm [H1 H2]. destruct r; [by eexists|].
    specialize (Hr d Hd' Hm H1 ltac:(lia)). size_lia.
Qed.

Lemma access_node_none fs p : fs !! p = None → access_node fs p = ENOENT.
Proof. unfold access_node. rewrite resolve_unfold. by intros ->. Qed.

Lemma access_node_regular fs p m c : fs !! p = Some (Regular m c) → access_node fs p = 0.
Proof. unfold access_node. rewrite resolve_unfold. by intros ->. Qed.

(** The status two answers of [access] amount to. *)
Definition status_of (e e' : Z) : HYBRID_KEY_STORE_STATUS :=
  if negb (e =? 0) && negb (e' =? 0) then HYBRID_KEY_STORE_MISSING
  else if (e =? 0) && (e' =? 0) then HYBRID_KEY_STORE_COMPLETE else HYBRID_KEY_STORE_INCOMPLETE.

(** [e] is an answer of [access] on [path]. *)
Definition answers (fs : gmap string node) (path : string) (e : Z) : Prop :=
  e = access_node fs path ∨ fault "access" path e.

#[export] Instance spec_hybrid_key_store_status directory :
  Spec (hybrid_key_store_status directory) (λ _, from_option nul_free True directory)
    (λ r s s', frame ∅ ∅ s s' ∧
       (r ≠ HYBRID_KEY_STORE_INCOMPLETE → ∃ d e e', directory = Some d ∧ 0 < strlen d ∧
          answers (files s') (sm2_file d) e ∧ answers (files s') (dilithium_file d) e' ∧ r = status_of e e') ∧
       (∀ d, directory = Some d → reliable_malloc → directory_name d → ∃ e e',
          answers (files s') (sm2_file d) e ∧ answers (files s') (dilithium_file d) e' ∧ r = status_of e e')).
Proof.
  wp_start. unfold hybrid_key_store_status.
  wp_call as sp (F1 & Hp & Hpo). wp_call as dp (F2 & Hq & Hqo).
  wp_call as p [-> ->]. wp_call as q [-> ->].
  destruct sp as [sp|]; cbn [fmap option_fmap option_map].
  2: { do 2 wp_call as ? ?. apply wp_ret. split; [solve_frame|]. split; [done|]. intros d Hd Hm Hn.
       by destruct (Hpo d Hd Hm Hn). }
  destruct dp as [dp|]; cbn [fmap option_fmap option_map].
  2: { do 2 wp_call as ? ?. apply wp_ret. split; [solve_frame|]. split; [done|]. intros d Hd Hm Hn.
       by destruct (Hqo d Hd Hm Hn). }
  destruct (Hp _ eq_refl) as (d & -> & Hd & ->). destruct (Hq _ eq_refl) as (d' & [= <-] & _ & ->).
  wp_call as e [F3 He]. fs_simpl. wp_call as e' [F4 He']. fs_simpl.
  assert (Hdone : ∀ r, r = status_of e e' → wp (free_object (Some dp);; free_object (Some sp);; mret r)
    (λ r s', frame ∅ ∅ s s' ∧
       (r ≠ HYBRID_KEY_STORE_INCOMPLETE → ∃ d0 e e', Some d = Some d0 ∧ 0 < strlen d0 ∧
          answers (files s') (sm2_file d0) e ∧ answers (files s') (dilithium_file d0) e' ∧ r = status_of e e') ∧
       (∀ d0, Some d = Some d0 → reliable_malloc → directory_name d0 → ∃ e e',
          answers (files s') (sm2_file d0) e ∧ answers (files s') (dilithium_file d0) e' ∧ r = status_of e e')) s3).
  { intros r Hr. do 2 wp_call as ? ?. apply wp_ret. split; [solve_frame|]. fs_simpl. split.
    - intros _. by exists d, e, e'.
    - intros ? [= <-] _ _. by exists e, e'. }
  unfold status_of in Hdone. destruct (negb (e =? 0) && negb (e' =? 0)) eqn:E1; [by apply Hdone|].
  destruct ((e =? 0) && (e' =? 0)) eqn:E2; by apply Hdone.
Qed.

#[export] Instance spec_hybrid_sm2_key_store_status directory :
  Spec (hybrid_sm2_key_store_status directory) (λ _, from_option nul_free True directory)
    (λ r s s', ∃ s1 fs, frame ∅ ∅ s s1 ∧ s' = with_files fs s1 ∧
       (fs = files s1 ∨ ∃ d, directory = Some d ∧ files s1 !! d = None ∧ access_node (files s1) (sm2_file d) = 0 ∧
          fs = <[d := Directory (Z.ldiff 0x1c0 umask)]> (files s1)) ∧
       (r = HYBRID_KEY_STORE_COMPLETE → ∃ d c, directory = Some d ∧
          private_directory fs d ∧ private_file fs (sm2_file d) c) ∧
       (r = HYBRID_KEY_STORE_MISSING → fs = files s1 ∧ ∃ d, directory = Some d ∧ 0 < strlen d ∧
          answers fs (sm2_file d) ENOENT) ∧
       (∀ d, directory = Some d → reliable_malloc → reliable_files → directory_name d →
          files s1 !! sm2_file d = None → r = HYBRID_KEY_STORE_MISSING) ∧
       (∀ d c, directory = Some d → reliable_malloc → reliable_files → directory_name d →
          private_directory (files s1) d → private_file (files s1) (sm2_file d) c →
          r = HYBRID_KEY_STORE_COMPLETE)).
Proof.
  wp_start. unfold hybrid_sm2_key_store_status.
  wp_call as sp (F1 & Hp & Hpo). wp_call as p [-> ->].
  destruct sp as [sp|]; cbn [fmap option_fmap option_map].
  2: { apply wp_ret. eexists _, (files s0). rewrite with_files_files. split; [solve_frame|]. split; [done|].
       split; [by left|]. split_and!; try done.
       - intros d Hd Hm _ Hn _. by destruct (Hpo d Hd Hm Hn).
       - intros d c Hd Hm _ Hn _ _. by destruct (Hpo d Hd Hm Hn). }
  destruct (Hp _ eq_refl) as (d & -> & Hd & ->).
  wp_call as e [F3 He]. fs_simpl. wp_case (negb (e =? 0)).
  - wp_call as ? ?. apply wp_ret. eexists _, (files _). rewrite with_files_files. split; [solve_frame|]. split; [done|].
    fs_simpl. split; [by left|]. split; [by destruct (e =? ENOENT)|]. split; [|split].
    + destruct (Z.eqb_spec e ENOENT) as [->|]; [|done]. intros _. split; [done|]. by exists d.
    + intros ? [= <-] _ Hr _ Hno. destruct He as [->|He]; [|by apply reliable_no_fault in He].
      by rewrite access_node_none.
    + intros ? c [= <-] _ Hr _ _ (m & Hm & _). destruct He as [->|He]; [|by apply reliable_no_fault in He].
      by erewrite access_node_regular in E.
  - wp_call as ok (s3 & fs & F4 & -> & Hfs & Hok & Hall). fs_simpl.
    assert (Ha : access_node (files s) (sm2_file d) = 0) by (by destruct He as [He|[? _]]).
    set (Post := λ (r : HYBRID_KEY_STORE_STATUS) s', ∃ s1 fs, frame ∅ ∅ s s1 ∧ s' = with_files fs s1 ∧ _).
    assert (Hdone : ∀ r s4, frame ∅ (owns (Some sp)) s s4 → r ≠ HYBRID_KEY_STORE_MISSING →
      (r = HYBRID_KEY_STORE_COMPLETE → ∃ c, private_directory fs d ∧ private_file fs (sm2_file d) c) →
      (∀ c, reliable_files → private_directory (files s) d → private_file (files s) (sm2_file d) c →
         r = HYBRID_KEY_STORE_COMPLETE) →
      wp (free_object (Some sp);; mret r) Post (with_files fs s4)).
    { intros r s4 F5 Hr Hc Hcc. wp_call as ? ?. apply wp_ret.
      lazymatch goal with |- Post _ (with_files _ ?s') => exists s', fs end.
      split; [solve_frame|]. split; [done|]. fs_simpl. split; [|split; [|split; [done|split]]].
      - destruct Hfs as [->|(? & [= <-] & ? & ->)]; [by left|]. right. by exists d.
      - intros Hr'. destruct (Hc Hr') as (c & ? & ?). by exists d, c.
      - intros ? [= <-] _ _ _ Hno. by rewrite access_node_none in Ha.
      - intros ? c [= <-] _ ? _ ? ?. by apply (Hcc c). }
    repeat wp_pure. wp_case (negb ok).
    { wp_pure. apply Hdone; [solve_frame|done|done|]. intros c Hr Hd' _.
      by pose proof (Hall d eq_refl Hr Hd (or_intror Hd')). }
    wp_call as ok (F5 & Hs & Hsa). fs_simpl. apply wp_ret. apply Hdone; [solve_frame|by destruct ok|..].
    + destruct ok; [|done]. intros _. destruct (Hs eq_refl) as (p & c & [= <-] & ? & _). exists c. split; [|done].
      by destruct (Hok eq_refl) as (? & [= <-] & _ & ?).
    + intros c Hr Hd' Hf. destruct Hfs as [->|(? & [= <-] & Hno & _)].
      * by rewrite (Hsa (sm2_file d) c eq_refl Hr Hf) by (by left).
      * destruct Hd' as (m & Hm & _). congruence.
Qed.

(** *** Big-endian integers *)

Lemma lor_shiftl x y n : 0 ≤ n → 0 ≤ y < 2 ^ n → Z.lor (Z.shiftl x n) y = x * 2 ^ n + y.
Proof.
  intros Hn Hy. assert (Hl : Z.land (Z.shiftl x n) y = 0).
  { apply Z.bits_inj'. intros i Hi. rewrite Z.land_spec, Z.bits_0. destruct (decide (i < n)).
    - by rewrite Z.shiftl_spec_low.
    - rewrite <-(Z.mod_small y (2 ^ n)) by done. rewrite Z.mod_pow2_bits_high by lia. by rewrite andb_false_r. }
  rewrite <-Z.lxor_lor, <-Z.add_nocarry_lxor by done. by rewrite Z.shiftl_mul_pow2.
Qed.

Lemma u32_of_bytes a b c d :
  Z.lor (Z.lor (Z.lor (Z.shiftl (Z_of_byte a) 24) (Z.shiftl (Z_of_byte b) 16))
               (Z.shiftl (Z_of_byte c) 8)) (Z_of_byte d) =
  ((Z_of_byte a * 256 + Z_of_byte b) * 256 + Z_of_byte c) * 256 + Z_of_byte d.
Proof.
  pose proof (Z_of_byte_range a). pose proof (Z_of_byte_range b).
  pose proof (Z_of_byte_range c). pose proof (Z_of_byte_range d).
  change 24 with (8 + 16). rewrite <-(Z.shiftl_shiftl _ 8 16), <-Z.shiftl_lor by lia.
  change 16 with (8 + 8) at 1. rewrite <-(Z.shiftl_shiftl _ 8 8), <-Z.shiftl_lor by lia.
  by rewrite !lor_shiftl.
Qed.

Definition u32_bytes (v : Z) : list byte :=
  [byte_of_Z (Z.shiftr v 24); byte_of_Z (Z.shiftr v 16); byte_of_Z (Z.shiftr v 8); byte_of_Z v].

#[export] Instance spec_put_u32_be buf off v :
  Spec (put_u32_be buf off v) (λ _, 0 ≤ off ∧ off + 4 ≤ len buf)
    (λ r s s', r = splice (Z.to_nat off) (u32_bytes v) buf ∧ s' = s).
Proof. intros s P. by apply spec_memcpy. Qed.

#[export] Instance spec_get_u32_be p :
  Spec (get_u32_be p) (λ _, readable p 4) (λ r s s', s' = s ∧ 0 ≤ r < 2 ^ 32 ∧ bytes_at p 4 = u32_bytes r).
Proof.
  wp_start. unfold get_u32_be. wp_call as b [-> ->].
  assert (Hl : length (bytes_at p 4) = 4%nat).
  { destruct p as [b|]; [|done]. cbn in P. unfold bytes_at, ztake, len in *. cbn. rewrite length_take. lia. }
  destruct (bytes_at p 4) as [|b0 [|b1 [|b2 [|b3 [|]]]]]; try done. apply wp_ret. split; [done|].
  rewrite u32_of_bytes. pose proof (Z_of_byte_range b0). pose proof (Z_of_byte_range b1).
  pose proof (Z_of_byte_range b2). pose proof (Z_of_byte_range b3). split; [lia|].
  unfold u32_bytes. rewrite !Z.shiftr_div_pow2 by lia.
  assert (Hb : ∀ b z, z mod 256 = Z_of_byte b → b = byte_of_Z z).
  { intros b z Hz. apply Z_of_byte_inj. by rewrite Z_of_byte_of_Z. }
  repeat f_equal; apply Hb; Z.to_euclidean_division_equations; lia.
Qed.

(** The four bytes determine a value modulo [2 ^ 32]. *)
Lemma u32_bytes_mod v w : u32_bytes v = u32_bytes w → v mod 2 ^ 32 = w mod 2 ^ 32.
Proof.
  unfold u32_bytes. rewrite !Z.shiftr_div_pow2 by lia. intros [= H1 H2 H3 H4].
  assert (Hb : ∀ a b, byte_of_Z a = byte_of_Z b → a mod 256 = b mod 256).
  { intros a b Heq. by rewrite <-!Z_of_byte_of_Z, Heq. }
  apply Hb in H1, H2, H3, H4. Z.to_euclidean_division_equations; lia.
Qed.

Lemma u32_bytes_inj v w : 0 ≤ v < 2 ^ 32 → 0 ≤ w < 2 ^ 32 → u32_bytes v = u32_bytes w → v = w.
Proof. intros Hv Hw Hb%u32_bytes_mod. by rewrite !Z.mod_small in Hb. Qed.

(** *** Transfers *)

(** What [write_all] leaves in a regular file at whose end the descriptor is:
    the data, or a part of it when a transfer failed. *)
#[export] Instance spec_write_loop fuel d data off n :
  Spec (write_loop fuel d data off n)
    (λ s, alive (Some d) s ∧ 0 ≤ off ≤ n ∧ n - off ≤ Z.of_nat fuel ∧ n ≤ SIZE_MAX ∧ readable data n)
    (λ r s s', ∃ s1 fs, frame ∅ ∅ s s1 ∧ s' = with_files fs s1 ∧ obj_id (snd r) = obj_id d ∧
       fd_path (obj_val (snd r)) = fd_path (obj_val d) ∧
       ∀ m c, files s1 !! fd_path (obj_val d) = Some (Regular m c) → fd_offset (obj_val d) = len c →
         (∃ k, off ≤ k ≤ n ∧ (fst r = true → k = n) ∧
            fs = <[fd_path (obj_val d) := Regular m (c ++ zdrop off (bytes_at data k))]> (files s1)) ∧
         (reliable_files → fst r = true)).
Proof.
  revert d off. induction fuel as [|fuel IH]; intros d off; wp_start; destruct P as (Hd & Ho & Hf & Hn & Hr);
    cbn [write_loop]; wp_case (off <? n); try lia.
  all: try (apply wp_ret; exists s, (files s); rewrite with_files_files; split_and!; try done;
    intros m c Hc Hoff; split; [|done]; exists off; split; [lia|]; split; [lia|];
    unfold bytes_at; rewrite zdrop_ztake_nil by lia; rewrite app_nil_r, insert_id by done; done).
  destruct data as [b|]; cbn in Hr; [|lia].
  rewrite size_sub_small by size_lia. wp_call as r [-> ->].
  { cbn. rewrite len_zdrop by lia. lia. }
  set (bytes := bytes_at _ _).
  assert (Hb : len bytes = n - off).
  { unfold bytes, bytes_at. cbn. apply len_ztake. rewrite len_zdrop by lia. lia. }
  wp_call as [w d'] (s1 & fs & F & -> & (Hw1 & Hid & Hpath) & Hw). cbn [fst snd] in *. fs_simpl.
  wp_case (w <=? 0).
  - apply wp_ret. exists s1, fs. split; [solve_frame|]. do 3 (split; [done|]).
    intros m c Hc Ho'. cbn [fst]. fs_simpl. destruct (Hw m c Hc Ho') as [(? & [Hn'|?] & _)|(_ & -> & Hr')]; [|lia|].
    { rewrite Hn', len_nil in Hb. lia. }
    split; [|by intros ?%Hr']. exists off. split; [lia|]. split; [done|].
    unfold bytes_at. by rewrite zdrop_ztake_nil, app_nil_r, insert_id.
  - rewrite size_add_small by size_lia. eapply wp_spec; [apply IH| |].
    { split_and!; try done; try lia. unfold alive, owns in *. rewrite Hid. solve_alive. }
    cbn beta. intros [ok d2] s' (s2 & fs2 & F2 & -> & Hid2 & Hp2 & H2). cbn [fst snd] in *. frame_merge.
    eexists _, fs2. split; [solve_frame|]. split; [done|]. split; [congruence|]. split; [congruence|].
    intros m c Hc Ho'. fs_simpl. rewrite Hpath in H2.
    destruct (Hw m c Hc Ho') as [(_ & _ & Hd' & ->)|(? & _)]; [|lia].
    assert (Hlw : len (ztake w bytes) = w) by (apply len_ztake; lia).
    destruct (H2 m (c ++ ztake w bytes)) as [(k & Hk & Hkn & ->) Hrel].
    { by rewrite lookup_insert_eq. } { rewrite Hd', len_app, Hlw. done. }
    split; [|done]. exists k. split; [lia|]. split; [done|]. rewrite insert_insert_eq, <-app_assoc. do 3 f_equal.
    unfold bytes, bytes_at. cbn [default from_option id]. rewrite ztake_ztake by lia.
    by apply ztake_app_zdrop; lia.
Qed.

#[export] Instance spec_write_all d data n :
  Spec (write_all d data n) (λ s, alive (Some d) s ∧ 0 ≤ n ≤ SIZE_MAX ∧ readable data n)
    (λ r s s', ∃ s1 fs, frame ∅ ∅ s s1 ∧ s' = with_files fs s1 ∧ obj_id (snd r) = obj_id d ∧
       fd_path (obj_val (snd r)) = fd_path (obj_val d) ∧
       ∀ m c, files s1 !! fd_path (obj_val d) = Some (Regular m c) → fd_offset (obj_val d) = len c →
         (∃ k, 0 ≤ k ≤ n ∧ (fst r = true → k = n) ∧
            fs = <[fd_path (obj_val d) := Regular m (c ++ bytes_at data k)]> (files s1)) ∧
         (reliable_files → fst r = true)).
Proof.
  intros s (Hd & Hn & Hr). unfold write_all. eapply wp_spec; [apply _|split_and!; done || lia|].
  cbn beta. intros r s' (s1 & fs & F & Hs & Hid & Hp & Hc). exists s1, fs. by split_and!.
Qed.

(** [read_all] fills the buffer with the bytes that follow in the file. *)
#[export] Instance spec_read_loop fuel d buf off n :
  Spec (read_loop fuel d buf off n)
    (λ s, alive (Some d) s ∧ 0 ≤ off ≤ n ∧ n - off ≤ Z.of_nat fuel ∧ n ≤ SIZE_MAX ∧ n ≤ len buf ∧
          0 ≤ fd_offset (obj_val d))
    (λ r s s', let '(ok, (buf', d')) := r in
       frame ∅ ∅ s s' ∧ obj_id d' = obj_id d ∧ len buf' = len buf ∧ ztake off buf' = ztake off buf ∧
       (ok = true → off < n → ∃ m c, files s' !! fd_path (obj_val d) = Some (Regular m c) ∧
          zdrop off (ztake n buf') = ztake (n - off) (zdrop (fd_offset (obj_val d)) c) ∧
          n - off ≤ len (zdrop (fd_offset (obj_val d)) c)) ∧
       (∀ m c, files s' !! fd_path (obj_val d) = Some (Regular m c) → reliable_files →
          0 ≤ fd_offset (obj_val d) → fd_offset (obj_val d) + (n - off) ≤ len c → ok = true)).
Proof.
  revert d buf off. induction fuel as [|fuel IH]; intros d buf off; wp_start;
    destruct P as (Hd & Ho & Hf & Hn & Hb & H0d); cbn [read_loop]; wp_case (off <? n); try lia.
  all: try (apply wp_ret; split_and!; try done; lia).
  rewrite size_sub_small by size_lia.
  wp_call as [[k bytes] d'] (F & (Hl & Hk & Hid) & Hpos & Hrel). fs_simpl.
  wp_call as buf1 [-> ->].
  set (buf1 := splice (Z.to_nat off) bytes buf).
  assert (Hl1 : len buf1 = len buf) by (apply len_splice; lia).
  assert (Hpre : ztake off buf1 = ztake off buf) by (apply ztake_splice_before; lia).
  wp_case (k <=? 0).
  - apply wp_ret. split; [solve_frame|]. do 3 (split; [done|]). split; [done|].
    intros m c Hc Hr Ho1 Ho2. fs_simpl. assert (0 < k) by (apply (Hrel m c Hc Hr); lia). lia.
  - destruct (Hpos E0) as (m & c & Hc & Hby & ->). rewrite size_add_small by size_lia.
    eapply wp_spec; [apply IH| |].
    { split_and!; try done; try lia; [solve_alive|cbn; lia]. }
    cbn beta. intros [ok [buf2 d2]] s' (F2 & Hid2 & Hl2 & Hpre2 & Hok & Hr2). frame_merge. fs_simpl.
    cbn [obj_val set_val fd_path fd_offset] in *.
    assert (Hby' : zdrop off (ztake (off + k) buf2) = bytes).
    { rewrite Hpre2, <-ztake_of_zdrop by lia. replace (off + k - off) with (len bytes) by lia.
      apply ztake_splice; lia. }
    split; [solve_frame|]. split; [done|]. split; [congruence|]. split; [|split].
    + rewrite <-(ztake_ztake off (off + k)) by lia. rewrite Hpre2, ztake_ztake by lia. done.
    + intros Ht _. exists m, c. split; [done|].
      rewrite <-(ztake_app_zdrop k off n) by lia. rewrite <-(ztake_of_zdrop off (off + k)) in Hby' by lia.
      replace (off + k - off) with k in Hby' by lia. rewrite Hby', Hby.
      assert (Hlk : k ≤ len (zdrop (fd_offset (obj_val d)) c)).
      { rewrite Hby in Hl. unfold ztake, len in *. rewrite length_take in Hl. lia. }
      destruct (decide (off + k < n)) as [Hlt|Hge].
      * destruct (Hok Ht Hlt) as (? & ? & Hc' & -> & Hle). rewrite Hc in Hc'. injection Hc' as <- <-.
        rewrite <-(zdrop_zdrop k (fd_offset (obj_val d))) in Hle |- * by lia.
        rewrite ztake_ztake_zdrop by lia. split; [f_equal; lia|]. rewrite len_zdrop in Hle by lia. lia.
      * rewrite zdrop_ztake_nil, app_nil_r by lia. split; [f_equal; lia|lia].
    + intros m' c' Hc' Hr Ho1 Ho2. apply (Hr2 m' c'); done || lia.
Qed.

#[export] Instance spec_read_all d buf n :
  Spec (read_all d buf n)
    (λ s, alive (Some d) s ∧ 0 < n ≤ SIZE_MAX ∧ n ≤ len buf ∧ 0 ≤ fd_offset (obj_val d))
    (λ r s s', let '(ok, (buf', d')) := r in
       frame ∅ ∅ s s' ∧ obj_id d' = obj_id d ∧ len buf' = len buf ∧
       (ok = true → ∃ m c, files s' !! fd_path (obj_val d) = Some (Regular m c) ∧
          ztake n buf' = ztake n (zdrop (fd_offset (obj_val d)) c) ∧
          n ≤ len (zdrop (fd_offset (obj_val d)) c)) ∧
       (∀ m c, files s' !! fd_path (obj_val d) = Some (Regular m c) → reliable_files →
          fd_offset (obj_val d) + n ≤ len c → ok = true)).
Proof.
  intros s (Hd & Hn & Hb & Ho). unfold read_all. eapply wp_spec; [apply _|split_and!; done || lia|].
  cbn beta. intros [ok [buf' d']] s' (F & Hid & Hl & _ & Hok & Hrel). do 3 (split; [done|]). split.
  - intros Ht. destruct (Hok Ht) as (m & c & Hc & Heq & Hle); [lia|]. exists m, c.
    rewrite Z.sub_0_r in Heq, Hle. done.
  - intros m c Hc Hr Hle. apply (Hrel m c Hc Hr); lia.
Qed.
End specs.
