(* ===== verification/KeyStoreKeys.v ===== *)
(** * The key store: the SM2 key

    Specifications of the saving and loading of the encrypted SM2 key and of
    the store that holds it alone. *)

From S2P Require Import Prelude Machine External Posix Dilithium Sm2 CompositeKey CompositeSig KeyStore.
From S2P Require Import KeyStoreFiles.

Section specs.
Context `{Libc, OpenSSL, !OpenSSLSizes, !OpenSSLCipher, !CipherSizes, Posix}.

(** The mode of a file of the store. *)
Definition key_file_mode : Z := Z.ldiff 0x180 umask.

Lemma key_file_mode_private : private_mode key_file_mode.
Proof. by apply private_ldiff. Qed.

(** *** The SM2 private key *)

(** OpenSSL wrote [pem] for [k], encrypted under [pass]. *)
Definition pem_writes (Q : modality) (k : EVP_PKEY) (pass : string) (P : list byte → Prop) : Prop :=
  Q _ (PEM_write_PKCS8PrivateKey k "AES-256-CBC" (lit pass)) (λ r, fst r ≠ 0 ∧ P (snd r)).

(** What a failed save leaves: nothing, or a file that could not be removed. *)
Definition not_saved (path : string) (base fs : gmap string node) : Prop :=
  fs = base ∨ base !! path = None ∧ (∃ c, fs = <[path := Regular key_file_mode c]> base) ∧
    ∃ e, fault "unlink" path e.

(** Removing a file the save has created. *)
Lemma wp_remove_created path base c Φ s :
  base !! path = None →
  (∀ rc s1 fs, frame ∅ ∅ s s1 → not_saved path base fs → Φ rc (with_files fs s1)) →
  wp (unlink path) Φ (with_files (<[path := Regular key_file_mode c]> base) s).
Proof.
  intros Hb HΦ. eapply wp_spec; [apply _|done|]. cbn beta. intros rc s' (s1 & fs & F & -> & Hrc).
  destruct (frame_with_files _ _ _ _ _ F) as (s2 & F2 & ->). fs_simpl. apply (HΦ rc s2 fs); [done|].
  destruct Hrc as [(_ & _ & _ & ->)|(_ & -> & Hrc)].
  - left. by rewrite delete_insert_id.
  - right. split; [done|]. split; [by eexists|]. rewrite lookup_insert_eq in Hrc.
    destruct Hrc as [[=]|[[m [=]]|Hf]]. by eexists.
Qed.

#[export] Instance spec_save_sm2_private_key path key pass :
  Spec (save_sm2_private_key path key pass) (alive key)
    (λ r s s', ∃ s1 fs, frame ∅ ∅ s s1 ∧ s' = with_files fs s1 ∧
       (r = true → ∃ p k ps pem, path = Some p ∧ key = Some k ∧ pass = Some ps ∧
          passphrase_valid pass = true ∧ files s1 !! p = None ∧
          pem_writes once (obj_val k) ps (eq pem) ∧
          fs = <[p := Regular key_file_mode pem]> (files s1)) ∧
       (r = false → fs = files s1 ∨ ∃ p, path = Some p ∧ not_saved p (files s1) fs) ∧
       (∀ p k ps, path = Some p → key = Some k → pass = Some ps → passphrase_valid pass = true →
          files s1 !! p = None → reliable_files → pem_writes always (obj_val k) ps (λ _, True) → r = true)).
Proof.
  wp_start. unfold save_sm2_private_key.
  set (Post := λ (r : bool) s', ∃ s1 fs, frame ∅ ∅ s s1 ∧ s' = with_files fs s1 ∧ _).
  assert (Hearly : (path = None ∨ key = None ∨ pass = None ∨ passphrase_valid pass = false) →
    wp (mret false) Post s).
  { intros Hn. apply wp_ret. exists s, (files s). rewrite with_files_files. split; [done|]. split; [done|].
    split; [done|]. split; [by left|]. intros p k ps -> -> -> Hv. naive_solver. }
  destruct path as [p|]; [|apply Hearly; by left]. destruct key as [k|]; [|apply Hearly; right; by left].
  destruct pass as [ps|]; [|apply Hearly; right; right; by left].
  destruct (passphrase_valid (Some ps)) eqn:Hv; cbn [negb]; [|apply Hearly; by repeat right].
  clear Hearly. wp_call as d (s1 & fs & F & -> & Hd). fs_simpl. destruct d as [d|].
  2: { destruct Hd as [-> Hd]. apply wp_ret. eexists _, _. split; [solve_frame|]. split; [done|]. fs_simpl.
       split; [done|]. split; [by left|]. intros ? ? ? [= <-] _ _ _ Hno Hr _.
       destruct Hd as [[? ?]|[e He]]; [congruence|]. by apply reliable_no_fault in He. }
  destruct Hd as (Hd & Hno & ->). fold key_file_mode.
  assert (Hunlink : ∀ c s4, frame ∅ ∅ s s4 →
    (reliable_files → pem_writes always (obj_val k) ps (λ _, True) → False) →
    wp ((unlink p;; mret tt);; mret false) Post (with_files (<[p := Regular key_file_mode c]> (files s)) s4)).
  { intros c s4 F4 Hf. do 2 wp_pure. apply wp_remove_created; [done|]. intros rc s5 fs F5 Hns.
    frame_merge. repeat wp_pure. eexists _, fs. split; [eassumption|]. split; [done|]. fs_simpl. split; [done|].
    split; [intros _; right; by exists p|]. intros ? ? ? [= <-] [= <-] [= <-] _ _ Hr Hp.
    by destruct (Hf Hr Hp). }
  assert (Hclose : ∀ f total s4 fs4, frame ∅ (owns (Some f)) s s4 → file_path (obj_val f) = p →
    stream_at (obj_val f) key_file_mode total (files s) fs4 →
    (reliable_files → pem_writes always (obj_val k) ps (λ _, True) → False) →
    wp ((fclose f;; mret tt);; (unlink p;; mret tt);; mret false) Post (with_files fs4 s4)).
  { intros f total s4 fs4 F4 Hp Hat Hf. wp_call as rc (s5 & fs & F5 & -> & Hfs). fs_simpl. rewrite Hp in Hfs.
    destruct (Hfs _ _ _ Hat) as (_ & data & lost & -> & _). apply wp_ret. apply (Hunlink data); [solve_frame|done]. }
  wp_call as f Hf0. destruct f as [f|].
  2: { destruct Hf0 as [F1 [e He]]. frame_merge. wp_call as rc [F2 _]. apply wp_ret, Hunlink; [solve_frame|].
       intros Hr _. by apply reliable_no_fault in He. }
  destruct Hf0 as [F1 Hf0]. frame_merge. rewrite Hd in Hf0. cbn [fd_path fd_offset] in Hf0.
  wp_call as kv [-> ->]. wp_call as [rc pem] [F2 Hpem]. fs_simpl.
  pose proof (stream_at_start p key_file_mode (files s)) as Hat. rewrite <-Hf0 in Hat.
  assert (Hfp : file_path (obj_val f) = p) by by rewrite Hf0.
  wp_call as [ok f1] (u4 & fs4 & v & F3 & -> & Hs4 & Hp4 & Hput). cbn [fst snd] in Hs4, Hput. subst f1. fs_simpl.
  destruct (Hput _ _ _ Hat) as (Hok & total & Hat4 & Htot). clear Hput Hat. rewrite Hfp in *.
  wp_case ((rc =? 0) || negb ok).
  { eapply Hclose; [solve_frame|done|exact Hat4|]. intros Hr Hal. unfold pem_writes in Hal. always_auto.
    destruct Hok as [->|[e He]]; [|by apply reliable_no_fault in He]. rewrite orb_false_r in E. by apply Z.eqb_eq in E. }
  destruct (Htot eq_refl) as [-> _]. clear Htot. cbn [app] in Hat4.
  wp_call as [rc1 f1] (u5 & fs5 & v5 & F4 & -> & Hs5 & Hp5 & Hflush). cbn [fst snd] in Hs5, Hflush. subst f1. fs_simpl.
  cbn [obj_val set_val] in *. rewrite Hp4 in *. destruct (Hflush _ _ _ Hat4) as (Hrc1 & Hat5 & Hpend & _). clear Hflush Hat4.
  change (set_val (set_val f v) v5) with (set_val f v5).
  wp_case (negb (rc1 =? 0)).
  { eapply Hclose; [solve_frame|done|exact Hat5|]. intros Hr _. destruct Hrc1 as [?|He]; [done|].
    by apply reliable_no_fault in He. }
  wp_call as rc2 [F5 Hrc2]. wp_case (negb (rc2 =? 0)).
  { eapply Hclose; [solve_frame|done|exact Hat5|]. intros Hr _. destruct Hrc2 as [?|He]; [done|].
    by apply reliable_no_fault in He. }
  wp_call as rc3 (u6 & fs6 & F6 & -> & Hend). cbn [obj_val set_val] in Hend. fs_simpl. rewrite Hp5 in *.
  destruct (Hend _ _ _ Hat5) as (Hrc3 & data & lost & -> & Hdl & Hl & _). clear Hend.
  wp_case (negb (rc3 =? 0)).
  { apply wp_ret. eapply Hunlink; [solve_frame|]. intros Hr _. destruct Hrc3 as [?|[n He]]; [done|].
    by apply reliable_no_fault in He. }
  specialize (Hl eq_refl). subst lost. rewrite app_nil_r in *. repeat wp_pure.
  lazymatch goal with |- Post _ (with_files ?fs ?s') => exists s', fs end.
  split; [solve_frame|]. split; [done|]. fs_simpl. split; [|split; [done|done]].
  intros _. eexists _, k, ps, data. split_and!; try done. unfold pem_writes. once_auto.
Qed.

(** OpenSSL reads an SM2 key that satisfies [P] from the PEM text [c] with the
    passphrase [ps] and finds it consistent. *)
Definition pem_reads (Q : modality) (c : list byte) (ps : string) (P : EVP_PKEY → Prop) : Prop :=
  Q _ (PEM_read_PrivateKey c (pem_password (PassphraseData ps (strlen ps)))) (on_some (λ k,
    EVP_PKEY_is_a k "SM2" ≠ 0 ∧
    Q _ (EVP_PKEY_CTX_new_from_pkey (Some k)) (on_some (λ cx,
      Q _ (EVP_PKEY_private_check cx) (λ rc, 0 < rc ∧ P k))))).

Lemma resolve_regular fs p m c : fs !! p = Some (Regular m c) → resolve MAXSYMLINKS fs p = inl (p, Regular m c).
Proof. rewrite resolve_unfold. by intros ->. Qed.

#[export] Instance spec_load_sm2_private_key path pass :
  Spec (load_sm2_private_key path pass) (λ _, True)
    (λ r s s', frame ∅ (owns r) s s' ∧
       (∀ k, r = Some k → ∃ p ps c, path = Some p ∧ pass = Some ps ∧ passphrase_valid pass = true ∧
          private_file (files s') p c ∧ pem_reads once c ps (eq (obj_val k))) ∧
       (∀ p ps c P, path = Some p → pass = Some ps → passphrase_valid pass = true →
          private_file (files s') p c → reliable_files → pem_reads always c ps P →
          ∃ k, r = Some k ∧ P (obj_val k))).
Proof.
  wp_start. unfold load_sm2_private_key. wp_call as ok (F & Hok & Hall). fs_simpl.
  destruct ok; cbn [negb orb].
  2: { apply wp_ret. split; [solve_frame|]. split; [done|]. fs_simpl. intros p ps c Q -> -> _ Hp Hr _.
       by assert (false = true) by (apply (Hall p c); auto; lia). }
  destruct (Hok eq_refl) as (p & c & -> & Hp & _). clear Hok Hall. pose proof Hp as (m & Hm & _).
  destruct (passphrase_valid pass) eqn:Hv; cbn [negb].
  2: { apply wp_ret. split; [solve_frame|]. by split. }
  destruct pass as [ps|]; [|done].
  wp_call as f [F1 Hf]. fs_simpl. rewrite (resolve_regular _ _ _ _ Hm) in Hf. destruct f as [f|].
  2: { apply wp_ret. split; [solve_frame|]. split; [done|]. intros ? ? ? Q _ _ _ _ Hr _.
       destruct Hf as [[? [=]]|[e He]]. by apply reliable_no_fault in He. }
  destruct Hf as (? & ? & [= <- <-] & Hf).
  wp_call as cont [-> Hcont]. rewrite Hf in Hcont. fs_simpl. specialize (Hcont m c Hm eq_refl). subst cont.
  wp_call as key [F2 Hkey]. wp_call as ? ?. fs_simpl.
  destruct key as [k|]; cbn [fmap option_fmap option_map] in Hkey.
  2: { do 2 wp_pure. cbn [negb]. wp_call as ? ?. apply wp_ret. split; [solve_frame|]. split; [done|]. fs_simpl.
       intros ? ? c' Q [= <-] [= <-] _ (m' & Hm' & _) _ Hal. unfold pem_reads in Hal.
       rewrite Hm in Hm'. injection Hm' as <- <-. always_auto. }
  assert (Hread : ∀ p' ps' c' Q, Some p = Some p' → Some ps = Some ps' → private_file (files s) p' c' →
    pem_reads always c' ps' Q → EVP_PKEY_is_a (obj_val k) "SM2" ≠ 0 ∧
      always _ (EVP_PKEY_CTX_new_from_pkey (Some (obj_val k))) (on_some (λ cx,
        always _ (EVP_PKEY_private_check cx) (λ rc, 0 < rc ∧ Q (obj_val k))))).
  { intros ? ? c' Q [= <-] [= <-] (m' & Hm' & _) Hal. rewrite Hm in Hm'. injection Hm' as <- <-.
    unfold pem_reads in Hal. always_auto. }
  wp_call as kv [-> ->]. wp_pure. rewrite negb_involutive. wp_case (EVP_PKEY_is_a (obj_val k) "SM2" =? 0).
  { wp_call as ? ?. apply wp_ret. split; [solve_frame|]. split; [done|]. fs_simpl.
    intros p' ps' c' Q Hp1 Hp2 _ Hp3 _ Hal. by destruct (Hread p' ps' c' Q Hp1 Hp2 Hp3 Hal). }
  wp_call as [cc|] [F3 Hcc]; cbn [fmap option_fmap option_map] in Hcc.
  2: { wp_call as ? ?. apply wp_ret. split; [solve_frame|]. split; [done|]. fs_simpl.
       intros p' ps' c' Q Hp1 Hp2 _ Hp3 _ Hal. destruct (Hread p' ps' c' Q Hp1 Hp2 Hp3 Hal) as [_ Hk]. always_auto. }
  wp_call as rc [F4 Hrc]. wp_case (rc <=? 0).
  - do 2 wp_call as ? ?. apply wp_ret. split; [solve_frame|]. split; [done|]. fs_simpl.
    intros p' ps' c' Q Hp1 Hp2 _ Hp3 _ Hal. destruct (Hread p' ps' c' Q Hp1 Hp2 Hp3 Hal) as [_ Hk]. always_auto.
  - wp_call as ? ?. apply wp_ret. split; [solve_frame|]. fs_simpl. split.
    + intros ? [= <-]. exists p, ps, c. split_and!; try done. unfold pem_reads. once_auto.
    + intros p' ps' c' Q Hp1 Hp2 _ Hp3 _ Hal. destruct (Hread p' ps' c' Q Hp1 Hp2 Hp3 Hal) as [_ Hk].
      exists k. split; [done|]. always_auto.
Qed.

(** *** The store of the SM2 key alone *)

#[local] Hint Resolve sm2_file_name : wp.

#[export] Instance spec_hybrid_sm2_key_store_save directory key pass :
  Spec (hybrid_sm2_key_store_save directory key pass)
    (λ s, from_option nul_free True directory ∧ alive key s)
    (λ r s s', ∃ s1 fs, frame ∅ ∅ s s1 ∧ s' = with_files fs s1 ∧
       (r = true → ∃ d fs0 k ps pem, directory = Some d ∧ key = Some k ∧ pass = Some ps ∧
          passphrase_valid pass = true ∧ EVP_PKEY_is_a (obj_val k) "SM2" ≠ 0 ∧
          entered d (files s1) fs0 ∧ private_directory fs0 d ∧ fs0 !! sm2_file d = None ∧
          pem_writes once (obj_val k) ps (eq pem) ∧ fs = <[sm2_file d := Regular key_file_mode pem]> fs0) ∧
       (r = false → fs = files s1 ∨ ∃ d fs0, directory = Some d ∧ entered d (files s1) fs0 ∧
          not_saved (sm2_file d) fs0 fs) ∧
       (∀ d k ps, directory = Some d → key = Some k → pass = Some ps → passphrase_valid pass = true →
          EVP_PKEY_is_a (obj_val k) "SM2" ≠ 0 → directory_name d → reliable_malloc → reliable_files →
          files s1 !! d = None ∨ private_directory (files s1) d → files s1 !! sm2_file d = None →
          pem_writes always (obj_val k) ps (λ _, True) → r = true)).
Proof.
  wp_start. destruct P as [Hd Hk]. unfold hybrid_sm2_key_store_save.
  set (Post := λ (r : bool) s', ∃ s1 fs, frame ∅ ∅ s s1 ∧ s' = with_files fs s1 ∧ _).
  assert (Hfail : ∀ s1 fs, frame ∅ ∅ s s1 →
    fs = files s ∨ (∃ d fs0, directory = Some d ∧ entered d (files s) fs0 ∧ not_saved (sm2_file d) fs0 fs) →
    (∀ d k ps, directory = Some d → key = Some k → pass = Some ps → passphrase_valid pass = true →
      EVP_PKEY_is_a (obj_val k) "SM2" ≠ 0 → directory_name d → reliable_malloc → reliable_files →
      files s !! d = None ∨ private_directory (files s) d → files s !! sm2_file d = None →
      pem_writes always (obj_val k) ps (λ _, True) → False) → Post false (with_files fs s1)).
  { intros s1 fs F Hfs Hf. exists s1, fs. split; [done|]. split; [done|]. fs_simpl. split; [done|]. split; [done|].
    intros. exfalso. eauto. }
  assert (Hnone : (∀ d k ps, directory = Some d → key = Some k → pass = Some ps → passphrase_valid pass = true →
      EVP_PKEY_is_a (obj_val k) "SM2" ≠ 0 → directory_name d → reliable_malloc → reliable_files →
      files s !! d = None ∨ private_directory (files s) d → files s !! sm2_file d = None →
      pem_writes always (obj_val k) ps (λ _, True) → False) → wp (mret false) Post s).
  { intros Hf. apply wp_ret. rewrite <-(with_files_files s). apply Hfail; auto. }
  destruct directory as [d|]; [|by apply Hnone]. destruct key as [k|]; [|by apply Hnone].
  wp_call as kv [-> ->]. destruct (Z.eqb_spec (EVP_PKEY_is_a (obj_val k) "SM2") 0) as [His|His]; cbn [orb].
  { apply Hnone. intros ? ? ? _ [= <-]. done. }
  destruct (passphrase_valid pass) eqn:Hv; cbn [negb]; [|by apply Hnone]. clear Hnone.
  wp_call as st (s1 & fs & F & -> & Hfs & _ & Hmiss & Hsm & _). fs_simpl.
  assert (Hent : entered d (files s) fs).
  { destruct Hfs as [->|(? & [= <-] & ? & _ & ?)]; [by left|by right]. }
  destruct (bool_decide_reflect (st = HYBRID_KEY_STORE_MISSING)) as [->|Hn]; cbn [negb].
  2: { apply wp_ret, Hfail; [solve_frame|right; exists d, fs; by split_and!; [..|left]|].
       intros ? ? ? [= <-] _ _ _ _ Hdn Hm Hr _ Hno _. by apply Hn, (Hsm d). }
  destruct (Hmiss eq_refl) as [-> _]. clear Hmiss Hsm Hfs Hent. rewrite <-(frame_files _ _ _ _ F0), with_files_files.
  wp_call as ok (s2 & fs & F1 & -> & Hfs & Hok & Hall). fs_simpl.
  assert (Hent : entered d (files s) fs) by (destruct Hfs as [->|(? & [= <-] & ? & ?)]; [by left|by right]).
  wp_case (negb ok).
  { apply wp_ret, Hfail; [solve_frame|right; exists d, fs; by split_and!; [..|left]|].
    intros ? ? ? [= <-] _ _ _ _ [? _] _ Hr Hpd _ _. by specialize (Hall d eq_refl Hr ltac:(lia) Hpd). }
  destruct (Hok eq_refl) as (? & [= <-] & Hdl & Hpriv). clear Hok Hall Hfs.
  assert (Hsame : files s !! sm2_file d = None → fs !! sm2_file d = None).
  { intros Hn. destruct Hent as [->|[_ ->]]; [done|].
    rewrite lookup_insert_ne; [done|]. symmetry. apply store_path_differs. }
  wp_call as sp (F2 & Hp & Hpo). wp_call as p1 [-> ->].
  wp_call as ok (s5 & fs1 & F4 & -> & Hok & Hko & Hall). fs_simpl.
  wp_call as ? ?. apply wp_ret. eexists _, fs1. split; [solve_frame|]. split; [done|]. fs_simpl. split; [|split].
  - intros ->. destruct (Hok eq_refl) as (p & ? & ps & pem & Hsp & [= <-] & -> & _ & Hno & Hpem & ->).
    destruct sp as [sp|]; [|done]. injection Hsp as <-. destruct (Hp _ eq_refl) as (? & [= <-] & _ & Hpath).
    rewrite Hpath in *. by exists d, fs, k, ps, pem.
  - intros ->. right. exists d, fs. split; [done|]. split; [done|].
    destruct (Hko eq_refl) as [->|(p & Hsp & Hns)]; [by left|].
    destruct sp as [sp|]; [|done]. injection Hsp as <-.
    destruct (Hp _ eq_refl) as (? & [= <-] & _ & Hpath). by rewrite Hpath in Hns.
  - intros ? ? ps [= <-] [= <-] -> _ _ Hdn Hm Hr _ Hno Hpem. destruct (Hpo d eq_refl Hm Hdn) as [b ->].
    destruct (Hp _ eq_refl) as (? & [= <-] & _ & Hpath). cbn in Hall. rewrite Hpath in Hall.
    by apply (Hall _ k ps eq_refl eq_refl eq_refl Hv (Hsame Hno)).
Qed.

#[export] Instance spec_hybrid_sm2_key_store_load directory pass :
  Spec (hybrid_sm2_key_store_load directory pass) (λ _, from_option nul_free True directory)
    (λ r s s', ∃ s1 fs, frame ∅ (owns r) s s1 ∧ s' = with_files fs s1 ∧
       (fs = files s1 ∨ ∃ d, directory = Some d ∧ entered d (files s1) fs) ∧
       (∀ k, r = Some k → ∃ d ps c, directory = Some d ∧ pass = Some ps ∧ passphrase_valid pass = true ∧
          private_directory fs d ∧ private_file fs (sm2_file d) c ∧ pem_reads once c ps (eq (obj_val k))) ∧
       (∀ d ps c P, directory = Some d → pass = Some ps → passphrase_valid pass = true → directory_name d →
          reliable_malloc → reliable_files → private_directory (files s1) d →
          private_file (files s1) (sm2_file d) c → pem_reads always c ps P → ∃ k, r = Some k ∧ P (obj_val k))).
Proof.
  wp_start. rename P into Hd. unfold hybrid_sm2_key_store_load.
  wp_call as st (s1 & fs & F & -> & Hfs & Hcomp & _ & _ & Hall). fs_simpl.
  assert (Hent : fs = files s ∨ ∃ d, directory = Some d ∧ entered d (files s) fs).
  { destruct Hfs as [?|(d & -> & ? & _ & ?)]; [by left|right; exists d; split; [done|by right]]. }
  destruct (bool_decide_reflect (st = HYBRID_KEY_STORE_COMPLETE)) as [->|Hn]; cbn [negb orb].
  2: { apply wp_ret. exists s1, fs. split; [solve_frame|]. split; [done|]. fs_simpl. split; [done|]. split; [done|].
       intros d ps c P -> _ _ Hdn Hm Hr Hpd Hpf _. by destruct Hn; apply (Hall d c). }
  destruct (passphrase_valid pass) eqn:Hv; cbn [negb].
  2: { apply wp_ret. exists s1, fs. split; [solve_frame|]. split; [done|]. fs_simpl. by split_and!. }
  destruct (Hcomp eq_refl) as (d & c & -> & Hpd & Hpf). clear Hcomp Hall.
  assert (Hsame : private_directory (files s) d → fs = files s).
  { destruct Hfs as [->|(? & [= <-] & Hn & _)]; [done|]. intros (m & Hm & _). congruence. }
  wp_call as sp (F2 & Hp & Hpo). wp_call as p1 [-> ->]. destruct sp as [sp|]; cbn [fmap option_fmap option_map].
  2: { wp_call as ? ?. apply wp_ret. eexists _, fs. split; [solve_frame|]. split; [done|]. fs_simpl.
       split; [done|]. split; [done|]. intros ? ? ? ? [= <-] _ _ Hdn Hm. by destruct (Hpo d eq_refl Hm Hdn). }
  destruct (Hp _ eq_refl) as (? & [= <-] & _ & ->). fold (sm2_file d).
  wp_call as r (F3 & Hr & Hrall). fs_simpl. wp_call as ? ?. apply wp_ret. eexists _, fs.
  split; [solve_frame|]. split; [done|]. fs_simpl. split; [done|]. split.
  - intros k ->. destruct (Hr k eq_refl) as (? & ps & c' & [= <-] & -> & _ & ? & ?). by exists d, ps, c'.
  - intros ? ps c' P [= <-] -> _ _ _ Hrel Hpd' Hpf' Hpem. rewrite <-(Hsame Hpd') in Hpf'.
    by eapply (Hrall (sm2_file d) ps c').
Qed.
End specs.
