(* ===== verification/KeyStoreContainer.v ===== *)
(** * The key store: the Dilithium2 container

    The layout of the encrypted file and the specifications of its encryption
    and decryption. *)

From S2P Require Import Prelude Machine External Posix Dilithium Sm2 CompositeKey CompositeSig KeyStore.
From S2P Require Import KeyStoreFiles KeyStoreKeys.

Lemma len_u32_bytes v : len (u32_bytes v) = 4.
Proof. done. Qed.
Lemma len_magic : len (lit DILITHIUM_STORE_MAGIC) = 8.
Proof. done. Qed.
Lemma len_plaintext_magic : len (lit DILITHIUM_PLAINTEXT_MAGIC) = 8.
Proof. done. Qed.

(** The length of a sequence of fields. *)
Ltac fields_lia :=
  autounfold with consts in *; cbn [take fst snd];
  rewrite ?concat_cons, ?concat_nil, ?app_nil_r, ?len_app, ?len_nil, ?len_u32_bytes, ?len_magic, ?len_plaintext_magic; lia.

Section specs.
Context `{Libc, OpenSSL, !OpenSSLSizes, !OpenSSLCipher, !CipherSizes, Posix}.

(** ** The layout *)

Definition container_fields : list Z := [8; 4; 16; 12; 4; 3880; 16].

(** Magic, iterations, salt, initialisation vector, length, ciphertext, tag. *)
Definition container (salt iv text tag : list byte) : list (list byte) :=
  [lit DILITHIUM_STORE_MAGIC; u32_bytes DILITHIUM_STORE_ITERATIONS; salt; iv;
   u32_bytes DILITHIUM_STORE_PLAINTEXT_BYTES; text; tag].

(** The part that is authenticated but not encrypted. *)
Definition container_header (salt iv : list byte) : list byte :=
  concat (take 5 (container salt iv [] [])).

Definition container_plaintext (pk sk : list byte) : list byte :=
  concat [lit DILITHIUM_PLAINTEXT_MAGIC; pk; sk].

(** The key derived from a passphrase and a salt satisfies [P]. *)
Definition key_derived (Q : modality) (ps : string) (salt : list byte) (P : list byte → Prop) : Prop :=
  Q _ (PKCS5_PBKDF2_HMAC (lit ps) salt DILITHIUM_STORE_ITERATIONS "SHA256" DILITHIUM_STORE_KEY_BYTES)
    (λ r, fst r = 1 ∧ P (snd r)).

(** AES-256-GCM encryption of [text] with the context [c]: the ciphertext and
    the tag satisfy [P]. *)
Definition gcm_sealing (Q : modality) (c : EVP_CIPHER_CTX) (key iv aad text : list byte)
    (P : list byte → list byte → Prop) : Prop :=
  Q _ (EVP_EncryptInit_cipher c "AES-256-GCM") (on_pos (λ c,
    Q _ (EVP_CIPHER_CTX_set_ivlen c DILITHIUM_STORE_IV_BYTES) (on_pos (λ c,
      Q _ (EVP_EncryptInit_key c key iv) (on_pos (λ c,
        Q _ (EVP_EncryptUpdate_aad c aad) (on_pos (λ c,
          Q _ (EVP_EncryptUpdate c text) (on_pos (λ r, len (fst r) = len text ∧
            Q _ (EVP_EncryptFinal_ex (snd r)) (on_pos (λ r',
              Q _ (EVP_CIPHER_CTX_get_tag (snd r') DILITHIUM_STORE_TAG_BYTES) (on_pos (λ tag,
                P (fst r) tag)))))))))))))).

Definition gcm_seal (Q : modality) (key iv aad text : list byte) (P : list byte → list byte → Prop) : Prop :=
  Q _ EVP_CIPHER_CTX_new (on_some (λ c, gcm_sealing Q c key iv aad text P)).

(** AES-256-GCM decryption of [text] with the context [c] accepts the tag, and
    the plaintext satisfies [P]. *)
Definition gcm_opening (Q : modality) (c : EVP_CIPHER_CTX) (key iv aad text tag : list byte)
    (P : list byte → Prop) : Prop :=
  Q _ (EVP_DecryptInit_cipher c "AES-256-GCM") (on_pos (λ c,
    Q _ (EVP_CIPHER_CTX_set_ivlen c DILITHIUM_STORE_IV_BYTES) (on_pos (λ c,
      Q _ (EVP_DecryptInit_key c key iv) (on_pos (λ c,
        Q _ (EVP_DecryptUpdate_aad c aad) (on_pos (λ c,
          Q _ (EVP_DecryptUpdate c text) (on_pos (λ r, len (fst r) = len text ∧
            Q _ (EVP_CIPHER_CTX_set_tag (snd r) tag) (on_pos (λ c,
              Q _ (EVP_DecryptFinal_ex c) (on_pos (λ _, P (fst r))))))))))))))).

Definition gcm_open (Q : modality) (key iv aad text tag : list byte) (P : list byte → Prop) : Prop :=
  Q _ EVP_CIPHER_CTX_new (on_some (λ c, gcm_opening Q c key iv aad text tag P)).

(** [blob] is a container for the key pair [pk], [sk] under [ps]. *)
Definition sealed (ps : string) (pk sk blob : list byte) : Prop :=
  ∃ salt iv text tag key, blob = concat (container salt iv text tag) ∧
    Forall2 (λ f n, len f = n) (container salt iv text tag) container_fields ∧
    key_derived once ps salt (eq key) ∧
    gcm_seal once key iv (container_header salt iv) (container_plaintext pk sk)
      (λ text' tag', text' = text ∧ tag' = tag).

(** Nothing can go wrong when a key pair is sealed. *)
Definition always_seals (ps : string) (pk sk : list byte) : Prop :=
  always _ (RAND_bytes DILITHIUM_STORE_SALT_BYTES) (λ r, 0 < fst r) ∧
  always _ (RAND_bytes DILITHIUM_STORE_IV_BYTES) (λ r, 0 < fst r) ∧
  (∀ salt, key_derived always ps salt (λ _, True)) ∧
  ∀ key iv aad, gcm_seal always key iv aad (container_plaintext pk sk) (λ _ _, True).

#[local] Arguments concat : simpl never.

(** Writing one field. *)
Lemma wp_field segs i seg src off Φ s :
  segs !! i = Some seg → len src = len seg → off = len (concat (take i segs)) →
  Φ (concat (<[i := src]> segs)) s → wp (memcpy (concat segs) off src) Φ s.
Proof.
  intros Hi Hl Ho HΦ. pose proof (len_nonneg (concat (take i segs))). eapply wp_spec; [apply _| |].
  - split; [lia|]. rewrite <-(take_drop_middle _ _ _ Hi). rewrite concat_app, len_app.
    rewrite concat_cons, len_app. pose proof (len_nonneg (concat (drop (S i) segs))). lia.
  - intros r s' [-> ->]. by rewrite (splice_concat _ _ _ _ _ Hi Hl Ho).
Qed.

(** Reading one field, and reading the first fields. *)
Lemma wp_read_field segs i seg off n Φ s :
  segs !! i = Some seg → n = len seg → off = len (concat (take i segs)) →
  Φ seg s → wp (read (Some (zdrop off (concat segs))) n) Φ s.
Proof.
  intros Hi Hn Ho HΦ. pose proof (field_concat _ _ _ _ _ Hi Hn Ho) as Hf.
  eapply wp_spec; [apply _| |].
  - cbn. subst n. pose proof (len_nonneg seg). split; [done|]. rewrite <-Hf at 1.
    unfold ztake, len. rewrite length_take. lia.
  - intros r s' [-> ->]. unfold bytes_at. cbn [default from_option id]. by rewrite Hf.
Qed.

Lemma wp_read_fields segs k n Φ s :
  n = len (concat (take k segs)) → Φ (concat (take k segs)) s → wp (read (Some (concat segs)) n) Φ s.
Proof.
  intros -> HΦ. rewrite <-(take_drop k segs) at 1. rewrite concat_app. eapply wp_spec; [apply _| |].
  - cbn. rewrite len_app. pose proof (len_nonneg (concat (take k segs))).
    pose proof (len_nonneg (concat (drop k segs))). lia.
  - intros r s' [-> ->]. unfold bytes_at. cbn [default from_option id]. by rewrite ztake_app.
Qed.

(** A buffer of the size of a file, as the fields of a container. *)
Lemma split_container (l : list byte) :
  len l = DILITHIUM_STORE_FILE_BYTES →
  ∃ f1 f2 f3 f4 f5 f6 f7, l = concat [f1; f2; f3; f4; f5; f6; f7] ∧
    len f1 = 8 ∧ len f2 = 4 ∧ len f3 = 16 ∧ len f4 = 12 ∧ len f5 = 4 ∧ len f6 = 3880 ∧ len f7 = 16.
Proof.
  intros Hl. destruct (split_fields container_fields l) as (segs & -> & Hsegs);
    [repeat constructor; lia|by rewrite Hl|].
  pose proof (Forall2_length Hsegs) as Hn. unfold container_fields in *.
  do 7 (destruct segs as [|? segs]; [done|]). destruct segs; [|done]. decompose_Forall_hyps.
  by do 7 eexists.
Qed.

#[export] Instance spec_derive_encryption_key pass salt key :
  Spec (derive_encryption_key pass salt key)
    (λ _, len key = DILITHIUM_STORE_KEY_BYTES ∧ from_option (λ b, 16 ≤ len b) True salt)
    (λ r s s', frame ∅ ∅ s s' ∧ len (snd r) = DILITHIUM_STORE_KEY_BYTES ∧
       (fst r = true → ∃ ps b, pass = Some ps ∧ passphrase_valid pass = true ∧ salt = Some b ∧
          key_derived once ps (ztake DILITHIUM_STORE_SALT_BYTES b) (eq (snd r))) ∧
       (∀ ps b, pass = Some ps → passphrase_valid pass = true → salt = Some b →
          key_derived always ps (ztake DILITHIUM_STORE_SALT_BYTES b) (λ _, True) → fst r = true)).
Proof.
  wp_start. destruct P as [Hk Hs]. unfold derive_encryption_key.
  destruct pass as [ps|]; [|by apply wp_ret].
  destruct (passphrase_valid (Some ps)) eqn:Hv; cbn [negb orb]; [|apply wp_ret; by split_and!].
  destruct salt as [b|]; cbn [is_null]; [|by apply wp_ret]. cbn in Hs.
  wp_call as sa [-> ->]. unfold bytes_at; cbn [default from_option id].
  wp_call as [rc k] [F Hkd]. pose proof (pbkdf2_size _ _ _ _ _ _ _ _ Hkd ltac:(done)) as [Hl1 Hl2].
  wp_call as k' [-> ->]. apply wp_ret. cbn [fst snd]. split; [solve_frame|].
  split; [rewrite len_splice; lia|]. split.
  - intros ->%Z.eqb_eq. rewrite splice_whole by (rewrite Hl2; done). exists ps, b. split_and!; try done.
    unfold key_derived. once_auto.
  - intros ? ? [= <-] _ [= <-] Hal. unfold key_derived in Hal. always_auto.
Qed.

(** The exit both directions share: the derived key and the plaintext are wiped
    and the cipher context is released. *)
Lemma wp_wipe {A} (ctx : option (obj EVP_CIPHER_CTX)) ek pt (r : A) Φ s :
  alive ctx s → len ek = DILITHIUM_STORE_KEY_BYTES → len pt = DILITHIUM_STORE_PLAINTEXT_BYTES →
  (∀ s', frame (owns ctx) ∅ s s' → Φ r s') →
  wp (ek ← cleanse ek DILITHIUM_STORE_KEY_BYTES; pt ← cleanse pt DILITHIUM_STORE_PLAINTEXT_BYTES;
      free_object ctx;; retire ek;; retire pt;; mret r) Φ s.
Proof.
  intros Hc Hek Hpt HΦ. pose proof (frame_refl s).
  wp_call as x [-> ->]. wp_call as x [-> ->]. wp_call as ? ?. wp_call as ? ?. wp_call as ? ?.
  apply wp_ret, HΦ. solve_frame.
Qed.

#[export] Instance spec_gcm_encrypt cx key pt f1 f2 f3 iv f5 f6 f7 :
  Spec (gcm_encrypt cx key pt (concat [f1; f2; f3; iv; f5; f6; f7]))
    (λ _, Forall2 (λ f n, len f = n) [f1; f2; f3; iv; f5; f6; f7] container_fields ∧
          len pt = DILITHIUM_STORE_PLAINTEXT_BYTES)
    (λ r s s', frame ∅ ∅ s s' ∧ len (snd r) = DILITHIUM_STORE_FILE_BYTES ∧
       (fst r = true → ∃ text tag, snd r = concat [f1; f2; f3; iv; f5; text; tag] ∧
          len text = DILITHIUM_STORE_PLAINTEXT_BYTES ∧ len tag = DILITHIUM_STORE_TAG_BYTES ∧
          gcm_sealing once cx key iv (concat [f1; f2; f3; iv; f5]) pt (λ o t, o = text ∧ t = tag)) ∧
       (gcm_sealing always cx key iv (concat [f1; f2; f3; iv; f5]) pt (λ _ _, True) → fst r = true)).
Proof.
  wp_start. destruct P as [Hf Hpt]. unfold container_fields in Hf. decompose_Forall_hyps.
  unfold gcm_encrypt, gcm_sealing.
  set (Post := λ (r : bool * list byte) s', frame ∅ ∅ s s' ∧ _).
  assert (Hfail : ∀ out s4, frame ∅ ∅ s s4 → len out = DILITHIUM_STORE_FILE_BYTES →
    (gcm_sealing always cx key iv (concat [f1; f2; f3; iv; f5]) pt (λ _ _, True) → False) →
    wp (mret (false, out)) Post s4).
  { intros out s4 F4 Hout Hal. apply wp_ret. split; [done|]. split; [done|]. split; [done|].
    intros Ha. by destruct (Hal Ha). }
  unfold gcm_sealing in Hfail.
  wp_call as [r1 c1] [F1 Hr1]. wp_case (r1 <=? 0). { apply Hfail; [done|fields_lia|]. intros Hal. always_auto. }
  wp_call as [r2 c2] [F2 Hr2]. wp_case (r2 <=? 0). { apply Hfail; [done|fields_lia|]. intros Hal. always_auto. }
  wp_pure. apply (wp_read_field _ 3 iv); [done|by rewrite H9|fields_lia|].
  wp_call as [r3 c3] [F3 Hr3]. wp_case (r3 <=? 0). { apply Hfail; [done|fields_lia|]. intros Hal. always_auto. }
  wp_pure. apply (wp_read_fields _ 5); [fields_lia|]. cbn [take].
  wp_call as [r4 c4] [F4 Hr4]. wp_case (r4 <=? 0). { apply Hfail; [done|fields_lia|]. intros Hal. always_auto. }
  wp_call as [r5 [o c5]] [F5 Hr5]. pose proof (encrypt_update_size _ _ _ _ _ _ Hr5) as Ho.
  destruct (Z.eqb_spec (len o) DILITHIUM_STORE_PLAINTEXT_BYTES) as [Hlo|Hlo]; cbn [negb].
  2: { wp_call as out [-> ->]; [fields_lia..|]. rewrite orb_true_r. cbn [negb].
       apply Hfail; [done|rewrite len_splice; fields_lia|]. intros Hal. always_auto. }
  wp_pure. apply (wp_field _ 5 f6); [done|by rewrite Hlo, H11|fields_lia|]. cbn [insert list_insert].
  rewrite orb_false_r. wp_case (r5 <=? 0). { apply Hfail; [done|fields_lia|]. intros Hal. always_auto. }
  wp_call as [r6 [fo c6]] [F6 Hr6]. pose proof (encrypt_final_size _ _ _ _ _ Hr6) as ->.
  wp_call as out [-> ->]; [fields_lia..|]. rewrite splice_nil. cbn [len length]. rewrite orb_false_r.
  wp_case (r6 <=? 0). { apply Hfail; [done|fields_lia|]. intros Hal. always_auto. }
  wp_call as [r7 tag] [F7 Hr7]. pose proof (get_tag_size _ _ _ _ _ Hr7 ltac:(done)) as [Hlt Hlt'].
  wp_case (r7 <=? 0).
  { wp_call as out [-> ->]; [fields_lia..|]. apply Hfail; [done|rewrite len_splice; fields_lia|].
    intros Hal. always_auto. }
  specialize (Hlt' E5). apply (wp_field _ 6 f7); [done|by rewrite Hlt', H12|fields_lia|].
  cbn [insert list_insert]. apply wp_ret. split; [exact F|]. split; [fields_lia|]. split; [|done].
  intros _. exists o, tag. split_and!; try done. once_auto.
Qed.

Lemma zeros_plaintext :
  zeros (Z.to_nat DILITHIUM_STORE_PLAINTEXT_BYTES) = concat [zeros 8; zeros 1312; zeros 2560].
Proof. reflexivity. Qed.

#[export] Instance spec_encrypt_dilithium_payload priv pub pass output :
  Spec (encrypt_dilithium_payload priv pub pass output)
    (λ _, len output = DILITHIUM_STORE_FILE_BYTES ∧ private_key_wf priv ∧ public_key_wf pub)
    (λ r s s', frame ∅ ∅ s s' ∧ len (snd r) = DILITHIUM_STORE_FILE_BYTES ∧
       (fst r = true → ∃ ps, pass = Some ps ∧ passphrase_valid pass = true ∧
          sealed ps (dilithium_public_key pub) (dilithium_secret_key priv) (snd r)) ∧
       (∀ ps, pass = Some ps → passphrase_valid pass = true →
          always_seals ps (dilithium_public_key pub) (dilithium_secret_key priv) → fst r = true)).
Proof.
  wp_start. destruct P as (Ho & Hsk & Hpk). unfold private_key_wf, public_key_wf in *.
  unfold encrypt_dilithium_payload.
  set (pk := dilithium_public_key pub) in *. set (sk := dilithium_secret_key priv) in *.
  set (Post := λ (r : bool * list byte) s', frame ∅ ∅ s s' ∧ _).
  assert (Hdone : ∀ (ctx : option (obj EVP_CIPHER_CTX)) ek pt out (ok : bool) s4, frame ∅ (owns ctx) s s4 →
    len ek = DILITHIUM_STORE_KEY_BYTES → len pt = DILITHIUM_STORE_PLAINTEXT_BYTES →
    len out = DILITHIUM_STORE_FILE_BYTES →
    (ok = true → ∃ ps, pass = Some ps ∧ passphrase_valid pass = true ∧ sealed ps pk sk out) →
    (∀ ps, pass = Some ps → passphrase_valid pass = true → always_seals ps pk sk → ok = true) →
    wp (ek ← cleanse ek DILITHIUM_STORE_KEY_BYTES; pt ← cleanse pt DILITHIUM_STORE_PLAINTEXT_BYTES;
        free_object ctx;; retire ek;; retire pt;; mret (ok, out)) Post s4).
  { intros ctx ek pt out ok s4 F4 Hek Hpt Hout Ht Hf. apply wp_wipe; [solve_alive|done|done|].
    intros s' F. frame_merge. by split; [solve_frame|]. }
  destruct (split_container output Ho) as (f1 & f2 & f3 & f4 & f5 & f6 & f7 & -> & Hsegs). clear Ho.
  destruct Hsegs as (H1' & H2' & H3' & H4' & H5' & H6' & H7').
  wp_pure. apply (wp_field _ 0 f1); [done|by rewrite H1'|done|]. cbn [insert list_insert].
  wp_pure. apply (wp_field _ 1 f2); [done|by rewrite H2'|fields_lia|]. cbn [insert list_insert].
  fold (u32_bytes DILITHIUM_STORE_ITERATIONS).
  wp_pure. apply (wp_field _ 4 f5); [done|by rewrite H5'|fields_lia|]. cbn [insert list_insert].
  fold (u32_bytes DILITHIUM_STORE_PLAINTEXT_BYTES).
  wp_call as [rc salt] [F1 Hsalt]. pose proof (rand_size _ _ _ _ Hsalt ltac:(done)) as [Hls Hls'].
  destruct (Z.leb_spec rc 0); cbn [negb].
  { wp_call as out [-> ->]; [fields_lia|]. apply (Hdone None); try done; [rewrite len_splice; fields_lia|].
    intros ps _ _ (Hal & _). always_auto. }
  specialize (Hls' ltac:(lia)). wp_pure.
  apply (wp_field _ 2 f3); [done|by rewrite Hls', H3'|fields_lia|]. cbn [insert list_insert].
  wp_call as [rc2 iv] [F2 Hiv]. pose proof (rand_size _ _ _ _ Hiv ltac:(done)) as [Hli Hli'].
  destruct (Z.leb_spec rc2 0); cbn [negb].
  { wp_call as out [-> ->]; [fields_lia|]. apply (Hdone None); try done; [rewrite len_splice; fields_lia|].
    intros ps _ _ (_ & Hal & _). always_auto. }
  specialize (Hli' ltac:(lia)). wp_pure.
  apply (wp_field _ 3 f4); [done|by rewrite Hli', H4'|fields_lia|]. cbn [insert list_insert].
  wp_call as [ok key] (F3 & Hkey & Hkd & Hka). { rewrite len_zdrop; fields_lia. }
  cbn [fst snd] in *. assert (Hsalt' : ∀ b, Some (zdrop 12 (concat [lit DILITHIUM_STORE_MAGIC; u32_bytes DILITHIUM_STORE_ITERATIONS;
    salt; iv; u32_bytes DILITHIUM_STORE_PLAINTEXT_BYTES; f6; f7])) = Some b → ztake DILITHIUM_STORE_SALT_BYTES b = salt).
  { intros b [= <-]. apply (field_concat _ 2); [done|done|fields_lia]. }
  wp_case ok.
  2: { apply (Hdone None); try done; [fields_lia|]. intros ps Hps Hv (_ & _ & Hal & _).
       apply (Hka ps _ Hps Hv eq_refl). rewrite (Hsalt' _ eq_refl). apply Hal. }
  destruct (Hkd eq_refl) as (ps & b & -> & Hv & Hb & Hkd'). rewrite (Hsalt' _ Hb) in Hkd'. clear Hkd Hka Hsalt' Hb.
  rewrite zeros_plaintext.
  wp_pure. apply (wp_field _ 0 (zeros 8)); [done..|]. cbn [insert list_insert].
  wp_call as b0 [-> ->]. rewrite (bytes_at_full _ _ Hpk).
  wp_pure. apply (wp_field _ 1 (zeros 1312)); [done|by rewrite Hpk|done|]. cbn [insert list_insert].
  wp_call as b1 [-> ->]. rewrite (bytes_at_full _ _ Hsk).
  wp_pure. apply (wp_field _ 2 (zeros 2560)); [done|by rewrite Hsk|fields_lia|]. cbn [insert list_insert].
  wp_call as ctx [F4 Hctx]. destruct ctx as [cx|]; cbn [fmap option_fmap option_map] in Hctx.
  2: { apply (Hdone None); try done; [fields_lia..|]. intros ps' [= <-] _ (_ & _ & _ & Hal).
       specialize (Hal key iv []). unfold gcm_seal in Hal. always_auto. }
  wp_call as [ok out] (F5 & Hout & Hgt & Hgf); [repeat constructor; fields_lia|fields_lia|].
  cbn [fst snd] in *. apply (Hdone (Some cx)); try done; [fields_lia|..].
  - intros ->. exists ps. split; [done|]. split; [done|].
    destruct (Hgt eq_refl) as (text & tag & -> & Hlt & Htag & Hg).
    exists salt, iv, text, tag, key. split_and!; [done|repeat constructor; fields_lia|done|].
    unfold gcm_seal. once_auto.
  - intros ps' [= <-] _ (_ & _ & _ & Hal). apply Hgf. specialize (Hal key iv (container_header salt iv)).
    unfold gcm_seal in Hal. always_auto.
Qed.

#[export] Instance spec_gcm_decrypt cx key pt f1 f2 f3 iv f5 text tag :
  Spec (gcm_decrypt cx key pt (concat [f1; f2; f3; iv; f5; text; tag]))
    (λ _, Forall2 (λ f n, len f = n) [f1; f2; f3; iv; f5; text; tag] container_fields ∧
          len pt = DILITHIUM_STORE_PLAINTEXT_BYTES)
    (λ r s s', frame ∅ ∅ s s' ∧ len (snd r) = DILITHIUM_STORE_PLAINTEXT_BYTES ∧
       (fst r = true → gcm_opening once cx key iv (concat [f1; f2; f3; iv; f5]) text tag (eq (snd r))) ∧
       (∀ P, gcm_opening always cx key iv (concat [f1; f2; f3; iv; f5]) text tag P → fst r = true ∧ P (snd r))).
Proof.
  wp_start. destruct P as [Hf Hpt]. unfold container_fields in Hf. decompose_Forall_hyps.
  unfold gcm_decrypt, gcm_opening.
  set (Post := λ (r : bool * list byte) s', frame ∅ ∅ s s' ∧ _).
  assert (Hfail : ∀ out s4, frame ∅ ∅ s s4 → len out = DILITHIUM_STORE_PLAINTEXT_BYTES →
    (∀ P, gcm_opening always cx key iv (concat [f1; f2; f3; iv; f5]) text tag P → False) →
    wp (mret (false, out)) Post s4).
  { intros out s4 F4 Hout Hal. apply wp_ret. split; [done|]. split; [done|]. split; [done|].
    intros P Ha. by destruct (Hal P Ha). }
  unfold gcm_opening in Hfail.
  wp_call as [r1 c1] [F1 Hr1]. wp_case (r1 <=? 0). { apply Hfail; [done..|]. intros P Hal. always_auto. }
  wp_call as [r2 c2] [F2 Hr2]. wp_case (r2 <=? 0). { apply Hfail; [done..|]. intros P Hal. always_auto. }
  wp_pure. apply (wp_read_field _ 3 iv); [done|by rewrite H9|fields_lia|].
  wp_call as [r3 c3] [F3 Hr3]. wp_case (r3 <=? 0). { apply Hfail; [done..|]. intros P Hal. always_auto. }
  wp_pure. apply (wp_read_fields _ 5); [fields_lia|]. cbn [take].
  wp_call as [r4 c4] [F4 Hr4]. wp_case (r4 <=? 0). { apply Hfail; [done..|]. intros P Hal. always_auto. }
  wp_pure. apply (wp_read_field _ 5 text); [done|by rewrite H11|fields_lia|].
  wp_call as [r5 [o c5]] [F5 Hr5]. pose proof (decrypt_update_size _ _ _ _ _ _ Hr5) as Ho.
  wp_call as out [-> ->]; [fields_lia..|].
  destruct (Z.eqb_spec (len o) DILITHIUM_STORE_PLAINTEXT_BYTES) as [Hlo|Hlo]; cbn [negb].
  2: { rewrite orb_true_r. cbn [negb]. apply Hfail; [done|rewrite len_splice; fields_lia|].
       intros P Hal. always_auto. autounfold with consts in *. lia. }
  rewrite splice_whole by (by rewrite Hlo, Hpt). rewrite orb_false_r.
  wp_case (r5 <=? 0). { apply Hfail; [done|done|]. intros P Hal. always_auto. }
  wp_pure. apply (wp_read_field _ 6 tag); [done|by rewrite H12|fields_lia|].
  wp_call as [r6 c6] [F6 Hr6]. wp_case (r6 <=? 0). { apply Hfail; [done..|]. intros P Hal. always_auto. }
  wp_call as [r7 [fo c7]] [F7 Hr7]. pose proof (decrypt_final_size _ _ _ _ _ Hr7) as ->.
  wp_call as out [-> ->]; [fields_lia..|]. rewrite splice_nil. cbn [len length]. rewrite orb_false_r.
  wp_case (r7 <=? 0). { apply Hfail; [done..|]. intros P Hal. always_auto. }
  apply wp_ret. split; [exact F|]. split; [done|]. split.
  - intros _. once_auto. autounfold with consts in *. lia.
  - intros P Hal. always_auto.
Qed.

(** [blob] is a container that opens under [ps] to the key pair [pk], [sk]. *)
Definition unsealed (Q : modality) (ps : string) (pk sk blob : list byte) : Prop :=
  len pk = DILITHIUM_PUBLIC_KEY_BYTES ∧ len sk = DILITHIUM_SECRET_KEY_BYTES ∧
  ∃ salt iv text tag, blob = concat (container salt iv text tag) ∧
    Forall2 (λ f n, len f = n) (container salt iv text tag) container_fields ∧
    key_derived Q ps salt (λ key,
      gcm_open Q key iv (container_header salt iv) text tag (eq (container_plaintext pk sk))).

Lemma wp_get_u32_field segs i seg off Φ s :
  segs !! i = Some seg → len seg = 4 → off = len (concat (take i segs)) →
  (∀ v, 0 ≤ v < 2 ^ 32 → seg = u32_bytes v → Φ v s) →
  wp (get_u32_be (Some (zdrop off (concat segs)))) Φ s.
Proof.
  intros Hi Hn Ho HΦ. pose proof (field_concat _ _ _ _ _ Hi (eq_sym Hn) Ho) as Hf.
  eapply wp_spec; [apply _| |].
  - cbn. apply (f_equal len) in Hf. unfold ztake, len in *. rewrite length_take in Hf. lia.
  - intros v s' (-> & Hv & Hb). apply HΦ; [done|]. unfold bytes_at in Hb. cbn in Hb. congruence.
Qed.

#[export] Instance spec_decrypt_dilithium_payload input pass pk0 sk0 :
  Spec (decrypt_dilithium_payload input pass pk0 sk0)
    (λ _, len input = DILITHIUM_STORE_FILE_BYTES ∧ len pk0 = DILITHIUM_PUBLIC_KEY_BYTES ∧
          len sk0 = DILITHIUM_SECRET_KEY_BYTES)
    (λ r s s', frame ∅ ∅ s s' ∧
       (fst r = true → ∃ ps, pass = Some ps ∧ passphrase_valid pass = true ∧
          unsealed once ps (fst (snd r)) (snd (snd r)) input) ∧
       (fst r = false → snd r = (pk0, sk0)) ∧
       (∀ ps pk sk, pass = Some ps → passphrase_valid pass = true → unsealed always ps pk sk input →
          r = (true, (pk, sk)))).
Proof.
  wp_start. destruct P as (Hi & Hpk & Hsk). unfold decrypt_dilithium_payload.
  destruct (split_container input Hi) as (f1 & f2 & f3 & f4 & f5 & f6 & f7 & -> & Hsegs). clear Hi.
  destruct Hsegs as (H1' & H2' & H3' & H4' & H5' & H6' & H7').
  assert (Halw : ∀ ps pk sk, unsealed always ps pk sk (concat [f1; f2; f3; f4; f5; f6; f7]) →
    [f1; f2; f3; f4; f5; f6; f7] = container f3 f4 f6 f7 ∧
    len pk = DILITHIUM_PUBLIC_KEY_BYTES ∧ len sk = DILITHIUM_SECRET_KEY_BYTES ∧
    key_derived always ps f3 (λ key,
      gcm_open always key f4 (container_header f3 f4) f6 f7 (eq (container_plaintext pk sk)))).
  { intros ps pk sk (? & ? & salt & iv & text & tag & Hc & Hl & Hk).
    apply (concat_fields_inj _ _ container_fields) in Hc; [|repeat constructor; done|done].
    unfold container in Hc. by injection Hc as -> -> -> -> -> -> ->. }
  set (Post := λ (r : bool * (list byte * list byte)) s', frame ∅ ∅ s s' ∧ _).
  assert (Hdone : ∀ (ctx : option (obj EVP_CIPHER_CTX)) ek pt r s4, frame ∅ (owns ctx) s s4 →
    len ek = DILITHIUM_STORE_KEY_BYTES → len pt = DILITHIUM_STORE_PLAINTEXT_BYTES →
    (∀ s4, frame ∅ ∅ s s4 → Post r s4) →
    wp (ek ← cleanse ek DILITHIUM_STORE_KEY_BYTES; pt ← cleanse pt DILITHIUM_STORE_PLAINTEXT_BYTES;
        free_object ctx;; retire ek;; retire pt;; mret r) Post s4).
  { intros ctx ek pt r s4 F4 Hek Hpt Hr. apply wp_wipe; [solve_alive|done|done|].
    intros s' F. frame_merge. apply Hr. solve_frame. }
  assert (Hfail : (∀ ps pk sk, pass = Some ps → passphrase_valid pass = true →
      unsealed always ps pk sk (concat [f1; f2; f3; f4; f5; f6; f7]) → False) →
    ∀ s4, frame ∅ ∅ s s4 → Post (false, (pk0, sk0)) s4).
  { intros Hal s4 F4. split; [done|]. split; [done|]. split; [done|].
    intros ps pk sk Hps Hv Hu. by destruct (Hal ps pk sk Hps Hv Hu). }
  wp_pure. apply (wp_read_fields _ 1); [fields_lia|]. cbn [take]. rewrite concat_cons, concat_nil, app_nil_r.
  destruct (bool_decide_reflect (f1 = lit DILITHIUM_STORE_MAGIC)) as [->|Hm].
  2: { apply (Hdone None); try done. apply Hfail. intros ps pk sk _ _ (Hc & _)%Halw. by injection Hc as ?. }
  wp_pure. apply (wp_get_u32_field _ 1 f2); [done..|]. intros v Hv Ef2.
  destruct (Z.eqb_spec v DILITHIUM_STORE_ITERATIONS) as [->|Hn].
  2: { apply (Hdone None); try done. apply Hfail. intros ps pk sk _ _ (Hc & _)%Halw.
       injection Hc as Hc. rewrite Ef2 in Hc. apply Hn, u32_bytes_inj; done. }
  wp_pure. apply (wp_get_u32_field _ 4 f5); [done|done|fields_lia|]. intros w Hw Ef5.
  destruct (Z.eqb_spec w DILITHIUM_STORE_PLAINTEXT_BYTES) as [->|Hn].
  2: { apply (Hdone None); try done. apply Hfail. intros ps pk sk _ _ (Hc & _)%Halw.
       injection Hc as _ Hc. rewrite Ef5 in Hc. apply Hn, u32_bytes_inj; done. }
  subst f2 f5. fold (container f3 f4 f6 f7) in *.
  assert (Hsalt : ∀ b, Some (zdrop 12 (concat (container f3 f4 f6 f7))) = Some b →
    ztake DILITHIUM_STORE_SALT_BYTES b = f3).
  { intros b [= <-]. apply (field_concat _ 2); [done|done|]. unfold container. fields_lia. }
  wp_call as [ok key] (F1 & Hkey & Hkd & Hka). { unfold container. rewrite len_zdrop; fields_lia. }
  cbn [fst snd] in *. wp_case ok.
  2: { apply (Hdone None); try done. apply Hfail. intros ps pk sk Hps Hv' (_ & _ & _ & Hk)%Halw.
       assert (false = true) as [=]. apply (Hka ps _ Hps Hv' eq_refl). rewrite (Hsalt _ eq_refl).
       unfold key_derived in *. intros t. by destruct (Hk t). }
  destruct (Hkd eq_refl) as (ps & b & -> & Hv' & Hb & Hkd'). rewrite (Hsalt _ Hb) in Hkd'. clear Hkd Hka Hsalt Hb.
  assert (Hopen : ∀ ps' pk sk, Some ps = Some ps' → unsealed always ps' pk sk (concat (container f3 f4 f6 f7)) →
    gcm_open always key f4 (container_header f3 f4) f6 f7 (eq (container_plaintext pk sk))).
  { intros ps' pk sk [= <-] (_ & _ & _ & Hk)%Halw. destruct Hkd' as (t & _ & ->). apply (Hk t). }
  wp_call as ctx [F4 Hctx]. destruct ctx as [cx|]; cbn [fmap option_fmap option_map] in Hctx.
  2: { apply (Hdone None); try done. apply Hfail. intros ps' pk sk Hps _ Hu.
       pose proof (Hopen _ _ _ Hps Hu) as Hal. unfold gcm_open in Hal. always_auto. }
  unfold container at 1. wp_call as [ok pt] (F5 & Hpt & Hgt & Hgf).
  { repeat (constructor; [done|]). constructor. } cbn [fst snd] in *.
  assert (Hopened : ∀ ps' pk sk, Some ps = Some ps' → unsealed always ps' pk sk (concat (container f3 f4 f6 f7)) →
    ok = true ∧ pt = container_plaintext pk sk).
  { intros ps' pk sk Hps Hu. pose proof (Hopen _ _ _ Hps Hu) as Hal. unfold gcm_open in Hal.
    specialize (Hal (tick s0)). rewrite Hctx in Hal. by destruct (Hgf _ Hal). }
  wp_case ok.
  2: { apply (Hdone (Some cx)); try done. apply Hfail. intros ps' pk sk Hps _ Hu.
       by destruct (Hopened _ _ _ Hps Hu). }
  specialize (Hgt eq_refl). destruct (split_fields [8; 1312; 2560] pt) as (segs & -> & Hsegs);
    [repeat constructor; lia|by rewrite Hpt|].
  destruct segs as [|g1 [|g2 [|g3 [|]]]]; decompose_Forall_hyps.
  wp_pure. apply (wp_read_fields _ 1); [fields_lia|]. cbn [take]. rewrite concat_cons, concat_nil, app_nil_r.
  destruct (bool_decide_reflect (g1 = lit DILITHIUM_PLAINTEXT_MAGIC)) as [->|Hm].
  2: { apply (Hdone (Some cx)); try done. apply Hfail. intros ps' pk sk Hps _ Hu.
       destruct (Hopened _ _ _ Hps Hu) as [_ Hc]. unfold container_plaintext in Hc.
       destruct Hu as (? & ? & _).
       apply (concat_fields_inj _ _ [8; 1312; 2560]) in Hc; [|by repeat constructor..]. by injection Hc as ?. }
  wp_pure. apply (wp_read_field _ 1 g2); [done|fields_lia|done|].
  wp_call as pk' [-> ->]; [fields_lia|]. rewrite splice_whole by (unfold DILITHIUM_PUBLIC_KEY_BYTES in *; lia).
  wp_pure. apply (wp_read_field _ 2 g3); [done|fields_lia|fields_lia|].
  wp_call as sk' [-> ->]; [fields_lia|]. rewrite splice_whole by (unfold DILITHIUM_SECRET_KEY_BYTES in *; lia).
  apply (Hdone (Some cx)); try done. intros s4 F6. split; [done|]. cbn [fst snd]. split; [|split; [done|]].
  - intros _. exists ps. split; [done|]. split; [done|]. split; [done|]. split; [done|].
    exists f3, f4, f6, f7. split; [done|]. split; [by repeat constructor|].
    unfold key_derived, gcm_open in *. destruct Hkd' as (t & Ht & ->). exists t. split; [done|].
    once_auto.
  - intros ps' pk sk Hps _ Hu. destruct (Hopened _ _ _ Hps Hu) as [_ Hc]. unfold container_plaintext in Hc.
    destruct Hu as (? & ? & _).
    apply (concat_fields_inj _ _ [8; 1312; 2560]) in Hc; [|by repeat constructor..]. by injection Hc as -> ->.
Qed.
End specs.
