(* ===== verification/KeyStoreSave.v ===== *)
(** * The key store: the Dilithium2 container on disk

    Specifications of the saving and loading of the encrypted container. *)

From S2P Require Import Prelude Machine External Posix Dilithium Sm2 CompositeKey CompositeSig KeyStore.
From S2P Require Import KeyStoreFiles KeyStoreKeys KeyStoreContainer.

#[local] Arguments concat : simpl never.

Section specs.
Context `{Libc, OpenSSL, !OpenSSLSizes, !OpenSSLCipher, !CipherSizes, Posix}.

(** What a failed save of the container leaves; a file that was there already
    is removed. *)
Definition not_saved_container (path : string) (base fs : gmap string node) : Prop :=
  not_saved path base fs ∨ is_Some (base !! path) ∧ fs = delete path base.

#[export] Instance spec_save_dilithium_private_key path priv pub pass :
  Spec (save_dilithium_private_key path priv pub pass) (λ _, private_key_wf priv ∧ public_key_wf pub)
    (λ r s s', ∃ s1 fs, frame ∅ ∅ s s1 ∧ s' = with_files fs s1 ∧
       (r = true → ∃ p ps blob, path = Some p ∧ pass = Some ps ∧ passphrase_valid pass = true ∧
          files s1 !! p = None ∧ fs = <[p := Regular key_file_mode blob]> (files s1) ∧
          sealed ps (dilithium_public_key pub) (dilithium_secret_key priv) blob) ∧
       (r = false → fs = files s1 ∨ ∃ p, path = Some p ∧ not_saved_container p (files s1) fs) ∧
       (∀ p ps, path = Some p → pass = Some ps → passphrase_valid pass = true → files s1 !! p = None →
          reliable_malloc → reliable_files →
          always_seals ps (dilithium_public_key pub) (dilithium_secret_key priv) → r = true)).
Proof.
  wp_start. destruct P as [Hsk Hpk]. unfold save_dilithium_private_key.
  set (Post := λ (r : bool) s', ∃ s1 fs, frame ∅ ∅ s s1 ∧ s' = with_files fs s1 ∧ _).
  wp_call as b [F0 Hb]. destruct path as [p|].
  2: { assert (Hn : wp (mret tt;; clear_free b DILITHIUM_STORE_FILE_BYTES;; mret tt;; mret false) Post s0).
       { wp_call as ? ?; [by destruct b|]. repeat wp_pure. eexists _, (files _). rewrite with_files_files.
         split; [solve_frame|]. split; [done|]. split; [done|]. split; [by left|done]. }
       by destruct b. }
  assert (Hfail : ∀ (o : option block) s4, frame ∅ (owns o) s s4 →
    match o with None => True | Some b => DILITHIUM_STORE_FILE_BYTES = len (obj_val b) end →
    (∀ ps, pass = Some ps → passphrase_valid pass = true → files s !! p = None →
      reliable_malloc → reliable_files →
      always_seals ps (dilithium_public_key pub) (dilithium_secret_key priv) → False) →
    wp (mret tt;; clear_free o DILITHIUM_STORE_FILE_BYTES;; (unlink p;; mret tt);; mret false) Post s4).
  { intros o s4 F4 Ho Hf. wp_call as ? ?. wp_call as rc (s5 & fs & F1 & -> & Hrc). fs_simpl. repeat wp_pure.
    eexists s5, fs. split; [solve_frame|]. split; [done|]. fs_simpl. split; [done|]. split.
    - intros _. destruct Hrc as [(_ & ? & _ & ->)|(_ & -> & _)]; [|by left]. right. exists p. split; [done|]. by right.
    - intros ? ps [= <-] Hps Hv Hno Hm Hr Hal. by destruct (Hf ps Hps Hv Hno Hm Hr Hal). }
  destruct b as [b|].
  2: { apply (Hfail None); [done|done|]. intros ps _ _ _ Hm _ _. by rewrite Hm in Hb. }
  wp_call as v [-> ->]. wp_call as [ok blob] (F1 & Hlen & Hsealed & Hseals). cbn [fst snd] in *. fs_simpl.
  wp_case ok.
  2: { apply (Hfail (Some (set_val b blob))); [solve_frame|done|]. intros ps Hps Hv _ _ _ Hal.
       by specialize (Hseals ps Hps Hv Hal). }
  destruct (Hsealed eq_refl) as (ps & -> & Hv & Hs). clear Hsealed Hseals.
  wp_call as d (s5 & fs & F2 & -> & Hd). fs_simpl. destruct d as [d|].
  2: { destruct Hd as [-> Hd]. fs_simpl. rewrite <-(frame_files _ _ _ _ F), with_files_files.
       apply (Hfail (Some (set_val b blob))); [solve_frame|done|]. intros _ _ _ Hno _ Hr _.
       destruct Hd as [[? ?]|[e He]]; [congruence|]. by apply reliable_no_fault in He. }
  destruct Hd as (Hd & Hno & ->). fold key_file_mode.
  assert (Hundo : ∀ c s4, frame ∅ (owns (Some b)) s s4 → ¬ reliable_files →
    wp (clear_free (Some (set_val b blob)) DILITHIUM_STORE_FILE_BYTES;; (unlink p;; mret tt);; mret false) Post
       (with_files (<[p := Regular key_file_mode c]> (files s)) s4)).
  { intros c s4 F4 Hf. wp_call as ? ?. do 2 wp_pure. apply wp_remove_created; [done|]. intros rc s6 fs F5 Hns.
    frame_merge. repeat wp_pure. eexists _, fs. split; [solve_frame|]. split; [done|]. fs_simpl. split; [done|].
    split; [intros _; right; exists p; split; [done|by left]|]. intros ? ? _ _ _ _ _ Hr. by destruct (Hf Hr). }
  assert (Hclose : ∀ d' c s4, frame ∅ (owns (Some b) ⊎ owns (Some d')) s s4 → ¬ reliable_files →
    wp ((close d';; mret tt);; clear_free (Some (set_val b blob)) DILITHIUM_STORE_FILE_BYTES;;
        (unlink p;; mret tt);; mret false) Post (with_files (<[p := Regular key_file_mode c]> (files s)) s4)).
  { intros d' c s4 F4 Hf. wp_call as rc [F5 _]. wp_pure. apply Hundo; [solve_frame|done]. }
  wp_call as data [-> ->].
  wp_call as [ok d'] (s6 & fs & F6 & -> & Hid & Hp & Hfs).
  { cbn. by rewrite Hlen. }
  cbn [fst snd] in *. fs_simpl. rewrite Hd in *. cbn [fd_path fd_offset] in *.
  destruct (Hfs key_file_mode []) as [(k & Hk & Hkn & ->) Hrel]; [by rewrite lookup_insert_eq|done|].
  rewrite insert_insert_eq. cbn [app] in *. clear Hfs.
  assert (Hk' : ok = true → bytes_at (obj_val <$> Some (set_val b blob)) k = blob).
  { intros Ht. rewrite (Hkn Ht). cbn. by apply bytes_at_full. }
  destruct d' as [i v']. cbn [obj_id obj_val] in *. subst i.
  wp_case (negb ok).
  { apply Hclose; [solve_frame|]. intros Hr. by specialize (Hrel Hr). }
  rewrite Hk' by done. wp_call as rc1 [F7 Hrc1]. wp_case (negb (rc1 =? 0)).
  { apply Hclose; [solve_frame|]. intros Hr. destruct Hrc1 as [?|He]; [done|]. by apply reliable_no_fault in He. }
  wp_call as rc2 [F8 Hrc2]. wp_case (negb (rc2 =? 0)).
  { wp_pure. apply Hundo; [solve_frame|]. intros Hr. destruct Hrc2 as [?|He]; [done|].
    by apply reliable_no_fault in He. }
  wp_call as ? ?. repeat wp_pure.
  lazymatch goal with |- Post _ (with_files ?fs ?s') => exists s', fs end.
  split; [solve_frame|]. split; [done|]. fs_simpl. split; [|done]. intros _. by eexists _, ps, blob.
Qed.

Lemma unsealed_length Q ps pk sk c : unsealed Q ps pk sk c → len c = DILITHIUM_STORE_FILE_BYTES.
Proof.
  intros (_ & _ & salt & iv & text & tag & -> & Hl & _). unfold container, container_fields in *.
  decompose_Forall_hyps. fields_lia.
Qed.

#[export] Instance spec_load_dilithium_private_key path pass pk0 sk0 :
  Spec (load_dilithium_private_key path pass pk0 sk0)
    (λ _, len pk0 = DILITHIUM_PUBLIC_KEY_BYTES ∧ len sk0 = DILITHIUM_SECRET_KEY_BYTES)
    (λ r s s', frame ∅ ∅ s s' ∧
       (fst r = true → ∃ p ps c, path = Some p ∧ pass = Some ps ∧ passphrase_valid pass = true ∧
          private_file (files s') p c ∧ unsealed once ps (fst (snd r)) (snd (snd r)) c) ∧
       (fst r = false → snd r = (pk0, sk0)) ∧
       (∀ p ps pk sk c, path = Some p → pass = Some ps → passphrase_valid pass = true →
          private_file (files s') p c → reliable_malloc → reliable_files → unsealed always ps pk sk c →
          r = (true, (pk, sk)))).
Proof.
  wp_start. destruct P as [Hpk Hsk]. unfold load_dilithium_private_key.
  set (Post := λ (r : bool * (list byte * list byte)) s', frame ∅ ∅ s s' ∧ _).
  assert (Hfail : (∀ p ps pk sk c, path = Some p → pass = Some ps → passphrase_valid pass = true →
      private_file (files s) p c → reliable_malloc → reliable_files → unsealed always ps pk sk c → False) →
    ∀ s4, frame ∅ ∅ s s4 → Post (false, (pk0, sk0)) s4).
  { intros Hal s4 F4. split; [done|]. split; [done|]. split; [done|]. fs_simpl. intros p ps pk sk c **. exfalso; eauto. }
  wp_call as ok (F & Hok & Hall). fs_simpl. destruct path as [p|].
  2: { apply wp_ret, Hfail; done. }
  wp_case (negb ok).
  { apply wp_ret, Hfail; [|done]. intros ? ps pk sk c [= <-] _ _ Hp _ Hr Hu.
    pose proof (Hall p c eq_refl Hr Hp (or_intror (unsealed_length _ _ _ _ _ Hu))). congruence. }
  destruct (Hok eq_refl) as (p' & c & Hp' & Hpriv & Hlen). injection Hp' as <-. clear Hok Hall.
  pose proof Hpriv as (m & Hm & _).
  assert (Hc : len c = DILITHIUM_STORE_FILE_BYTES) by (destruct Hlen; [autounfold with consts in *; lia|done]).
  assert (Hdone : ∀ (d : option (obj fd)) (b : option block) r s4,
    frame ∅ (owns d ⊎ owns b) s s4 → match b with None => True | Some b => DILITHIUM_STORE_FILE_BYTES = len (obj_val b) end →
    (∀ s4, frame ∅ ∅ s s4 → Post r s4) →
    wp ((match d with Some d => close d;; mret tt | None => mret tt end);;
        clear_free b DILITHIUM_STORE_FILE_BYTES;; mret r) Post s4).
  { intros d b r s4 F4 Hb Hr. destruct d as [d|].
    - wp_call as rc [F5 _]. wp_pure. wp_call as ? ?. apply wp_ret, Hr. solve_frame.
    - wp_call as ? ?. apply wp_ret, Hr. solve_frame. }
  wp_call as b [F1 Hb]. wp_call as d [F2 Hd]. fs_simpl.
  destruct b as [b|].
  2: { apply (Hdone d None); [solve_frame|done|]. apply Hfail. intros ? ? ? ? ? _ _ _ _ Ha _ _. by rewrite Ha in Hb. }
  destruct d as [d|].
  2: { apply (Hdone None (Some b)); [solve_frame|done|]. apply Hfail. intros ? ? ? ? ? _ _ _ _ _ Hr _.
       destruct Hd as [?|[[? ?]|[e He]]]; [congruence..|]. by apply reliable_no_fault in He. }
  destruct Hd as [Hd _]. wp_call as v [-> ->].
  wp_call as [ok [v [i d']]] (F3 & Hid & Hlv & Hread & Hrel).
  { rewrite Hd. cbn. autounfold with consts in *. lia. }
  cbn [obj_id] in Hid. subst i. rewrite Hd in *. cbn [fd_path fd_offset] in *. fs_simpl.
  specialize (Hrel m c Hm). wp_case (negb ok).
  { apply (Hdone (Some _) (Some (set_val b v))); [solve_frame|cbn; lia|]. apply Hfail.
    intros ? ? ? ? ? _ _ _ _ _ Hr _. specialize (Hrel Hr). rewrite Hc in Hrel. by specialize (Hrel ltac:(lia)). }
  destruct (Hread eq_refl) as (m' & c' & Hm' & Hv & _). rewrite Hm in Hm'. injection Hm' as <- <-.
  assert (v = c) as ->.
  { rewrite ztake_all in Hv by lia. rewrite Hv. unfold zdrop. cbn. apply ztake_all. lia. }
  clear Hread Hrel Hv. wp_call as data [-> ->].
  wp_call as r (F4 & Ht & Hf & Hal). apply (Hdone (Some _) (Some (set_val b c))); [solve_frame|cbn; lia|].
  intros s5 F5. split; [done|]. split; [|split; [done|]].
  - intros Hr. destruct (Ht Hr) as (ps & -> & Hv & Hu). fs_simpl. by exists p, ps, c.
  - fs_simpl. intros ? ps pk sk c2 [= <-] -> Hv (m2 & Hm2 & _) _ _ Hu. rewrite Hm in Hm2. injection Hm2 as <- <-.
    by apply (Hal ps).
Qed.
End specs.
