(* ===== verification/KeyStorePair.v ===== *)
(** * The key store: both keys

    Specifications of the self test of a key pair, of the operations on the
    whole store and of the comparison of public keys. *)

From S2P Require Import Prelude Machine External Posix Environment Dilithium Sm2 CompositeKey CompositeSig.
From S2P Require Import KeyStore KeyStoreFiles KeyStoreKeys KeyStoreContainer KeyStoreSave.

#[local] Hint Resolve sm2_file_name dilithium_file_name : wp.

(** Runs to the release of the paths. *)
Ltac to_exit :=
  repeat lazymatch goal with |- wp (free_object _ ≫= _) _ _ => fail | _ => wp_pure end.

Section specs.
Context `{Libc, OpenSSL, !OpenSSLSizes, !OpenSSLCipher, !CipherSizes, Dilithium2, !Dilithium2Sizes, Posix}.

(** ** The self test *)

(** The pair signs and verifies the challenge. *)
Definition self_tested (k : HYBRID_PRIVATE_KEY) (p : HYBRID_PUBLIC_KEY) : Prop :=
  ∃ sig, composite_signed k self_test_challenge [] sig ∧ composite_accepted p self_test_challenge [] sig.

(** The halves of one generated pair. *)
Definition matching (k : HYBRID_PRIVATE_KEY) (p : HYBRID_PUBLIC_KEY) (o : obj EVP_PKEY) : Prop :=
  sm2_private_key k = Some o ∧ sm2_public_key p = Some o ∧ sm2_generated (obj_val o) ∧
  dilithium_keypair (dilithium_public_key p) (dilithium_secret_key k).

#[export] Instance spec_keypair_self_test priv pub :
  Spec (keypair_self_test priv pub)
    (λ s, private_owns priv ⊆ live s ∧ from_option private_key_wf True priv ∧
          public_owns pub ⊆ live s ∧ from_option public_key_wf True pub)
    (λ r s s', frame ∅ ∅ s s' ∧
       (r = true → ∃ k p, priv = Some k ∧ pub = Some p ∧ self_tested k p) ∧
       (∀ k p o, priv = Some k → pub = Some p → SchemeLaws → matching k p o → r = true)).
Proof.
  wp_start. destruct P as (Ha & Hwa & Hb & Hwb). unfold keypair_self_test.
  assert (Hm : valid (Some self_test_challenge) (len self_test_challenge)) by (unfold valid; cbn; size_lia).
  assert (Hc : valid None 0) by (unfold valid; size_lia).
  wp_call as [ok sig] ([F Hsig] & Hall). cbn [fst snd] in *.
  destruct ok.
  2: { repeat wp_pure. wp_call as ? ?. apply wp_ret. split; [solve_frame|]. split; [done|].
       intros k p o -> -> Hl (Hk & Hp & Hg & Hkp). assert (false = true) as [=].
       apply (Hall k eq_refl law_malloc); [by apply valid_nonnull|done|].
       by eapply generated_always_signs. }
  destruct Hsig as (b & n & -> & -> & _ & _ & k & -> & Hsig). rewrite bytes_at_all, bytes_at_null in *.
  wp_call as sig [-> ->]. cbn [out_block out_len set_out fst snd default from_option id fmap option_fmap option_map].
  assert (Hlb : len (obj_val b) ≤ SIZE_MAX).
  { destruct Hsig as (? & ? & ds & ss & _ & _ & _ & _ & _ & -> & ? & ? & _). size_lia. }
  wp_call as r (F1 & Hacc & Hcomp).
  wp_call as ? ?. apply wp_ret. split; [solve_frame|]. rewrite !bytes_at_all, bytes_at_null in *. split.
  - intros Ht. destruct (Hacc Ht) as (p & -> & _ & Hv). exists k, p. split; [done|]. split; [done|]. by exists (obj_val b).
  - intros ? p o [= <-] -> Hl (Hk & Hp & Hg & Hkp).
    apply (Hcomp p eq_refl ltac:(by eexists)); [by apply valid_nonnull|done|apply law_malloc|].
    by eapply signed_always_accepted.
Qed.

(** ** Saving *)

(** What a failed save does to a path: nothing; it removes the container that
    [access] did not find; or it leaves a file of its own that it could not
    remove. *)
Definition restored (d : string) (base fs : gmap string node) : Prop :=
  ∀ p, fs !! p = base !! p ∨
    p = dilithium_file d ∧ fs !! p = None ∧ (∃ e, e ≠ 0 ∧ answers base p e) ∨
    (p = sm2_file d ∨ p = dilithium_file d) ∧ base !! p = None ∧
      (∃ c, fs !! p = Some (Regular key_file_mode c)) ∧ ∃ e, fault "unlink" p e.

(** The outcomes of [unlink]. *)
Definition unlinked (p : string) (fs fs' : gmap string node) : Prop :=
  fs' = delete p fs ∨
  fs' = fs ∧ (fs !! p = None ∨ (∃ m, fs !! p = Some (Directory m)) ∨ ∃ e, fault "unlink" p e).

Lemma wp_unlink p Φ s fs0 :
  (∀ r s1 fs, frame ∅ ∅ s s1 → unlinked p fs0 fs → Φ r (with_files fs s1)) →
  wp (unlink p) Φ (with_files fs0 s).
Proof.
  intros HΦ. eapply wp_spec; [apply _|done|]. cbn beta. intros r s' (s1 & fs & F & -> & Hr).
  destruct (frame_with_files _ _ _ _ _ F) as (s2 & F2 & ->). fs_simpl. apply (HΦ r s2 fs); [done|].
  destruct Hr as [(_ & _ & _ & ->)|(_ & -> & Hr)]; [by left|]. right. split; [done|].
  destruct Hr as [?|[?|?]]; [by left|by right; left|right; right; by eexists].
Qed.

Lemma restored_refl d fs : restored d fs fs.
Proof. intros p. by left. Qed.

(** A file the save created, before anything else, or in its absence. *)
Lemma restored_not_saved d p base fs :
  p = sm2_file d ∨ p = dilithium_file d → not_saved p base fs → restored d base fs.
Proof.
  intros Hp [->|(Hb & (c & ->) & He)]; [apply restored_refl|]. intros p'.
  destruct (decide (p' = p)) as [->|]; [|left; by rewrite lookup_insert_ne].
  right; right. rewrite lookup_insert_eq. by split_and!; [|done|exists c|].
Qed.

(** Removing the container afterwards. *)
Lemma restored_unlink d base fs fs' :
  restored d base fs → (∃ e, e ≠ 0 ∧ answers base (dilithium_file d) e) →
  unlinked (dilithium_file d) fs fs' → restored d base fs'.
Proof.
  intros Hr He [->|[-> _]]; [|done]. intros p. destruct (decide (p = dilithium_file d)) as [->|].
  - right; left. by rewrite lookup_delete_eq.
  - rewrite lookup_delete_ne by done. apply Hr.
Qed.

(** Undoing the two files. *)
Lemma restored_undo d base c fs fs' fs'' :
  base !! sm2_file d = None → (∃ e, e ≠ 0 ∧ answers base (dilithium_file d) e) →
  fs = <[sm2_file d := Regular key_file_mode c]> base ∨
    not_saved_container (dilithium_file d) (<[sm2_file d := Regular key_file_mode c]> base) fs →
  unlinked (sm2_file d) fs fs' → unlinked (dilithium_file d) fs' fs'' → restored d base fs''.
Proof.
  intros Hb He Hfs Hu1 Hu2. pose proof (store_files_differ d) as Hne.
  apply (restored_unlink _ _ fs'); [|done..].
  assert (Hs : fs !! sm2_file d = Some (Regular key_file_mode c) ∧
    ∀ p, p ≠ sm2_file d → fs !! p = base !! p ∨ p = dilithium_file d ∧
      (fs !! p = None ∨ base !! p = None ∧ (∃ c, fs !! p = Some (Regular key_file_mode c)) ∧
         ∃ e, fault "unlink" p e)).
  { destruct Hfs as [->|[[->|(Hd & (c' & ->) & Hf)]|[_ ->]]].
    1-2: split; [by rewrite lookup_insert_eq|]; intros; left; by rewrite lookup_insert_ne.
    - rewrite lookup_insert_ne, lookup_insert_eq by done. split; [done|]. intros p Hp.
      destruct (decide (p = dilithium_file d)) as [->|]; [|left; by rewrite !lookup_insert_ne].
      right. split; [done|]. right. rewrite lookup_insert_ne in Hd by done. rewrite lookup_insert_eq.
      by split_and!; [|exists c'|].
    - rewrite lookup_delete_ne, lookup_insert_eq by done. split; [done|]. intros p Hp.
      destruct (decide (p = dilithium_file d)) as [->|].
      + right. rewrite lookup_delete_eq. by split; [|left].
      + left. by rewrite lookup_delete_ne, lookup_insert_ne. }
  destruct Hs as [Hs Ho]. intros p. destruct (decide (p = sm2_file d)) as [->|Hp].
  - destruct Hu1 as [->|(-> & [Hn|[[m Hn]|Hf]])]; [left; by rewrite lookup_delete_eq|congruence..|].
    right; right. split; [by left|]. split; [done|]. split; [by exists c|done].
  - assert (fs' !! p = fs !! p) as -> by (destruct Hu1 as [->|[-> _]]; [by rewrite lookup_delete_ne|done]).
    destruct (Ho p Hp) as [?|[-> [?|(? & ? & ?)]]]; [by left|right; by left|right; right; by auto].
Qed.

#[export] Instance spec_hybrid_key_store_save directory priv pub pass :
  Spec (hybrid_key_store_save directory priv pub pass)
    (λ s, from_option nul_free True directory ∧
          private_owns priv ⊆ live s ∧ from_option private_key_wf True priv ∧
          public_owns pub ⊆ live s ∧ from_option public_key_wf True pub)
    (λ r s s', ∃ s1 fs, frame ∅ ∅ s s1 ∧ s' = with_files fs s1 ∧
       (r = true → ∃ d fs0 k p o ps pem blob, directory = Some d ∧ priv = Some k ∧ pub = Some p ∧
          sm2_private_key k = Some o ∧ pass = Some ps ∧ passphrase_valid pass = true ∧ self_tested k p ∧
          entered d (files s1) fs0 ∧ private_directory fs0 d ∧
          fs0 !! sm2_file d = None ∧ fs0 !! dilithium_file d = None ∧
          pem_writes once (obj_val o) ps (eq pem) ∧
          sealed ps (dilithium_public_key p) (dilithium_secret_key k) blob ∧
          fs = <[dilithium_file d := Regular key_file_mode blob]>
                 (<[sm2_file d := Regular key_file_mode pem]> fs0)) ∧
       (r = false → fs = files s1 ∨ ∃ d fs0, directory = Some d ∧ entered d (files s1) fs0 ∧ restored d fs0 fs) ∧
       (∀ d k p o ps, directory = Some d → priv = Some k → pub = Some p → pass = Some ps →
          directory_name d → passphrase_valid pass = true → SchemeLaws → matching k p o → reliable_files →
          files s1 !! d = None ∨ private_directory (files s1) d →
          files s1 !! sm2_file d = None → files s1 !! dilithium_file d = None →
          pem_writes always (obj_val o) ps (λ _, True) →
          always_seals ps (dilithium_public_key p) (dilithium_secret_key k) → r = true)).
Proof.
  wp_start. destruct P as (Hd & Ha & Hwa & Hb & Hwb). unfold hybrid_key_store_save.
  set (Post := λ (r : bool) s', ∃ s1 fs, frame ∅ ∅ s s1 ∧ s' = with_files fs s1 ∧ _).
  assert (Hearly : ∀ s1 fs, frame ∅ ∅ s s1 →
    fs = files s ∨ (∃ d, directory = Some d ∧ entered d (files s) fs) →
    (∀ d k p o ps, directory = Some d → priv = Some k → pub = Some p → pass = Some ps →
      directory_name d → passphrase_valid pass = true → SchemeLaws → matching k p o → reliable_files →
      files s !! d = None ∨ private_directory (files s) d →
      files s !! sm2_file d = None → files s !! dilithium_file d = None → False) →
    Post false (with_files fs s1)).
  { intros s1 fs F Hfs Hf. exists s1, fs. split; [done|]. split; [done|]. fs_simpl. split; [done|]. split.
    - intros _. destruct Hfs as [?|(d & ? & ?)]; [by left|right]. exists d, fs. split_and!; try done. apply restored_refl.
    - intros. exfalso. eauto. }
  assert (Hnone : ∀ s1, frame ∅ ∅ s s1 →
    (∀ d k p o ps, directory = Some d → priv = Some k → pub = Some p → pass = Some ps →
      directory_name d → passphrase_valid pass = true → SchemeLaws → matching k p o → reliable_files →
      files s !! d = None ∨ private_directory (files s) d →
      files s !! sm2_file d = None → files s !! dilithium_file d = None → False) → Post false s1).
  { intros s1 F Hf. rewrite <-(with_files_files s1), (frame_files _ _ _ _ F). apply Hearly; auto. }
  destruct priv as [k|], pub as [p|]; try by (apply wp_ret; apply Hnone; [done|naive_solver]).
  cbn in Ha, Hwa, Hb, Hwb.
  destruct (passphrase_valid pass) eqn:Hv; [|apply wp_ret; apply Hnone; [done|naive_solver]].
  destruct pass as [ps|]; [|done].
  wp_call as ok (F & Hst & Hsa). wp_case ok.
  2: { apply wp_ret. apply Hnone; [solve_frame|].
       intros d ? ? o ? _ [= <-] [= <-] _ _ _ Hl Hmt **. by specialize (Hsa k p o eq_refl eq_refl Hl Hmt). }
  destruct (Hst eq_refl) as (? & ? & [= <-] & [= <-] & Htest). clear Hst Hsa Hnone.
  wp_call as ok (s1 & fs0 & F1 & -> & Hfs & Hok & Hall). fs_simpl.
  assert (Hfs' : fs0 = files s ∨ (∃ d, directory = Some d ∧ entered d (files s) fs0)).
  { destruct Hfs as [?|(d & ? & ? & ?)]; [by left|]. right. exists d. split; [done|]. by right. }
  wp_case ok.
  2: { apply wp_ret. apply Hearly; [solve_frame|done|].
       intros d ? ? o ? -> _ _ _ [? _] _ _ _ Hr Hpd **. by specialize (Hall d eq_refl Hr ltac:(lia) Hpd). }
  destruct (Hok eq_refl) as (d & -> & Hdl & Hpriv). clear Hok Hall.
  assert (Hent : entered d (files s) fs0).
  { destruct Hfs as [->|(? & [= <-] & ? & ?)]; [by left|by right]. }
  assert (Hsame : ∀ n, files s !! store_path d n = None → fs0 !! store_path d n = None).
  { intros n Hn. destruct Hent as [->|[_ ->]]; [done|].
    rewrite lookup_insert_ne; [done|]. symmetry. apply store_path_differs. }
  wp_call as st (F2 & Hst & Hall). fs_simpl.
  destruct (bool_decide_reflect (st = HYBRID_KEY_STORE_MISSING)) as [->|Hn].
  2: { apply wp_ret. apply Hearly; [solve_frame|done|].
       intros ? ? ? o ? [= <-] _ _ _ Hdn _ Hl _ Hr _ Hsm Hdi. apply Hn.
       destruct (Hall d eq_refl law_malloc Hdn) as (e & e' & He & He' & ->).
       destruct He as [->|He]; [|by apply reliable_no_fault in He].
       destruct He' as [->|He']; [|by apply reliable_no_fault in He'].
       unfold sm2_file, dilithium_file in *. by rewrite !access_node_none by auto. }
  destruct (Hst ltac:(done)) as (? & e & e' & [= <-] & _ & He & He' & Hee). clear Hst Hall.
  assert (Hmiss : ∃ e, e ≠ 0 ∧ answers fs0 (dilithium_file d) e).
  { exists e'. split; [|done]. unfold status_of in Hee. intros ->. destruct (e =? 0); done. }
  clear Hearly Hfs Hfs' Hee He He' e e'.
  assert (Hfail : ∀ (sp dp : option block) s4 fs, frame ∅ (owns sp ⊎ owns dp) s s4 → restored d fs0 fs →
    (∀ o, sm2_private_key k = Some o → reliable_malloc → directory_name d → reliable_files →
      fs0 !! sm2_file d = None → fs0 !! dilithium_file d = None → pem_writes always (obj_val o) ps (λ _, True) →
      always_seals ps (dilithium_public_key p) (dilithium_secret_key k) → False) →
    wp (free_object dp;; free_object sp;; mret false) Post (with_files fs s4)).
  { intros sp dp s4 fs F4 Hr Hf. wp_call as ? ?. wp_call as ? ?. apply wp_ret.
    eexists _, fs. split; [solve_frame|]. split; [done|]. fs_simpl. split; [done|]. split.
    - intros _. right. by exists d, fs0.
    - intros ? ? ? o ? [= <-] [= <-] [= <-] [= <-] Hdn _ Hl (Ho & _) Hrf _ Hsm Hdi Hpem Hseal.
      exfalso. apply (Hf o); try done; [apply law_malloc|by apply Hsame..]. }
  wp_call as sp (F2 & Hp & Hpo). wp_call as dp (F3 & Hq & Hqo). wp_call as p1 [-> ->]. wp_call as q1 [-> ->].
  destruct sp as [sp|]; cbn [fmap option_fmap option_map].
  2: { to_exit. destruct dp as [dp|]; cbn [fmap option_fmap option_map]; to_exit.
       - destruct (Hq _ eq_refl) as (? & [= <-] & _ & ->). apply wp_unlink. intros rc s9 fs F9 Hu. frame_merge.
         to_exit. apply (Hfail None (Some dp)); [solve_frame|by eapply restored_unlink; [apply restored_refl|..]|].
         intros o _ Hm Hdn. by destruct (Hpo d eq_refl Hm Hdn).
       - apply (Hfail None None); [solve_frame|apply restored_refl|].
         intros o _ Hm Hdn. by destruct (Hpo d eq_refl Hm Hdn). }
  destruct dp as [dp|]; cbn [fmap option_fmap option_map].
  2: { to_exit. apply (Hfail (Some sp) None); [solve_frame|apply restored_refl|].
       intros o _ Hm Hdn. by destruct (Hqo d eq_refl Hm Hdn). }
  destruct (Hp _ eq_refl) as (? & [= <-] & _ & ->). destruct (Hq _ eq_refl) as (? & [= <-] & _ & ->).
  clear Hp Hq Hpo Hqo.
  wp_call as ok (s8 & fs1 & F2 & -> & Hok & Hko & Hall). fs_simpl.
  wp_case ok.
  2: { to_exit. apply wp_unlink. intros rc s9 fs F9 Hu. frame_merge. to_exit.
       apply (Hfail (Some sp) (Some dp)); [solve_frame| |].
       - eapply restored_unlink; [|done|exact Hu].
         destruct (Hko eq_refl) as [->|(? & [= <-] & Hns)]; [apply restored_refl|].
         eapply restored_not_saved; [by left|done].
       - intros o Ho Hm Hdn Hr Hsm Hdi Hpem Hseal. assert (false = true) as [=]. by eapply Hall. }
  destruct (Hok eq_refl) as (? & o & ps' & pem & [= <-] & Ho & [= <-] & _ & Hsm & Hpem & ->). clear Hok Hko Hall.
  wp_call as ok (s9 & fs2 & F3 & -> & Hok & Hko & Hall). fs_simpl.
  specialize (Hall _ _ eq_refl eq_refl Hv). rewrite lookup_insert_ne in Hall by apply store_files_differ.
  wp_case ok.
  - to_exit. wp_call as ? ?. wp_call as ? ?. apply wp_ret.
    lazymatch goal with |- Post _ (with_files ?fs ?s') => exists s', fs end.
    split; [solve_frame|]. split; [done|]. fs_simpl. split; [|done]. intros _.
    destruct (Hok eq_refl) as (? & ? & blob & [= <-] & [= <-] & _ & Hdi & -> & Hseal).
    rewrite lookup_insert_ne in Hdi by apply store_files_differ.
    by exists d, fs0, k, p, o, ps, pem, blob.
  - to_exit. apply wp_unlink. intros rc s10 fs3 F10 Hu1. frame_merge. to_exit.
    apply wp_unlink. intros rc2 s11 fs4 F11 Hu2. frame_merge. to_exit.
    apply (Hfail (Some sp) (Some dp)); [solve_frame| |].
    + eapply restored_undo; try done. destruct (Hko eq_refl) as [->|(? & [= <-] & Hns)]; [by left|by right].
    + intros ? _ Hm _ Hr _ Hdi _ Hseal. by specialize (Hall Hdi Hm Hr Hseal).
Qed.
(** ** Loading *)

(** What [hybrid_key_store_load] has checked of the files when it returns the
    SM2 key [o], the secret key [sk] and the public key [pk]. *)
Definition stored (Q : modality) (fs : gmap string node) (d ps : string) (v : EVP_PKEY) (pk sk : list byte) : Prop :=
  private_directory fs d ∧
  (∃ c, private_file fs (sm2_file d) c ∧ pem_reads Q c ps (eq v)) ∧
  ∃ c, private_file fs (dilithium_file d) c ∧ unsealed Q ps pk sk c.

(** A loaded pair shares the SM2 key. *)
Definition pair (o : obj EVP_PKEY) (pk sk : list byte) : option HYBRID_PRIVATE_KEY * option HYBRID_PUBLIC_KEY :=
  (Some (PrivateKey (Some o) sk), Some (PublicKey (Some o) pk)).

(** The exit of the function: the paths and the local keys are released. *)
Lemma wp_load_exit {A} (sp dp : option block) lk lp (r : A) fs Φ s :
  owns dp ⊎ owns sp ⊎ public_owns (Some lp) ⊎ private_owns (Some lk) ⊆ live s → private_key_wf lk →
  (∀ s', frame (owns dp ⊎ owns sp ⊎ public_owns (Some lp) ⊎ private_owns (Some lk)) ∅ s s' →
     Φ r (with_files fs s')) →
  wp (free_object dp;; free_object sp;; hybrid_public_key_cleanup (Some lp);;
      l ← hybrid_private_key_cleanup (Some lk); retire (default [] (dilithium_secret_key <$> l));; mret r) Φ
     (with_files fs s).
Proof.
  intros Hl Hwf HΦ. pose proof (frame_refl s).
  wp_call as ? ?. wp_call as ? ?. wp_call as ? [? _]. wp_call as l [? ->].
  wp_call as ? ?; [apply zeroed_zeros|]. apply wp_ret, HΦ. solve_frame.
Qed.

#[export] Instance spec_hybrid_key_store_load directory pass priv pub :
  Spec (hybrid_key_store_load directory pass priv pub)
    (λ s, from_option nul_free True directory ∧ private_owns priv ⊎ public_owns pub ⊆ live s ∧
          from_option private_key_wf True priv)
    (λ r s s', ∃ s1 fs, s' = with_files fs s1 ∧
       (fs = files s ∨ ∃ d, directory = Some d ∧ entered d (files s) fs) ∧
       (fst r = true → ∃ d ps o pk sk, directory = Some d ∧ pass = Some ps ∧ passphrase_valid pass = true ∧
          is_Some priv ∧ is_Some pub ∧ snd r = pair o pk sk ∧
          frame (private_owns priv ⊎ public_owns pub) (owns (Some o) ⊎ owns (Some o)) s s1 ∧
          stored once fs d ps (obj_val o) pk sk ∧
          self_tested (PrivateKey (Some o) sk) (PublicKey (Some o) pk)) ∧
       (fst r = false → frame ∅ ∅ s s1 ∧ snd r = (priv, pub)) ∧
       (∀ d ps v pk sk, directory = Some d → pass = Some ps → is_Some priv → is_Some pub →
          directory_name d → passphrase_valid pass = true → SchemeLaws → reliable_files →
          (∀ t, EVP_PKEY_up_ref t ≠ 0) → stored always (files s) d ps v pk sk →
          sm2_generated v → dilithium_keypair pk sk →
          ∃ o, obj_val o = v ∧ r = (true, pair o pk sk))).
Proof.
  wp_start. destruct P as (Hd & Ha & Hwa). unfold hybrid_key_store_load.
  set (Post := λ (r : bool * (option HYBRID_PRIVATE_KEY * option HYBRID_PUBLIC_KEY)) s', ∃ s1 fs, s' = with_files fs s1 ∧ _).
  assert (Hfail : ∀ s1 fs, frame ∅ ∅ s s1 →
    fs = files s ∨ (∃ d, directory = Some d ∧ entered d (files s) fs) →
    (∀ d ps v pk sk, directory = Some d → pass = Some ps → is_Some priv → is_Some pub →
      directory_name d → passphrase_valid pass = true → SchemeLaws → reliable_files →
      (∀ t, EVP_PKEY_up_ref t ≠ 0) → stored always (files s) d ps v pk sk →
      sm2_generated v → dilithium_keypair pk sk → False) → Post (false, (priv, pub)) (with_files fs s1)).
  { intros s1 fs F Hfs Hf. exists s1, fs. split; [done|]. split; [done|]. split; [done|]. split; [done|].
    intros. exfalso. eauto. }
  assert (Hnone : (∀ d ps v pk sk, directory = Some d → pass = Some ps → is_Some priv → is_Some pub →
      directory_name d → passphrase_valid pass = true → SchemeLaws → reliable_files →
      (∀ t, EVP_PKEY_up_ref t ≠ 0) → stored always (files s) d ps v pk sk →
      sm2_generated v → dilithium_keypair pk sk → False) → Post (false, (priv, pub)) s).
  { intros Hf. rewrite <-(with_files_files s). apply Hfail; auto. }
  destruct priv as [k|], pub as [p|]; try by (apply wp_ret; apply Hnone; intros ? ? ? ? ? ? ? [? ?] [? ?]).
  cbn in Ha, Hwa.
  destruct (passphrase_valid pass) eqn:Hv; [|apply wp_ret; apply Hnone; done].
  destruct pass as [ps|]; [|done]. clear Hnone.
  wp_call as ok (s1 & fs0 & F1 & -> & Hfs & Hok & Hall). fs_simpl.
  assert (Hfs' : fs0 = files s ∨ (∃ d, directory = Some d ∧ entered d (files s) fs0)).
  { destruct Hfs as [?|(d & ? & ? & ?)]; [by left|]. right. exists d. split; [done|]. by right. }
  wp_case ok.
  2: { apply wp_ret. apply Hfail; [solve_frame|done|].
       intros d ? ? ? ? -> _ _ _ [? _] _ _ Hr _ (Hpd & _) **. by specialize (Hall d eq_refl Hr ltac:(lia) (or_intror Hpd)). }
  destruct (Hok eq_refl) as (d & -> & Hdl & Hpriv). clear Hok Hall.
  assert (Hsame : private_directory (files s) d → fs0 = files s).
  { destruct Hfs as [->|(? & [= <-] & Hn & ->)]; [done|]. intros (m & Hm & _). congruence. }
  wp_call as st (F2 & _ & Hall). fs_simpl.
  destruct (bool_decide_reflect (st = HYBRID_KEY_STORE_COMPLETE)) as [->|Hn].
  2: { apply wp_ret. apply Hfail; [solve_frame|done|].
       intros ? ? ? ? ? [= <-] _ _ _ Hdn _ Hl Hr _ (Hpd & (c & (m & Hc & _) & _) & c' & (m' & Hc' & _) & _) _ _.
       apply Hn. destruct (Hall d eq_refl law_malloc Hdn) as (e & e' & He & He' & ->). rewrite (Hsame Hpd) in *.
       destruct He as [->|He]; [|by apply reliable_no_fault in He].
       destruct He' as [->|He']; [|by apply reliable_no_fault in He'].
       by erewrite !access_node_regular by done. }
  clear Hall.
  wp_call as sp (F3 & Hp & Hpo). wp_call as dp (F4 & Hq & Hqo). wp_call as p1 [-> ->]. wp_call as q1 [-> ->].
  assert (Hbad : ∀ (sp dp : option block) lk lp s4,
    frame ∅ (owns sp ⊎ owns dp ⊎ public_owns (Some lp) ⊎ private_owns (Some lk)) s s4 → private_key_wf lk →
    (∀ v pk sk, reliable_malloc → directory_name d → SchemeLaws → reliable_files →
      (∀ t, EVP_PKEY_up_ref t ≠ 0) → stored always fs0 d ps v pk sk → sm2_generated v → dilithium_keypair pk sk → False) →
    wp (free_object dp;; free_object sp;; hybrid_public_key_cleanup (Some lp);;
        l ← hybrid_private_key_cleanup (Some lk); retire (default [] (dilithium_secret_key <$> l));;
        mret (false, (Some k, Some p))) Post (with_files fs0 s4)).
  { intros ? ? lk lp s9 F9 Hwf Hf. apply wp_load_exit; [solve_alive|done|]. intros s10 F10. frame_merge.
    apply Hfail; [solve_frame|done|]. intros ? ? v pk sk [= <-] [= <-] _ _ Hdn _ Hl Hr Hup Hs.
    intros Hg Hk.
    rewrite <-(Hsame (proj1 Hs)) in Hs. by apply (Hf v pk sk law_malloc). }
  destruct sp as [sp|]; cbn [fmap option_fmap option_map].
  2: { apply (Hbad None dp); [solve_frame|apply zero_private_key_wf|].
       intros ? ? ? Hm Hdn. by destruct (Hpo d eq_refl Hm Hdn). }
  destruct dp as [dp|]; cbn [fmap option_fmap option_map].
  2: { apply (Hbad (Some sp) None); [solve_frame|apply zero_private_key_wf|].
       intros ? ? ? Hm Hdn. by destruct (Hqo d eq_refl Hm Hdn). }
  destruct (Hp _ eq_refl) as (? & [= <-] & _ & ->). destruct (Hq _ eq_refl) as (? & [= <-] & _ & ->).
  clear Hp Hq Hpo Hqo.
  fold (sm2_file d). fold (dilithium_file d).
  wp_call as key (F5 & Hkey & Hkall). fs_simpl. destruct key as [o|].
  2: { apply (Hbad (Some sp) (Some dp)); [solve_frame|apply zero_private_key_wf|].
       intros v pk sk _ _ _ Hr _ (_ & (c & Hc & Hrd) & _) _ _.
       by destruct (Hkall _ ps c _ eq_refl eq_refl Hv Hc Hr Hrd) as (? & ? & _). }
  wp_call as [ok [pk sk]] (F6 & Hok & Hko & Hdall).
  cbn [fst snd] in *. fs_simpl.
  assert (Hpair : ∀ v pk' sk', reliable_malloc → reliable_files → stored always fs0 d ps v pk' sk' →
    v = obj_val o ∧ ok = true ∧ pk = pk' ∧ sk = sk').
  { intros v pk' sk' Hm Hr (_ & (c & Hc & Hrd) & c' & Hc' & Hu).
    destruct (Hkall _ ps c _ eq_refl eq_refl Hv Hc Hr Hrd) as (? & [= <-] & ->).
    specialize (Hdall _ _ _ _ _ eq_refl eq_refl Hv Hc' Hm Hr Hu). by injection Hdall as -> -> ->. }
  assert (Hlen : private_key_wf (PrivateKey (Some o) sk) ∧ public_key_wf (PublicKey (Some o) pk)).
  { destruct ok.
    - destruct (Hok eq_refl) as (? & ? & ? & _ & _ & _ & _ & ? & ? & _). done.
    - injection (Hko eq_refl) as -> ->. split; [apply zero_private_key_wf|apply zero_public_key_wf]. }
  destruct Hlen as [Hwk Hwp].
  wp_case ok.
  2: { apply (Hbad (Some sp) (Some dp)); [solve_frame|done|]. intros v pk' sk' Hm _ _ Hr _ Hs _ _.
       by destruct (Hpair _ _ _ Hm Hr Hs) as (_ & ? & _). }
  wp_call as rc (F7 & t & Ht). wp_case (rc =? 0); cbn [negb].
  { apply (Hbad (Some sp) (Some dp)); [solve_frame|done|]. intros v pk' sk' _ _ _ _ Hup. by specialize (Hup t). }
  wp_call as ok (F8 & Htest & Htall).
  wp_case ok.
  2: { apply (Hbad (Some sp) (Some dp)); [solve_frame|done|]. intros v pk' sk' Hm _ Hl Hr _ Hs Hg Hkp.
       destruct (Hpair _ _ _ Hm Hr Hs) as (-> & _ & <- & <-).
       by specialize (Htall _ _ o eq_refl eq_refl Hl ltac:(done)). }
  wp_call as r1 [F9 _]. wp_call as r2 [F10 _]. apply wp_load_exit; [solve_alive|apply zero_private_key_wf|].
  intros s11 F11. frame_merge. eexists _, fs0. split; [done|]. split; [done|]. cbn [fst snd]. split; [|split; [done|]].
  - intros _. exists d, ps, o, pk, sk. split_and!; try done; [solve_frame| |].
    + split; [done|]. split.
      * by destruct (Hkey o eq_refl) as (? & ? & c & [= <-] & [= <-] & _ & ? & ?); exists c.
      * by destruct (Hok eq_refl) as (? & ? & c & [= <-] & [= <-] & _ & ? & ?); exists c.
    + by destruct (Htest eq_refl) as (? & ? & [= <-] & [= <-] & ?).
  - intros ? ? v pk' sk' [= <-] [= <-] _ _ _ _ Hl Hr _ Hs _ _.
    rewrite <-(Hsame (proj1 Hs)) in Hs. exists o.
    by destruct (Hpair _ _ _ law_malloc Hr Hs) as (-> & _ & <- & <-).
Qed.

(** ** Comparing public keys *)

#[export] Instance spec_composite_public_keys_equal left right :
  Spec (composite_public_keys_equal left right)
    (λ s, public_owns left ⊆ live s ∧ from_option public_key_wf True left ∧
          public_owns right ⊆ live s ∧ from_option public_key_wf True right)
    (λ r s s', frame ∅ ∅ s s' ∧
       (r = true → ∃ k l o o' e, left = Some k ∧ right = Some l ∧
          sm2_public_key k = Some o ∧ sm2_public_key l = Some o' ∧
          dilithium_public_key k = dilithium_public_key l ∧ sm2_octets (obj_val o) e ∧ sm2_octets (obj_val o') e) ∧
       (∀ k l o o' e, left = Some k → right = Some l → sm2_public_key k = Some o → sm2_public_key l = Some o' →
          reliable_malloc → dilithium_public_key k = dilithium_public_key l →
          sm2_encoding always (obj_val o) (eq e) → sm2_encoding always (obj_val o') (eq e) → r = true)).
Proof.
  wp_start. destruct P as (Hl & Hwl & Hr & Hwr). unfold composite_public_keys_equal.
  assert (Henc : ∀ v e, sm2_encoding always v (eq e) → sm2_always_octets v ∧ ∀ e', sm2_octets v e' → e' = e).
  { intros v e [Hs He]. split.
    - split; [done|]. intros t. by destruct (He t) as (? & ? & ? & _).
    - intros e' [_ (t & _ & _ & _ & ->)]. by destruct (He t) as (_ & _ & _ & ->). }
  wp_call as [[] lo] ([F Hlo] & Hla); cbn [fst snd out_post] in *.
  2: { subst lo. repeat wp_pure. wp_call as ? ?. wp_call as ? ?. apply wp_ret. split; [solve_frame|]. split; [done|].
       intros k l o o' e Hk _ Ho _ Hm _ He _. by specialize (Hla k o Hk Ho Hm (proj1 (Henc _ _ He))). }
  destruct Hlo as (bl & ? & -> & -> & Hlb & k & o & publ & -> & Ho & Hpl & Hbl). clear Hla.
  wp_call as [[] ro] ([F1 Hro] & Hra); cbn [fst snd out_post] in *.
  2: { subst ro. cbn [andb]. wp_call as ? ?. wp_call as ? ?. apply wp_ret. split; [solve_frame|]. split; [done|].
       intros k' l o1 o' e _ Hk' _ Ho' Hm _ _ He. by specialize (Hra l o' Hk' Ho' Hm (proj1 (Henc _ _ He))). }
  destruct Hro as (br & ? & -> & -> & Hlr & l & o' & publ' & -> & Ho' & Hpr & Hbr). clear Hra.
  cbn [out_block out_len set_out fst snd default from_option id andb]. rewrite Z.eqb_refl. cbn in Hwl, Hwr.
  wp_call as p1 [-> ->]. wp_call as q1 [-> ->]. cbn [fmap option_fmap option_map].
  wp_call as b1 [-> ->]. wp_call as b2 [-> ->].
  rewrite !bytes_at_full by done. rewrite Hbl, Hbr.
  wp_call as ? ?. wp_call as ? ?. apply wp_ret. split; [solve_frame|]. unfold public_key_wf in *. split.
  - intros [Heq ->]%bool_decide_eq_true%app_inj_1; [|unfold len in *; lia]. by exists k, l, o, o', publ'.
  - intros ? ? ? ? e [= <-] [= <-] Ho1 Ho1' _ Hdil He He'. rewrite Ho in Ho1. rewrite Ho' in Ho1'.
    injection Ho1 as <-. injection Ho1' as <-. apply bool_decide_eq_true.
    by rewrite Hdil, (proj2 (Henc _ _ He) _ Hpl), (proj2 (Henc _ _ He') _ Hpr).
Qed.
End specs.
