(* ===== verification/KeyStoreTheorems.v ===== *)
(** * The key store: theorems

    What the specifications of the key store amount to for its clients. *)

From S2P Require Import Prelude Machine External Posix Environment Dilithium Sm2 CompositeKey CompositeSig.
From S2P Require Import KeyStore KeyStoreFiles KeyStoreKeys KeyStoreContainer KeyStoreSave KeyStorePair.

(** The callback stores a passphrase that fits, and no other. *)
Lemma pem_password_fits ps n :
  0 < n → strlen ps ≤ n → pem_password (PassphraseData ps (strlen ps)) n = (strlen ps, lit ps).
Proof.
  intros Hn Hb. unfold pem_password, password_callback. cbn [pass_length pass_bytes].
  destruct (Z.leb_spec n 0); [lia|]. destruct (Z.gtb_spec (strlen ps) n); [lia|]. cbn [orb].
  pose proof (len_lit ps) as Hl. pose proof (len_nonneg (lit ps)). rewrite ztake_all by lia.
  unfold bytes_at. cbn [default from_option id]. rewrite <-Hl at 2. by rewrite splice_prefix by (rewrite len_zeros; lia).
Qed.

Lemma pem_password_too_long ps n : n < strlen ps → fst (pem_password (PassphraseData ps (strlen ps)) n) = 0.
Proof.
  intros Hb. unfold pem_password, password_callback. cbn [pass_length pass_bytes].
  destruct (Z.gtb_spec (strlen ps) n); [|lia]. by rewrite orb_true_r.
Qed.

Section properties.
Context `{Libc, OpenSSL, !OpenSSLSizes, !OpenSSLCipher, !CipherSizes, Dilithium2, !Dilithium2Sizes, Posix}.

(** The buffer OpenSSL hands to a password callback has this size. *)
Definition PEM_BUFSIZE : Z := 1024.

(** How the libraries behave when nothing fails: what was encrypted under a
    key, a nonce and additional data is decrypted under the same, a password
    determines its key, and an encrypted private key is read back with its
    password, if the password fits the buffer of the callback. *)
Class StoreLaws : Prop := {
  law_scheme :: SchemeLaws;
  law_files : reliable_files;
  law_up_ref t : EVP_PKEY_up_ref t ≠ 0;
  law_pbkdf2 ps salt key : key_derived once ps salt (eq key) → key_derived always ps salt (eq key);
  law_gcm key iv aad text c tag :
    len key = DILITHIUM_STORE_KEY_BYTES → len iv = DILITHIUM_STORE_IV_BYTES →
    gcm_seal once key iv aad text (λ c' tag', c' = c ∧ tag' = tag) →
    gcm_open always key iv aad c tag (eq text);
  law_pem k ps pem :
    EVP_PKEY_is_a k "SM2" ≠ 0 → passphrase_valid (Some ps) = true → strlen ps ≤ PEM_BUFSIZE →
    pem_writes once k ps (eq pem) → pem_reads always pem ps (eq k)
}.

Lemma sealed_unsealed `{!StoreLaws} ps pk sk blob :
  len pk = DILITHIUM_PUBLIC_KEY_BYTES → len sk = DILITHIUM_SECRET_KEY_BYTES →
  sealed ps pk sk blob → unsealed always ps pk sk blob.
Proof.
  intros Hpk Hsk (salt & iv & text & tag & key & Hb & Hl & Hk & Hs). split; [done|]. split; [done|].
  exists salt, iv, text, tag. split; [done|]. split; [done|].
  assert (Hlk : len key = DILITHIUM_STORE_KEY_BYTES).
  { destruct Hk as (t & H1k & ->). destruct (PKCS5_PBKDF2_HMAC _ _ _ _ _ t) as [rc k] eqn:E.
    by destruct (pbkdf2_size _ _ _ _ _ _ _ _ E ltac:(done)) as [_ Hk]; apply Hk. }
  assert (Hli : len iv = DILITHIUM_STORE_IV_BYTES).
  { unfold container, container_fields in Hl. by decompose_Forall_hyps. }
  apply law_pbkdf2 in Hk. intros t. destruct (Hk t) as [H1k <-]. split; [done|]. by apply law_gcm.
Qed.

(** A client: the key pair is saved, then loaded under the same passphrase. *)
Definition save_then_load (directory : option string) (private_key : HYBRID_PRIVATE_KEY)
    (public_key : HYBRID_PUBLIC_KEY) (passphrase : option string)
    : M (bool * (bool * (option HYBRID_PRIVATE_KEY * option HYBRID_PUBLIC_KEY))) :=
  saved ← hybrid_key_store_save directory (Some private_key) (Some public_key) passphrase;
  r ← hybrid_key_store_load directory passphrase (Some zero_private_key) (Some zero_public_key);
  mret (saved, r).

(** C11. Where files and the libraries work, a matching key pair saved in the
    store under a passphrase of at most [PEM_BUFSIZE] (1024) bytes is what
    loading it with that passphrase gives back: the same SM2 key, the same
    Dilithium2 keys. Saving succeeds when the directory is private or does not
    exist and holds neither file; the two files are then the only new ones, and
    the loaded key holds the only new references. *)
Theorem hybrid_key_store_round_trip `{!StoreLaws} d k p o ps s :
  nul_free d → directory_name d → passphrase_valid (Some ps) = true → strlen ps ≤ PEM_BUFSIZE →
  matching k p o → EVP_PKEY_is_a (obj_val o) "SM2" ≠ 0 → alive (Some o) s →
  files s !! d = None ∨ private_directory (files s) d →
  files s !! sm2_file d = None → files s !! dilithium_file d = None →
  pem_writes always (obj_val o) ps (λ _, True) →
  always_seals ps (dilithium_public_key p) (dilithium_secret_key k) →
  wp (save_then_load (Some d) k p (Some ps))
    (λ r s', ∃ o', obj_val o' = obj_val o ∧
       r = (true, (true, pair o' (dilithium_public_key p) (dilithium_secret_key k))) ∧
       live s' = live s ⊎ owns (Some o') ⊎ owns (Some o') ∧
       private_directory (files s') d ∧
       ∀ q, q ≠ d → q ≠ sm2_file d → q ≠ dilithium_file d → files s' !! q = files s !! q) s.
Proof.
  intros Hnf Hdn Hv Hbuf Hm His Ho Hd Hs1 Hs2 Hpem Hseal. unfold save_then_load.
  pose proof Hm as (Hk & Hp & Hg & Hkp). pose proof (frame_refl s).
  assert (private_key_wf k ∧ public_key_wf p) as [Hwk Hwp].
  { destruct Hkp as [t Hkp]. by destruct (dilithium2_keypair_sizes _ _ _ Hkp). }
  wp_call as saved (s1 & fs & F1 & -> & Hok & _ & Hall).
  { cbn. by rewrite Hk. } { cbn. by rewrite Hp. }
  fs_simpl. assert (saved = true) as ->.
  { apply (Hall d k p o ps); try done. apply law_scheme. apply law_files. }
  destruct (Hok eq_refl) as (? & fs0 & ? & ? & o1 & ? & pem & blob & [= <-] & [= <-] & [= <-] & Ho1 & [= <-] & _ & _ &
    Hent & Hpd & _ & _ & Hpw & Hblob & ->). rewrite Hk in Ho1. injection Ho1 as <-. clear Hok Hall.
  assert (Hdir : files s !! d = None ∨ fs0 = files s).
  { destruct Hent as [->|[? _]]; [by right|by left]. }
  set (fs := <[dilithium_file d := Regular key_file_mode blob]> (<[sm2_file d := Regular key_file_mode pem]> fs0)).
  pose proof (store_files_differ d) as Hne.
  assert (Hpd' : private_directory fs d).
  { destruct Hpd as (m & Hm' & Hpm). exists m. split; [|done]. unfold fs.
    by rewrite !lookup_insert_ne by apply store_path_differs. }
  assert (Hst : stored always fs d ps (obj_val o) (dilithium_public_key p) (dilithium_secret_key k)).
  { split; [done|]. pose proof key_file_mode_private. split.
    - exists pem. split; [exists key_file_mode; split; [|done]|by apply law_pem].
      unfold fs. by rewrite lookup_insert_ne, lookup_insert_eq.
    - exists blob. split; [exists key_file_mode; split; [|done]|by apply sealed_unsealed].
      unfold fs. by rewrite lookup_insert_eq. }
  wp_call as r (s2 & fs' & -> & Hent' & Hok & _ & Hall).
  fs_simpl. destruct (Hall d ps (obj_val o) _ _ eq_refl eq_refl ltac:(by eexists) ltac:(by eexists) Hdn Hv law_scheme
    law_files law_up_ref Hst Hg Hkp) as (o' & Ho' & ->).
  destruct (Hok eq_refl) as (? & ? & o1 & pk & sk & [= <-] & [= <-] & _ & _ & _ & Hpair & F2 & (Hpd2 & _) & _).
  injection Hpair as <- _ _. clear Hok Hall.
  apply wp_ret. exists o'. split; [done|]. split; [done|]. fs_simpl.
  assert (fs' = fs) as ->.
  { destruct Hent' as [?|(? & [= <-] & [?|[Hn _]])]; [done..|]. destruct Hpd' as (? & ? & _). congruence. }
  split; [|split; [done|]].
  - pose proof (frame_live _ _ _ _ F) as L1. pose proof (frame_live _ _ _ _ F2) as L2.
    owns_unfold. owns_simpl. change (live (with_files fs s1)) with (live s1) in L2.
    change (live (with_files fs s2)) with (live s2). ms_lia.
  - intros q Hq1 Hq2 Hq3. unfold fs. rewrite !lookup_insert_ne by done.
    destruct Hent as [->|[_ ->]]; [done|by rewrite lookup_insert_ne].
Qed.

(** C12. [hybrid_key_store_load] either returns nothing and leaves the keys it
    was given and every reference as they were, or it releases those keys and
    returns a pair that shares one SM2 key, read with the passphrase from a
    file only its owner can access and accepted by the private key check,
    whose Dilithium2 keys are those of the container, opened under the
    passphrase, and which signs and verifies the self-test challenge. Storage
    that held decrypted key material is zeroed on every path, and no file
    changes, a missing directory being created at most. *)
Theorem hybrid_key_store_load_sound directory pass priv pub s :
  from_option nul_free True directory → private_owns priv ⊎ public_owns pub ⊆ live s →
  from_option private_key_wf True priv →
  wp (hybrid_key_store_load directory pass priv pub)
    (λ r s',
       (if fst r then ∃ d ps o pk sk, directory = Some d ∧ pass = Some ps ∧ 12 ≤ strlen ps ∧
          snd r = pair o pk sk ∧ stored once (files s') d ps (obj_val o) pk sk ∧
          self_tested (PrivateKey (Some o) sk) (PublicKey (Some o) pk) ∧
          live s' ⊎ (private_owns priv ⊎ public_owns pub) = live s ⊎ (owns (Some o) ⊎ owns (Some o))
        else snd r = (priv, pub) ∧ live s' = live s) ∧
       (∃ rs, residue s' = rs ++ residue s ∧ Forall zeroed rs) ∧
       (files s' = files s ∨ ∃ d, directory = Some d ∧ entered d (files s) (files s'))) s.
Proof.
  intros Hd Ha Hwf. eapply wp_spec; [apply _|done|]. intros [[] r] s' (s1 & fs & -> & Hent & Ht & Hf & _); cbn [fst snd] in *.
  - destruct (Ht eq_refl) as (d & ps & o & pk & sk & -> & -> & Hv & _ & _ & -> & F & Hst & Htest).
    split; [|split; [exact (frame_residue _ _ _ _ F)|exact Hent]].
    exists d, ps, o, pk, sk. split_and!; try done; [|exact (frame_live _ _ _ _ F)].
    unfold passphrase_valid in Hv. apply andb_true_iff in Hv as [Hv _]. by apply Z.geb_le in Hv.
  - destruct (Hf eq_refl) as [F ->]. split; [split; [done|]|split; [exact (frame_residue _ _ _ _ F)|exact Hent]].
    pose proof (frame_live _ _ _ _ F) as L. change (live (with_files fs s1)) with (live s1). ms_lia.
Qed.

(** When [hybrid_key_store_save] succeeds, the directory is private, both
    files were absent and are now there with a mode without rights for group
    and others: the SM2 key as OpenSSL wrote it under the passphrase, the
    Dilithium2 keys sealed in a container under it; the pair passed the self
    test, and nothing else changed. *)
Theorem hybrid_key_store_save_correct directory priv pub pass s :
  from_option nul_free True directory →
  private_owns priv ⊆ live s → from_option private_key_wf True priv →
  public_owns pub ⊆ live s → from_option public_key_wf True pub →
  wp (hybrid_key_store_save directory priv pub pass)
    (λ r s', live s' = live s ∧ (∃ rs, residue s' = rs ++ residue s ∧ Forall zeroed rs) ∧
       (r = true → ∃ d k p o ps pem blob, directory = Some d ∧ priv = Some k ∧ pub = Some p ∧
          sm2_private_key k = Some o ∧ pass = Some ps ∧ 12 ≤ strlen ps ∧ self_tested k p ∧
          private_directory (files s') d ∧
          files s !! sm2_file d = None ∧ private_file (files s') (sm2_file d) pem ∧
          pem_writes once (obj_val o) ps (eq pem) ∧
          files s !! dilithium_file d = None ∧ private_file (files s') (dilithium_file d) blob ∧
          sealed ps (dilithium_public_key p) (dilithium_secret_key k) blob ∧
          ∀ q, q ≠ d → q ≠ sm2_file d → q ≠ dilithium_file d → files s' !! q = files s !! q)) s.
Proof.
  intros Hd Ha Hwk Hb Hwp. eapply wp_spec; [apply _|by split_and!|]. cbn beta.
  intros r s' (s1 & fs & F & -> & Ht & _ & _). pose proof (frame_live _ _ _ _ F) as L.
  split; [change (live (with_files fs s1)) with (live s1); ms_lia|].
  split; [exact (frame_residue _ _ _ _ F)|]. fs_simpl. intros Hr.
  destruct (Ht Hr) as (d & fs0 & k & p & o & ps & pem & blob & -> & -> & -> & Ho & -> & Hv & Htest & Hent &
    (m & Hm & Hpm) & Hn1 & Hn2 & Hpem & Hseal & ->).
  pose proof (store_files_differ d). pose proof key_file_mode_private.
  assert (Hsame : ∀ q, q ≠ d → fs0 !! q = files s !! q).
  { intros q Hq. destruct Hent as [->|[_ ->]]; [done|by rewrite lookup_insert_ne]. }
  exists d, k, p, o, ps, pem, blob. split_and!; try done.
  - unfold passphrase_valid in Hv. apply andb_true_iff in Hv as [Hv _]. by apply Z.geb_le in Hv.
  - exists m. split; [|done]. by rewrite !lookup_insert_ne by apply store_path_differs.
  - rewrite <-Hsame; [done|apply store_path_differs].
  - exists key_file_mode. split; [|done]. by rewrite lookup_insert_ne, lookup_insert_eq.
  - rewrite <-Hsame; [done|apply store_path_differs].
  - exists key_file_mode. split; [|done]. by rewrite lookup_insert_eq.
  - intros q Hq1 Hq2 Hq3. rewrite !lookup_insert_ne by done. by apply Hsame.
Qed.

(** C13. Whatever happens, [hybrid_key_store_save] overwrites no file: what a
    path led to before the call it leads to afterwards, with one exception. A
    save that fails may have removed the Dilithium2 file that [access]
    reported missing. When no system call fails for reasons of its own, that
    can only be a symbolic link that leads nowhere, and a failed save leaves
    nothing else behind than the directory. *)
Theorem hybrid_key_store_save_keeps_files directory priv pub pass s :
  from_option nul_free True directory →
  private_owns priv ⊆ live s → from_option private_key_wf True priv →
  public_owns pub ⊆ live s → from_option public_key_wf True pub →
  wp (hybrid_key_store_save directory priv pub pass)
    (λ r s',
       (∀ q n, files s !! q = Some n → files s' !! q = Some n ∨
          r = false ∧ files s' !! q = None ∧ ∃ d, directory = Some d ∧ q = dilithium_file d ∧
            ((∃ t, n = Symlink t) ∨ ∃ e, fault "access" q e)) ∧
       (r = false → reliable_files → ∀ q, Some q ≠ directory →
          files s' !! q = files s !! q ∨ ∃ t, files s !! q = Some (Symlink t))) s.
Proof.
  intros Hd Ha Hwk Hb Hwp. eapply wp_spec; [apply _|by split_and!|]. cbn beta.
  intros r s' (s1 & fs & F & -> & Ht & Hf & _). fs_simpl. destruct r.
  { split; [|done]. destruct (Ht eq_refl) as (d & fs0 & _ & _ & _ & _ & pem & blob & _ & _ & _ & _ & _ & _ & _ &
      Hent & _ & Hn1 & Hn2 & _ & _ & ->).
    intros q n Hq. left. assert (fs0 !! q = Some n) as Hq0.
    { destruct Hent as [->|[? ->]]; [done|]. rewrite lookup_insert_ne; [done|congruence]. }
    rewrite !lookup_insert_ne; congruence. }
  clear Ht. destruct (Hf eq_refl) as [->|(d & fs0 & -> & Hent & Hres)]; [by auto|]. clear Hf.
  assert (Hmiss : ∀ q e, e ≠ 0 → answers fs0 q e → fs0 !! q = None ∨ (∃ t, fs0 !! q = Some (Symlink t)) ∨
    ∃ e, fault "access" q e).
  { intros q e He [->|Hfa]; [|right; right; by exists e]. unfold access_node in He. rewrite resolve_unfold in He.
    destruct (fs0 !! q) as [[| |t]|]; [done..|right; left; by exists t|by left]. }
  split.
  - intros q n Hq. assert (fs0 !! q = Some n) as Hq0.
    { destruct Hent as [->|[? ->]]; [done|]. rewrite lookup_insert_ne; [done|congruence]. }
    destruct (Hres q) as [->|[(-> & Hn & e & He & Hans)|(_ & ? & _)]]; [by left| |congruence].
    right. split; [done|]. split; [done|]. exists d. split; [done|]. split; [done|].
    destruct (Hmiss _ _ He Hans) as [?|[[t ?]|?]]; [congruence|left; exists t; congruence|by right].
  - intros _ Hr q Hq. assert (Hq0 : fs0 !! q = files s !! q).
    { destruct Hent as [->|[_ ->]]; [done|]. rewrite lookup_insert_ne; [done|congruence]. }
    rewrite <-Hq0. destruct (Hres q) as [->|[(-> & Hn & e & He & Hans)|(_ & _ & _ & e & He)]]; [by left| |].
    + destruct (Hmiss _ _ He Hans) as [->|[?|[? Hfa]]]; [by left|by right|by apply reliable_no_fault in Hfa].
    + by apply reliable_no_fault in He.
Qed.

(** A client of the store of the SM2 key alone. *)
Definition sm2_save_then_load (directory : option string) (key : option (obj EVP_PKEY))
    (passphrase : option string) : M (bool * option (obj EVP_PKEY)) :=
  saved ← hybrid_sm2_key_store_save directory key passphrase;
  r ← hybrid_sm2_key_store_load directory passphrase;
  mret (saved, r).

(** The save succeeds, and the load finds the file it wrote. *)
Lemma spec_sm2_save_then_load d k ps :
  nul_free d → directory_name d → passphrase_valid (Some ps) = true →
  EVP_PKEY_is_a (obj_val k) "SM2" ≠ 0 → reliable_malloc → reliable_files →
  pem_writes always (obj_val k) ps (λ _, True) →
  Spec (sm2_save_then_load (Some d) (Some k) (Some ps))
    (λ s, alive (Some k) s ∧ (files s !! d = None ∨ private_directory (files s) d) ∧ files s !! sm2_file d = None)
    (λ r s s', fst r = true ∧ live s' = live s ⊎ owns (snd r) ∧ ∃ pem, pem_writes once (obj_val k) ps (eq pem) ∧
       private_file (files s') (sm2_file d) pem ∧
       (∀ o, snd r = Some o → pem_reads once pem ps (eq (obj_val o))) ∧
       ∀ P, pem_reads always pem ps P → ∃ o, snd r = Some o ∧ P (obj_val o)).
Proof.
  intros Hnf Hdn Hv His Hm Hr Hpem. wp_start. destruct P as (Hk & Hd & Hno). unfold sm2_save_then_load.
  wp_call as saved (s1 & fs & F1 & -> & Hok & _ & Hall). fs_simpl.
  assert (saved = true) as -> by by apply (Hall d k ps).
  destruct (Hok eq_refl) as (? & fs0 & ? & ? & pem & [= <-] & [= <-] & [= <-] & _ & _ & Hent & (m & Hm' & Hpm) & _ & Hpw & ->).
  clear Hok Hall. pose proof key_file_mode_private.
  set (fs := <[sm2_file d := Regular key_file_mode pem]> fs0).
  assert (Hfile : private_file fs (sm2_file d) pem).
  { exists key_file_mode. split; [|done]. unfold fs. by rewrite lookup_insert_eq. }
  assert (Hdir : private_directory fs d).
  { exists m. split; [|done]. unfold fs. by rewrite lookup_insert_ne by apply store_path_differs. }
  wp_call as key (s2 & fs' & F2 & -> & Hent' & Hsnd & Hall). fs_simpl.
  assert (fs' = fs) as ->.
  { destruct Hent' as [?|(? & [= <-] & [?|[Hn _]])]; [done..|]. destruct Hdir as (? & ? & _). congruence. }
  apply wp_ret. split; [done|]. cbn [fst snd].
  lazymatch goal with F : frame _ _ s ?s' |- context [with_files fs ?s'] => pose proof (frame_live _ _ _ _ F) as L;
    change (live (with_files fs s')) with (live s') end.
  split; [clear -L; ms_lia|]. exists pem. fs_simpl. split_and!; try done.
  - intros o ->. destruct (Hsnd o eq_refl) as (? & ? & c & [= <-] & [= <-] & _ & _ & (m' & Hc & _) & Hrd).
    destruct Hfile as (m2 & Hc2 & _). rewrite Hc in Hc2. by injection Hc2 as <- <-.
  - intros P HP. by apply (Hall d ps pem).
Qed.

(** An SM2 key saved in a store of its own is read back under the
    passphrase it was saved under, if that has at most [PEM_BUFSIZE] bytes;
    loading acquires one reference. *)
Theorem hybrid_sm2_key_store_round_trip `{!StoreLaws} d k ps s :
  nul_free d → directory_name d → passphrase_valid (Some ps) = true → strlen ps ≤ PEM_BUFSIZE →
  EVP_PKEY_is_a (obj_val k) "SM2" ≠ 0 → pem_writes always (obj_val k) ps (λ _, True) →
  alive (Some k) s → files s !! d = None ∨ private_directory (files s) d → files s !! sm2_file d = None →
  wp (sm2_save_then_load (Some d) (Some k) (Some ps))
    (λ r s', ∃ o, r = (true, Some o) ∧ obj_val o = obj_val k ∧ live s' = live s ⊎ owns (Some o)) s.
Proof.
  intros Hnf Hdn Hv Hb His Hpem Hk Hd Hno.
  eapply wp_mono; [apply (spec_sm2_save_then_load d k ps); try done; [apply law_malloc|apply law_files]|].
  intros [ok r] s' (Hok & L & pem & Hpw & _ & _ & Hall). cbn [fst snd] in *. subst ok.
  destruct (Hall _ (law_pem _ _ _ His Hv Hb Hpw)) as (o & -> & Ho). by exists o.
Qed.

(** What is encrypted is not read without a passphrase: a callback that
    stores none makes the read fail. *)
Class PemNeedsPassword : Prop := {
  law_pem_password k ps pem cb t :
    pem_writes once k ps (eq pem) → fst (cb PEM_BUFSIZE) ≤ 0 → PEM_read_PrivateKey pem cb t = None
}.

(** C34. A passphrase longer than the buffer OpenSSL reads it into is accepted
    when a key is saved, and the key cannot be loaded with it: the save
    succeeds and the load fails, with nothing else wrong. *)
Theorem long_passphrase_not_loadable `{!PemNeedsPassword} d k ps s :
  nul_free d → directory_name d → passphrase_valid (Some ps) = true → PEM_BUFSIZE < strlen ps →
  EVP_PKEY_is_a (obj_val k) "SM2" ≠ 0 → reliable_malloc → reliable_files →
  pem_writes always (obj_val k) ps (λ _, True) →
  alive (Some k) s → files s !! d = None ∨ private_directory (files s) d → files s !! sm2_file d = None →
  wp (sm2_save_then_load (Some d) (Some k) (Some ps)) (λ r s', r = (true, None)) s.
Proof.
  intros Hnf Hdn Hv Hb His Hm Hr Hpem Hk Hd Hno.
  eapply wp_mono; [by apply (spec_sm2_save_then_load d k ps)|].
  intros [ok r] s' (Hok & _ & pem & Hpw & _ & Hsnd & _). cbn [fst snd] in *. subst ok.
  destruct r as [o|]; [|done]. destruct (Hsnd o eq_refl) as (t & Hrd).
  rewrite (law_pem_password _ _ _ _ t Hpw) in Hrd; [done|].
  by rewrite pem_password_too_long.
Qed.

(** [composite_public_keys_equal] answers yes only for two keys with the
    same Dilithium2 bytes and the same encoding of the SM2 point, and always
    for such keys when nothing fails. *)
Theorem composite_public_keys_equal_correct left right s :
  public_owns left ⊆ live s → from_option public_key_wf True left →
  public_owns right ⊆ live s → from_option public_key_wf True right →
  wp (composite_public_keys_equal left right)
    (λ r s', live s' = live s ∧
       (r = true → ∃ k l o o' e, left = Some k ∧ right = Some l ∧
          sm2_public_key k = Some o ∧ sm2_public_key l = Some o' ∧
          dilithium_public_key k = dilithium_public_key l ∧ sm2_octets (obj_val o) e ∧ sm2_octets (obj_val o') e) ∧
       (∀ k l o o' e, left = Some k → right = Some l → sm2_public_key k = Some o → sm2_public_key l = Some o' →
          reliable_malloc → dilithium_public_key k = dilithium_public_key l →
          sm2_encoding always (obj_val o) (eq e) → sm2_encoding always (obj_val o') (eq e) → r = true)) s.
Proof.
  intros Hl Hwl Hr Hwr. eapply wp_spec; [apply _|by split_and!|]. cbn beta. intros r s' (F & Ht & Hf).
  pose proof (frame_live _ _ _ _ F) as L. split; [ms_lia|by split].
Qed.

(** A value stored and read back. *)
Definition put_then_get (buf : list byte) (off v : Z) : M (list byte * Z) :=
  buf ← put_u32_be buf off v; v' ← get_u32_be (Some (zdrop off buf)); mret (buf, v').

(** [get_u32_be] reads what [put_u32_be] wrote: the value modulo [2 ^ 32],
    which for a [uint32_t] is the value itself; the four bytes written are the
    only ones that change. *)
Theorem u32_be_round_trip buf off v s :
  0 ≤ off → off + 4 ≤ len buf →
  wp (put_then_get buf off v)
    (λ r s', s' = s ∧ snd r = v mod 2 ^ 32 ∧ len (fst r) = len buf ∧
       ztake off (fst r) = ztake off buf ∧ zdrop (off + 4) (fst r) = zdrop (off + 4) buf) s.
Proof.
  intros Ho Hl. unfold put_then_get. pose proof (frame_refl s).
  assert (Hln : len (splice (Z.to_nat off) (u32_bytes v) buf) = len buf) by (apply len_splice; rewrite ?len_u32_bytes; lia).
  wp_call as b [-> ->]. wp_call as v' (-> & Hv & Hb).
  { cbn. rewrite len_zdrop by lia. lia. }
  apply wp_ret. cbn [fst snd]. split; [done|]. split; [|split; [done|split]].
  - rewrite <-(Z.mod_small v' (2 ^ 32)) by done. apply u32_bytes_mod. rewrite <-Hb. unfold bytes_at. cbn [default from_option id].
    apply (ztake_splice off (u32_bytes v) buf); rewrite ?len_u32_bytes; lia.
  - apply ztake_splice_before; lia.
  - apply (zdrop_splice_after off (u32_bytes v) buf); rewrite ?len_u32_bytes; lia.
Qed.

(** [password_callback] never writes more than the [size] bytes of its
    buffer: it copies the passphrase to the front when that fits, and
    otherwise writes nothing and returns zero. *)
Theorem password_callback_bounds b size ps :
  len b = size → 0 ≤ size →
  ∃ n b', password_callback (Some b) size (Some (PassphraseData ps (strlen ps))) = (n, Some b') ∧
    0 ≤ n ≤ size ∧ len b' = size ∧
    (0 < size → strlen ps ≤ size → n = strlen ps ∧ ztake n b' = lit ps ∧ zdrop n b' = zdrop n b) ∧
    (size < strlen ps → n = 0 ∧ b' = b).
Proof.
  intros Hb Hs. unfold password_callback. cbn [pass_length pass_bytes]. pose proof (len_lit ps) as Hl.
  pose proof (len_nonneg (lit ps)). destruct (Z.leb_spec size 0); cbn [orb].
  { exists 0, b. split_and!; try done; lia. }
  destruct (Z.gtb_spec (strlen ps) size); [exists 0, b; split_and!; try done; lia|].
  rewrite ztake_all by lia. exists (strlen ps), (splice 0 (lit ps) b).
  split; [done|]. split; [lia|]. split; [rewrite (len_splice 0); lia|]. split; [|lia]. intros _ _. split; [done|].
  rewrite <-Hl. split; [apply splice_prefix; lia|]. apply (zdrop_splice_after 0); lia.
Qed.

(** A file written through one descriptor and read through another. *)
Definition write_then_read (d d' : obj fd) (data : ptr) (buf : list byte) (n : Z)
    : M (bool * (bool * list byte)) :=
  '(ok, d) ← write_all d data n;
  '(ok', (buf, d')) ← read_all d' buf n;
  close d;; close d';;
  mret (ok, (ok', buf)).

(** C35. [write_all] and [read_all] terminate, with transfers of any size. What
    the first leaves in an empty file is a prefix of the data, and all of it
    if it reports success; the second then fills its buffer with the data, and
    reports success only with the bytes of the file. Both succeed when
    transfers do not fail. *)
Theorem transfer_round_trip d d' data buf n m s :
  owns (Some d) ⊎ owns (Some d') ⊆ live s → fd_path (obj_val d') = fd_path (obj_val d) →
  fd_offset (obj_val d) = 0 → fd_offset (obj_val d') = 0 →
  files s !! fd_path (obj_val d) = Some (Regular m []) →
  0 < n ≤ SIZE_MAX → n ≤ len buf → readable data n →
  wp (write_then_read d d' data buf n)
    (λ r s', let '(ok, (ok', buf')) := r in
       (∃ k, 0 ≤ k ≤ n ∧ (ok = true → k = n) ∧
          files s' = <[fd_path (obj_val d) := Regular m (bytes_at data k)]> (files s)) ∧
       (ok = true → ok' = true → ztake n buf' = bytes_at data n) ∧
       (reliable_files → ok = true ∧ ok' = true)) s.
Proof.
  intros Hd Hp Ho Ho' Hf Hn Hb Hr. unfold write_then_read. pose proof (frame_refl s).
  wp_call as [ok [i v]] (s1 & fs & F & -> & Hid & Hpath & Hw).
  cbn [fst snd obj_id obj_val] in *. subst i. fs_simpl.
  destruct (Hw m [] Hf Ho) as [(k & Hk & Hkn & ->) Hrel]. cbn [app] in *. clear Hw.
  assert (Hlk : len (bytes_at data k) = k).
  { destruct data as [x|]; cbn in Hr; [|lia]. apply len_ztake. cbn. lia. }
  wp_call as [ok' [buf' [i' v']]] (F2 & Hid' & Hl' & Hok' & Hrel').
  cbn [obj_id] in *. subst i'. fs_simpl.
  wp_call as rc [F3 _]. wp_call as rc' [F4 _]. apply wp_ret. fs_simpl.
  rewrite Hp, Ho', lookup_insert_eq in *. split; [by exists k|].
  unfold zdrop in Hok'. cbn in Hok'. split.
  - intros Hok Ht. destruct (Hok' Ht) as (m' & c & [= <- <-] & -> & _). rewrite (Hkn Hok). rewrite (Hkn Hok) in Hlk.
    rewrite <-Hlk at 1. by apply ztake_all.
  - intros Hrf. specialize (Hrel Hrf). split; [done|]. apply (Hrel' m _ eq_refl Hrf). rewrite Hlk, (Hkn Hrel). lia.
Qed.
End properties.

(** ** Witnesses *)

Section witnesses.
#[local] Existing Instances env_libc env_openssl env_openssl_sizes env_dilithium env_dilithium_sizes
  env_cipher env_cipher_sizes env_posix.

Lemma env_pem_writes k ps : pem_writes always k ps (λ _, True).
Proof. intros t. by split. Qed.

Lemma env_store_laws : StoreLaws.
Proof.
  split.
  - apply env_scheme_laws.
  - apply env_reliable_files.
  - done.
  - intros ps salt key (t & _ & ->) t'. done.
  - intros key iv aad text c tag _ _ Hs. unfold gcm_seal, gcm_sealing, once, on_some, on_pos in Hs. cbn in Hs.
    destruct_and?. repeat match goal with H : ∃ _, _ |- _ => destruct H as [? H] | H : _ ∧ _ |- _ => destruct H as [? H] end.
    subst c tag. unfold gcm_open, gcm_opening, always, on_some, on_pos. cbn. intros _.
    repeat (split; [done|intros _]). split; [done|]. by rewrite decide_True.
  - intros k ps pem _ Hv Hb (t & _ & ->). unfold passphrase_valid in Hv.
    apply andb_true_iff in Hv as [Hv%Z.geb_le _].
    intros t'. cbn [PEM_read_PrivateKey env_cipher]. unfold env_pem_read. cbn [snd PEM_write_PKCS8PrivateKey env_cipher].
    unfold env_pem_write, PEM_BUFSIZE in *. rewrite pem_password_fits by lia. cbn [fst snd].
    rewrite decide_True by (split; [lia|done]). split; [done|]. intros t1. cbn. by intros _.
Qed.

Lemma env_pem_needs_password : PemNeedsPassword.
Proof.
  split. intros k ps pem cb t (t' & _ & ->) Hcb. cbn. rewrite decide_False; [done|]. unfold PEM_BUFSIZE in Hcb. lia.
Qed.

Lemma env_always_seals ps pk sk : always_seals ps pk sk.
Proof.
  split; [done|]. split; [done|]. split; [by intros salt t|]. intros key iv aad.
  unfold gcm_seal, gcm_sealing, always, on_some, on_pos. cbn. intros _. repeat (split; [done|intros _]). done.
Qed.

Definition env_directory : string := "keys".
Definition env_passphrase : string := "correct horse".

Lemma env_directory_nul_free : nul_free env_directory.
Proof. by repeat constructor. Qed.

Lemma env_directory_name : directory_name env_directory.
Proof. done. Qed.

Lemma env_matching : matching env_private env_public env_key.
Proof.
  split; [done|]. split; [done|]. split; [|by exists 7%N].
  exists 0%N. exists 0%N. split; [done|]. by exists 7%N.
Qed.

Lemma hybrid_key_store_round_trip_witness :
  StoreLaws ∧ matching env_private env_public env_key ∧
  wp (save_then_load (Some env_directory) env_private env_public (Some env_passphrase))
    (λ r s', ∃ o', obj_val o' = obj_val env_key ∧
       r = (true, (true, pair o' (dilithium_public_key env_public) (dilithium_secret_key env_private))) ∧
       live s' = live (env_state [1%positive]) ⊎ owns (Some o') ⊎ owns (Some o') ∧
       private_directory (files s') env_directory ∧
       ∀ q, q ≠ env_directory → q ≠ sm2_file env_directory → q ≠ dilithium_file env_directory →
         files s' !! q = files (env_state [1%positive]) !! q) (env_state [1%positive]).
Proof.
  pose proof env_store_laws. split; [done|]. split; [apply env_matching|].
  apply hybrid_key_store_round_trip; try done; first [apply env_directory_nul_free|apply env_matching|
    apply env_key_alive|by left|apply env_pem_writes|apply env_always_seals].
Defined.

Lemma hybrid_key_store_load_sound_witness :
  wp (hybrid_key_store_load (Some env_directory) (Some env_passphrase) (Some env_private) (Some zero_public_key))
    (λ r s',
       (if fst r then ∃ d ps o pk sk, Some env_directory = Some d ∧ Some env_passphrase = Some ps ∧ 12 ≤ strlen ps ∧
          snd r = pair o pk sk ∧ stored once (files s') d ps (obj_val o) pk sk ∧
          self_tested (PrivateKey (Some o) sk) (PublicKey (Some o) pk) ∧
          live s' ⊎ (private_owns (Some env_private) ⊎ public_owns (Some zero_public_key)) =
            live (env_state [1%positive]) ⊎ (owns (Some o) ⊎ owns (Some o))
        else snd r = (Some env_private, Some zero_public_key) ∧ live s' = live (env_state [1%positive])) ∧
       (∃ rs, residue s' = rs ++ residue (env_state [1%positive]) ∧ Forall zeroed rs) ∧
       (files s' = files (env_state [1%positive]) ∨
          ∃ d, Some env_directory = Some d ∧ entered d (files (env_state [1%positive])) (files s')))
    (env_state [1%positive]).
Proof.
  apply hybrid_key_store_load_sound; [apply env_directory_nul_free| |apply env_private_wf].
  cbn. rewrite ms_right_id. apply env_key_alive.
Defined.

Lemma hybrid_key_store_save_correct_witness :
  wp (hybrid_key_store_save (Some env_directory) (Some env_private) (Some env_public) (Some env_passphrase))
    (λ r s', live s' = live (env_state [1%positive]) ∧
       (∃ rs, residue s' = rs ++ residue (env_state [1%positive]) ∧ Forall zeroed rs) ∧
       (r = true → ∃ d k p o ps pem blob, Some env_directory = Some d ∧ Some env_private = Some k ∧
          Some env_public = Some p ∧
          sm2_private_key k = Some o ∧ Some env_passphrase = Some ps ∧ 12 ≤ strlen ps ∧ self_tested k p ∧
          private_directory (files s') d ∧
          files (env_state [1%positive]) !! sm2_file d = None ∧ private_file (files s') (sm2_file d) pem ∧
          pem_writes once (obj_val o) ps (eq pem) ∧
          files (env_state [1%positive]) !! dilithium_file d = None ∧
          private_file (files s') (dilithium_file d) blob ∧
          sealed ps (dilithium_public_key p) (dilithium_secret_key k) blob ∧
          ∀ q, q ≠ d → q ≠ sm2_file d → q ≠ dilithium_file d →
            files s' !! q = files (env_state [1%positive]) !! q)) (env_state [1%positive]).
Proof.
  apply hybrid_key_store_save_correct; [apply env_directory_nul_free|apply env_key_alive|apply env_private_wf|
    apply env_key_alive|apply env_public_wf].
Defined.

(** A store that holds a container already. *)
Definition env_occupied : state :=
  with_files {[dilithium_file env_directory := Regular 0x180 [Byte.x01]]} (env_state [1%positive]).

Lemma hybrid_key_store_save_keeps_files_witness :
  wp (hybrid_key_store_save (Some env_directory) (Some env_private) (Some env_public) (Some env_passphrase))
    (λ r s',
       (∀ q n, files env_occupied !! q = Some n → files s' !! q = Some n ∨
          r = false ∧ files s' !! q = None ∧ ∃ d, Some env_directory = Some d ∧ q = dilithium_file d ∧
            ((∃ t, n = Symlink t) ∨ ∃ e, fault "access" q e)) ∧
       (r = false → reliable_files → ∀ q, Some q ≠ Some env_directory →
          files s' !! q = files env_occupied !! q ∨ ∃ t, files env_occupied !! q = Some (Symlink t))) env_occupied.
Proof.
  apply hybrid_key_store_save_keeps_files; [apply env_directory_nul_free|apply env_key_alive|apply env_private_wf|
    apply env_key_alive|apply env_public_wf].
Defined.

Lemma hybrid_sm2_key_store_round_trip_witness :
  StoreLaws ∧
  wp (sm2_save_then_load (Some env_directory) (Some env_key) (Some env_passphrase))
    (λ r s', ∃ o, r = (true, Some o) ∧ obj_val o = obj_val env_key ∧
       live s' = live (env_state [1%positive]) ⊎ owns (Some o)) (env_state [1%positive]).
Proof.
  pose proof env_store_laws. split; [done|].
  apply hybrid_sm2_key_store_round_trip; try done; first [apply env_directory_nul_free|apply env_pem_writes|
    apply env_key_alive|by left].
Defined.

Definition env_long_passphrase : string := Nat.iter 1100 (λ s, String.append "a" s) "".

Lemma long_passphrase_not_loadable_witness :
  PemNeedsPassword ∧ PEM_BUFSIZE < strlen env_long_passphrase ∧
  wp (sm2_save_then_load (Some env_directory) (Some env_key) (Some env_long_passphrase))
    (λ r s', r = (true, None)) (env_state [1%positive]).
Proof.
  pose proof env_pem_needs_password. split; [done|]. split; [by vm_compute|].
  apply long_passphrase_not_loadable; try done; first [apply env_directory_nul_free|apply env_pem_writes|
    apply env_key_alive|by left].
Defined.

Lemma composite_public_keys_equal_correct_witness :
  wp (composite_public_keys_equal (Some env_public) (Some env_public))
    (λ r s', live s' = live (env_state [1%positive]) ∧
       (r = true → ∃ k l o o' e, Some env_public = Some k ∧ Some env_public = Some l ∧
          sm2_public_key k = Some o ∧ sm2_public_key l = Some o' ∧
          dilithium_public_key k = dilithium_public_key l ∧ sm2_octets (obj_val o) e ∧ sm2_octets (obj_val o') e) ∧
       (∀ k l o o' e, Some env_public = Some k → Some env_public = Some l → sm2_public_key k = Some o →
          sm2_public_key l = Some o' → reliable_malloc → dilithium_public_key k = dilithium_public_key l →
          sm2_encoding always (obj_val o) (eq e) → sm2_encoding always (obj_val o') (eq e) → r = true))
    (env_state [1%positive]).
Proof.
  apply composite_public_keys_equal_correct; first [apply env_key_alive|apply env_public_wf].
Defined.

Lemma u32_be_round_trip_witness :
  wp (put_then_get (zeros 8) 2 (2 ^ 32 + 300))
    (λ r s', s' = empty_state ∧ snd r = (2 ^ 32 + 300) mod 2 ^ 32 ∧ len (fst r) = len (zeros 8) ∧
       ztake 2 (fst r) = ztake 2 (zeros 8) ∧ zdrop (2 + 4) (fst r) = zdrop (2 + 4) (zeros 8)) empty_state.
Proof. by apply u32_be_round_trip. Defined.

Lemma password_callback_bounds_witness :
  ∃ n b', password_callback (Some (zeros 1024)) 1024
      (Some (PassphraseData env_passphrase (strlen env_passphrase))) = (n, Some b') ∧
    0 ≤ n ≤ 1024 ∧ len b' = 1024 ∧
    (0 < 1024 → strlen env_passphrase ≤ 1024 →
      n = strlen env_passphrase ∧ ztake n b' = lit env_passphrase ∧ zdrop n b' = zdrop n (zeros 1024)) ∧
    (1024 < strlen env_passphrase → n = 0 ∧ b' = zeros 1024).
Proof. by apply password_callback_bounds. Defined.

(** An empty file, open twice. *)
Definition env_open : state := with_files {["f"%string := Regular 0x180 []]} (env_state [1%positive; 2%positive]).

Lemma transfer_round_trip_witness :
  wp (write_then_read (Obj 1%positive (Fd "f" 0)) (Obj 2%positive (Fd "f" 0)) (Some (lit env_passphrase)) (zeros 20) 13)
    (λ r s', let '(ok, (ok', buf')) := r in
       (∃ k, 0 ≤ k ≤ 13 ∧ (ok = true → k = 13) ∧
          files s' = <["f"%string := Regular 0x180 (bytes_at (Some (lit env_passphrase)) k)]> (files env_open)) ∧
       (ok = true → ok' = true → ztake 13 buf' = bytes_at (Some (lit env_passphrase)) 13) ∧
       (reliable_files → ok = true ∧ ok' = true)) env_open.
Proof.
  apply (transfer_round_trip (Obj 1%positive (Fd "f" 0)) (Obj 2%positive (Fd "f" 0)) (Some (lit env_passphrase))
    (zeros 20) 13 0x180 env_open); try done.
Defined.
End witnesses.
