(* ===== verification/KeyLife.v ===== *)
(** * Keys in the hands of a client

    What key generation, parsing, the key store and cleanup do to the two key
    structures of a client: which references are taken and given, which files
    are touched; and any sequence of these operations. *)

From S2P Require Import Prelude Machine External Posix Environment Dilithium Sm2 CompositeKey CompositeSig.
From S2P Require Import KeyStore KeyStoreFiles KeyStoreKeys KeyStoreContainer KeyStoreSave KeyStorePair.

(** The two key structures of a client. *)
Abbreviation client_keys := (option HYBRID_PRIVATE_KEY * option HYBRID_PUBLIC_KEY)%type.

Section clients.
Context `{Libc, OpenSSL, !OpenSSLSizes, Dilithium2, !Dilithium2Sizes, !OpenSSLCipher, !CipherSizes, Posix}.

(** What was allocated and released between two states; the steps of the tool
    also change files and print, and leave what key generation leaves. *)
Definition moves (take give : gmultiset positive) (s s' : state) : Prop := live s' ⊎ take = live s ⊎ give.

(** What is at the paths of [X] stays. *)
Definition kept (X : string → Prop) (fs fs' : gmap string node) : Prop := ∀ p, X p → fs' !! p = fs !! p.

(** Paths that are not those of a key store. *)
Definition away (directory : option string) (p : string) : Prop :=
  ∀ d, directory = Some d → p ≠ d ∧ p ≠ sm2_file d ∧ p ≠ dilithium_file d.

Lemma entered_kept d fs fs' : entered d fs fs' → kept (away (Some d)) fs fs'.
Proof.
  intros [->|(_ & ->)] p Hp; [done|]. destruct (Hp d eq_refl) as (Hd & _). by rewrite lookup_insert_ne.
Qed.

Lemma not_saved_kept d fs fs' : not_saved (sm2_file d) fs fs' → kept (away (Some d)) fs fs'.
Proof.
  intros [->|(_ & (c & ->) & _)] p Hp; [done|]. destruct (Hp d eq_refl) as (_ & Hd & _).
  by rewrite lookup_insert_ne.
Qed.

Lemma restored_kept d fs fs' : restored d fs fs' → kept (away (Some d)) fs fs'.
Proof.
  intros Hr p Hp. destruct (Hp d eq_refl) as (_ & H1' & H2'). by destruct (Hr p) as [?|[(? & _)|([?|?] & _)]].
Qed.

Lemma kept_trans X fs fs' fs'' : kept X fs fs' → kept X fs' fs'' → kept X fs fs''.
Proof. intros H1' H2' p Hp. by rewrite (H2' p Hp), (H1' p Hp). Qed.

(** The outcomes of the operations of the store. *)
Lemma wp_save_kept d priv pub ps s Φ :
  from_option nul_free True d → private_owns priv ⊆ live s → from_option private_key_wf True priv →
  public_owns pub ⊆ live s → from_option public_key_wf True pub →
  (∀ ok s', live s' = live s → kept (away d) (files s) (files s') → Φ ok s') →
  wp (hybrid_key_store_save d priv pub ps) Φ s.
Proof.
  intros Hd Ha Hwa Hb Hwb HΦ. eapply wp_spec; [apply _|by split_and!|].
  intros ok s' (s1 & fs & F & -> & Hok & Hno & _). apply HΦ.
  - pose proof (frame_live _ _ _ _ F). change (live (with_files fs s1)) with (live s1). ms_lia.
  - change (files (with_files fs s1)) with fs. rewrite <-(frame_files _ _ _ _ F). destruct ok.
    + destruct (Hok eq_refl) as (d' & fs0 & ? & ? & ? & ? & ? & ? & -> & _ & _ & _ & _ & _ & _ & He & _ & _ & _ & _ & _ & ->).
      eapply kept_trans; [by apply entered_kept|]. intros p Hp. destruct (Hp d' eq_refl) as (_ & ? & ?).
      by rewrite !lookup_insert_ne.
    + destruct (Hno eq_refl) as [->|(d' & fs0 & -> & He & Hr)]; [done|].
      eapply kept_trans; [by apply entered_kept|by apply restored_kept].
Qed.

Lemma wp_sm2_save_kept d key ps s Φ :
  from_option nul_free True d → alive key s →
  (∀ ok s', live s' = live s → kept (away d) (files s) (files s') → Φ ok s') →
  wp (hybrid_sm2_key_store_save d key ps) Φ s.
Proof.
  intros Hd Hk HΦ. eapply wp_spec; [apply _|done|].
  intros ok s' (s1 & fs & F & -> & Hok & Hno & _). apply HΦ.
  - pose proof (frame_live _ _ _ _ F). change (live (with_files fs s1)) with (live s1). ms_lia.
  - change (files (with_files fs s1)) with fs. rewrite <-(frame_files _ _ _ _ F). destruct ok.
    + destruct (Hok eq_refl) as (d' & fs0 & ? & ? & ? & -> & _ & _ & _ & _ & He & _ & _ & _ & ->).
      eapply kept_trans; [by apply entered_kept|]. intros p Hp. destruct (Hp d' eq_refl) as (_ & ? & ?).
      by rewrite lookup_insert_ne.
    + destruct (Hno eq_refl) as [->|(d' & fs0 & -> & He & Hr)]; [done|].
      eapply kept_trans; [by apply entered_kept|by apply not_saved_kept].
Qed.

Lemma generated_wf sk pk :
  dilithium_keypair (dilithium_public_key pk) (dilithium_secret_key sk) →
  private_key_wf sk ∧ public_key_wf pk.
Proof. intros [t Hkp]. by destruct (dilithium2_keypair_sizes _ _ _ Hkp). Qed.

(** Key generation, as far as the references and the sizes of the keys go. *)
Lemma wp_generate_pair priv pub s Φ :
  private_owns priv ⊎ public_owns pub ⊆ live s → from_option private_key_wf True priv →
  from_option public_key_wf True pub →
  (∀ ok priv' pub' s', moves (private_owns priv ⊎ public_owns pub) (private_owns priv' ⊎ public_owns pub') s s' →
     files s' = files s →
     from_option private_key_wf True priv' → from_option public_key_wf True pub' → Φ (ok, (priv', pub')) s') →
  wp (composite_key_generate priv pub) Φ s.
Proof.
  intros Hl Hpr Hpu HΦ. eapply wp_spec; [apply _|done|]. intros [[] [sk pk]] s'.
  - destruct sk as [sk|], pk as [pk|]; [|done..]. intros (o & s1 & Hsk & Hpk & _ & Hkp & F & ->).
    destruct (generated_wf _ _ Hkp). apply HΦ; [|by apply (frame_files _ _ _ _ F)|done..]. unfold moves. cbn [private_owns public_owns].
    rewrite Hsk, Hpk. change (live (add_residue ?x s1)) with (live s1). pose proof (frame_live _ _ _ _ F) as L.
    cbn [owns]. ms_lia.
  - intros ([= -> ->] & F & _). apply HΦ; [|by apply (frame_files _ _ _ _ F)|done..]. pose proof (frame_live _ _ _ _ F). unfold moves. ms_lia.
Qed.

Lemma wp_load_pair d ps priv pub s Φ :
  from_option nul_free True d → private_owns priv ⊎ public_owns pub ⊆ live s →
  from_option private_key_wf True priv → from_option public_key_wf True pub →
  (∀ ok priv' pub' s', moves (private_owns priv ⊎ public_owns pub) (private_owns priv' ⊎ public_owns pub') s s' →
     kept (away d) (files s) (files s') →
     from_option private_key_wf True priv' → from_option public_key_wf True pub' → Φ (ok, (priv', pub')) s') →
  wp (hybrid_key_store_load d ps priv pub) Φ s.
Proof.
  intros Hd Hl Hw1 Hw2 HΦ. eapply wp_spec; [apply _|done|].
  intros [ok r] s' (s1 & fs & -> & He & Hok & Hno & _). cbn [fst snd] in *.
  assert (kept (away d) (files s) fs) by (destruct He as [->|(d' & -> & He)]; [done|by apply entered_kept]).
  destruct ok.
  - destruct (Hok eq_refl) as (? & ? & o & pk & sk & _ & _ & _ & _ & _ & -> & F & Hst & _).
    destruct Hst as (_ & _ & c & _ & ? & ? & _). apply HΦ; [|done..]. pose proof (frame_live _ _ _ _ F).
    unfold moves. change (live (with_files fs s1)) with (live s1).
    cbn [private_owns public_owns sm2_private_key sm2_public_key]. ms_lia.
  - destruct (Hno eq_refl) as [F ->]. apply HΦ; [|done..]. pose proof (frame_live _ _ _ _ F).
    unfold moves. change (live (with_files fs s1)) with (live s1). ms_lia.
Qed.

(** ** Sequences of operations *)

(** The operations on the two key structures of a client. *)
Inductive key_operation :=
  | Generate
  | Parse (bytes : ptr) (length : Z)
  | Load (directory passphrase : option string)
  | Save (directory passphrase : option string)
  | CleanupPrivate
  | CleanupPublic.

(** The outcome of an operation is for the client; the structures change. *)
Definition apply_operation (op : key_operation) (keys : client_keys) : M client_keys :=
  let '(priv, pub) := keys in
  match op with
  | Generate => '(_, keys) ← composite_key_generate priv pub; mret keys
  | Parse bytes n => '(_, pub) ← composite_parse_public_key bytes n pub; mret (priv, pub)
  | Load d ps => '(_, keys) ← hybrid_key_store_load d ps priv pub; mret keys
  | Save d ps => hybrid_key_store_save d priv pub ps;; mret keys
  | CleanupPrivate => priv ← hybrid_private_key_cleanup priv; mret (priv, pub)
  | CleanupPublic => pub ← hybrid_public_key_cleanup pub; mret (priv, pub)
  end.

Fixpoint apply_operations (ops : list key_operation) (keys : client_keys) : M client_keys :=
  match ops with
  | [] => mret keys
  | op :: ops => keys ← apply_operation op keys; apply_operations ops keys
  end.

(** Arguments that are C strings and arrays. *)
Definition operation_valid (op : key_operation) : Prop :=
  match op with
  | Parse bytes n => valid bytes n
  | Load d _ | Save d _ => from_option nul_free True d
  | _ => True
  end.

(** The arrays have the sizes of their types, and there is one reference for
    every field that is not [NULL], besides those of [base]. *)
Definition keys_typed (base : gmultiset positive) (keys : client_keys) (s : state) : Prop :=
  live s = base ⊎ private_owns (fst keys) ⊎ public_owns (snd keys) ∧
  from_option private_key_wf True (fst keys) ∧ from_option public_key_wf True (snd keys).

Lemma typed_moves base priv pub priv' pub' s s' :
  moves (private_owns priv ⊎ public_owns pub) (private_owns priv' ⊎ public_owns pub') s s' →
  live s = base ⊎ private_owns priv ⊎ public_owns pub →
  from_option private_key_wf True priv' → from_option public_key_wf True pub' →
  keys_typed base (priv', pub') s'.
Proof. unfold moves, keys_typed. intros L L' ? ?. split_and!; [cbn [fst snd]; ms_lia|done..]. Qed.

Lemma init_private_typed k :
  private_owns (hybrid_private_key_init k) = ∅ ∧ from_option private_key_wf True (hybrid_private_key_init k).
Proof. destruct k; [split; [done|apply zero_private_key_wf]|done]. Qed.

Lemma init_public_typed k :
  public_owns (hybrid_public_key_init k) = ∅ ∧ from_option public_key_wf True (hybrid_public_key_init k).
Proof. destruct k; [split; [done|apply zero_public_key_wf]|done]. Qed.

Lemma typed_frame base take give keys s s' :
  frame take give s s' →
  (live s ⊎ give = base ⊎ private_owns (fst keys) ⊎ public_owns (snd keys) ⊎ take) →
  from_option private_key_wf True (fst keys) → from_option public_key_wf True (snd keys) →
  keys_typed base keys s'.
Proof. intros F%frame_live L ? ?. split; [ms_lia|done]. Qed.

Lemma wp_apply_operation op base keys s :
  operation_valid op → keys_typed base keys s →
  wp (apply_operation op keys) (keys_typed base) s.
Proof.
  destruct keys as [priv pub]. intros Hop (L & Hpr & Hpu). cbn [fst snd] in *. pose proof (frame_refl s).
  assert (private_owns priv ⊎ public_owns pub ⊆ live s) by ms_lia.
  destruct op as [|bytes n|d ps|d ps| |]; cbn [apply_operation operation_valid] in *.
  - apply wp_bind, wp_generate_pair; [done..|]. intros. apply wp_ret. by eapply typed_moves.
  - wp_call as [ok k] [[F Hk] _]. apply wp_ret. cbn [fst snd] in *.
    eapply typed_frame; [done|cbn [fst snd]; ms_lia|done|]. cbn [fst snd]. destruct ok; [|by subst k].
    destruct Hk as (e & o & -> & _ & -> & _ & -> & _). destruct Hop as [_ Hv]. cbn in Hv |- *.
    unfold public_key_wf. cbn. rewrite len_ztake; size_lia.
  - apply wp_bind, wp_load_pair; [done..|]. intros. apply wp_ret. by eapply typed_moves.
  - apply wp_bind, wp_save_kept; [done|ms_lia|done|ms_lia|done|]. intros ok s' L' _. apply wp_ret.
    split; [cbn [fst snd]; ms_lia|done].
  - wp_call as k [F ->]. apply wp_ret. destruct (init_private_typed priv) as [Ho Hw].
    eapply typed_frame; [done|cbn [fst snd]; ms_lia|done..].
  - wp_call as k [F ->]. apply wp_ret. destruct (init_public_typed pub) as [Ho Hw].
    eapply typed_frame; [done|cbn [fst snd]; ms_lia|done..].
Qed.

Lemma wp_apply_operations ops base keys s :
  Forall operation_valid ops → keys_typed base keys s →
  wp (apply_operations ops keys) (keys_typed base) s.
Proof.
  intros Hops. revert keys s. induction Hops as [|op ops Hop _ IH]; intros keys s Hk; cbn [apply_operations].
  - by apply wp_ret.
  - apply wp_bind. eapply wp_mono; [by apply wp_apply_operation|]. intros. by apply IH.
Qed.

(** C15. Whatever sequence of key generations, parses, loads, saves and cleanups
    two key structures go through, their arrays keep their sizes and there is
    exactly one live reference for every field that is set: nothing is leaked
    by an operation that overwrites a key, nothing is released twice, and
    cleaning both structures up at the end releases all of it. *)
Theorem key_operations_typed ops base keys s :
  Forall operation_valid ops → keys_typed base keys s →
  wp (apply_operations ops keys) (λ keys' s', keys_typed base keys' s' ∧
    wp (apply_operations [CleanupPrivate; CleanupPublic] keys') (λ _ s'', live s'' = base) s') s.
Proof.
  intros Hops Hk. eapply wp_mono; [by apply wp_apply_operations|]. intros [priv pub] s' Hk'. split; [done|].
  destruct Hk' as (L & Hpr & Hpu). cbn [fst snd apply_operations apply_operation] in *. pose proof (frame_refl s').
  wp_call as k [F ->]. wp_pure. cbn [apply_operation]. wp_call as k [F1 ->]. wp_pure. apply wp_ret.
  match goal with F : frame _ _ s' _ |- _ => apply frame_live in F; ms_lia end.
Qed.
End clients.

(** ** A concrete instance *)

Section example.
#[local] Existing Instances env_libc env_openssl env_openssl_sizes env_dilithium env_dilithium_sizes
  env_cipher env_cipher_sizes env_posix.

(** Generation over a generated pair, saving, cleanup and loading. *)
Definition env_operations : list key_operation :=
  [Generate; Generate; Save (Some "d"%string) (Some "a passphrase"%string); CleanupPrivate;
   Load (Some "d"%string) (Some "a passphrase"%string); Parse (Some [Byte.x04]) 1].
Definition env_fresh_keys : client_keys := (Some zero_private_key, Some zero_public_key).

Lemma key_operations_typed_witness :
  Forall operation_valid env_operations ∧ keys_typed ∅ env_fresh_keys empty_state ∧
  wp (apply_operations env_operations env_fresh_keys) (λ keys' s', keys_typed ∅ keys' s' ∧
    wp (apply_operations [CleanupPrivate; CleanupPublic] keys') (λ _ s'', live s'' = ∅) s') empty_state.
Proof.
  assert (Hops : Forall operation_valid env_operations).
  { assert (nul_free "d"%string) by by repeat constructor.
    unfold env_operations. by repeat apply Forall_cons_2. }
  assert (Hk : keys_typed ∅ env_fresh_keys empty_state).
  { split; [done|]. split; [apply zero_private_key_wf|apply zero_public_key_wf]. }
  split; [done|]. split; [done|]. by apply (key_operations_typed env_operations ∅ env_fresh_keys empty_state).
Defined.
End example.
