(* ===== verification/X509.v ===== *)
(** * hybrid_x509.h, hybrid_x509.c (reading a certificate)

    The certificate accessors: the signed bytes, the signature, the composite
    and SM2 subject keys, the composite algorithm identifiers and the marker
    extension. *)

From S2P Require Import Prelude Machine External Environment Dilithium Sm2 CompositeKey CompositeSig.

Definition COMPOSITE_SM2_DILITHIUM_EXPERIMENTAL_OID : string := "1.3.6.1.4.1.32473.1.1".
Definition HYBRID_PQC_EXTENSION_OID : string := "1.3.6.1.4.1.2.267.7".
Definition V_ASN1_UNDEF : Z := -1.

Section x509.
Context `{Libc, OpenSSL, Dilithium2, !X509Library}.

Definition hybrid_x509_get_tbs_der (certificate : option (obj X509)) (der : outbuf)
    : M (bool * outbuf) :=
  if out_null der then mret (false, der)
  else
    let der := fresh_out in
    match certificate with
    | None => free_object (None : option block);; mret (false, der)
    | Some cert =>
        c ← deref cert;
        r ← call (i2d_re_X509_tbs c);
        output ← new_object (λ _, snd r);
        if fst r <=? 0 then free_object output;; mret (false, der)
        else mret (true, (Some output, Some (size_of_Z (fst r))))
    end.

Definition algorithm_is_composite_and_absent (algorithm : option X509_ALGOR) : bool :=
  match algorithm with
  | None => false
  | Some a =>
      match X509_ALGOR_get0 a with
      | (Some object, parameter_type) =>
          let '(n, oid) := OBJ_obj2txt 128 object 1 in
          (parameter_type =? V_ASN1_UNDEF) && (n >? 0) &&
          bool_decide (oid = COMPOSITE_SM2_DILITHIUM_EXPERIMENTAL_OID)
      | (None, _) => false
      end
  end.

(** [tbs->algorithm] is the object [X509_ALGOR_get0] returns. *)
Definition hybrid_x509_composite_signature_algorithms_valid
    (certificate : option (obj X509)) : M bool :=
  match certificate with
  | None => mret false
  | Some cert =>
      c ← deref cert;
      let '(signature, outer) := X509_get0_signature c in
      let tbs := X509_get0_tbs_sigalg c in
      if negb (is_null signature) && algorithm_is_composite_and_absent tbs &&
         algorithm_is_composite_and_absent outer
      then
        match X509_ALGOR_get0 <$> tbs, X509_ALGOR_get0 <$> outer with
        | Some (Some t, _), Some (Some o, _) => mret (OBJ_cmp t o =? 0)
        | _, _ => undefined
        end
      else mret false
  end.

Definition hybrid_x509_subject_public_key_is_composite (certificate : option (obj X509)) : M bool :=
  match certificate with
  | None => mret false
  | Some cert =>
      c ← deref cert;
      match X509_get_X509_PUBKEY c with
      | None => mret false
      | Some spki =>
          let '(rc, (_, _, algorithm)) := X509_PUBKEY_get0_param spki in
          mret (negb (rc =? 0) && algorithm_is_composite_and_absent algorithm)
      end
  end.

Definition hybrid_x509_subject_public_key_is_sm2 (certificate : option (obj X509)) : M bool :=
  match certificate with
  | None => mret false
  | Some cert =>
      c ← deref cert;
      key ← new_object (X509_get_pubkey c);
      valid ← match key with
              | None => mret false
              | Some k => v ← deref k; mret (negb (EVP_PKEY_is_a v "SM2" =? 0))
              end;
      free_object key;;
      mret valid
  end.

Definition hybrid_x509_composite_algorithms_valid (certificate : option (obj X509)) : M bool :=
  ok ← hybrid_x509_composite_signature_algorithms_valid certificate;
  if negb ok then mret false else hybrid_x509_subject_public_key_is_composite certificate.

Definition hybrid_x509_get_composite_public_key (certificate : option (obj X509))
    (public_key : option HYBRID_PUBLIC_KEY) : M (bool * option HYBRID_PUBLIC_KEY) :=
  match certificate with
  | None => mret (false, public_key)
  | Some cert =>
      if is_null public_key then mret (false, public_key)
      else
        c ← deref cert;
        match X509_get_X509_PUBKEY c, X509_get0_pubkey_bitstr c with
        | Some spki, Some public_key_bits =>
            if negb (Z.land (bits_flags public_key_bits) 7 =? 0) then mret (false, public_key)
            else
              let '(rc, (serialized, serialized_len, algorithm)) := X509_PUBKEY_get0_param spki in
              if (rc =? 0) || negb (algorithm_is_composite_and_absent algorithm) ||
                 (serialized_len <=? 0)
              then mret (false, public_key)
              else composite_parse_public_key serialized (size_of_Z serialized_len) public_key
        | _, _ => mret (false, public_key)
        end
  end.

Definition hybrid_x509_public_key_matches (certificate : option (obj X509))
    (public_key : option HYBRID_PUBLIC_KEY) : M bool :=
  let certificate_key := Some zero_public_key in
  let done (certificate_key : option HYBRID_PUBLIC_KEY)
      (certificate_bytes loaded_bytes : outbuf) (matches : bool) :=
    free_object (out_block loaded_bytes);;
    free_object (out_block certificate_bytes);;
    hybrid_public_key_cleanup certificate_key;;
    mret matches in
  if is_null certificate || is_null public_key
  then done certificate_key fresh_out fresh_out false
  else
    '(ok, certificate_key) ← hybrid_x509_get_composite_public_key certificate certificate_key;
    if negb ok then done certificate_key fresh_out fresh_out false
    else
      '(ok, cb) ← composite_serialize_public_key certificate_key fresh_out;
      if negb ok then done certificate_key cb fresh_out false
      else
        '(ok, lb) ← composite_serialize_public_key public_key fresh_out;
        if negb ok || negb (out_len cb =? out_len lb) then done certificate_key cb lb false
        else
          c ← borrow (out_block cb);
          l ← borrow (out_block lb);
          c ← read c (out_len lb);
          l ← read l (out_len lb);
          done certificate_key cb lb (bool_decide (c = l)).

(** The 65-byte array at [output] is filled, or zeroed on failure. *)
Definition hybrid_x509_get_sm2_public_key_octets (certificate : option (obj X509)) (output : ptr)
    : M (bool * ptr) :=
  match certificate, output with
  | Some cert, Some buf =>
      c ← deref cert;
      key ← new_object (X509_get_pubkey c);
      '(ok, buf) ←
        match key with
        | None => mret (false, buf)
        | Some k =>
            v ← deref k;
            if EVP_PKEY_is_a v "SM2" =? 0 then mret (false, buf)
            else
              '(rc, pub) ← call (EVP_PKEY_get_pub v SM2_UNCOMPRESSED_PUBLIC_KEY_BYTES);
              buf ← memcpy buf 0 pub;
              mret ((rc >? 0) && (len pub =? SM2_UNCOMPRESSED_PUBLIC_KEY_BYTES) &&
                    bool_decide (buf !! 0%nat = Some Byte.x04), buf)
        end;
      free_object key;;
      if negb ok then
        buf ← cleanse buf SM2_UNCOMPRESSED_PUBLIC_KEY_BYTES; mret (false, Some buf)
      else mret (true, Some buf)
  | _, _ => mret (false, output)
  end.

Definition hybrid_x509_sm2_public_key_matches (certificate : option (obj X509))
    (public_key : option (obj EVP_PKEY)) : M bool :=
  certificate_bytes ← local_array SM2_UNCOMPRESSED_PUBLIC_KEY_BYTES;
  supplied_bytes ← local_array SM2_UNCOMPRESSED_PUBLIC_KEY_BYTES;
  let done (certificate_bytes supplied_bytes : list byte) (matches : bool) :=
    cleanse supplied_bytes SM2_UNCOMPRESSED_PUBLIC_KEY_BYTES;;
    cleanse certificate_bytes SM2_UNCOMPRESSED_PUBLIC_KEY_BYTES;;
    mret matches in
  match public_key with
  | None => done certificate_bytes supplied_bytes false
  | Some pk =>
      if is_null certificate then done certificate_bytes supplied_bytes false
      else
        k ← deref pk;
        if EVP_PKEY_is_a k "SM2" =? 0 then done certificate_bytes supplied_bytes false
        else
          '(ok, cb) ← hybrid_x509_get_sm2_public_key_octets certificate (Some certificate_bytes);
          let certificate_bytes := default [] cb in
          if negb ok then done certificate_bytes supplied_bytes false
          else
            '(rc, pub) ← call (EVP_PKEY_get_pub k SM2_UNCOMPRESSED_PUBLIC_KEY_BYTES);
            supplied_bytes ← memcpy supplied_bytes 0 pub;
            if (rc <=? 0) || negb (len pub =? SM2_UNCOMPRESSED_PUBLIC_KEY_BYTES)
            then done certificate_bytes supplied_bytes false
            else done certificate_bytes supplied_bytes
                   (bool_decide (certificate_bytes = supplied_bytes))
  end.

Definition hybrid_x509_get_signature (certificate : option (obj X509)) (signature : view)
    : M (bool * view) :=
  if view_null signature then mret (false, signature)
  else
    match certificate with
    | None => mret (false, fresh_view)
    | Some cert =>
        c ← deref cert;
        match fst (X509_get0_signature c) with
        | None => mret (false, fresh_view)
        | Some value =>
            if negb (Z.land (bits_flags value) 7 =? 0) || (len (bits_data value) <=? 0)
            then mret (false, fresh_view)
            else mret (true, set_view (bits_data value) (len (bits_data value)))
        end
    end.

Definition hybrid_x509_has_pqc_extension (certificate : option (obj X509)) : M bool :=
  let expected_value := [Byte.x05; Byte.x00] in
  match certificate with
  | None => mret false
  | Some cert =>
      object ← new_object (OBJ_txt2obj HYBRID_PQC_EXTENSION_OID 1);
      match object with
      | None => mret false
      | Some o =>
          c ← deref cert;
          v ← deref o;
          let first := X509_get_ext_by_OBJ c v (-1) in
          let second := if first >=? 0 then X509_get_ext_by_OBJ c v first else -1 in
          free_object (Some o);;
          if (first <? 0) || (second >=? 0) then mret false
          else
            match X509_get_ext c first with
            | None => mret false
            | Some extension =>
                match X509_EXTENSION_get_data extension with
                | None => mret false
                | Some data =>
                    mret ((X509_EXTENSION_get_critical extension =? 0) &&
                          bool_decide (data = expected_value))
                end
            end
      end
  end.
End x509.
#[global] Arguments hybrid_x509_get_tbs_der : simpl never.
#[global] Arguments hybrid_x509_composite_signature_algorithms_valid : simpl never.
#[global] Arguments hybrid_x509_subject_public_key_is_composite : simpl never.
#[global] Arguments hybrid_x509_subject_public_key_is_sm2 : simpl never.
#[global] Arguments hybrid_x509_composite_algorithms_valid : simpl never.
#[global] Arguments hybrid_x509_get_composite_public_key : simpl never.
#[global] Arguments hybrid_x509_public_key_matches : simpl never.
#[global] Arguments hybrid_x509_get_sm2_public_key_octets : simpl never.
#[global] Arguments hybrid_x509_sm2_public_key_matches : simpl never.
#[global] Arguments hybrid_x509_get_signature : simpl never.
#[global] Arguments hybrid_x509_has_pqc_extension : simpl never.

(** ** Specifications *)

Section specs.
Context `{Libc, OpenSSL, !OpenSSLSizes, Dilithium2, !Dilithium2Sizes, !X509Library, !X509Sizes}.

(** The DER bytes of the part of [c] that is signed. *)
Definition certificate_tbs (Q : modality) (c : X509) (P : list byte → Prop) : Prop :=
  Q _ (i2d_re_X509_tbs c) (λ r, 0 < fst r ∧ ∃ der, r = (len der, Some der) ∧ P der).

(** The signature value of [c]: a whole number of bytes, not empty. *)
Definition certificate_signature (c : X509) : option (list byte) :=
  match fst (X509_get0_signature c) with
  | Some v => if (Z.land (bits_flags v) 7 =? 0) && (0 <? len (bits_data v))
              then Some (bits_data v) else None
  | None => None
  end.

(** Both algorithm identifiers of [c] are the composite one, without
    parameters, and equal. *)
Definition signature_algorithms_composite (c : X509) : bool :=
  negb (is_null (fst (X509_get0_signature c))) &&
  algorithm_is_composite_and_absent (X509_get0_tbs_sigalg c) &&
  algorithm_is_composite_and_absent (snd (X509_get0_signature c)) &&
  match X509_ALGOR_get0 <$> X509_get0_tbs_sigalg c, X509_ALGOR_get0 <$> snd (X509_get0_signature c) with
  | Some (Some t, _), Some (Some o, _) => OBJ_cmp t o =? 0
  | _, _ => false
  end.

(** The subject key of [c] carries the composite identifier. *)
Definition spki_composite (c : X509) : bool :=
  match X509_get_X509_PUBKEY c with
  | Some k => negb (fst (X509_PUBKEY_get0_param k) =? 0) &&
              algorithm_is_composite_and_absent (snd (snd (X509_PUBKEY_get0_param k)))
  | None => false
  end.

(** The bytes of the composite subject key of [c]. *)
Definition certificate_key_bytes (c : X509) : option (list byte) :=
  match X509_get_X509_PUBKEY c, X509_get0_pubkey_bitstr c with
  | Some k, Some bits =>
      let '(rc, (p, n, a)) := X509_PUBKEY_get0_param k in
      if (Z.land (bits_flags bits) 7 =? 0) && negb (rc =? 0) &&
         algorithm_is_composite_and_absent a && (0 <? n) then p else None
  | _, _ => None
  end.

(** The subject key of [c] is an SM2 key that satisfies [P]. *)
Definition certificate_sm2_key (Q : modality) (c : X509) (P : EVP_PKEY → Prop) : Prop :=
  Q _ (X509_get_pubkey c) (on_some (λ k, EVP_PKEY_is_a k "SM2" ≠ 0 ∧ P k)).

(** [c] has the marker extension exactly once, not critical, holding an
    ASN.1 NULL. *)
Definition pqc_marked (c : X509) (o : ASN1_OBJECT) : bool :=
  let first := X509_get_ext_by_OBJ c o (-1) in
  (0 <=? first) && (X509_get_ext_by_OBJ c o first <? 0) &&
  match X509_get_ext c first with
  | Some e => (X509_EXTENSION_get_critical e =? 0) &&
              bool_decide (X509_EXTENSION_get_data e = Some [Byte.x05; Byte.x00])
  | None => false
  end.
Definition certificate_marked (Q : modality) (c : X509) : Prop :=
  Q _ (OBJ_txt2obj HYBRID_PQC_EXTENSION_OID 1) (on_some (λ o, pqc_marked c o = true)).

#[export] Instance spec_hybrid_x509_get_tbs_der cert out :
  Spec (hybrid_x509_get_tbs_der cert out) (λ s, out_null out = false ∧ alive cert s)
    (λ r s s', yields ∅ out_owns (out_post (λ b n, n = len (obj_val b) ∧ n ≤ INT_MAX ∧
         ∃ c, cert = Some c ∧ certificate_tbs once (obj_val c) (eq (obj_val b)))) r s s' ∧
       (∀ c, cert = Some c → certificate_tbs always (obj_val c) (λ _, True) → fst r = true)).
Proof.
  wp_start. destruct P as [Hout Hc]. unfold hybrid_x509_get_tbs_der. rewrite Hout.
  destruct cert as [c|]; [|wp_call as ? ?; apply wp_ret; split; [by wp_end|done]].
  wp_call as r [-> ->]. wp_call as [n der] [F1 Hd]. wp_call as output [F2 Ho]. cbn [snd] in Ho. subst der.
  unfold certificate_tbs. wp_case (n <=? 0).
  - wp_call as ? ?. apply wp_ret. split; [by wp_end|]. intros ? [= <-] Hal. always_auto.
  - destruct (i2d_tbs_size _ _ _ _ Hd E) as (Hn & der & Hder & Hl).
    destruct output as [b|]; simplify_eq/=. apply wp_ret. split; [|done].
    wp_end. eexists _, _. rewrite size_of_Z_small by size_lia. split_and!; try done.
    exists c. split; [done|]. once_auto. by eexists.
Qed.

#[export] Instance spec_hybrid_x509_get_signature cert v :
  Spec (hybrid_x509_get_signature cert v) (λ s, view_null v = false ∧ alive cert s)
    (λ r s s', s' = s ∧ r = match cert ≫= (λ c, certificate_signature (obj_val c)) with
                            | Some d => (true, set_view d (len d))
                            | None => (false, fresh_view)
                            end).
Proof.
  wp_start. destruct P as [Hv Hc]. unfold hybrid_x509_get_signature. rewrite Hv.
  destruct cert as [c|]; [|by apply wp_ret]. wp_call as r [-> ->]. cbn.
  unfold certificate_signature. destruct (fst _) as [b|]; [|by apply wp_ret].
  destruct (Z.land _ _ =? 0); cbn [negb orb andb]; [|by apply wp_ret].
  rewrite Z.leb_antisym. destruct (0 <? _); by apply wp_ret.
Qed.

#[export] Instance spec_hybrid_x509_composite_signature_algorithms_valid cert :
  Spec (hybrid_x509_composite_signature_algorithms_valid cert) (alive cert)
    (λ r s s', s' = s ∧ r = from_option (λ c, signature_algorithms_composite (obj_val c)) false cert).
Proof.
  wp_start. unfold hybrid_x509_composite_signature_algorithms_valid.
  destruct cert as [c|]; [|by apply wp_ret]. wp_call as r [-> ->].
  cbn [from_option]. unfold signature_algorithms_composite.
  destruct (X509_get0_signature (obj_val c)) as [sg outer]; cbn [fst snd].
  destruct (_ && _) eqn:E; [|by apply wp_ret]. simpl_bool. cbn [andb].
  unfold algorithm_is_composite_and_absent in *.
  destruct (X509_get0_tbs_sigalg _) as [t|], outer as [o|]; try done. cbn.
  destruct (X509_ALGOR_get0 t) as [[?|] ?], (X509_ALGOR_get0 o) as [[?|] ?]; done.
Qed.

#[export] Instance spec_hybrid_x509_subject_public_key_is_composite cert :
  Spec (hybrid_x509_subject_public_key_is_composite cert) (alive cert)
    (λ r s s', s' = s ∧ r = from_option (λ c, spki_composite (obj_val c)) false cert).
Proof.
  wp_start. unfold hybrid_x509_subject_public_key_is_composite.
  destruct cert as [c|]; [|by apply wp_ret]. wp_call as r [-> ->].
  cbn [from_option]. unfold spki_composite. destruct (X509_get_X509_PUBKEY _) as [k|]; [|by apply wp_ret].
  destruct (X509_PUBKEY_get0_param k) as [? [[? ?] ?]]. by apply wp_ret.
Qed.

#[export] Instance spec_hybrid_x509_composite_algorithms_valid cert :
  Spec (hybrid_x509_composite_algorithms_valid cert) (alive cert)
    (λ r s s', s' = s ∧ r = from_option (λ c, signature_algorithms_composite (obj_val c) &&
                                                spki_composite (obj_val c)) false cert).
Proof.
  wp_start. unfold hybrid_x509_composite_algorithms_valid. wp_call as ok [-> ->].
  destruct cert as [c|]; [|by apply wp_ret]. cbn [from_option].
  destruct (signature_algorithms_composite _); cbn [negb andb]; [|by apply wp_ret].
  by wp_call as r [-> ->].
Qed.

#[export] Instance spec_hybrid_x509_subject_public_key_is_sm2 cert :
  Spec (hybrid_x509_subject_public_key_is_sm2 cert) (alive cert)
    (λ r s s', frame ∅ ∅ s s' ∧
       (r = true → ∃ c, cert = Some c ∧ certificate_sm2_key once (obj_val c) (λ _, True)) ∧
       (∀ c, cert = Some c → certificate_sm2_key always (obj_val c) (λ _, True) → r = true)).
Proof.
  wp_start. unfold hybrid_x509_subject_public_key_is_sm2, certificate_sm2_key.
  destruct cert as [c|]; [|by apply wp_ret]. wp_call as r [-> ->].
  wp_call as [k|] [F Hk]; cbn in Hk.
  - wp_call as r [-> ->]. wp_call as ? ?. apply wp_ret. split; [solve_frame|]. split.
    + intros ?. simpl_bool. exists c. split; [done|]. once_auto.
    + intros ? [= <-] Hal. always_auto.
  - wp_call as ? ?. apply wp_ret. split; [solve_frame|]. split; [done|]. intros ? [= <-] Hal. always_auto.
Qed.

(** The composite key [k] was imported from the certificate bytes [e]. *)
Definition composite_imported (e : list byte) (k : HYBRID_PUBLIC_KEY) : Prop :=
  len e = COMPOSITE_PUBLIC_KEY_BYTES ∧
  dilithium_public_key k = ztake DILITHIUM_PUBLIC_KEY_BYTES e ∧
  ∃ o, sm2_public_key k = Some o ∧
    sm2_imported (zdrop DILITHIUM_PUBLIC_KEY_BYTES e) (obj_val o).

Lemma sm2_key_octets (e : list byte) :
  len e = COMPOSITE_PUBLIC_KEY_BYTES →
  ztake SM2_UNCOMPRESSED_PUBLIC_KEY_BYTES (zdrop DILITHIUM_PUBLIC_KEY_BYTES e) =
    zdrop DILITHIUM_PUBLIC_KEY_BYTES e.
Proof. intros He. apply ztake_all. rewrite len_zdrop; size_lia. Qed.

#[export] Instance spec_hybrid_x509_get_composite_public_key cert key :
  Spec (hybrid_x509_get_composite_public_key cert key)
    (λ s, alive cert s ∧ public_owns key ⊆ live s)
    (λ r s s', yields (public_owns key) (λ r, public_owns (snd r)) (λ r,
         match r with
         | (true, k') => ∃ c e k, cert = Some c ∧ certificate_key_bytes (obj_val c) = Some e ∧
             k' = Some k ∧ composite_imported e k
         | (false, k') => k' = key
         end) r s s' ∧
       (∀ c e, cert = Some c → is_Some key → certificate_key_bytes (obj_val c) = Some e →
          len e = COMPOSITE_PUBLIC_KEY_BYTES →
          e !! Z.to_nat DILITHIUM_PUBLIC_KEY_BYTES = Some Byte.x04 →
          sm2_always_imports (zdrop DILITHIUM_PUBLIC_KEY_BYTES e) → fst r = true)).
Proof.
  wp_start. destruct P as [Hc Hl]. unfold hybrid_x509_get_composite_public_key.
  destruct cert as [c|]; [|by (apply wp_ret; split; [wp_end|])].
  wp_case (is_null key); [by (apply wp_ret; split; [wp_end|])|].
  wp_call as r [-> ->].
  assert (Hnone : certificate_key_bytes (obj_val c) = None →
    wp (mret (false, Some x)) (λ r s',
      yields (public_owns (Some x)) (λ r, public_owns (snd r)) (λ r : bool * option HYBRID_PUBLIC_KEY,
         match r with
         | (true, k') => ∃ c0 e k, Some c = Some c0 ∧ certificate_key_bytes (obj_val c0) = Some e ∧
             k' = Some k ∧ composite_imported e k
         | (false, k') => k' = Some x
         end) r s s' ∧
       (∀ c0 e, Some c = Some c0 → is_Some (Some x) → certificate_key_bytes (obj_val c0) = Some e →
          len e = COMPOSITE_PUBLIC_KEY_BYTES →
          e !! Z.to_nat DILITHIUM_PUBLIC_KEY_BYTES = Some Byte.x04 →
          sm2_always_imports (zdrop DILITHIUM_PUBLIC_KEY_BYTES e) → fst r = true)) s).
  { intros Hn. apply wp_ret. split; [by wp_end|]. intros; simplify_eq/=. }
  cbn [public_owns] in Hnone. unfold certificate_key_bytes at 1 in Hnone.
  destruct (X509_get_X509_PUBKEY (obj_val c)) as [k|] eqn:Hk; [|by apply Hnone].
  destruct (X509_get0_pubkey_bitstr (obj_val c)) as [bits|] eqn:Hbits; [|by apply Hnone].
  destruct (X509_PUBKEY_get0_param k) as [rc [[p n] a]] eqn:Hp.
  destruct (Z.land (bits_flags bits) 7 =? 0) eqn:Hf; cbn [negb andb] in *; [|by apply Hnone].
  wp_case ((rc =? 0) || negb (algorithm_is_composite_and_absent a) || (n <=? 0)).
  { apply Hnone. destruct (algorithm_is_composite_and_absent a), (rc =? 0), (Z.leb_spec n 0), (Z.ltb_spec 0 n); done || lia. }
  destruct (pubkey_param_size _ _ _ _ _ Hp) as (Hn & e & -> & Hle); [done|done|].
  assert (Hb : certificate_key_bytes (obj_val c) = Some e).
  { unfold certificate_key_bytes. rewrite Hk, Hbits, Hp, Hf. cbn [andb].
    by rewrite (proj2 (Z.eqb_neq rc 0)), (proj2 (Z.ltb_lt 0 n)), H9 by done. }
  clear Hnone. rewrite size_of_Z_small by size_lia.
  wp_call as r ([F Hr] & Hall). split; [split; [done|]|].
  - destruct r as [[] k']; [|done]. destruct Hr as (? & o & [= <-] & _ & Hn' & _ & -> & Himp).
    eexists c, e, _. split; [done|]. split; [done|]. split; [done|].
    split; [congruence|]. split; [done|]. exists o. split; [done|].
    rewrite sm2_key_octets in Himp by congruence. done.
  - intros ? ? [= <-] _ Hb' Hle' H04 Hal. simplify_eq. apply (Hall e); try done.
    by rewrite sm2_key_octets.
Qed.

#[export] Instance spec_hybrid_x509_has_pqc_extension cert :
  Spec (hybrid_x509_has_pqc_extension cert) (alive cert)
    (λ r s s', frame ∅ ∅ s s' ∧
       (r = true → ∃ c, cert = Some c ∧ certificate_marked once (obj_val c)) ∧
       (∀ c, cert = Some c → certificate_marked always (obj_val c) → r = true)).
Proof.
  wp_start. unfold hybrid_x509_has_pqc_extension, certificate_marked.
  destruct cert as [c|]; [|by apply wp_ret].
  wp_call as [o|] [F1 Ho]; cbn in Ho.
  2: { apply wp_ret. split; [done|]. split; [done|]. intros ? [= <-] Hal. always_auto. }
  wp_call as r [-> ->]. wp_call as r [-> ->]. wp_call as ? ?.
  set (Post := λ (r : bool) s', frame ∅ ∅ s s' ∧ _).
  assert (Hr : ∀ b, b = pqc_marked (obj_val c) (obj_val o) → wp (mret b) Post s1).
  { intros b ->. apply wp_ret. split; [solve_frame|]. split.
    - intros Hm. exists c. split; [done|]. once_auto.
    - intros ? [= <-] Hal. always_auto. }
  unfold pqc_marked in Hr. cbn zeta in Hr.
  set (first := X509_get_ext_by_OBJ _ _ (-1)) in *.
  destruct (Z.geb_spec first 0), (Z.ltb_spec first 0), (Z.leb_spec 0 first); try lia; cbn [orb andb] in *; [|by apply Hr].
  set (second := X509_get_ext_by_OBJ _ _ first) in *.
  destruct (Z.geb_spec second 0), (Z.ltb_spec second 0); try lia; cbn [orb andb] in *; [by apply Hr|].
  destruct (X509_get_ext (obj_val c) first) as [e|]; [|by apply Hr].
  destruct (X509_EXTENSION_get_data e) as [d|]; apply Hr.
  - f_equal. apply bool_decide_ext. naive_solver.
  - by rewrite bool_decide_eq_false_2, andb_false_r.
Qed.

(** The key in [cert] and [key] have the same encoding. *)
#[export] Instance spec_hybrid_x509_public_key_matches cert key :
  Spec (hybrid_x509_public_key_matches cert key)
    (λ s, alive cert s ∧ public_owns key ⊆ live s ∧ from_option public_key_wf True key)
    (λ r s s', frame ∅ ∅ s s' ∧
       (r = true → ∃ c e k k' o o' pub, cert = Some c ∧ certificate_key_bytes (obj_val c) = Some e ∧
          composite_imported e k' ∧ key = Some k ∧
          dilithium_public_key k = dilithium_public_key k' ∧
          sm2_public_key k = Some o ∧ sm2_public_key k' = Some o' ∧
          sm2_octets (obj_val o) pub ∧ sm2_octets (obj_val o') pub)).
Proof.
  wp_start. destruct P as (Hc & Hl & Hwf). unfold hybrid_x509_public_key_matches.
  destruct cert as [c|]; cbn [is_null orb].
  2: { do 2 wp_call as ? ?. wp_call as r2 [F2 ->]. apply wp_ret. split; [solve_frame|done]. }
  wp_case (is_null key).
  { do 2 wp_call as ? ?. wp_call as r2 [F2 ->]. apply wp_ret. split; [solve_frame|done]. }
  rename x into k.
  wp_call as [[] ck] ([F Hck] & _); cbn [negb] in *.
  2: { subst ck. do 2 wp_call as ? ?. wp_call as r2 [F2 ->]. apply wp_ret. split; [solve_frame|done]. }
  destruct Hck as (? & e & k' & [= <-] & He & -> & Hk'). pose proof Hk' as (Hle & Hd & o' & Ho' & _).
  assert (Hwf' : from_option public_key_wf True (Some k')).
  { cbn. unfold public_key_wf. rewrite Hd, len_ztake; size_lia. }
  wp_call as [[] cb] ([F1 Hcb] & _); cbn [negb out_post] in *.
  2: { subst cb. do 2 wp_call as ? ?. wp_call as r2 [F2 ->]. apply wp_ret. split; [solve_frame|done]. }
  destruct Hcb as (b1 & ? & -> & -> & Hl1 & ? & ? & pub' & [= <-] & Ho1 & Hpub' & Hb1).
  wp_call as [[] lb] ([F2 Hlb] & _); cbn [negb out_post orb] in *.
  2: { subst lb. do 2 wp_call as ? ?. wp_call as r2 [F3 ->]. apply wp_ret. split; [solve_frame|done]. }
  destruct Hlb as (b2 & ? & -> & -> & Hl2 & ? & o & pub & [= <-] & Ho2 & Hpub & Hb2).
  cbn [out_block out_len set_out fst snd default from_option id]. rewrite Z.eqb_refl. cbn [negb].
  wp_call as r [-> ->]. wp_call as r [-> ->]. wp_call as r [-> ->]. wp_call as r [-> ->].
  do 2 wp_call as ? ?. wp_call as r2 [F3 ->]. apply wp_ret. split; [solve_frame|].
  cbn [fmap option_fmap option_map]. rewrite !bytes_at_full, Hb1, Hb2 by done.
  intros [Hd' Hp]%bool_decide_eq_true%app_inj_1.
  - subst pub'. exists c, e, k, k', o, o', pub. rewrite Ho' in Ho1. simplify_eq. by split_and!.
  - unfold public_key_wf, len in *. cbn in Hwf'. lia.
Qed.

#[export] Instance spec_hybrid_x509_get_sm2_public_key_octets cert output :
  Spec (hybrid_x509_get_sm2_public_key_octets cert output)
    (λ s, alive cert s ∧ from_option (λ b, len b = SM2_UNCOMPRESSED_PUBLIC_KEY_BYTES) True output)
    (λ r s s', frame ∅ ∅ s s' ∧ is_null (snd r) = is_null output ∧
       from_option (λ b, len b = SM2_UNCOMPRESSED_PUBLIC_KEY_BYTES) True (snd r) ∧
       (fst r = true → ∃ c pub, cert = Some c ∧ snd r = Some pub ∧
          certificate_sm2_key once (obj_val c) (λ k, sm2_octets k pub)) ∧
       (fst r = false → is_Some cert → from_option zeroed True (snd r))).
Proof.
  wp_start. destruct P as (Hc & Ho). unfold hybrid_x509_get_sm2_public_key_octets.
  destruct cert as [c|].
  2: { apply wp_ret. split_and!; done. }
  destruct output as [buf|]; [|by apply wp_ret]. cbn in Ho.
  set (Post := λ (r : bool * ptr) s', frame ∅ ∅ s s' ∧ _).
  assert (Hdone : ∀ (key : option (obj EVP_PKEY)) (ok : bool) buf s', frame ∅ (owns key) s s' → len buf = SM2_UNCOMPRESSED_PUBLIC_KEY_BYTES →
    (ok = true → certificate_sm2_key once (obj_val c) (λ k, sm2_octets k buf)) →
    wp (free_object key;;
        if negb ok then
          buf ← cleanse buf SM2_UNCOMPRESSED_PUBLIC_KEY_BYTES; mret (false, Some buf)
        else mret (true, Some buf)) Post s').
  { intros key ok b s' F1 Hb Hok. wp_call as ? ?. destruct ok; cbn [negb].
    - apply wp_ret. split; [solve_frame|]. split_and!; try done. intros _. exists c, b. split_and!; try done. by apply Hok.
    - wp_call as r9 [-> ->]. apply wp_ret. split; [solve_frame|]. split_and!; try done; cbn [snd from_option].
      + by apply len_cleanse.
      + intros _ _. by apply zeroed_cleanse. }
  wp_call as r [-> ->]. wp_call as [k|] [F Hk]; cbn in Hk; [|by apply (Hdone None false)].
  wp_pure. wp_call as r [-> ->]. wp_case (EVP_PKEY_is_a (obj_val k) "SM2" =? 0).
  { apply wp_ret. by apply (Hdone (Some k) false). }
  wp_call as [rc pub] [F1 Hpub]. pose proof (get_pub_size _ _ _ _ _ Hpub ltac:(done)).
  wp_call as r [-> ->]. apply wp_ret. apply (Hdone (Some k)); [done|by rewrite len_splice; lia|].
  intros ?. simpl_bool. rewrite splice_whole in * by congruence.
  unfold certificate_sm2_key, sm2_octets, sm2_encoding. once_auto.
Qed.

#[export] Instance spec_hybrid_x509_sm2_public_key_matches cert key :
  Spec (hybrid_x509_sm2_public_key_matches cert key) (λ s, alive cert s ∧ alive key s)
    (λ r s s', frame ∅ ∅ s s' ∧
       (r = true → ∃ c k pub, cert = Some c ∧ key = Some k ∧
          certificate_sm2_key once (obj_val c) (λ k', sm2_octets k' pub) ∧
          EVP_PKEY_is_a (obj_val k) "SM2" ≠ 0 ∧
          once _ (EVP_PKEY_get_pub (obj_val k) SM2_UNCOMPRESSED_PUBLIC_KEY_BYTES) (on_pos (eq pub)))).
Proof.
  wp_start. destruct P as (Hc & Hk). unfold hybrid_x509_sm2_public_key_matches.
  wp_call as cb [F1 Hcb]. wp_call as sb [F2 Hsb].
  destruct key as [k|]; [|do 2 wp_call as ? [_ ->]; by apply wp_ret].
  destruct cert as [c|]; cbn [is_null]; [|do 2 wp_call as ? [_ ->]; by apply wp_ret].
  wp_call as r [-> ->]. wp_case (EVP_PKEY_is_a (obj_val k) "SM2" =? 0); [do 2 wp_call as ? [_ ->]; by apply wp_ret|].
  wp_call as [ok cb'] (F3 & Hn & Hl & Hok & _). cbn [fst snd] in *.
  destruct cb' as [cb'|]; [|done]. cbn [default from_option id] in *.
  wp_case (negb ok); [do 2 wp_call as ? [_ ->]; by apply wp_ret|].
  destruct (Hok eq_refl) as (? & pub & [= <-] & [= <-] & Hpub).
  wp_call as [rc sup] [F4 Hsup]. pose proof (get_pub_size _ _ _ _ _ Hsup ltac:(done)).
  wp_call as r [-> ->].
  assert (len (splice (Z.to_nat 0) sup sb) = SM2_UNCOMPRESSED_PUBLIC_KEY_BYTES) by (rewrite len_splice; lia).
  wp_case ((rc <=? 0) || negb (len sup =? SM2_UNCOMPRESSED_PUBLIC_KEY_BYTES)).
  { wp_call as ? [_ ->]. wp_call as ? [_ ->]. by apply wp_ret. }
  wp_call as ? [_ ->]. wp_call as ? [_ ->]. apply wp_ret. split; [done|].
  intros Heq%bool_decide_eq_true. rewrite splice_whole in Heq by congruence. subst sup.
  exists c, k, cb'. split_and!; try done. once_auto.
Qed.

(** ** Properties *)

(** The composite key taken from a certificate is the one its subject key
    encodes: a composite identifier without parameters, a whole number of
    bytes, exactly 1377 of them, the SM2 part imported and checked. On failure
    the caller's key is untouched; a key that OpenSSL always imports is
    extracted. *)
Theorem hybrid_x509_get_composite_public_key_correct cert key s :
  alive cert s → public_owns key ⊆ live s →
  wp (hybrid_x509_get_composite_public_key cert key) (λ '(ok, key') s',
    frame (public_owns key) (public_owns key') s s' ∧ (ok = false → key' = key) ∧
    (ok = true → ∃ c e k, cert = Some c ∧ certificate_key_bytes (obj_val c) = Some e ∧
       key' = Some k ∧ composite_imported e k) ∧
    (∀ c e, cert = Some c → is_Some key → certificate_key_bytes (obj_val c) = Some e → len e = 1377 →
       e !! 1312%nat = Some Byte.x04 → sm2_always_imports (zdrop 1312 e) → ok = true)) s.
Proof.
  intros Hc Hl. eapply wp_mono; [by apply spec|]. intros [ok key'] s' ([F Hk] & Hok).
  split; [done|]. split; [by intros ->|]. split; [by intros ->|]. exact Hok.
Qed.

(** A certificate and a composite key are found to match only if they hold
    the same Dilithium2 key and their SM2 keys have one encoding; both
    encodings are released again. *)
Theorem hybrid_x509_public_key_matches_sound cert key s :
  alive cert s → public_owns key ⊆ live s → from_option public_key_wf True key →
  wp (hybrid_x509_public_key_matches cert key) (λ r s', frame ∅ ∅ s s' ∧
    (r = true → ∃ c e k k' o o' pub, cert = Some c ∧ certificate_key_bytes (obj_val c) = Some e ∧
       composite_imported e k' ∧ key = Some k ∧ dilithium_public_key k = dilithium_public_key k' ∧
       sm2_public_key k = Some o ∧ sm2_public_key k' = Some o' ∧
       sm2_octets (obj_val o) pub ∧ sm2_octets (obj_val o') pub)) s.
Proof. intros. by apply spec_hybrid_x509_public_key_matches. Qed.

(** The octets of a certificate's SM2 key are those of its subject key, 65
    bytes starting with 4; on every failure the caller's array is all zeros. *)
Theorem hybrid_x509_get_sm2_public_key_octets_correct c output s :
  alive (Some c) s → len output = SM2_UNCOMPRESSED_PUBLIC_KEY_BYTES →
  wp (hybrid_x509_get_sm2_public_key_octets (Some c) (Some output)) (λ '(ok, out) s', frame ∅ ∅ s s' ∧
    ∃ octets, out = Some octets ∧ len octets = 65 ∧ (ok = false → zeroed octets) ∧
      (ok = true → certificate_sm2_key once (obj_val c) (λ k, sm2_octets k octets))) s.
Proof.
  intros Hc Ho. eapply wp_mono; [by apply spec|]. intros [ok [octets|]] s' (F & Hn & Hl & Hok & Hz); [|done].
  split; [done|]. exists octets. split; [done|]. split; [done|]. cbn [fst snd] in *. split.
  - intros ->. by apply Hz; [|eexists].
  - intros ->. by destruct (Hok eq_refl) as (? & ? & [= <-] & [= <-] & ?).
Qed.

(** The signature value of a certificate is returned exactly when it is a
    whole, positive number of bytes; otherwise the caller's view is reset. *)
Theorem hybrid_x509_get_signature_correct c v s :
  alive (Some c) s → view_null v = false →
  wp (hybrid_x509_get_signature (Some c) v) (λ '(ok, out) s', s' = s ∧
    (ok = true → ∃ sg, fst (X509_get0_signature (obj_val c)) = Some sg ∧
       Z.land (bits_flags sg) 7 = 0 ∧ 0 < len (bits_data sg) ∧
       out = set_view (bits_data sg) (len (bits_data sg))) ∧
    (ok = false → out = fresh_view ∧ ∀ sg, fst (X509_get0_signature (obj_val c)) = Some sg →
       Z.land (bits_flags sg) 7 ≠ 0 ∨ bits_data sg = [])) s.
Proof.
  intros Hc Hv. eapply wp_mono; [by apply spec|]. intros [ok out] s' [-> Hr]. split; [done|].
  cbn in Hr. unfold certificate_signature in Hr. destruct (fst _) as [sg|].
  2: { injection Hr as -> ->. split; [done|]. by intros _. }
  destruct (Z.eqb_spec (Z.land (bits_flags sg) 7) 0), (Z.ltb_spec 0 (len (bits_data sg)));
    cbn [andb] in Hr; injection Hr as -> ->; (split; [intros ?|intros ?]); try done.
  - by exists sg.
  - split; [done|]. intros ? [= <-]. right. destruct (bits_data sg); [done|]. unfold len in *. cbn in *. lia.
  - split; [done|]. intros ? [= <-]. by left.
  - split; [done|]. intros ? [= <-]. by left.
Qed.
End specs.

(** ** Examples *)

Section witnesses.
#[local] Existing Instances env_libc env_openssl env_dilithium env_openssl_sizes env_dilithium_sizes
  env_x509 env_x509_sizes.

(** A certificate with a composite key, and one with an SM2 key. *)
Definition env_holder : env_cert :=
  Cert 1 1 (-1) 1 (lit "holder") [Byte.x01]
    COMPOSITE_SM2_DILITHIUM_EXPERIMENTAL_OID COMPOSITE_SM2_DILITHIUM_EXPERIMENTAL_OID
    env_public_bytes (Some Byte.x07) 0 [] [] [] [] [] None "".

Definition env_holder_obj : obj (X509 (X509Library := env_x509)) := Obj 1%positive env_holder.
Definition env_holder_sm2 : obj (EVP_PKEY (OpenSSL := env_openssl)) := Obj 2%positive Byte.x07.
Definition env_holder_key : HYBRID_PUBLIC_KEY := PublicKey (Some env_holder_sm2) (fit 1312 [Byte.x07]).
Definition env_holders : state := env_state [1; 2]%positive.

Lemma env_holder_alive : alive (Some env_holder_obj) env_holders.
Proof. apply env_alive. set_solver. Qed.

Lemma env_holder_key_alive : public_owns (Some env_holder_key) ⊆ live env_holders.
Proof. apply (env_alive env_holder_sm2). set_solver. Qed.

Lemma hybrid_x509_get_composite_public_key_correct_witness :
  certificate_key_bytes (obj_val env_holder_obj) = Some env_public_bytes ∧
  wp (hybrid_x509_get_composite_public_key (Some env_holder_obj) (Some env_holder_key)) (λ '(ok, key') s',
    frame (public_owns (Some env_holder_key)) (public_owns key') env_holders s' ∧
    (ok = false → key' = Some env_holder_key) ∧
    (ok = true → ∃ c e k, Some env_holder_obj = Some c ∧ certificate_key_bytes (obj_val c) = Some e ∧
       key' = Some k ∧ composite_imported e k) ∧
    (∀ c e, Some env_holder_obj = Some c → is_Some (Some env_holder_key) →
       certificate_key_bytes (obj_val c) = Some e → len e = 1377 →
       e !! 1312%nat = Some Byte.x04 → sm2_always_imports (zdrop 1312 e) → ok = true)) env_holders.
Proof.
  split; [by vm_compute|].
  apply (hybrid_x509_get_composite_public_key_correct (Some env_holder_obj) (Some env_holder_key) env_holders);
    [apply env_holder_alive|apply env_holder_key_alive].
Defined.

Lemma hybrid_x509_public_key_matches_sound_witness :
  wp (hybrid_x509_public_key_matches (Some env_holder_obj) (Some env_holder_key)) (λ r s',
    frame ∅ ∅ env_holders s' ∧
    (r = true → ∃ c e k k' o o' pub, Some env_holder_obj = Some c ∧
       certificate_key_bytes (obj_val c) = Some e ∧
       composite_imported e k' ∧ Some env_holder_key = Some k ∧
       dilithium_public_key k = dilithium_public_key k' ∧
       sm2_public_key k = Some o ∧ sm2_public_key k' = Some o' ∧
       sm2_octets (obj_val o) pub ∧ sm2_octets (obj_val o') pub)) env_holders.
Proof.
  apply (hybrid_x509_public_key_matches_sound (Some env_holder_obj) (Some env_holder_key) env_holders);
    [apply env_holder_alive|apply env_holder_key_alive|by apply len_fit].
Defined.

Lemma hybrid_x509_get_sm2_public_key_octets_correct_witness :
  wp (hybrid_x509_get_sm2_public_key_octets (Some env_holder_obj) (Some (zeros 65))) (λ '(ok, out) s',
    frame ∅ ∅ env_holders s' ∧
    ∃ octets, out = Some octets ∧ len octets = 65 ∧ (ok = false → zeroed octets) ∧
      (ok = true → certificate_sm2_key once (obj_val env_holder_obj) (λ k, sm2_octets k octets)))
    env_holders.
Proof.
  apply (hybrid_x509_get_sm2_public_key_octets_correct env_holder_obj (zeros 65) env_holders);
    [apply env_holder_alive|done].
Defined.

Lemma hybrid_x509_get_signature_correct_witness :
  wp (hybrid_x509_get_signature (Some env_holder_obj) fresh_view) (λ '(ok, out) s', s' = env_holders ∧
    (ok = true → ∃ sg, fst (X509_get0_signature (obj_val env_holder_obj)) = Some sg ∧
       Z.land (bits_flags sg) 7 = 0 ∧ 0 < len (bits_data sg) ∧
       out = set_view (bits_data sg) (len (bits_data sg))) ∧
    (ok = false → out = fresh_view ∧ ∀ sg, fst (X509_get0_signature (obj_val env_holder_obj)) = Some sg →
       Z.land (bits_flags sg) 7 ≠ 0 ∨ bits_data sg = [])) env_holders.
Proof.
  apply (hybrid_x509_get_signature_correct env_holder_obj fresh_view env_holders);
    [apply env_holder_alive|done].
Defined.
End witnesses.
