(* ===== verification/Asn1.v ===== *)
(** * hybrid_x509.c (the ASN.1 templates)

    The structures the code declares with [ASN1_SEQUENCE]: a certificate and
    the part of it that is signed. Their allocation, release and DER encoding
    follow the templates, field by field. A structure holds one reference to
    each field it owns, so that what the error paths release is seen. The
    encodings of the fields are the library's; from the assumption that they
    are elements, the encoding of a structure determines its fields. *)

From S2P Require Import Prelude Machine External Der Environment.

(** ** Structures *)

Section structures.
Context `{Libc, OpenSSL, !X509Library, !X509Builder}.

Abbreviation stack := (obj (list X509_EXTENSION)).

Record COMPOSITE_TBS_CERTIFICATE := TbsCertificate {
  version : option (obj Z);
  serial_number : option (obj Z);
  signature : option (obj X509_ALGOR);
  issuer : option (obj X509_NAME);
  validity : option (obj X509_VAL);
  subject : option (obj X509_NAME);
  subject_public_key_info : option (obj X509_PUBKEY);
  issuer_uid : option (obj ASN1_BIT_STRING);
  subject_uid : option (obj ASN1_BIT_STRING);
  extensions : option stack
}.

Record COMPOSITE_CERTIFICATE := CompositeCertificate {
  tbs_certificate : option (obj COMPOSITE_TBS_CERTIFICATE);
  signature_algorithm : option (obj X509_ALGOR);
  signature_value : option (obj ASN1_BIT_STRING)
}.

(** The fields as the structure is allocated. *)
Definition empty_tbs : COMPOSITE_TBS_CERTIFICATE :=
  TbsCertificate None None None None None None None None None None.
Definition empty_certificate : COMPOSITE_CERTIFICATE := CompositeCertificate None None None.

(** Assignments to a field. *)
Definition set_version (t : COMPOSITE_TBS_CERTIFICATE) v :=
  TbsCertificate v (serial_number t) (signature t) (issuer t) (validity t) (subject t)
    (subject_public_key_info t) (issuer_uid t) (subject_uid t) (extensions t).
Definition set_serial_number (t : COMPOSITE_TBS_CERTIFICATE) v :=
  TbsCertificate (version t) v (signature t) (issuer t) (validity t) (subject t)
    (subject_public_key_info t) (issuer_uid t) (subject_uid t) (extensions t).
Definition set_signature (t : COMPOSITE_TBS_CERTIFICATE) v :=
  TbsCertificate (version t) (serial_number t) v (issuer t) (validity t) (subject t)
    (subject_public_key_info t) (issuer_uid t) (subject_uid t) (extensions t).
Definition set_issuer (t : COMPOSITE_TBS_CERTIFICATE) v :=
  TbsCertificate (version t) (serial_number t) (signature t) v (validity t) (subject t)
    (subject_public_key_info t) (issuer_uid t) (subject_uid t) (extensions t).
Definition set_validity (t : COMPOSITE_TBS_CERTIFICATE) v :=
  TbsCertificate (version t) (serial_number t) (signature t) (issuer t) v (subject t)
    (subject_public_key_info t) (issuer_uid t) (subject_uid t) (extensions t).
Definition set_subject (t : COMPOSITE_TBS_CERTIFICATE) v :=
  TbsCertificate (version t) (serial_number t) (signature t) (issuer t) (validity t) v
    (subject_public_key_info t) (issuer_uid t) (subject_uid t) (extensions t).
Definition set_subject_public_key_info (t : COMPOSITE_TBS_CERTIFICATE) v :=
  TbsCertificate (version t) (serial_number t) (signature t) (issuer t) (validity t) (subject t)
    v (issuer_uid t) (subject_uid t) (extensions t).
Definition set_extensions (t : COMPOSITE_TBS_CERTIFICATE) v :=
  TbsCertificate (version t) (serial_number t) (signature t) (issuer t) (validity t) (subject t)
    (subject_public_key_info t) (issuer_uid t) (subject_uid t) v.

(** [IMPLEMENT_ASN1_FUNCTIONS]: release, allocation and encoding follow the
    template, field by field. *)
Definition free_tbs_fields (t : COMPOSITE_TBS_CERTIFICATE) : M unit :=
  free_object (version t);; free_object (serial_number t);; free_object (signature t);;
  free_object (issuer t);; free_object (validity t);; free_object (subject t);;
  free_object (subject_public_key_info t);; free_object (issuer_uid t);;
  free_object (subject_uid t);; free_object (extensions t).

Definition COMPOSITE_TBS_CERTIFICATE_free (tbs : option (obj COMPOSITE_TBS_CERTIFICATE)) : M unit :=
  match tbs with
  | None => mret tt
  | Some o => t ← deref o; free_tbs_fields t;; free_object tbs
  end.

(** A mandatory field is allocated with the structure; if that fails, what
    there is is released. *)
Definition COMPOSITE_TBS_CERTIFICATE_new : M (option (obj COMPOSITE_TBS_CERTIFICATE)) :=
  tbs ← new_object (λ t, if ASN1_item_alloc t then Some empty_tbs else None);
  match tbs with
  | None => mret None
  | Some o =>
      let fail (t : COMPOSITE_TBS_CERTIFICATE) :=
        COMPOSITE_TBS_CERTIFICATE_free (Some (set_val o t));; mret None in
      f ← new_object ASN1_INTEGER_new;
      let t := set_serial_number (obj_val o) f in
      check negb (is_null f) else fail t;;
      f ← new_object X509_ALGOR_new;
      let t := set_signature t f in
      check negb (is_null f) else fail t;;
      f ← new_object X509_NAME_new;
      let t := set_issuer t f in
      check negb (is_null f) else fail t;;
      f ← new_object X509_VAL_new;
      let t := set_validity t f in
      check negb (is_null f) else fail t;;
      f ← new_object X509_NAME_new;
      let t := set_subject t f in
      check negb (is_null f) else fail t;;
      f ← new_object X509_PUBKEY_new;
      let t := set_subject_public_key_info t f in
      check negb (is_null f) else fail t;;
      mret (Some (set_val o t))
  end.

Definition COMPOSITE_CERTIFICATE_free (certificate : option (obj COMPOSITE_CERTIFICATE)) : M unit :=
  match certificate with
  | None => mret tt
  | Some o =>
      c ← deref o;
      COMPOSITE_TBS_CERTIFICATE_free (tbs_certificate c);;
      free_object (signature_algorithm c);;
      free_object (signature_value c);;
      free_object certificate
  end.

Definition COMPOSITE_CERTIFICATE_new : M (option (obj COMPOSITE_CERTIFICATE)) :=
  certificate ← new_object (λ t, if ASN1_item_alloc t then Some empty_certificate else None);
  match certificate with
  | None => mret None
  | Some o =>
      let fail (c : COMPOSITE_CERTIFICATE) :=
        COMPOSITE_CERTIFICATE_free (Some (set_val o c));; mret None in
      tbs ← COMPOSITE_TBS_CERTIFICATE_new;
      check negb (is_null tbs) else fail (CompositeCertificate tbs None None);;
      algorithm ← new_object X509_ALGOR_new;
      check negb (is_null algorithm) else fail (CompositeCertificate tbs algorithm None);;
      value ← new_object ASN1_BIT_STRING_new;
      check negb (is_null value) else fail (CompositeCertificate tbs algorithm value);;
      mret (Some (set_val o (CompositeCertificate tbs algorithm value)))
  end.

(** The contents of the fields, which determine the encoding. *)
Record tbs_fields := TbsFields {
  f_version : option Z;
  f_serial_number : option Z;
  f_signature : option X509_ALGOR;
  f_issuer : option X509_NAME;
  f_validity : option X509_VAL;
  f_subject : option X509_NAME;
  f_subject_public_key_info : option X509_PUBKEY;
  f_issuer_uid : option ASN1_BIT_STRING;
  f_subject_uid : option ASN1_BIT_STRING;
  f_extensions : option (list X509_EXTENSION)
}.

Definition load {A} (p : option (obj A)) : M (option A) :=
  match p with None => mret None | Some o => v ← deref o; mret (Some v) end.

Definition load_tbs (t : COMPOSITE_TBS_CERTIFICATE) : M tbs_fields :=
  v ← load (version t); n ← load (serial_number t); a ← load (signature t);
  i ← load (issuer t); d ← load (validity t); s ← load (subject t);
  k ← load (subject_public_key_info t); iu ← load (issuer_uid t); su ← load (subject_uid t);
  e ← load (extensions t);
  mret (TbsFields v n a i d s k iu su e).

Definition tbs_der (f : tbs_fields) : list byte :=
  asn1_sequence [
    asn1_exp_opt 0 (i2d_ASN1_INTEGER <$> f_version f);
    asn1_simple (i2d_ASN1_INTEGER <$> f_serial_number f);
    asn1_simple (i2d_X509_ALGOR <$> f_signature f);
    asn1_simple (i2d_X509_NAME <$> f_issuer f);
    asn1_simple (i2d_X509_VAL <$> f_validity f);
    asn1_simple (i2d_X509_NAME <$> f_subject f);
    asn1_simple (i2d_X509_PUBKEY <$> f_subject_public_key_info f);
    asn1_imp_opt 1 (i2d_ASN1_BIT_STRING <$> f_issuer_uid f);
    asn1_imp_opt 2 (i2d_ASN1_BIT_STRING <$> f_subject_uid f);
    asn1_exp_opt 3 ((λ l, asn1_sequence (i2d_X509_EXTENSION <$> l)) <$> f_extensions f)
  ].

Definition certificate_der (f : tbs_fields) (a : X509_ALGOR) (v : ASN1_BIT_STRING) : list byte :=
  asn1_sequence [tbs_der f; i2d_X509_ALGOR a; i2d_ASN1_BIT_STRING v].

(** The length returned and the buffer allocated. *)
Definition i2d_COMPOSITE_TBS_CERTIFICATE (tbs : obj COMPOSITE_TBS_CERTIFICATE)
    : M (Z * option block) :=
  t ← deref tbs;
  f ← load_tbs t;
  r ← call (ASN1_item_i2d (tbs_der f));
  output ← new_object (λ _, snd r);
  mret (fst r, output).

Definition i2d_COMPOSITE_CERTIFICATE (certificate : obj COMPOSITE_CERTIFICATE)
    : M (Z * option block) :=
  c ← deref certificate;
  match tbs_certificate c, signature_algorithm c, signature_value c with
  | Some tbs, Some a, Some v =>
      t ← deref tbs; f ← load_tbs t; a ← deref a; v ← deref v;
      r ← call (ASN1_item_i2d (certificate_der f a v));
      output ← new_object (λ _, snd r);
      mret (fst r, output)
  | _, _, _ => undefined
  end.
End structures.
#[global] Arguments free_tbs_fields : simpl never.
#[global] Arguments COMPOSITE_TBS_CERTIFICATE_free : simpl never.
#[global] Arguments COMPOSITE_TBS_CERTIFICATE_new : simpl never.
#[global] Arguments COMPOSITE_CERTIFICATE_free : simpl never.
#[global] Arguments COMPOSITE_CERTIFICATE_new : simpl never.
#[global] Arguments load : simpl never.
#[global] Arguments load_tbs : simpl never.
#[global] Arguments tbs_der : simpl never.
#[global] Arguments certificate_der : simpl never.
#[global] Arguments i2d_COMPOSITE_TBS_CERTIFICATE : simpl never.
#[global] Arguments i2d_COMPOSITE_CERTIFICATE : simpl never.
#[export] Hint Opaque be_octets der_length der_tlv free_tbs_fields COMPOSITE_TBS_CERTIFICATE_free
  COMPOSITE_TBS_CERTIFICATE_new COMPOSITE_CERTIFICATE_free COMPOSITE_CERTIFICATE_new load load_tbs
  tbs_der certificate_der i2d_COMPOSITE_TBS_CERTIFICATE i2d_COMPOSITE_CERTIFICATE :
  typeclass_instances.

(** ** Specifications *)

Section ownership.
Context `{OpenSSL, !X509Library, !X509Builder}.

(** The references a structure holds, those of its fields first. *)
Definition tbs_fields_own (t : COMPOSITE_TBS_CERTIFICATE) : gmultiset positive :=
  owns (version t) ⊎ owns (serial_number t) ⊎ owns (signature t) ⊎ owns (issuer t) ⊎
  owns (validity t) ⊎ owns (subject t) ⊎ owns (subject_public_key_info t) ⊎
  owns (issuer_uid t) ⊎ owns (subject_uid t) ⊎ owns (extensions t).
Definition tbs_owns (p : option (obj COMPOSITE_TBS_CERTIFICATE)) : gmultiset positive :=
  match p with None => ∅ | Some o => owns (Some o) ⊎ tbs_fields_own (obj_val o) end.
Definition certificate_owns (p : option (obj COMPOSITE_CERTIFICATE)) : gmultiset positive :=
  match p with
  | None => ∅
  | Some o => owns (Some o) ⊎ tbs_owns (tbs_certificate (obj_val o)) ⊎
      owns (signature_algorithm (obj_val o)) ⊎ owns (signature_value (obj_val o))
  end.

(** The contents of the fields. *)
Definition tbs_values (t : COMPOSITE_TBS_CERTIFICATE) : tbs_fields :=
  TbsFields (obj_val <$> version t) (obj_val <$> serial_number t) (obj_val <$> signature t)
    (obj_val <$> issuer t) (obj_val <$> validity t) (obj_val <$> subject t)
    (obj_val <$> subject_public_key_info t) (obj_val <$> issuer_uid t)
    (obj_val <$> subject_uid t) (obj_val <$> extensions t).
End ownership.

(** Assignments to the fields of a structure, performed. *)
Ltac set_fields :=
  lazy beta iota delta [set_version set_serial_number set_signature set_issuer set_validity
    set_subject set_subject_public_key_info set_extensions version serial_number signature issuer
    validity subject subject_public_key_info issuer_uid subject_uid extensions empty_tbs];
  unfold set_val; cbn [obj_val obj_id].

Ltac asn1_owns_unfold :=
  unfold out_owns, certificate_owns, tbs_owns, tbs_fields_own, empty_tbs, empty_certificate in *;
  cbn [fst snd version serial_number signature issuer validity
       subject subject_public_key_info issuer_uid subject_uid extensions tbs_certificate
       signature_algorithm signature_value obj_val obj_id set_val] in *.
Ltac owns_unfold ::= asn1_owns_unfold.

Section specs.
Context `{Libc, OpenSSL, !X509Library, !X509Builder}.

#[export] Instance spec_load {A} (p : option (obj A)) :
  Spec (load p) (alive p) (λ r s s', r = obj_val <$> p ∧ s' = s).
Proof. wp_start. unfold load. destruct p as [o|]; [wp_call as v [-> ->]|]; by apply wp_ret. Qed.

#[export] Instance spec_COMPOSITE_TBS_CERTIFICATE_free p :
  Spec (COMPOSITE_TBS_CERTIFICATE_free p) (λ s, tbs_owns p ⊆ live s)
    (λ r s s', frame (tbs_owns p) ∅ s s').
Proof.
  wp_start. unfold COMPOSITE_TBS_CERTIFICATE_free, free_tbs_fields.
  destruct p as [[i [v n a ic d sn k u1 u2 e]]|]; [|by apply wp_ret].
  wp_call as t [-> ->]. asn1_owns_unfold. do 10 wp_call as ? ?. eapply wp_spec; [apply _|wp_side|].
  intros ? s' F'. cbv beta in F'. frame_merge. solve_frame.
Qed.

(** A new structure has its mandatory fields and no other. *)
Definition fresh_tbs (t : COMPOSITE_TBS_CERTIFICATE) : Prop :=
  ∃ n a i d s k, t = TbsCertificate None (Some n) (Some a) (Some i) (Some d) (Some s) (Some k)
                       None None None.

(** Nothing OpenSSL allocates for such a structure fails. *)
Record asn1_allocates : Prop := {
  allocates_item t : ASN1_item_alloc t = true;
  allocates_integer t : is_Some (ASN1_INTEGER_new t);
  allocates_algor t : is_Some (X509_ALGOR_new t);
  allocates_name t : is_Some (X509_NAME_new t);
  allocates_val t : is_Some (X509_VAL_new t);
  allocates_pubkey t : is_Some (X509_PUBKEY_new t);
  allocates_bits t : is_Some (ASN1_BIT_STRING_new t)
}.

(** One field allocated; otherwise [Hfail] ends the path. *)
Ltac refute_new :=
  intros [];
  match goal with E : ?f ?t = None, H : ∀ t, is_Some (?f t) |- False => destruct (H t); congruence end.
Ltac new_field Hfail :=
  let E := fresh "E" in
  wp_call as [?|] [? E]; cbn [fmap option_fmap option_map] in E; cbn [is_null negb];
  [|apply Hfail; [solve_frame|refute_new]].

#[export] Instance spec_COMPOSITE_TBS_CERTIFICATE_new :
  Spec COMPOSITE_TBS_CERTIFICATE_new (λ _, True)
    (λ r s s', yields ∅ tbs_owns (from_option (λ o, fresh_tbs (obj_val o)) True) r s s' ∧
       (asn1_allocates → is_Some r)).
Proof.
  wp_start. unfold COMPOSITE_TBS_CERTIFICATE_new.
  set (Post := λ (r : option (obj COMPOSITE_TBS_CERTIFICATE)) s', _ ∧ _).
  wp_call as [o|] [F Ho]; cbn in Ho.
  2: { apply wp_ret. split; [by wp_end|]. intros Hal. by rewrite allocates_item in Ho. }
  destruct (ASN1_item_alloc _) eqn:E; [|done]. injection Ho as Ho. rewrite <-Ho.
  assert (Hfail : ∀ t s', frame ∅ (tbs_owns (Some (set_val o t))) s s' → ¬ asn1_allocates →
    wp (COMPOSITE_TBS_CERTIFICATE_free (Some (set_val o t));; mret None) Post s').
  { intros t s' F' Hn. wp_call as ? ?. apply wp_ret. split; [|by intros].
    split; [|done]. eapply frame_conv; [eassumption|]. cbn [tbs_owns]. ms_lia. }
  destruct o as [i v]. set_fields. unfold set_val in Hfail. cbn [obj_id] in Hfail.
  do 6 new_field Hfail. apply wp_ret. split; [split; [solve_frame|]|done]. cbn. by do 6 eexists.
Qed.

#[export] Instance spec_COMPOSITE_CERTIFICATE_free p :
  Spec (COMPOSITE_CERTIFICATE_free p) (λ s, certificate_owns p ⊆ live s)
    (λ r s s', frame (certificate_owns p) ∅ s s').
Proof.
  wp_start. unfold COMPOSITE_CERTIFICATE_free. destruct p as [o|]; [|by apply wp_ret].
  cbn [certificate_owns] in *. wp_call as t [-> ->]. do 3 wp_call as ? ?.
  eapply wp_spec; [apply _|wp_side|]. intros ? s' F'. cbv beta in F'. frame_merge. solve_frame.
Qed.

#[export] Instance spec_COMPOSITE_CERTIFICATE_new :
  Spec COMPOSITE_CERTIFICATE_new (λ _, True)
    (λ r s s', yields ∅ certificate_owns (from_option (λ o, ∃ t a v,
         obj_val o = CompositeCertificate (Some t) (Some a) (Some v)) True) r s s' ∧
       (asn1_allocates → is_Some r)).
Proof.
  wp_start. unfold COMPOSITE_CERTIFICATE_new.
  set (Post := λ (r : option (obj COMPOSITE_CERTIFICATE)) s', _ ∧ _).
  wp_call as [o|] [F Ho]; cbn in Ho.
  2: { apply wp_ret. split; [by wp_end|]. intros Hal. by rewrite allocates_item in Ho. }
  destruct (ASN1_item_alloc _) eqn:E; [|done]. injection Ho as Ho.
  assert (Hfail : ∀ c s', frame ∅ (certificate_owns (Some (set_val o c))) s s' → ¬ asn1_allocates →
    wp (COMPOSITE_CERTIFICATE_free (Some (set_val o c));; mret None) Post s').
  { intros c s' F' Hn. wp_call as ? ?. apply wp_ret. split; [|by intros].
    split; [|done]. eapply frame_conv; [eassumption|]. cbn [certificate_owns]. ms_lia. }
  wp_call as [tbs|] ([F1 Ht] & Hall); cbn [is_null negb].
  2: { apply Hfail; [solve_frame|]. intros Hal. by destruct (Hall Hal). }
  do 2 new_field Hfail. apply wp_ret. split; [split; [solve_frame|]|done]. cbn. by do 3 eexists.
Qed.

#[export] Instance spec_load_tbs t :
  Spec (load_tbs t) (λ s, tbs_fields_own t ⊆ live s) (λ r s s', r = tbs_values t ∧ s' = s).
Proof.
  wp_start. unfold load_tbs, tbs_values. destruct t as [v n a ic d sn k u1 u2 e]. asn1_owns_unfold.
  do 10 wp_call as ? [-> ->]. by apply wp_ret.
Qed.

(** Encoding a structure: on success, the encoding of its contents. *)
Definition encoded (e : list byte) (r : Z * option block) : Prop :=
  0 < fst r → fst r ≤ INT_MAX ∧ fst r = len e ∧ ∃ b, snd r = Some b ∧ obj_val b = e.

Context `{!X509BuilderContracts}.

(** Encoding succeeds when the length can be said. *)
Definition encodes : Prop := ∀ e t, len e ≤ INT_MAX → 0 < len e → 0 < fst (ASN1_item_i2d e t).

#[export] Instance spec_i2d_COMPOSITE_TBS_CERTIFICATE o :
  Spec (i2d_COMPOSITE_TBS_CERTIFICATE o) (λ s, tbs_owns (Some o) ⊆ live s)
    (λ r s s', yields ∅ (λ r, owns (snd r)) (encoded (tbs_der (tbs_values (obj_val o)))) r s s' ∧
       (encodes → len (tbs_der (tbs_values (obj_val o))) ≤ INT_MAX → 0 < fst r)).
Proof.
  wp_start. unfold i2d_COMPOSITE_TBS_CERTIFICATE, encoded. cbn [tbs_owns] in P.
  wp_call as t [-> ->]. wp_call as f [-> ->]. wp_call as [n buf] [F Hr]. wp_call as out [F1 Ho].
  apply wp_ret. cbn [fst snd] in *. subst buf. split; [split; [solve_frame|]|].
  - intros Hn. destruct (item_i2d_size _ _ _ _ Hr Hn) as (? & Hb & ->). destruct out as [b|]; [|done].
    injection Hb as Hb. split_and!; try done. by exists b.
  - intros Henc Hl. replace n with (fst (n, obj_val <$> out)) by done. rewrite <-Hr.
    apply Henc; [done|]. apply len_der_tlv_pos.
Qed.
#[export] Instance spec_i2d_COMPOSITE_CERTIFICATE c t a v :
  Spec (i2d_COMPOSITE_CERTIFICATE c)
    (λ s, certificate_owns (Some c) ⊆ live s ∧
          obj_val c = CompositeCertificate (Some t) (Some a) (Some v))
    (λ r s s', let e := certificate_der (tbs_values (obj_val t)) (obj_val a) (obj_val v) in
       yields ∅ (λ r, owns (snd r)) (encoded e) r s s' ∧
       (encodes → len e ≤ INT_MAX → 0 < fst r)).
Proof.
  wp_start. destruct P as [P Hc]. unfold i2d_COMPOSITE_CERTIFICATE, encoded.
  cbn [certificate_owns] in P. rewrite Hc in P. cbn [tbs_certificate signature_algorithm signature_value tbs_owns] in P.
  wp_call as c' [-> ->]. rewrite Hc. cbn [tbs_certificate signature_algorithm signature_value].
  wp_call as t' [-> ->]. wp_call as f [-> ->]. wp_call as a' [-> ->]. wp_call as v' [-> ->].
  wp_call as [n buf] [F Hr]. wp_call as out [F1 Ho].
  apply wp_ret. cbn [fst snd] in *. subst buf. split; [split; [solve_frame|]|].
  - intros Hn. destruct (item_i2d_size _ _ _ _ Hr Hn) as (? & Hb & ->). destruct out as [b|]; [|done].
    injection Hb as Hb. split_and!; try done. by exists b.
  - intros Henc Hl. replace n with (fst (n, obj_val <$> out)) by done. rewrite <-Hr.
    apply Henc; [done|]. apply len_der_tlv_pos.
Qed.
End specs.

(** ** What an encoding says *)

(** The values of a type are encoded as one element each, different ones
    differently. *)
Definition elementary {A} (i2d : A → list byte) : Prop :=
  ∀ x, len (i2d x) < 2 ^ 64 → element (i2d x) ∧ ∀ y, i2d x = i2d y → x = y.

(** The library's types are; a bit string has flags that its encoding does not
    show. *)
Class X509Elements `{X509Builder} : Prop := {
  integer_elements : elementary i2d_ASN1_INTEGER;
  algor_elements : elementary i2d_X509_ALGOR;
  name_elements : elementary i2d_X509_NAME;
  validity_elements : elementary i2d_X509_VAL;
  pubkey_elements : elementary i2d_X509_PUBKEY;
  extension_elements : elementary i2d_X509_EXTENSION;
  bits_element v : len (i2d_ASN1_BIT_STRING v) < 2 ^ 64 → element (i2d_ASN1_BIT_STRING v)
}.

Section elements.
Context `{OpenSSL, !X509Library, !X509Builder, !X509Elements}.

Lemma len_sequence_le fields : len (concat fields) ≤ len (asn1_sequence fields).
Proof. apply len_der_tlv. Qed.

(** The parts of a sequence are no longer than the sequence. *)
Lemma sequence_parts l : len (asn1_sequence l) < 2 ^ 64 → Forall (λ e, len e < 2 ^ 64) l.
Proof.
  intros Hl. pose proof (len_sequence_le l) as Hc. assert (Hb : len (concat l) < 2 ^ 64) by lia. clear Hl Hc.
  induction l as [|e l IH]; constructor; cbn in Hb; rewrite len_app in Hb;
    pose proof (len_nonneg e); pose proof (len_nonneg (concat l)); [lia|apply IH; lia].
Qed.

Lemma sequence_inj l l' :
  len (asn1_sequence l) < 2 ^ 64 → len (asn1_sequence l') < 2 ^ 64 →
  Forall element l → Forall element l' → asn1_sequence l = asn1_sequence l' → l = l'.
Proof.
  intros Hl Hl' He He' Heq. pose proof (len_sequence_le l). pose proof (len_sequence_le l').
  apply der_tlv_inj in Heq as [_ Heq]; [|lia..]. by apply elements_inj.
Qed.

Lemma sequence_element l : len (asn1_sequence l) < 2 ^ 64 → element (asn1_sequence l).
Proof. intros Hl. pose proof (len_sequence_le l). exists 0x30, (concat l). split_and!; [done|lia..]. Qed.

Lemma tagged_elements {A} tag (i2d : A → list byte) :
  0 ≤ tag < 256 → elementary i2d → elementary (λ x, der_tlv tag (i2d x)).
Proof.
  intros Ht Hi x Hx. pose proof (len_der_tlv tag (i2d x)). split; [eexists _, _; split; [done|lia]|].
  intros y Hy. pose proof (len_der_tlv tag (i2d y)) as Hle. rewrite <-Hy in Hle.
  apply der_tlv_inj in Hy as [_ Hy]; [|lia..]. apply Hi; [lia|done].
Qed.

Lemma sequence_elements {A} (i2d : A → list byte) :
  elementary i2d → elementary (λ l, asn1_sequence (i2d <$> l)).
Proof.
  intros Hi. assert (Hf : ∀ l, len (asn1_sequence (i2d <$> l)) < 2 ^ 64 → Forall element (i2d <$> l)).
  { intros l Hl%sequence_parts. apply Forall_fmap. apply Forall_fmap in Hl.
    revert Hl. apply Forall_impl. intros x Hx. by apply Hi. }
  intros l Hl. split; [by apply sequence_element|]. intros l' Heq. pose proof Hl as Hl'. rewrite Heq in Hl'.
  apply sequence_inj in Heq; [|by auto..]. apply sequence_parts, Forall_fmap in Hl. clear Hl' Hf.
  revert l' Heq. induction Hl as [|x l Hx _ IH]; intros [|y l']; cbn; try done.
  intros [Hxy%Hi ->%IH]%(inj2 cons); [by subst|done].
Qed.

(** The fields a certificate of version 3 without unique identifiers has. *)
Definition version_3_fields (f : tbs_fields) : Prop :=
  ∃ v n a i d s k e,
    f = TbsFields (Some v) (Some n) (Some a) (Some i) (Some d) (Some s) (Some k) None None (Some e).

(** Their encodings. *)
Definition tbs_elements v n a i d s k (e : list X509_EXTENSION) : list (list byte) :=
  [der_tlv 0xa0 (i2d_ASN1_INTEGER v); i2d_ASN1_INTEGER n; i2d_X509_ALGOR a; i2d_X509_NAME i;
   i2d_X509_VAL d; i2d_X509_NAME s; i2d_X509_PUBKEY k;
   der_tlv 0xa3 (asn1_sequence (i2d_X509_EXTENSION <$> e))].

Lemma tbs_der_elements v n a i d s k e :
  tbs_der (TbsFields (Some v) (Some n) (Some a) (Some i) (Some d) (Some s) (Some k) None None (Some e)) =
  asn1_sequence (tbs_elements v n a i d s k e).
Proof. done. Qed.

Definition version_elements := tagged_elements 0xa0 _ ltac:(lia) integer_elements.
Definition extensions_elements :=
  tagged_elements 0xa3 _ ltac:(lia) (sequence_elements _ extension_elements).

Lemma tbs_elements_spec v n a i d s k e :
  len (asn1_sequence (tbs_elements v n a i d s k e)) < 2 ^ 64 →
  Forall (λ e, len e < 2 ^ 64) (tbs_elements v n a i d s k e) ∧ Forall element (tbs_elements v n a i d s k e).
Proof.
  intros Hl%sequence_parts. split; [done|]. unfold tbs_elements in *. decompose_Forall_hyps.
  repeat constructor;
    first [by apply integer_elements|by apply algor_elements|by apply name_elements|by apply validity_elements
          |by apply pubkey_elements|by apply version_elements|by apply extensions_elements].
Qed.

(** Equal lists of elements have equal heads and equal tails. *)
Lemma cons_elements_inj {A} (i2d : A → list byte) x y l l' :
  elementary i2d → Forall (λ e, len e < 2 ^ 64) (i2d x :: l) → i2d x :: l = i2d y :: l' →
  x = y ∧ Forall (λ e, len e < 2 ^ 64) l ∧ l = l'.
Proof. intros Hi Hf [Heq ->]%(inj2 cons). inversion_clear Hf. split; [by apply Hi|done]. Qed.

Ltac next_field law :=
  match goal with
  | B : Forall _ (_ :: _), E : _ :: _ = _ :: _ |- _ =>
      apply (cons_elements_inj _ _ _ _ _ law B) in E as (-> & ? & ?); clear B
  end.

Lemma tbs_elements_inj v n a i d s k e v' n' a' i' d' s' k' e' :
  Forall (λ e, len e < 2 ^ 64) (tbs_elements v n a i d s k e) →
  tbs_elements v n a i d s k e = tbs_elements v' n' a' i' d' s' k' e' →
  v = v' ∧ n = n' ∧ a = a' ∧ i = i' ∧ d = d' ∧ s = s' ∧ k = k' ∧ e = e'.
Proof.
  unfold tbs_elements. intros B E. next_field version_elements. next_field integer_elements.
  next_field algor_elements. next_field name_elements. next_field validity_elements.
  next_field name_elements. next_field pubkey_elements. by next_field extensions_elements.
Qed.

(** An encoding of bounded length determines the fields, the algorithm and the
    encoding of the signature value. *)
Lemma certificate_der_inj f g a b v w :
  version_3_fields f → version_3_fields g →
  len (certificate_der f a v) < 2 ^ 64 → certificate_der f a v = certificate_der g b w →
  f = g ∧ a = b ∧ i2d_ASN1_BIT_STRING v = i2d_ASN1_BIT_STRING w.
Proof.
  intros (v1 & n1 & a1 & i1 & d1 & s1 & k1 & e1 & ->) (v2 & n2 & a2 & i2 & d2 & s2 & k2 & e2 & ->) Hl Heq.
  pose proof Hl as Hl'. rewrite Heq in Hl'. unfold certificate_der in *. rewrite !tbs_der_elements in *.
  pose proof (sequence_parts _ Hl) as Hp. pose proof (sequence_parts _ Hl') as Hp'.
  apply sequence_inj in Heq; [|done..| |];
    [|decompose_Forall_hyps; repeat constructor;
      [by apply sequence_element|by apply algor_elements|by apply bits_element]..].
  apply (inj2 cons) in Heq as [Ht [Ha [Hb _]%(inj2 cons)]%(inj2 cons)].
  destruct (tbs_elements_spec v1 n1 a1 i1 d1 s1 k1 e1) as [Hs1 He1]; [by inversion Hp|].
  destruct (tbs_elements_spec v2 n2 a2 i2 d2 s2 k2 e2) as [_ He2]; [by inversion Hp'|].
  apply sequence_inj in Ht; [|by inversion Hp|by inversion Hp'|done..]. apply tbs_elements_inj in Ht; [|done].
  destruct_and!. subst. split; [done|]. split; [|done]. apply algor_elements; [by decompose_Forall_hyps|done].
Qed.
End elements.
