(* ===== verification/X509Build.v ===== *)
(** * hybrid_x509.c (the parts of a certificate)

    Names, subject keys, extensions and the part of a certificate that is
    signed, built through OpenSSL. *)

From S2P Require Import Prelude Machine External Environment Dilithium Sm2 CompositeKey X509 Asn1.

(** [obj_mac.h], [asn1.h] *)
Definition NID_subject_key_identifier : Z := 82.
Definition NID_key_usage : Z := 83.
Definition NID_subject_alt_name : Z := 85.
Definition NID_basic_constraints : Z := 87.
Definition NID_authority_key_identifier : Z := 90.
Definition NID_ext_key_usage : Z := 126.
Definition V_ASN1_OBJECT : Z := 6.
Definition MBSTRING_UTF8 : Z := 0x1000.
Definition MBSTRING_ASC : Z := 0x1001.
Definition ASN1_STRING_FLAG_BITS_LEFT : Z := 0x08.

(** ** Parts *)

(** [m ≫& k]: the conjunction of two calls that work on the same object, the
    second made only if the first succeeds. *)
Definition and_then {A} (m : M (bool * A)) (k : A → M (bool * A)) : M (bool * A) :=
  m ≫= λ r : bool * A, if fst r then k (snd r) else mret (false, snd r).
Infix "≫&" := and_then (at level 61, left associativity) : c_scope.

Section builders.
Context `{Libc, OpenSSL, Dilithium2, !X509Library, !X509Builder}.

(** A call that changes the structure at [o]: whether its code is not zero,
    and the structure after it. *)
Definition update {A} (o : obj A) (f : A → N → Z * A) : M (bool * obj A) :=
  v ← deref o;
  r ← call (f v);
  mret (negb (fst r =? 0), set_val o (snd r)).

(** The callee takes over the reference. *)
Definition give_object {A} (o : obj A) : M A :=
  v ← deref o; free_object (Some o);; mret v.

(** The code of [X509_ALGOR_set0], which takes over the object when it
    succeeds, is not looked at. *)
Definition set_composite_algorithm (algorithm : option (obj X509_ALGOR))
    : M (bool * option (obj X509_ALGOR)) :=
  match algorithm with
  | None => mret (false, None)
  | Some a =>
      object ← new_object (OBJ_txt2obj COMPOSITE_SM2_DILITHIUM_EXPERIMENTAL_OID 1);
      match object with
      | None => mret (false, algorithm)
      | Some o =>
          v ← deref o;
          '(ok, a) ← update a (λ a, X509_ALGOR_set0 a v V_ASN1_UNDEF);
          if ok : bool then give_object o;; mret (true, Some a) else mret (true, Some a)
      end
  end.

Definition make_name (common_name : option string) : M (option (obj X509_NAME)) :=
  match common_name with
  | None | Some ""%string => mret None
  | Some cn =>
      name ← new_object X509_NAME_new;
      match name with
      | None => free_object name;; mret None
      | Some n =>
          let entry field type value n :=
            update n (λ v, X509_NAME_add_entry_by_txt v field type value) in
          '(ok, n) ← (entry "C" MBSTRING_ASC "CN" n ≫&
                      entry "O" MBSTRING_ASC "Experimental Hybrid PKI" ≫&
                      entry "CN" MBSTRING_UTF8 cn)%string;
          if negb ok then free_object (Some n);; mret None else mret (Some n)
      end
  end.

(** [sk_X509_EXTENSION_push]: the new size, and zero on failure. The stack
    takes over the extension. *)
Definition sk_X509_EXTENSION_push (sk : obj (list X509_EXTENSION)) (extension : obj X509_EXTENSION)
    : M (Z * obj (list X509_EXTENSION)) :=
  l ← deref sk;
  ok ← call (OPENSSL_sk_grow (len l));
  if ok : bool then
    e ← give_object extension;
    mret (len l + 1, set_val sk (l ++ [e]))
  else mret (0, sk).

Definition push_extension (extensions : option (obj (list X509_EXTENSION)))
    (extension : option (obj X509_EXTENSION)) : M (bool * option (obj (list X509_EXTENSION))) :=
  match extensions, extension with
  | Some sk, Some e =>
      '(n, sk) ← sk_X509_EXTENSION_push sk e;
      if n =? 0 then free_object extension;; mret (false, Some sk) else mret (true, Some sk)
  | _, _ => free_object extension;; mret (false, extensions)
  end.

Definition add_conf_extension (extensions : option (obj (list X509_EXTENSION))) (nid : Z) (value : string)
    : M (bool * option (obj (list X509_EXTENSION))) :=
  extension ← new_object (X509V3_EXT_conf_nid nid value);
  push_extension extensions extension.

(** The extension made is pushed on the stack, which is not [NULL]; what is
    left to release is returned. *)
Definition push_made (sk : obj (list X509_EXTENSION)) (extension : option (obj X509_EXTENSION))
    : M (bool * obj (list X509_EXTENSION) * option (obj X509_EXTENSION)) :=
  match extension with
  | None => mret (false, sk, None)
  | Some e =>
      '(n, sk) ← sk_X509_EXTENSION_push sk e;
      if n =? 0 then mret (false, sk, extension) else mret (true, sk, None)
  end.

Definition add_pqc_marker (sk : obj (list X509_EXTENSION)) : M (bool * obj (list X509_EXTENSION)) :=
  let der_null := [Byte.x05; Byte.x00] in
  object ← new_object (OBJ_txt2obj HYBRID_PQC_EXTENSION_OID 1);
  value ← new_object ASN1_OCTET_STRING_new;
  let done (value : option (obj (list byte)))
      (r : bool * obj (list X509_EXTENSION) * option (obj X509_EXTENSION)) :=
    let '(ok, sk, extension) := r in
    free_object extension;; free_object value;; free_object object;; mret (ok, sk) in
  match object, value with
  | Some o, Some v =>
      '(ok, v) ← update v (λ v, ASN1_OCTET_STRING_set v der_null);
      if negb ok then done (Some v) (false, sk, None)
      else
        ob ← deref o; data ← deref v;
        extension ← new_object (X509_EXTENSION_create_by_OBJ ob 0 data);
        r ← push_made sk extension;
        done (Some v) r
  | _, _ => done value (false, sk, None)
  end.

(** Writes to the 32-byte array at [digest]. *)
Definition compute_key_identifier (key : option HYBRID_PUBLIC_KEY) (digest : list byte)
    : M (bool * list byte) :=
  '(ok, serialized) ← composite_serialize_public_key key fresh_out;
  let done (r : bool * list byte) := free_object (out_block serialized);; mret r in
  if negb ok then done (false, digest)
  else
    bytes ← borrow (out_block serialized);
    bytes ← read bytes (out_len serialized);
    md ← call (EVP_Digest_sha256 bytes);
    match md with
    | None => done (false, digest)
    | Some md => digest ← memcpy digest 0 md; done (len md =? 32, digest)
    end.

(** The key identifier [digest] as an extension. *)
Definition push_key_identifier (sk : obj (list X509_EXTENSION)) (digest : list byte)
    : M (bool * obj (list X509_EXTENSION)) :=
  identifier ← new_object ASN1_OCTET_STRING_new;
  let done (identifier : option (obj (list byte)))
      (r : bool * obj (list X509_EXTENSION) * option (obj X509_EXTENSION)) :=
    let '(ok, sk, extension) := r in
    cleanse digest 32;; free_object extension;; free_object identifier;; mret (ok, sk) in
  match identifier with
  | None => done identifier (false, sk, None)
  | Some i =>
      '(ok, i) ← update i (λ i, ASN1_OCTET_STRING_set i digest);
      if negb ok then done (Some i) (false, sk, None)
      else
        data ← deref i;
        extension ← new_object (X509V3_EXT_i2d_octet_string NID_subject_key_identifier 0 data);
        r ← push_made sk extension;
        done (Some i) r
  end.

Definition add_subject_key_identifier (sk : obj (list X509_EXTENSION)) (key : option HYBRID_PUBLIC_KEY)
    : M (bool * obj (list X509_EXTENSION)) :=
  digest ← local_array 32;
  '(ok, digest) ← compute_key_identifier key digest;
  if negb ok then mret (false, sk) else push_key_identifier sk digest.

Definition compute_sm2_key_identifier (key : option (obj EVP_PKEY)) (digest : list byte)
    : M (bool * list byte) :=
  public_key ← local_array SM2_UNCOMPRESSED_PUBLIC_KEY_BYTES;
  let done (public_key : list byte) (r : bool * list byte) :=
    cleanse public_key SM2_UNCOMPRESSED_PUBLIC_KEY_BYTES;; mret r in
  match key with
  | None => done public_key (false, digest)
  | Some k =>
      v ← deref k;
      if EVP_PKEY_is_a v "SM2" =? 0 then done public_key (false, digest)
      else
        '(rc, pub) ← call (EVP_PKEY_get_pub v SM2_UNCOMPRESSED_PUBLIC_KEY_BYTES);
        public_key ← memcpy public_key 0 pub;
        if (rc <=? 0) || negb (len pub =? SM2_UNCOMPRESSED_PUBLIC_KEY_BYTES) ||
           negb (bool_decide (public_key !! 0%nat = Some Byte.x04))
        then done public_key (false, digest)
        else
          bytes ← read (Some public_key) (len pub);
          md ← call (EVP_Digest_sha256 bytes);
          match md with
          | None => done public_key (false, digest)
          | Some md => digest ← memcpy digest 0 md; done public_key (len md =? 32, digest)
          end
  end.

Definition add_sm2_subject_key_identifier (sk : obj (list X509_EXTENSION)) (key : option (obj EVP_PKEY))
    : M (bool * obj (list X509_EXTENSION)) :=
  digest ← local_array 32;
  '(ok, digest) ← compute_sm2_key_identifier key digest;
  if negb ok then mret (false, sk) else push_key_identifier sk digest.

(** An [AUTHORITY_KEYID] owns its key identifier: [AUTHORITY_KEYID_free]. *)
Definition free_authority (authority : option (obj AUTHORITY_KEYID)) (keyid : option (obj (list byte)))
    : M unit :=
  match authority with None => mret tt | Some _ => free_object keyid;; free_object authority end.

(** [authority->keyid] is [NULL] in a new structure. *)
Definition add_authority_key_identifier (sk : obj (list X509_EXTENSION))
    (issuer_key : option HYBRID_PUBLIC_KEY) : M (bool * obj (list X509_EXTENSION)) :=
  digest ← local_array 32;
  '(ok, digest) ← compute_key_identifier issuer_key digest;
  if negb ok then mret (false, sk)
  else
    authority ← new_object AUTHORITY_KEYID_new;
    let done (keyid : option (obj (list byte)))
        (r : bool * obj (list X509_EXTENSION) * option (obj X509_EXTENSION)) :=
      let '(ok, sk, extension) := r in
      cleanse digest 32;; free_object extension;; free_authority authority keyid;; mret (ok, sk) in
    match authority with
    | None => done None (false, sk, None)
    | Some a =>
        keyid ← new_object ASN1_OCTET_STRING_new;
        match keyid with
        | None => done keyid (false, sk, None)
        | Some k =>
            '(ok, k) ← update k (λ k, ASN1_OCTET_STRING_set k digest);
            if negb ok then done (Some k) (false, sk, None)
            else
              deref a;; data ← deref k;
              extension ← new_object (X509V3_EXT_i2d_authority_keyid NID_authority_key_identifier 0
                                        (AuthorityKeyid (Some data)));
              r ← push_made sk extension;
              done (Some k) r
        end
    end.
End builders.

(** ** Certificates *)

Section certificates.
Context `{Libc, OpenSSL, Dilithium2, !X509Library, !X509Builder}.

Definition make_composite_spki (key : option HYBRID_PUBLIC_KEY) : M (option (obj X509_PUBKEY)) :=
  '(ok, serialized) ← composite_serialize_public_key key fresh_out;
  let error (algorithm : option (obj ASN1_OBJECT)) (spki : option (obj X509_PUBKEY)) :=
    free_object algorithm;; free_object (out_block serialized);; free_object spki;; mret None in
  if negb ok || (out_len serialized >? INT_MAX) then error None None
  else
    spki ← new_object X509_PUBKEY_new;
    algorithm ← new_object (OBJ_txt2obj COMPOSITE_SM2_DILITHIUM_EXPERIMENTAL_OID 1);
    match spki, algorithm, out_block serialized with
    | Some k, Some a, Some b =>
        ob ← deref a;
        bytes ← deref b;
        octets ← read (Some bytes) (out_len serialized);
        '(ok, k) ← update k (λ k, X509_PUBKEY_set0_param k ob V_ASN1_UNDEF None octets);
        if negb ok then error algorithm (Some k)
        else give_object a;; give_object b;; mret (Some k)
    | _, _, _ => error algorithm spki
    end.

Definition make_sm2_spki (key : option (obj EVP_PKEY)) : M (option (obj X509_PUBKEY)) :=
  let error (public_key : option block) (curve algorithm : option (obj ASN1_OBJECT))
      (spki : option (obj X509_PUBKEY)) :=
    free_object public_key;; free_object curve;; free_object algorithm;; free_object spki;;
    mret None in
  match key with
  | None => error None None None None
  | Some key =>
      v ← deref key;
      if EVP_PKEY_is_a v "SM2" =? 0 then error None None None None
      else
        spki ← new_object X509_PUBKEY_new;
        algorithm ← new_object (OBJ_txt2obj "1.2.840.10045.2.1" 1);
        curve ← new_object (OBJ_txt2obj "1.2.156.10197.1.301" 1);
        public_key ← malloc SM2_UNCOMPRESSED_PUBLIC_KEY_BYTES;
        match spki, algorithm, curve, public_key with
        | Some k, Some a, Some c, Some b =>
            '(rc, pub) ← call (EVP_PKEY_get_pub v SM2_UNCOMPRESSED_PUBLIC_KEY_BYTES);
            b ← memcpy_block b 0 pub;
            if (rc <=? 0) || negb (len pub =? SM2_UNCOMPRESSED_PUBLIC_KEY_BYTES) ||
               negb (bool_decide (obj_val b !! 0%nat = Some Byte.x04))
            then error (Some b) curve algorithm spki
            else
              oa ← deref a; oc ← deref c; bytes ← deref b;
              octets ← read (Some bytes) (len pub);
              '(ok, k) ← update k (λ k, X509_PUBKEY_set0_param k oa V_ASN1_OBJECT (Some oc) octets);
              if negb ok then error (Some b) curve algorithm (Some k)
              else give_object a;; give_object c;; give_object b;; mret (Some k)
        | _, _, _, _ => error public_key curve algorithm spki
        end
  end.

(** [tbs->extensions] is a new stack, to which [add] adds. *)
Definition build_extensions (tbs : obj COMPOSITE_TBS_CERTIFICATE)
    (add : obj (list X509_EXTENSION) → M (bool * obj (list X509_EXTENSION)))
    : M (bool * obj COMPOSITE_TBS_CERTIFICATE) :=
  t ← deref tbs;
  sk ← new_object (λ t, if OPENSSL_sk_new t then Some [] else None);
  match sk with
  | None => mret (false, set_val tbs (set_extensions t None))
  | Some sk => '(ok, sk) ← add sk; mret (ok, set_val tbs (set_extensions t (Some sk)))
  end.

Definition conf (nid : Z) (value : string) (sk : obj (list X509_EXTENSION))
    : M (bool * obj (list X509_EXTENSION)) :=
  '(ok, e) ← add_conf_extension (Some sk) nid value; mret (ok, default sk e).

Definition build_root_extensions (ca_public_key : option HYBRID_PUBLIC_KEY)
    (tbs : obj COMPOSITE_TBS_CERTIFICATE) : M (bool * obj COMPOSITE_TBS_CERTIFICATE) :=
  build_extensions tbs (λ sk,
    conf NID_basic_constraints "critical,CA:TRUE" sk ≫&
    conf NID_key_usage "critical,keyCertSign,cRLSign" ≫&
    (λ sk, add_subject_key_identifier sk ca_public_key) ≫& add_pqc_marker).

(** [snprintf(san_value, sizeof(san_value), "DNS:%s", dns_name)]: the length
    of the whole text, negative when an [int] cannot say it. *)
Definition san_length (dns_name : string) : Z :=
  let n := 4 + strlen dns_name in if n >? INT_MAX then -1 else n.

Definition build_server_extensions (ca_public_key server_public_key : option HYBRID_PUBLIC_KEY)
    (dns_name : option string) (tbs : obj COMPOSITE_TBS_CERTIFICATE)
    : M (bool * obj COMPOSITE_TBS_CERTIFICATE) :=
  match dns_name with
  | None | Some ""%string => mret (false, tbs)
  | Some dns =>
      let length := san_length dns in
      if (length <=? 0) || (length >=? 300) then mret (false, tbs)
      else
        let san_value := ("DNS:" ++ dns)%string in
        build_extensions tbs (λ sk,
          conf NID_basic_constraints "critical,CA:FALSE" sk ≫&
          conf NID_key_usage "critical,digitalSignature" ≫&
          conf NID_ext_key_usage "serverAuth" ≫&
          conf NID_subject_alt_name san_value ≫&
          (λ sk, add_subject_key_identifier sk server_public_key) ≫&
          (λ sk, add_authority_key_identifier sk ca_public_key) ≫& add_pqc_marker)
  end.

Definition build_encryption_server_extensions (ca_public_key : option HYBRID_PUBLIC_KEY)
    (server_sm2_public_key : option (obj EVP_PKEY)) (tbs : obj COMPOSITE_TBS_CERTIFICATE)
    : M (bool * obj COMPOSITE_TBS_CERTIFICATE) :=
  build_extensions tbs (λ sk,
    conf NID_basic_constraints "critical,CA:FALSE" sk ≫&
    conf NID_key_usage "critical,keyEncipherment,keyAgreement" ≫&
    (λ sk, add_sm2_subject_key_identifier sk server_sm2_public_key) ≫&
    (λ sk, add_authority_key_identifier sk ca_public_key) ≫& add_pqc_marker).

(** A call on a field of a structure; the field is not [NULL]. *)
Definition update_field {A} (p : option (obj A)) (f : A → N → Z * A) : M (bool * option (obj A)) :=
  match p with
  | None => undefined
  | Some o => '(ok, o) ← update o f; mret (ok, Some o)
  end.

Definition adjust_not_before (d : X509_VAL) (t : N) : Z * X509_VAL :=
  match X509_gmtime_adj (val_notBefore d) (-60) t with
  | Some b => (1, Validity b (val_notAfter d))
  | None => (0, d)
  end.
Definition adjust_not_after (d : X509_VAL) (t : N) : Z * X509_VAL :=
  match X509_gmtime_adj (val_notAfter d) 31536000 t with
  | Some a => (1, Validity (val_notBefore d) a)
  | None => (0, d)
  end.

(** What [make_tbs] and [make_sm2_encryption_tbs] do with the parts they
    made: both functions have these lines. *)
Definition assemble_tbs (tbs : option (obj COMPOSITE_TBS_CERTIFICATE))
    (issuer_copy subject_name : option (obj X509_NAME)) (spki : option (obj X509_PUBKEY))
    (serial : Z) (build : obj COMPOSITE_TBS_CERTIFICATE → M (bool * obj COMPOSITE_TBS_CERTIFICATE))
    : M (option (obj COMPOSITE_TBS_CERTIFICATE)) :=
  match tbs, issuer_copy, subject_name, spki with
  | Some o, Some _, Some _, Some _ =>
      t ← deref o;
      free_object (issuer t);; free_object (subject t);; free_object (subject_public_key_info t);;
      let t := set_subject_public_key_info (set_subject (set_issuer t issuer_copy) subject_name) spki in
      let fail (t : COMPOSITE_TBS_CERTIFICATE) :=
        COMPOSITE_TBS_CERTIFICATE_free (Some (set_val o t));; mret None in
      v ← new_object ASN1_INTEGER_new;
      let t := set_version t v in
      check negb (is_null v) else fail t;;
      '(ok, v) ← update_field v (λ v, ASN1_INTEGER_set v 2);
      let t := set_version t v in
      check (ok : bool) else fail t;;
      '(ok, n) ← update_field (serial_number t) (λ n, ASN1_INTEGER_set n serial);
      let t := set_serial_number t n in
      check (ok : bool) else fail t;;
      '(ok, a) ← set_composite_algorithm (signature t);
      let t := set_signature t a in
      check (ok : bool) else fail t;;
      '(ok, d) ← update_field (validity t) adjust_not_before;
      let t := set_validity t d in
      check (ok : bool) else fail t;;
      '(ok, d) ← update_field d adjust_not_after;
      let t := set_validity t d in
      check (ok : bool) else fail t;;
      '(ok, o) ← build (set_val o t);
      if negb ok then COMPOSITE_TBS_CERTIFICATE_free (Some o);; mret None else mret (Some o)
  | _, _, _, _ =>
      free_object spki;; free_object subject_name;; free_object issuer_copy;;
      COMPOSITE_TBS_CERTIFICATE_free tbs;; mret None
  end.

Definition make_tbs (subject_key : option HYBRID_PUBLIC_KEY) (issuer : X509_NAME)
    (subject_common_name : option string) (serial : Z) (is_ca : bool)
    (ca_public_key : option HYBRID_PUBLIC_KEY) (dns_name : option string)
    : M (option (obj COMPOSITE_TBS_CERTIFICATE)) :=
  tbs ← COMPOSITE_TBS_CERTIFICATE_new;
  issuer_copy ← new_object (X509_NAME_dup issuer);
  subject_name ← make_name subject_common_name;
  spki ← make_composite_spki subject_key;
  assemble_tbs tbs issuer_copy subject_name spki serial
    (if is_ca then build_root_extensions subject_key
     else build_server_extensions ca_public_key subject_key dns_name).

Definition make_sm2_encryption_tbs (subject_key : option (obj EVP_PKEY)) (issuer : X509_NAME)
    (subject_common_name : option string) (ca_public_key : option HYBRID_PUBLIC_KEY)
    : M (option (obj COMPOSITE_TBS_CERTIFICATE)) :=
  tbs ← COMPOSITE_TBS_CERTIFICATE_new;
  issuer_copy ← new_object (X509_NAME_dup issuer);
  subject_name ← make_name subject_common_name;
  spki ← make_sm2_spki subject_key;
  assemble_tbs tbs issuer_copy subject_name spki 3
    (build_encryption_server_extensions ca_public_key subject_key).
End certificates.
#[global] Arguments and_then : simpl never.
#[global] Arguments update : simpl never.
#[global] Arguments give_object : simpl never.
#[global] Arguments set_composite_algorithm : simpl never.
#[global] Arguments make_name : simpl never.
#[global] Arguments sk_X509_EXTENSION_push : simpl never.
#[global] Arguments push_extension : simpl never.
#[global] Arguments add_conf_extension : simpl never.
#[global] Arguments push_made : simpl never.
#[global] Arguments add_pqc_marker : simpl never.
#[global] Arguments compute_key_identifier : simpl never.
#[global] Arguments push_key_identifier : simpl never.
#[global] Arguments add_subject_key_identifier : simpl never.
#[global] Arguments compute_sm2_key_identifier : simpl never.
#[global] Arguments add_sm2_subject_key_identifier : simpl never.
#[global] Arguments free_authority : simpl never.
#[global] Arguments add_authority_key_identifier : simpl never.
#[global] Arguments make_composite_spki : simpl never.
#[global] Arguments make_sm2_spki : simpl never.
#[global] Arguments build_extensions : simpl never.
#[global] Arguments conf : simpl never.
#[global] Arguments build_root_extensions : simpl never.
#[global] Arguments build_server_extensions : simpl never.
#[global] Arguments build_encryption_server_extensions : simpl never.
#[global] Arguments update_field : simpl never.
#[global] Arguments assemble_tbs : simpl never.
#[global] Arguments make_tbs : simpl never.
#[global] Arguments make_sm2_encryption_tbs : simpl never.
#[export] Hint Opaque and_then update give_object set_composite_algorithm make_name
  sk_X509_EXTENSION_push push_extension add_conf_extension push_made add_pqc_marker
  compute_key_identifier push_key_identifier add_subject_key_identifier compute_sm2_key_identifier
  add_sm2_subject_key_identifier free_authority add_authority_key_identifier make_composite_spki
  make_sm2_spki build_extensions conf build_root_extensions build_server_extensions
  build_encryption_server_extensions update_field assemble_tbs make_tbs make_sm2_encryption_tbs :
  typeclass_instances.

(** ** Specifications *)

Ltac owns_unfold ::=
  unfold zero_private_key, zero_public_key in *; asn1_owns_unfold;
  cbn [fst snd private_owns public_owns sm2_private_key sm2_public_key] in *.

Section specs.
Context `{Libc, OpenSSL, !OpenSSLSizes, Dilithium2, !Dilithium2Sizes, !X509Library, !X509Sizes,
  !X509Builder, !X509BuilderContracts}.

(** Nothing OpenSSL allocates, sets or digests for a certificate fails. *)
Record builder_reliable : Prop := {
  builder_malloc : reliable_malloc;
  builder_asn1 : asn1_allocates;
  builder_encodes : encodes;
  builder_octets t : is_Some (ASN1_OCTET_STRING_new t);
  builder_keyid t : is_Some (AUTHORITY_KEYID_new t);
  builder_sk_new t : OPENSSL_sk_new t = true;
  builder_sk_grow n t : OPENSSL_sk_grow n t = true;
  builder_name_dup n t : is_Some (X509_NAME_dup n t);
  builder_integer_set i v t : fst (ASN1_INTEGER_set i v t) ≠ 0;
  builder_octets_set o d t : fst (ASN1_OCTET_STRING_set o d t) ≠ 0;
  builder_bits_set b d t : fst (ASN1_BIT_STRING_set b d t) ≠ 0;
  builder_gmtime a d t : is_Some (X509_gmtime_adj a d t);
  builder_pubkey_set k o p v d t : fst (X509_PUBKEY_set0_param k o p v d t) ≠ 0;
  builder_keyid_extension n d t : is_Some (X509V3_EXT_i2d_octet_string n 0 d t);
  builder_authority_extension n a t : is_Some (X509V3_EXT_i2d_authority_keyid n 0 a t);
  builder_extension o d t : is_Some (X509_EXTENSION_create_by_OBJ o 0 d t);
  builder_oid o t : o ∈ [COMPOSITE_SM2_DILITHIUM_EXPERIMENTAL_OID; HYBRID_PQC_EXTENSION_OID;
                         "1.2.840.10045.2.1"; "1.2.156.10197.1.301"]%string → is_Some (OBJ_txt2obj o 1 t);
  builder_sha256 m t : is_Some (EVP_Digest_sha256 m t)
}.

#[export] Instance spec_update {A} (o : obj A) (f : A → N → Z * A) :
  Spec (update o f) (alive (Some o))
    (λ r s s', frame ∅ ∅ s s' ∧ ∃ rc v, f (obj_val o) (tick s) = (rc, v) ∧ snd r = set_val o v ∧
       fst r = negb (rc =? 0)).
Proof.
  wp_start. unfold update. wp_call as v [-> ->]. wp_call as [rc v] [F Hv]. apply wp_ret.
  split; [solve_frame|]. by exists rc, v.
Qed.

#[export] Instance spec_update_field {A} (o : obj A) (f : A → N → Z * A) :
  Spec (update_field (Some o) f) (alive (Some o))
    (λ r s s', frame ∅ ∅ s s' ∧ ∃ rc v, f (obj_val o) (tick s) = (rc, v) ∧
       snd r = Some (set_val o v) ∧ fst r = negb (rc =? 0)).
Proof.
  wp_start. unfold update_field. wp_call as [ok o'] (F & rc & v & Hf & Ho & Hok). cbn [fst snd] in *. subst.
  apply wp_ret. split; [solve_frame|]. by exists rc, v.
Qed.

#[export] Instance spec_give_object {A} (o : obj A) :
  Spec (give_object o) (alive (Some o)) (λ r s s', frame (owns (Some o)) ∅ s s' ∧ r = obj_val o).
Proof. wp_start. unfold give_object. wp_call as v [-> ->]. wp_call as ? ?. apply wp_ret. by split; [solve_frame|]. Qed.

(** The composite algorithm identifier: its object set, with no parameter. *)
Definition composite_algorithm (a : X509_ALGOR) : Prop :=
  ∃ o a0, once _ (OBJ_txt2obj COMPOSITE_SM2_DILITHIUM_EXPERIMENTAL_OID 1) (on_some (eq o)) ∧
    once _ (X509_ALGOR_set0 a0 o V_ASN1_UNDEF) (λ r, fst r ≠ 0 ∧ snd r = a).

#[export] Instance spec_set_composite_algorithm a :
  Spec (set_composite_algorithm (Some a)) (alive (Some a))
    (λ r s s', frame ∅ ∅ s s' ∧ (∃ v, snd r = Some (set_val a v) ∧ (fst r = true → composite_algorithm v)) ∧
       (builder_reliable → fst r = true)).
Proof.
  wp_start. unfold set_composite_algorithm. wp_call as [o|] [F Ho]; cbn in Ho.
  2: { apply wp_ret. split; [solve_frame|]. split; [exists (obj_val a); by destruct a|].
       intros Hr. destruct (builder_oid Hr COMPOSITE_SM2_DILITHIUM_EXPERIMENTAL_OID (tick s)); [set_solver|congruence]. }
  wp_call as v [-> ->]. wp_call as [ok a'] (F1 & rc & v' & Hf & Ha & Hok). cbn [fst snd] in *. subst ok a'.
  pose proof (algor_set0_absent (obj_val a) (obj_val o) (tick s0)) as Hrc.
  change (-1) with V_ASN1_UNDEF in Hrc. rewrite Hf in Hrc. cbn in Hrc.
  destruct (Z.eqb_spec rc 0) as [|_]; [done|]. cbn [negb]. wp_call as ? [? ->]. apply wp_ret.
  split; [solve_frame|]. split; [|done]. eexists. split; [done|]. intros _. exists (obj_val o), (obj_val a).
  split; [once_auto|]. exists (tick s0). by rewrite Hf.
Qed.

(** Runs to the next call, past the tests on results. *)
Ltac wp_steps := repeat first [wp_pure | progress cbn [negb fst snd orb andb]].

(** The three entries of a name, one after the other. *)
Definition name_entry (Q : modality) (n : X509_NAME) (field : string) (type : Z) (value : string)
    (P : X509_NAME → Prop) : Prop :=
  Q _ (X509_NAME_add_entry_by_txt n field type value) (λ r, fst r ≠ 0 ∧ P (snd r)).
Definition name_of (Q : modality) (cn : string) (P : X509_NAME → Prop) : Prop :=
  Q _ X509_NAME_new (on_some (λ n,
    name_entry Q n "C" MBSTRING_ASC "CN" (λ n,
      name_entry Q n "O" MBSTRING_ASC "Experimental Hybrid PKI" (λ n,
        name_entry Q n "CN" MBSTRING_UTF8 cn P)))).

#[export] Instance spec_make_name cn :
  Spec (make_name cn) (λ _, True)
    (λ r s s', yields ∅ owns (from_option (λ n, ∃ cn', cn = Some cn' ∧ cn' ≠ ""%string ∧
         name_of once cn' (eq (obj_val n))) True) r s s' ∧
       (∀ cn', cn = Some cn' → cn' ≠ ""%string → name_of always cn' (λ _, True) → is_Some r)).
Proof.
  wp_start. unfold make_name, and_then.
  destruct cn as [[|ch rest]|]; [by apply wp_ret; split; [wp_end|intros ? [= <-]]| |by apply wp_ret; split; [wp_end|]].
  set (cn := String ch rest). assert (cn ≠ ""%string) by done. clearbody cn.
  set (Post := λ (r : option (obj X509_NAME)) s', _ ∧ _).
  wp_call as [n|] [F Hn]; cbn in Hn.
  2: { wp_call as ? ?. apply wp_ret. split; [by wp_end|]. intros ? [= <-] _ Hal. unfold name_of in Hal. always_auto. }
  assert (Hfail : ∀ (n' : obj X509_NAME) s', frame ∅ (owns (Some n)) s s' → obj_id n' = obj_id n →
    ¬ name_of always cn (λ _, True) → wp (free_object (Some n')) (λ _, wp (mret None) Post) s').
  { intros [i v'] s' F' Hid Hn'. cbn [obj_id] in Hid. subst i. wp_call as ? ?. apply wp_ret.
    split; [split; [solve_frame|done]|by intros ? [= <-] _ ?]. }
  unfold name_of, name_entry in Hfail.
  wp_call as [ok1 n1] (F1 & rc1 & v1 & Hu1 & Hn1 & Hok1). cbn [fst snd] in *. subst.
  wp_case (rc1 =? 0); wp_steps.
  { apply Hfail; [solve_frame|done|]. intros Hal. always_auto. }
  wp_call as [ok2 n2] (F2 & rc2 & v2 & Hu2 & Hn2 & Hok2). cbn [fst snd] in *. subst.
  wp_case (rc2 =? 0); wp_steps.
  { apply Hfail; [solve_frame|done|]. intros Hal. always_auto. }
  wp_call as [ok3 n3] (F3 & rc3 & v3 & Hu3 & Hn3 & Hok3). cbn [fst snd] in *. subst.
  wp_case (rc3 =? 0); wp_steps.
  { apply Hfail; [solve_frame|done|]. intros Hal. always_auto. }
  apply wp_ret. split; [split; [solve_frame|]|done]. cbn. exists cn. split; [done|]. split; [done|].
  unfold name_of, name_entry. once_auto.
Qed.

(** *** Extensions *)

(** What is known of the extensions a function appends, one by one. *)
Definition made_by (l : list X509_EXTENSION) (made : list (X509_EXTENSION → Prop)) : Prop :=
  Forall2 (λ e P, P e) l made.
Definition appended (sk : obj (list X509_EXTENSION)) (made : list (X509_EXTENSION → Prop))
    (r : bool * obj (list X509_EXTENSION)) : Prop :=
  obj_id (snd r) = obj_id sk ∧
  (fst r = true → ∃ l, obj_val (snd r) = obj_val sk ++ l ∧ made_by l made).

(** [add] keeps no reference beside the extensions it appends, which are
    [made]; it needs the objects [needs], and succeeds if [ok]. *)
Definition appends (add : obj (list X509_EXTENSION) → M (bool * obj (list X509_EXTENSION)))
    (needs : gmultiset positive) (made : list (X509_EXTENSION → Prop)) (ok : Prop) : Prop :=
  ∀ sk s, alive (Some sk) s → needs ⊆ live s →
    wp (add sk) (λ r s', frame ∅ ∅ s s' ∧ appended sk made r ∧ (ok → fst r = true)) s.

Lemma appends_then add add' needs made made' ok ok' :
  appends add needs made ok → appends add' needs made' ok' →
  appends (λ sk, add sk ≫& add') needs (made ++ made') (ok ∧ ok').
Proof.
  intros Ha Ha' sk s Hsk Hn. unfold and_then. apply wp_bind.
  eapply wp_mono; [by apply Ha|]. intros [[] sk1] s1 (F1 & [Hid1 Hl1] & Hok1); cbn [fst snd] in *.
  - eapply wp_mono; [apply Ha'; [unfold alive in *; cbn [owns] in *; rewrite Hid1; solve_alive|solve_alive]|].
    intros [ok2 sk2] s2 (F2 & [Hid2 Hl2] & Hok2). cbn [fst snd] in *. frame_merge. split; [done|]. split.
    + split; [cbn; congruence|]. intros Hok. destruct Hl1 as (l1 & E1 & M1); [done|].
      destruct (Hl2 Hok) as (l2 & E2 & M2). exists (l1 ++ l2). cbn. rewrite E2, E1, app_assoc.
      split; [done|]. by apply Forall2_app.
    + naive_solver.
  - apply wp_ret. split; [done|]. split; [by split|]. cbn. intros [Ho _]. by apply Hok1.
Qed.

Lemma appends_weaken add needs needs' made ok :
  appends add needs made ok → needs ⊆ needs' → appends add needs' made ok.
Proof. intros Ha Hn sk s Hsk Hl. apply Ha; [done|]. by etrans. Qed.

Lemma appended_none sk made : appended sk made (false, sk).
Proof. by split. Qed.

#[export] Instance spec_sk_X509_EXTENSION_push sk e :
  Spec (sk_X509_EXTENSION_push sk e) (λ s, alive (Some sk) s ∧ alive (Some e) s)
    (λ r s s', if fst r =? 0 then frame ∅ ∅ s s' ∧ snd r = sk ∧ ¬ builder_reliable
               else frame (owns (Some e)) ∅ s s' ∧ snd r = set_val sk (obj_val sk ++ [obj_val e])).
Proof.
  wp_start. destruct P as [Hsk He]. unfold sk_X509_EXTENSION_push. wp_call as l [-> ->].
  wp_call as ok [F Hok]. destruct ok.
  - wp_call as v [F1 ->]. apply wp_ret. pose proof (len_nonneg (obj_val sk)). cbn [fst snd].
    rewrite (proj2 (Z.eqb_neq _ 0)) by lia. by split; [solve_frame|].
  - apply wp_ret. split; [solve_frame|]. split; [done|]. intros Hr. by rewrite builder_sk_grow in Hok.
Qed.

#[export] Instance spec_push_made sk ext :
  Spec (push_made sk ext) (λ s, alive (Some sk) s ∧ alive ext s)
    (λ r s s', let '(ok, sk', ext') := r in
       frame (owns ext) (owns ext') s s' ∧
       (if ok : bool then ext' = None ∧ ∃ e, ext = Some e ∧ sk' = set_val sk (obj_val sk ++ [obj_val e])
        else ext' = ext ∧ sk' = sk ∧ (builder_reliable → ext = None))).
Proof.
  wp_start. destruct P as [Hsk He]. unfold push_made. destruct ext as [e|].
  - wp_call as [n sk'] H'. cbn [fst snd] in H'. wp_case (n =? 0); destruct H' as [F Hr]; frame_merge; apply wp_ret.
    + destruct Hr as [-> Hr]. split; [solve_frame|]. by split_and!.
    + split; [solve_frame|]. split; [done|]. by exists e.
  - by apply wp_ret.
Qed.

(** An extension from a configuration string. *)
Definition conf_made (nid : Z) (value : string) (e : X509_EXTENSION) : Prop :=
  once _ (X509V3_EXT_conf_nid nid value) (on_some (eq e)).

Lemma made_one sk e (P : X509_EXTENSION → Prop) r :
  P e → snd r = set_val sk (obj_val sk ++ [e]) → appended sk [P] r.
Proof.
  intros HP Hr. unfold appended. rewrite Hr. split; [done|]. intros _. exists [e]. split; [done|]. by repeat constructor.
Qed.

Lemma appends_conf nid value :
  appends (conf nid value) ∅ [conf_made nid value]
    (builder_reliable ∧ ∀ t, is_Some (X509V3_EXT_conf_nid nid value t)).
Proof.
  intros sk s Hsk _. pose proof (frame_refl s). unfold conf, add_conf_extension, push_extension.
  wp_call as [e|] [F He]; cbn in He.
  - wp_call as [n sk'] H'. cbn [fst snd] in H'. wp_case (n =? 0); destruct H' as [F1 Hr]; frame_merge; wp_steps.
    + destruct Hr as [-> Hr]. wp_call as ? ?. apply wp_ret. split; [solve_frame|].
      split; [apply appended_none|]. by intros [? _].
    + split; [solve_frame|]. split; [|done].
      subst sk'. eapply made_one; [|done]. exists (tick s). by rewrite He.
  - wp_call as ? ?. apply wp_ret. split; [solve_frame|]. split; [apply appended_none|].
    intros [_ Hs]. destruct (Hs (tick s)). congruence.
Qed.

(** The marker: an ASN.1 NULL under its own identifier, not critical. *)
Definition marker_made (e : X509_EXTENSION) : Prop :=
  ∃ o, once _ (OBJ_txt2obj HYBRID_PQC_EXTENSION_OID 1) (on_some (eq o)) ∧
    once _ (X509_EXTENSION_create_by_OBJ o 0 [Byte.x05; Byte.x00]) (on_some (eq e)).

(** Contradicts that nothing fails with a recorded failure. *)
Ltac refute_reliable :=
  let Hr := fresh "Hr" in intros Hr;
  first
  [ match goal with E : OBJ_txt2obj ?o 1 ?t = None |- _ =>
      destruct (builder_oid Hr o t); [set_solver|congruence] end
  | destruct Hr; match goal with H : asn1_allocates |- _ => destruct H end;
    match goal with
    | E : ?f ?t = None, H : ∀ t, is_Some (?f t) |- _ => destruct (H t); congruence
    | E : ?f ?a ?t = None, H : ∀ a t, is_Some (?f a t) |- _ => destruct (H a t); congruence
    | E : ?f ?n ?d ?t = None, H : ∀ n d t, is_Some (?f n d t) |- _ => destruct (H n d t); congruence
    | E : ?f ?n ?z ?d ?t = None, H : ∀ n d t, is_Some (?f n ?z d t) |- _ =>
        destruct (H n d t); congruence
    | E : ?f ?a ?b ?t = (0, _), H : ∀ a b t, fst (?f a b t) ≠ 0 |- _ =>
        specialize (H a b t); rewrite E in H; done
    end
  | intros ->; exfalso; naive_solver ].

Lemma appends_pqc_marker : appends add_pqc_marker ∅ [marker_made] builder_reliable.
Proof.
  intros sk s Hsk _. pose proof (frame_refl s). unfold add_pqc_marker.
  wp_call as object [F Ho]. wp_call as value [F1 Hv].
  set (Post := λ (r : bool * obj (list X509_EXTENSION)) s', _ ∧ _).
  destruct object as [o|]; cbn in Ho.
  2: { wp_steps. do 3 wp_call as ? ?. apply wp_ret. split; [solve_frame|]. split; [apply appended_none|].
       refute_reliable. }
  destruct value as [v|]; cbn in Hv.
  2: { wp_steps. do 3 wp_call as ? ?. apply wp_ret. split; [solve_frame|]. split; [apply appended_none|].
       refute_reliable. }
  wp_call as [ok v'] (F2 & rc & d & Hu & Hv' & Hok). cbn [fst snd] in *. subst ok v'.
  wp_case (rc =? 0); wp_steps.
  { do 3 wp_call as ? ?. apply wp_ret. split; [solve_frame|]. split; [apply appended_none|]. refute_reliable. }
  wp_call as ob [-> ->]. wp_call as data [-> ->]. wp_call as ext [F3 He].
  wp_call as [[ok sk'] ext'] [F4 Hr]. wp_steps. do 3 wp_call as ? ?. apply wp_ret.
  pose proof (octets_set_value (obj_val v) [Byte.x05; Byte.x00] (tick s1)) as Hd. rewrite Hu in Hd. cbn in Hd.
  split; [destruct ok; destruct Hr as [-> Hr]; solve_frame|]. destruct ok.
  - destruct Hr as (-> & e & -> & ->). split; [|done]. eapply made_one; [|done].
    cbn in He. exists (obj_val o). rewrite Hd in He by done. split; once_auto.
  - destruct Hr as (-> & -> & Hr). split; [apply appended_none|].
    intros Hrel. rewrite (Hr Hrel) in He. cbn in He. revert Hrel. refute_reliable.
Qed.

(** *** Key identifiers *)

(** [e] is the encoding of the public key at [key]; it can be had. *)
Definition key_bytes (key : option HYBRID_PUBLIC_KEY) (e : list byte) : Prop :=
  ∃ k o pub, key = Some k ∧ sm2_public_key k = Some o ∧ sm2_octets (obj_val o) pub ∧
    e = dilithium_public_key k ++ pub.
Definition key_exports (key : option HYBRID_PUBLIC_KEY) : Prop :=
  ∃ k o, key = Some k ∧ sm2_public_key k = Some o ∧ sm2_always_octets (obj_val o).

(** The identifier of a key: the SHA-256 digest of its encoding. *)
Definition key_digest (key : option HYBRID_PUBLIC_KEY) (md : list byte) : Prop :=
  ∃ e, key_bytes key e ∧ once _ (EVP_Digest_sha256 e) (on_some (eq md)).
Definition sm2_key_digest (key : option (obj EVP_PKEY)) (md : list byte) : Prop :=
  ∃ k pub, key = Some k ∧ sm2_octets (obj_val k) pub ∧
    once _ (EVP_Digest_sha256 pub) (on_some (eq md)).
Definition sm2_exports (key : option (obj EVP_PKEY)) : Prop :=
  ∃ k, key = Some k ∧ sm2_always_octets (obj_val k).

Definition key_identifier_made (md : list byte) (e : X509_EXTENSION) : Prop :=
  once _ (X509V3_EXT_i2d_octet_string NID_subject_key_identifier 0 md) (on_some (eq e)).
Definition subject_key_made (key : option HYBRID_PUBLIC_KEY) (e : X509_EXTENSION) : Prop :=
  ∃ md, key_digest key md ∧ key_identifier_made md e.
Definition sm2_subject_key_made (key : option (obj EVP_PKEY)) (e : X509_EXTENSION) : Prop :=
  ∃ md, sm2_key_digest key md ∧ key_identifier_made md e.
Definition authority_key_made (key : option HYBRID_PUBLIC_KEY) (e : X509_EXTENSION) : Prop :=
  ∃ md, key_digest key md ∧
    once _ (X509V3_EXT_i2d_authority_keyid NID_authority_key_identifier 0 (AuthorityKeyid (Some md)))
      (on_some (eq e)).

#[export] Instance spec_compute_key_identifier key digest :
  Spec (compute_key_identifier key digest)
    (λ s, public_owns key ⊆ live s ∧ from_option public_key_wf True key ∧ len digest = 32)
    (λ r s s', frame ∅ ∅ s s' ∧ len (snd r) = 32 ∧ (fst r = true → key_digest key (snd r)) ∧
       (builder_reliable → key_exports key → fst r = true)).
Proof.
  wp_start. destruct P as (Hk & Hwf & Hd). unfold compute_key_identifier.
  wp_call as [ok out] ([F Hout] & Hall). cbn [fst snd out_owns] in *.
  destruct ok; wp_steps.
  2: { cbn in Hout. subst out. wp_call as ? ?. apply wp_ret. split; [solve_frame|]. split_and!; try done.
       intros Hr (k & o & Hk1 & Hk2 & Hk3). apply (Hall k o); try done. by apply builder_malloc. }
  destruct Hout as (b & n & -> & -> & Hl & Hb). cbn [out_block out_len set_out fst snd default from_option id] in *.
  wp_call as bytes [-> ->]. wp_call as bytes [-> ->]. cbn [fmap option_fmap option_map].
  rewrite bytes_at_full by done. wp_call as md [F1 Hmd].
  destruct md as [md|].
  - pose proof (sha256_size _ _ _ Hmd) as Hs. wp_call as d [-> ->]. rewrite splice_whole by congruence.
    wp_call as ? ?. apply wp_ret. cbn [fst snd]. split; [solve_frame|]. split; [done|]. split; [|by rewrite Hs].
    intros _. exists (obj_val b). split; [done|once_auto].
  - wp_call as ? ?. apply wp_ret. split; [solve_frame|]. split_and!; try done. refute_reliable.
Qed.

#[export] Instance spec_compute_sm2_key_identifier key digest :
  Spec (compute_sm2_key_identifier key digest) (λ s, alive key s ∧ len digest = 32)
    (λ r s s', frame ∅ ∅ s s' ∧ len (snd r) = 32 ∧ (fst r = true → sm2_key_digest key (snd r)) ∧
       (builder_reliable → sm2_exports key → fst r = true)).
Proof.
  wp_start. destruct P as [Hk Hd]. unfold compute_sm2_key_identifier. wp_call as pk [F Hpk].
  assert (Hfail : ∀ pk' s', len pk' = SM2_UNCOMPRESSED_PUBLIC_KEY_BYTES → frame ∅ ∅ s s' →
    ¬ (builder_reliable ∧ sm2_exports key) →
    wp (cleanse pk' SM2_UNCOMPRESSED_PUBLIC_KEY_BYTES;; mret (false, digest)) (λ r s', frame ∅ ∅ s s' ∧
      len (snd r) = 32 ∧ (fst r = true → sm2_key_digest key (snd r)) ∧
       (builder_reliable → sm2_exports key → fst r = true)) s').
  { intros pk' s' Hl F' Hn. wp_call as ? [-> ->]. apply wp_ret. split_and!; try done. by intros; destruct Hn. }
  destruct key as [k|]; [|apply Hfail; [done..|by intros [_ (? & ? & _)]]].
  wp_call as v [-> ->]. wp_case (EVP_PKEY_is_a (obj_val k) "SM2" =? 0).
  { apply Hfail; [done|solve_frame|]. intros [_ (? & [= <-] & ? & _)]. done. }
  wp_call as [rc pub] [F1 Hpub]. pose proof (get_pub_size _ _ _ _ _ Hpub ltac:(done)).
  wp_call as pk1 [-> ->].
  assert (Hl : len (splice (Z.to_nat 0) pub pk) = SM2_UNCOMPRESSED_PUBLIC_KEY_BYTES)
    by (rewrite len_splice; lia).
  destruct (_ || _) eqn:E'.
  { apply Hfail; [done|solve_frame|]. intros [_ (? & [= <-] & _ & Hal)]. always_auto.
    rewrite splice_whole, bool_decide_eq_true_2 in E' by congruence. simpl_bool.
    cbn in E'. apply orb_true_iff in E' as [E'|E']; [|done].
    apply orb_true_iff in E' as [E'|E']; simpl_bool; congruence || lia. }
  simpl_bool. rewrite splice_whole in * by congruence. wp_call as bytes [-> ->].
  rewrite bytes_at_full by done. wp_call as md [F2 Hmd]. destruct md as [md|].
  - pose proof (sha256_size _ _ _ Hmd) as Hs. wp_call as d [-> ->]. rewrite splice_whole by congruence.
    wp_call as ? [-> ->]. apply wp_ret. cbn [fst snd]. split; [solve_frame|]. split; [done|]. split; [|by rewrite Hs].
    intros _. exists k, pub. split; [done|]. split; [split; [done|]; once_auto|once_auto].
  - apply Hfail; [done|solve_frame|]. intros [Hr _]. revert Hr. refute_reliable.
Qed.

Lemma wp_push_key_identifier sk digest (P : X509_EXTENSION → Prop) ok Φ s :
  alive (Some sk) s → len digest = 32 → (∀ e, key_identifier_made digest e → P e) →
  (∀ r s', frame ∅ ∅ s s' ∧ appended sk [P] r ∧ (builder_reliable ∧ ok → fst r = true) → Φ r s') →
  wp (push_key_identifier sk digest) Φ s.
Proof.
  intros Hsk Hl HP HΦ. pose proof (frame_refl s). unfold push_key_identifier.
  wp_call as identifier [F Hi]. destruct identifier as [i|]; cbn in Hi.
  2: { wp_steps. wp_call as ? [-> ->]. do 2 wp_call as ? ?. apply wp_ret, HΦ. split; [solve_frame|].
       split; [apply appended_none|]. intros [Hr _]. revert Hr. refute_reliable. }
  wp_call as [ok' i'] (F2 & rc & d & Hu & Hv' & Hok). cbn [fst snd] in *. subst ok' i'.
  wp_case (rc =? 0); wp_steps.
  { wp_call as ? [-> ->]. do 2 wp_call as ? ?. apply wp_ret, HΦ. split; [solve_frame|].
    split; [apply appended_none|]. intros [Hr _]. revert Hr. refute_reliable. }
  wp_call as data [-> ->]. wp_call as ext [F3 He].
  wp_call as [[ok' sk'] ext'] [F4 Hr]. wp_steps. wp_call as ? [-> ->]. do 2 wp_call as ? ?. apply wp_ret, HΦ.
  pose proof (octets_set_value (obj_val i) digest (tick s0)) as Hd. rewrite Hu in Hd. cbn in Hd.
  split; [destruct ok'; destruct Hr as [-> Hr]; solve_frame|]. destruct ok'.
  - destruct Hr as (-> & e & -> & ->). split; [|done]. eapply made_one; [|done]. apply HP.
    cbn in He. rewrite Hd in He by done. unfold key_identifier_made. once_auto.
  - destruct Hr as (-> & -> & Hr). split; [apply appended_none|].
    intros [Hrel _]. rewrite (Hr Hrel) in He. cbn in He. revert Hrel. refute_reliable.
Qed.

Lemma appends_subject_key key :
  from_option public_key_wf True key →
  appends (λ sk, add_subject_key_identifier sk key) (public_owns key) [subject_key_made key]
    (builder_reliable ∧ key_exports key).
Proof.
  intros Hwf sk s Hsk Hk. pose proof (frame_refl s). unfold add_subject_key_identifier.
  wp_call as digest [F Hl]. wp_call as [ok d] (F1 & Hd & Hok & Hall). cbn [fst snd] in *.
  destruct ok; wp_steps.
  - eapply (wp_push_key_identifier _ _ (subject_key_made key) (key_exports key)); [solve_alive|done|intros e He; exists d; split; [by apply Hok|done]|].
    intros r s' (F2 & Happ & Hr). split; [frame_merge; solve_frame|]. split; [done|apply Hr].
  - split; [solve_frame|]. split; [apply appended_none|]. intros [? ?]. by apply Hall.
Qed.

Lemma appends_sm2_subject_key key :
  appends (λ sk, add_sm2_subject_key_identifier sk key) (owns key) [sm2_subject_key_made key]
    (builder_reliable ∧ sm2_exports key).
Proof.
  intros sk s Hsk Hk. pose proof (frame_refl s). unfold add_sm2_subject_key_identifier.
  wp_call as digest [F Hl]. wp_call as [ok d] (F1 & Hd & Hok & Hall). cbn [fst snd] in *.
  destruct ok; wp_steps.
  - eapply (wp_push_key_identifier _ _ (sm2_subject_key_made key) (sm2_exports key)); [solve_alive|done|intros e He; exists d; split; [by apply Hok|done]|].
    intros r s' (F2 & Happ & Hr). split; [frame_merge; solve_frame|]. split; [done|apply Hr].
  - split; [solve_frame|]. split; [apply appended_none|]. intros [? ?]. by apply Hall.
Qed.

#[export] Instance spec_free_authority authority keyid :
  Spec (free_authority authority keyid)
    (λ s, owns authority ⊎ owns keyid ⊆ live s ∧ (authority = None → keyid = None))
    (λ r s s', frame (owns authority ⊎ owns keyid) ∅ s s').
Proof.
  wp_start. destruct P as [Hl Hn]. unfold free_authority. destruct authority as [a|].
  - wp_call as ? ?. eapply wp_spec; [apply _|wp_side|]. intros ? s' F'. cbv beta in F'. frame_merge. solve_frame.
  - rewrite Hn by done. by apply wp_ret.
Qed.

Lemma appends_authority_key key :
  from_option public_key_wf True key →
  appends (λ sk, add_authority_key_identifier sk key) (public_owns key) [authority_key_made key]
    (builder_reliable ∧ key_exports key).
Proof.
  intros Hwf sk s Hsk Hk. pose proof (frame_refl s). unfold add_authority_key_identifier.
  wp_call as digest [F Hl]. wp_call as [ok d] (F1 & Hd & Hok & Hall). cbn [fst snd] in *.
  destruct ok; wp_steps.
  2: { split; [solve_frame|]. split; [apply appended_none|]. intros [? ?]. by apply Hall. }
  specialize (Hok eq_refl). wp_call as authority [F2 Ha]. destruct authority as [a|]; cbn in Ha.
  2: { wp_steps. wp_call as ? [-> ->]. do 2 wp_call as ? ?. apply wp_ret. split; [solve_frame|].
       split; [apply appended_none|]. intros [Hr _]. revert Hr. refute_reliable. }
  wp_call as keyid [F3 Hi]. destruct keyid as [i|]; cbn in Hi.
  2: { wp_steps. wp_call as ? [-> ->]. do 2 wp_call as ? ?. apply wp_ret. split; [solve_frame|].
       split; [apply appended_none|]. intros [Hr _]. revert Hr. refute_reliable. }
  wp_call as [ok' i'] (F4 & rc & o & Hu & Hv' & Hok'). cbn [fst snd] in *. subst ok' i'.
  wp_case (rc =? 0); wp_steps.
  { wp_call as ? [-> ->]. do 2 wp_call as ? ?. apply wp_ret. split; [solve_frame|].
    split; [apply appended_none|]. intros [Hr _]. revert Hr. refute_reliable. }
  wp_call as ? [-> ->]. wp_call as data [-> ->]. wp_call as ext [F5 He].
  wp_call as [[ok' sk'] ext'] [F6 Hr]. wp_steps. wp_call as ? [-> ->]. do 2 wp_call as ? ?. apply wp_ret.
  pose proof (octets_set_value (obj_val i) d (tick s3)) as Hv. rewrite Hu in Hv. cbn in Hv.
  split; [destruct ok'; destruct Hr as [-> Hr]; solve_frame|]. destruct ok'.
  - destruct Hr as (-> & e & -> & ->). split; [|done]. eapply made_one; [|done]. exists d. split; [done|].
    cbn in He. rewrite Hv in He by done. once_auto.
  - destruct Hr as (-> & -> & Hr). split; [apply appended_none|].
    intros [Hrel _]. rewrite (Hr Hrel) in He. cbn in He. revert Hrel. refute_reliable.
Qed.

(** *** The extensions of the three certificates *)

(** OpenSSL accepts the configuration strings. *)
Definition conf_accepted (l : list (Z * string)) : Prop :=
  Forall (λ c, ∀ t, is_Some (X509V3_EXT_conf_nid (fst c) (snd c) t)) l.

Definition root_conf : list (Z * string) :=
  [(NID_basic_constraints, "critical,CA:TRUE"); (NID_key_usage, "critical,keyCertSign,cRLSign")]%string.
Definition server_conf (dns : string) : list (Z * string) :=
  [(NID_basic_constraints, "critical,CA:FALSE"); (NID_key_usage, "critical,digitalSignature");
   (NID_ext_key_usage, "serverAuth"); (NID_subject_alt_name, "DNS:" ++ dns)]%string.
Definition encryption_conf : list (Z * string) :=
  [(NID_basic_constraints, "critical,CA:FALSE");
   (NID_key_usage, "critical,keyEncipherment,keyAgreement")]%string.

Definition confs_made (l : list (Z * string)) : list (X509_EXTENSION → Prop) :=
  (λ c, conf_made (fst c) (snd c)) <$> l.

(** The extensions of a root under the key [ca], of a server certificate of
    the key [server] and of an encryption certificate of the key [sm2]. *)
Definition root_made (ca : option HYBRID_PUBLIC_KEY) : list (X509_EXTENSION → Prop) :=
  confs_made root_conf ++ [subject_key_made ca; marker_made].
Definition server_made (ca server : option HYBRID_PUBLIC_KEY) (dns : string)
    : list (X509_EXTENSION → Prop) :=
  confs_made (server_conf dns) ++ [subject_key_made server; authority_key_made ca; marker_made].
Definition encryption_made (ca : option HYBRID_PUBLIC_KEY) (sm2 : option (obj EVP_PKEY))
    : list (X509_EXTENSION → Prop) :=
  confs_made encryption_conf ++ [sm2_subject_key_made sm2; authority_key_made ca; marker_made].

(** [build] fills the extensions of a structure that has none. *)
Definition builds (build : obj COMPOSITE_TBS_CERTIFICATE → M (bool * obj COMPOSITE_TBS_CERTIFICATE))
    (needs : gmultiset positive) (made : list (X509_EXTENSION → Prop)) (ok : Prop) : Prop :=
  ∀ o s, alive (Some o) s → extensions (obj_val o) = None → needs ⊆ live s →
    wp (build o) (λ r s', ∃ e, frame ∅ (owns e) s s' ∧
      snd r = set_val o (set_extensions (obj_val o) e) ∧
      (fst r = true → ∃ sk, e = Some sk ∧ made_by (obj_val sk) made) ∧ (ok → fst r = true)) s.

Lemma builds_weaken build needs needs' made ok :
  builds build needs made ok → needs ⊆ needs' → builds build needs' made ok.
Proof. intros Hb Hn o s Ho Hex Hl. apply Hb; [done..|]. by etrans. Qed.

Lemma builds_extensions add needs made ok :
  appends add needs made ok →
  builds (λ tbs, build_extensions tbs add) needs made (builder_reliable ∧ ok).
Proof.
  intros Hadd o s Ho Hex Hn. pose proof (frame_refl s). unfold build_extensions.
  wp_call as t [-> ->]. wp_call as sk [F Hsk]. destruct sk as [sk|]; cbn in Hsk.
  - destruct (OPENSSL_sk_new _); [|done]. injection Hsk as Hsk.
    apply wp_bind. eapply wp_mono; [apply Hadd; solve_alive|].
    intros [ok' sk'] s' (F1 & [Hid Hl] & Hok). cbn [fst snd] in *. apply wp_ret. frame_merge.
    exists (Some sk'). split; [eapply frame_conv; [eassumption|cbn [owns]; rewrite Hid; ms_lia]|].
    split; [done|]. split; [|naive_solver]. intros Ht. destruct (Hl Ht) as (l & Hl' & Hm).
    exists sk'. split; [done|]. rewrite Hl', <-Hsk. exact Hm.
  - destruct (OPENSSL_sk_new _) eqn:E; [done|]. apply wp_ret. exists None. split; [solve_frame|].
    split; [done|]. split; [done|]. intros [Hr _]. by rewrite builder_sk_new in E.
Qed.

Lemma builds_root ca :
  from_option public_key_wf True ca →
  builds (build_root_extensions ca) (public_owns ca) (root_made ca)
    (builder_reliable ∧ key_exports ca ∧ conf_accepted root_conf).
Proof.
  intros Hwf o s Ho Hex Hn. unfold build_root_extensions.
  eapply wp_mono.
  - eapply builds_extensions; [|done|done|done].
    eapply (appends_then (λ sk, _) _ _ [_; _; _] [_]); [|eapply appends_weaken; [apply appends_pqc_marker|ms_lia]].
    eapply (appends_then (λ sk, _) _ _ [_; _] [_]); [|by apply appends_subject_key].
    eapply (appends_then (λ sk, _) _ _ [_] [_]); (eapply appends_weaken; [apply appends_conf|ms_lia]).
  - intros r s' (e & F & Hr & Hm & Hok). exists e. split_and!; try done.
    intros (Hrel & Hk & Hc). unfold conf_accepted, root_conf in Hc. apply Hok.
    rewrite !List.Forall_cons_iff in Hc. naive_solver.
Qed.

(** The length of the alternative name fits the buffer. *)
Definition san_fits (dns : string) : Prop := dns ≠ ""%string ∧ 4 + strlen dns < 300.

Lemma san_length_fits dns : (san_length dns <=? 0) || (san_length dns >=? 300) = false ↔ 4 + strlen dns < 300.
Proof. unfold san_length, strlen, INT_MAX. destruct (Z.gtb_spec (4 + Z.of_nat (String.length dns)) (2 ^ 31 - 1)); lia. Qed.

Lemma builds_server ca server dns :
  from_option public_key_wf True ca → from_option public_key_wf True server →
  builds (build_server_extensions ca server dns) (public_owns ca ∪ public_owns server)
    (server_made ca server (default ""%string dns))
    (builder_reliable ∧ key_exports ca ∧ key_exports server ∧
     ∃ d, dns = Some d ∧ san_fits d ∧ conf_accepted (server_conf d)).
Proof.
  intros Hwf Hwf' o s Ho Hex Hn. unfold build_server_extensions.
  assert (Hnull : ∀ P : Prop, ¬ P → wp (mret (false, o)) (λ r s', ∃ e, frame ∅ (owns e) s s' ∧
      snd r = set_val o (set_extensions (obj_val o) e) ∧
      (fst r = true → ∃ sk, e = Some sk ∧ made_by (obj_val sk) (server_made ca server (default ""%string dns))) ∧
      (P → fst r = true)) s).
  { intros P HP. apply wp_ret. exists None. split; [apply frame_refl|]. split; [|by split].
    destruct o as [i []]. cbn in *. by subst. }
  destruct dns as [[|ch rest]|];
    [by apply Hnull; intros (_ & _ & _ & ? & [= <-] & [? _] & _)| |by apply Hnull; intros (_ & _ & _ & ? & ? & _)].
  set (dns := String ch rest) in *. assert (Hd : dns ≠ ""%string) by done. clearbody dns.
  destruct ((san_length dns <=? 0) || (san_length dns >=? 300)) eqn:E.
  { apply Hnull. intros (_ & _ & _ & ? & [= <-] & [_ Hs] & _). apply san_length_fits in Hs. congruence. }
  cbn [default from_option id].
  eapply wp_mono.
  - eapply builds_extensions; [|done|done|done].
    eapply (appends_then (λ sk, _) _ _ [_; _; _; _; _; _] [_]);
      [|eapply appends_weaken; [apply appends_pqc_marker|ms_lia]].
    eapply (appends_then (λ sk, _) _ _ [_; _; _; _; _] [_]);
      [|eapply appends_weaken; [by apply appends_authority_key|ms_lia]].
    eapply (appends_then (λ sk, _) _ _ [_; _; _; _] [_]);
      [|eapply appends_weaken; [by apply appends_subject_key|ms_lia]].
    eapply (appends_then (λ sk, _) _ _ [_; _; _] [_]);
      [|eapply appends_weaken; [apply appends_conf|ms_lia]].
    eapply (appends_then (λ sk, _) _ _ [_; _] [_]);
      [|eapply appends_weaken; [apply appends_conf|ms_lia]].
    eapply (appends_then (λ sk, _) _ _ [_] [_]); (eapply appends_weaken; [apply appends_conf|ms_lia]).
  - intros r s' (e & F & Hr & Hm & Hok). exists e. split_and!; try done.
    intros (Hrel & Hk & Hk' & ? & [= <-] & _ & Hc). unfold conf_accepted, server_conf in Hc. apply Hok.
    rewrite !List.Forall_cons_iff in Hc. naive_solver.
Qed.

Lemma builds_encryption ca key :
  from_option public_key_wf True ca →
  builds (build_encryption_server_extensions ca key) (public_owns ca ∪ owns key) (encryption_made ca key)
    (builder_reliable ∧ key_exports ca ∧ sm2_exports key ∧ conf_accepted encryption_conf).
Proof.
  intros Hwf o s Ho Hex Hn. unfold build_encryption_server_extensions.
  eapply wp_mono.
  - eapply builds_extensions; [|done|done|done].
    eapply (appends_then (λ sk, _) _ _ [_; _; _; _] [_]);
      [|eapply appends_weaken; [apply appends_pqc_marker|ms_lia]].
    eapply (appends_then (λ sk, _) _ _ [_; _; _] [_]);
      [|eapply appends_weaken; [by apply appends_authority_key|ms_lia]].
    eapply (appends_then (λ sk, _) _ _ [_; _] [_]);
      [|eapply appends_weaken; [apply appends_sm2_subject_key|ms_lia]].
    eapply (appends_then (λ sk, _) _ _ [_] [_]); (eapply appends_weaken; [apply appends_conf|ms_lia]).
  - intros r s' (e & F & Hr & Hm & Hok). exists e. split_and!; try done.
    intros (Hrel & Hk & Hk' & Hc). unfold conf_accepted, encryption_conf in Hc. apply Hok.
    rewrite !List.Forall_cons_iff in Hc. naive_solver.
Qed.

(** *** Subject keys *)

(** A subject public key: an algorithm, its parameter and the key octets. *)
Definition composite_spki_made (key : option HYBRID_PUBLIC_KEY) (k : X509_PUBKEY) : Prop :=
  ∃ e o k0, key_bytes key e ∧
    once _ (OBJ_txt2obj COMPOSITE_SM2_DILITHIUM_EXPERIMENTAL_OID 1) (on_some (eq o)) ∧
    once _ (X509_PUBKEY_set0_param k0 o V_ASN1_UNDEF None e) (λ r, fst r ≠ 0 ∧ snd r = k).
Definition sm2_spki_made (key : option (obj EVP_PKEY)) (k : X509_PUBKEY) : Prop :=
  ∃ ko pub oa oc k0, key = Some ko ∧ sm2_octets (obj_val ko) pub ∧
    once _ (OBJ_txt2obj "1.2.840.10045.2.1" 1) (on_some (eq oa)) ∧
    once _ (OBJ_txt2obj "1.2.156.10197.1.301" 1) (on_some (eq oc)) ∧
    once _ (X509_PUBKEY_set0_param k0 oa V_ASN1_OBJECT (Some oc) pub) (λ r, fst r ≠ 0 ∧ snd r = k).

Lemma refute_pubkey_set k o p v d t k' :
  X509_PUBKEY_set0_param k o p v d t = (0, k') → ¬ builder_reliable.
Proof. intros E Hr. pose proof (builder_pubkey_set Hr k o p v d t) as Hn. by rewrite E in Hn. Qed.

#[export] Instance spec_make_composite_spki key :
  Spec (make_composite_spki key) (λ s, public_owns key ⊆ live s ∧ from_option public_key_wf True key)
    (λ r s s', yields ∅ owns (from_option (λ k, composite_spki_made key (obj_val k)) True) r s s' ∧
       (builder_reliable → key_exports key → is_Some r)).
Proof.
  wp_start. destruct P as [Hk Hwf]. unfold make_composite_spki.
  wp_call as [ok out] ([F Hout] & Hall). cbn [fst snd out_owns] in *.
  destruct ok; cbn [negb orb].
  2: { cbn in Hout. subst out. do 3 wp_call as ? ?. apply wp_ret. split; [by wp_end|].
       intros Hr (k & o & Hk1 & Hk2 & Hk3). exfalso. assert (false = true); [|done].
       apply (Hall k o); try done. by apply builder_malloc. }
  destruct Hout as (b & n & -> & -> & Hl & Hb). cbn [out_block out_len set_out fst snd default from_option id] in *.
  change (COMPOSITE_PUBLIC_KEY_BYTES >? INT_MAX) with false. cbn [orb].
  wp_call as spki [F1 Hs]. wp_call as alg [F2 Ha].
  set (Post := λ (r : option (obj X509_PUBKEY)) s', _ ∧ _).
  assert (Hfail : ∀ (spki' : option (obj X509_PUBKEY)) s', owns spki' = owns spki →
    frame ∅ (owns (Some b) ⊎ owns spki ⊎ owns alg) s s' → ¬ builder_reliable →
    wp (free_object alg;; free_object (Some b);; free_object spki';; mret None) Post s').
  { intros spki' s' Ho F' Hn. wp_call as ? ?. wp_call as ? ?.
    wp_call as ? ?. apply wp_ret. split; [split; [solve_frame|done]|by intros]. }
  destruct spki as [k|]; cbn in Hs; [|apply Hfail; [done|solve_frame|refute_reliable]].
  destruct alg as [a|]; cbn in Ha; [|apply Hfail; [done|solve_frame|refute_reliable]].
  wp_call as ob [-> ->]. wp_call as bytes [-> ->]. wp_call as octets [-> ->]. rewrite bytes_at_full by done.
  wp_call as [ok' k'] (F4 & rc & v & Hu & Hv' & Hok'). cbn [fst snd] in *. subst ok' k'.
  destruct (Z.eqb_spec rc 0) as [->|Hrc]; cbn [negb].
  { apply Hfail; [done|solve_frame|]. by eapply refute_pubkey_set. }
  wp_call as ? [? ->]. wp_call as ? [? ->]. apply wp_ret. split; [|done]. split; [solve_frame|].
  cbn. exists (obj_val b), (obj_val a), (obj_val k). split; [by destruct Hb as (k1 & o & pub & ?); exists k1, o, pub|].
  split; once_auto.
Qed.

#[export] Instance spec_make_sm2_spki key :
  Spec (make_sm2_spki key) (alive key)
    (λ r s s', yields ∅ owns (from_option (λ k, sm2_spki_made key (obj_val k)) True) r s s' ∧
       (builder_reliable → sm2_exports key → is_Some r)).
Proof.
  wp_start. unfold make_sm2_spki.
  destruct key as [key|].
  2: { do 4 wp_call as ? ?. apply wp_ret. split; [by wp_end|]. by intros _ (? & ? & _). }
  wp_call as v [-> ->]. wp_case (EVP_PKEY_is_a (obj_val key) "SM2" =? 0).
  { do 4 wp_call as ? ?. apply wp_ret. split; [by wp_end|]. by intros _ (? & [= <-] & ? & _). }
  wp_call as spki [F1 Hs]. wp_call as alg [F2 Ha]. wp_call as curve [F3 Hc]. wp_call as pk [F4 Hp].
  set (Post := λ (r : option (obj X509_PUBKEY)) s', _ ∧ _).
  assert (Hfail : ∀ (pk' : option block) (spki' : option (obj X509_PUBKEY)) s', owns pk' = owns pk →
    owns spki' = owns spki → frame ∅ (owns pk ⊎ owns spki ⊎ owns alg ⊎ owns curve) s s' →
    ¬ (builder_reliable ∧ sm2_exports (Some key)) →
    wp (free_object pk';; free_object curve;; free_object alg;; free_object spki';; mret None) Post s').
  { intros pk' spki' s' Ho Ho' F' Hn. do 4 wp_call as ? ?. apply wp_ret.
    split; [split; [solve_frame|done]|by intros; destruct Hn]. }
  destruct spki as [k|]; cbn in Hs; [|apply Hfail; [done..|solve_frame|intros [Hr _]; revert Hr; refute_reliable]].
  destruct alg as [a|]; cbn in Ha; [|apply Hfail; [done..|solve_frame|intros [Hr _]; revert Hr; refute_reliable]].
  destruct curve as [c|]; cbn in Hc; [|apply Hfail; [done..|solve_frame|intros [Hr _]; revert Hr; refute_reliable]].
  destruct pk as [b|].
  2: { apply Hfail; [done..|solve_frame|]. intros [Hr _]. by rewrite (builder_malloc Hr) in Hp. }
  wp_call as [rc pub] [F5 Hpub]. pose proof (get_pub_size _ _ _ _ _ Hpub ltac:(done)).
  wp_call as b' [-> ->]. cbn [obj_val set_val].
  destruct (_ || _) eqn:E'.
  { apply Hfail; [done..|solve_frame|]. intros [_ (? & [= <-] & _ & Hal)]. always_auto.
    rewrite splice_whole, bool_decide_eq_true_2 in E' by congruence. simpl_bool.
    cbn in E'. apply orb_true_iff in E' as [E'|E']; [|done].
    apply orb_true_iff in E' as [E'|E']; simpl_bool; congruence || lia. }
  simpl_bool. rewrite splice_whole in * by congruence.
  wp_call as oa [-> ->]. wp_call as oc [-> ->]. wp_call as bytes [-> ->]. cbn [obj_val set_val].
  wp_call as octets [-> ->]. rewrite bytes_at_full by done.
  wp_call as [ok' k'] (F6 & rc' & w & Hu & Hv' & Hok'). cbn [fst snd] in *. subst ok' k'.
  destruct (Z.eqb_spec rc' 0) as [->|Hrc]; cbn [negb].
  { apply Hfail; [done..|solve_frame|]. intros [Hr _]. revert Hr. by eapply refute_pubkey_set. }
  wp_call as ? [? ->]. wp_call as ? [? ->]. wp_call as ? [? ->]. apply wp_ret. split; [|done]. split; [solve_frame|].
  cbn. exists key, pub, (obj_val a), (obj_val c), (obj_val k). split; [done|].
  split; [split; [done|]; once_auto|]. split_and!; once_auto.
Qed.

(** *** The part that is signed *)

(** The validity: from a minute before the call, for a year. *)
Definition validity_made (d : X509_VAL) : Prop :=
  ∃ b a, once _ (X509_gmtime_adj b (-60)) (on_some (eq (val_notBefore d))) ∧
    once _ (X509_gmtime_adj a 31536000) (on_some (eq (val_notAfter d))).

(** The fields of a certificate for the name [cn] issued under the name [i]:
    version 3, the given serial number, the composite algorithm, the validity,
    and a subject key and extensions that are made as stated. *)
Definition tbs_built (i : X509_NAME) (cn : string) (serial : Z) (spki : X509_PUBKEY → Prop)
    (made : list (X509_EXTENSION → Prop)) (f : tbs_fields) : Prop :=
  ∃ a i' d n k e,
    f = TbsFields (Some 2) (Some serial) (Some a) (Some i') (Some d) (Some n) (Some k) None None (Some e) ∧
    composite_algorithm a ∧ once _ (X509_NAME_dup i) (on_some (eq i')) ∧ validity_made d ∧
    name_of once cn (eq n) ∧ spki k ∧ made_by e made.

(** The parts given: the fields that hold them. *)
Definition assembled (i n : X509_NAME) (k : X509_PUBKEY) (serial : Z)
    (made : list (X509_EXTENSION → Prop)) (f : tbs_fields) : Prop :=
  ∃ a d e,
    f = TbsFields (Some 2) (Some serial) (Some a) (Some i) (Some d) (Some n) (Some k) None None (Some e) ∧
    composite_algorithm a ∧ validity_made d ∧ made_by e made.

Lemma wp_assemble_tbs tbs ic sn spki serial build needs made ok s Φ :
  builds build needs made ok → from_option (λ o, fresh_tbs (obj_val o)) True tbs →
  needs ⊎ (tbs_owns tbs ⊎ owns ic ⊎ owns sn ⊎ owns spki) ⊆ live s →
  (∀ r s', frame (tbs_owns tbs ⊎ owns ic ⊎ owns sn ⊎ owns spki) (tbs_owns r) s s' →
     (∀ o, r = Some o → ∃ i n k, ic = Some i ∧ sn = Some n ∧ spki = Some k ∧
        assembled (obj_val i) (obj_val n) (obj_val k) serial made (tbs_values (obj_val o))) →
     (builder_reliable → ok → is_Some tbs → is_Some ic → is_Some sn → is_Some spki → is_Some r) →
     Φ r s') →
  wp (assemble_tbs tbs ic sn spki serial build) Φ s.
Proof.
  intros Hbuild Hfresh Hl HΦ. pose proof (frame_refl s). unfold assemble_tbs.
  assert (Hnull : ¬ (is_Some tbs ∧ is_Some ic ∧ is_Some sn ∧ is_Some spki) →
    wp (free_object spki;; free_object sn;; free_object ic;; COMPOSITE_TBS_CERTIFICATE_free tbs;; mret None) Φ s).
  { intros Hn. do 4 wp_call as ? ?. apply wp_ret, HΦ; [solve_frame|done|]. intros. by destruct Hn. }
  destruct tbs as [[io to]|]; [|by apply Hnull; intros ([? ?] & _)].
  destruct ic as [i|]; [|by apply Hnull; intros (_ & [? ?] & _)].
  destruct sn as [n|]; [|by apply Hnull; intros (_ & _ & [? ?] & _)].
  destruct spki as [k|]; [|by apply Hnull; intros (_ & _ & _ & [? ?])]. clear Hnull.
  destruct Hfresh as (nu & al & i0 & va & n0 & k0 & Hto). cbn [obj_val] in Hto. subst to.
  wp_call as t [-> ->]. set_fields. do 3 wp_call as ? ?. wp_call as v [? Hv].
  assert (Hfail : ∀ t s', frame (tbs_owns (Some (Obj io (TbsCertificate None (Some nu) (Some al) (Some i0)
        (Some va) (Some n0) (Some k0) None None None))) ⊎ owns (Some i) ⊎ owns (Some n) ⊎ owns (Some k))
      (tbs_owns (Some (Obj io t))) s s' → ¬ (builder_reliable ∧ ok) →
    wp (COMPOSITE_TBS_CERTIFICATE_free (Some (Obj io t))) (λ _, wp (mret None) Φ) s').
  { intros t s' F' Hn. wp_call as ? ?. apply wp_ret, HΦ; [solve_frame|done|]. intros. by destruct Hn. }
  destruct v as [v|]; cbn in Hv; cbn [is_null negb];
    [|apply wp_bind, Hfail; [solve_frame|intros [Hr _]; revert Hr; refute_reliable]].
  wp_call as [ok1 v1] (? & rc1 & w1 & Hu1 & Hv1 & Hok1). cbn [fst snd] in *. subst ok1 v1.
  destruct (Z.eqb_spec rc1 0) as [->|Hrc1]; cbn [negb];
    [apply wp_bind, Hfail; [solve_frame|intros [Hr _]; revert Hr; refute_reliable]|].
  wp_call as [ok2 v2] (? & rc2 & w2 & Hu2 & Hv2 & Hok2). cbn [fst snd] in *. subst ok2 v2.
  destruct (Z.eqb_spec rc2 0) as [->|Hrc2]; cbn [negb];
    [apply wp_bind, Hfail; [solve_frame|intros [Hr _]; revert Hr; refute_reliable]|].
  wp_call as [ok3 v3] (? & (a & Hv3 & Ha) & Hok3). cbn [fst snd] in *. subst v3. destruct ok3;
    [specialize (Ha eq_refl)|apply wp_bind, Hfail; [solve_frame|by intros [Hr _]; specialize (Hok3 Hr)]].
  wp_call as [ok4 v4] (? & rc4 & w4 & Hu4 & Hv4 & Hok4). cbn [fst snd] in *. subst ok4 v4.
  unfold adjust_not_before in Hu4. destruct (X509_gmtime_adj _ _ _) as [b|] eqn:Hb; simplify_eq/=;
    [|apply wp_bind, Hfail; [solve_frame|intros [Hr _]; revert Hr; refute_reliable]].
  wp_call as [ok5 v5] (? & rc5 & w5 & Hu5 & Hv5 & Hok5). cbn [fst snd] in *. subst ok5 v5.
  unfold adjust_not_after in Hu5. destruct (X509_gmtime_adj _ 31536000 _) as [e|] eqn:He; simplify_eq/=;
    [|apply wp_bind, Hfail; [solve_frame|intros [Hr _]; revert Hr; refute_reliable]].
  apply wp_bind. eapply wp_mono; [apply Hbuild; [solve_alive|done|solve_alive]|].
  intros [ok6 o] s9 (ex & ? & Ho & Hm & Hok6). cbn [fst snd] in *. frame_merge.
  revert Ho. set_fields. intros ->. destruct ok6; cbn [negb].
  2: { apply wp_bind, Hfail; [solve_frame|]. intros [_ Ho]. by specialize (Hok6 Ho). }
  apply wp_ret, HΦ; [solve_frame| |done]. intros ? [= <-]. destruct (Hm eq_refl) as (sk & -> & Hmade).
  exists i, n, k. do 3 (split; [done|]). exists a, (Validity b e), (obj_val sk).
  pose proof (integer_set_value (obj_val v) 2 (tick s3)) as E1. rewrite Hu1 in E1. cbn in E1.
  pose proof (integer_set_value (obj_val nu) serial (tick s4)) as E2. rewrite Hu2 in E2. cbn in E2.
  rewrite <-E1, <-E2 by done. split; [done|]. split; [done|]. split; [|done].
  exists (val_notBefore (obj_val va)), (val_notAfter (obj_val va)).
  split; [exists (tick s6); by rewrite Hb|exists (tick s7); by rewrite He].
Qed.

(** The parts of a certificate, and the structure that holds them. *)
Lemma wp_assembled (mk_spki : M (option (obj X509_PUBKEY))) (P : state → Prop)
    (spki_made : X509_PUBKEY → Prop) (exports : Prop) i cn serial build needs made ok s Φ
    `{!Spec mk_spki P (λ r s s', yields ∅ owns (from_option (λ k, spki_made (obj_val k)) True) r s s' ∧
                          (builder_reliable → exports → is_Some r))} :
  builds build needs made ok → needs ⊆ live s → (∀ s', live s ⊆ live s' → P s') →
  (∀ r s', frame ∅ (tbs_owns r) s s' →
     (∀ o, r = Some o → ∃ cn', cn = Some cn' ∧ cn' ≠ ""%string ∧
        tbs_built i cn' serial spki_made made (tbs_values (obj_val o))) →
     (∀ cn', cn = Some cn' → cn' ≠ ""%string → name_of always cn' (λ _, True) →
        builder_reliable → ok → exports → is_Some r) →
     Φ r s') →
  wp (tbs ← COMPOSITE_TBS_CERTIFICATE_new;
      issuer_copy ← new_object (X509_NAME_dup i);
      subject_name ← make_name cn;
      spki ← mk_spki;
      assemble_tbs tbs issuer_copy subject_name spki serial build) Φ s.
Proof.
  intros Hbuild Hn HP HΦ. pose proof (frame_refl s).
  wp_call as tbs ([F Hfresh] & Htbs). wp_call as ic [F1 Hic]. wp_call as sn ([F2 Hsn] & Hname).
  wp_call as spki ([F3 Hk] & Hspki); [apply HP; solve_alive|].
  eapply wp_assemble_tbs; [done|done|solve_alive|].
  intros r s' F' Hr Hok. frame_merge. apply HΦ; [solve_frame| |].
  - intros o ->. destruct (Hr o eq_refl) as (i' & n & k & -> & -> & -> & a & d & e & Hf & Ha & Hd & He).
    destruct Hsn as (cn' & -> & Hne & Hcn). exists cn'. split; [done|]. split; [done|].
    exists a, (obj_val i'), d, (obj_val n), (obj_val k), e. split_and!; try done. once_auto.
  - intros cn' -> Hne Hal Hrel Ho Hex. apply Hok; try done.
    + apply Htbs. by apply builder_asn1.
    + destruct ic; [by eexists|]. destruct (builder_name_dup Hrel i (tick s0)). cbn in Hic. congruence.
    + by eapply Hname.
    + by apply Hspki.
Qed.

#[export] Instance spec_make_tbs key i cn serial (is_ca : bool) ca dns :
  Spec (make_tbs key i cn serial is_ca ca dns)
    (λ s, public_owns ca ∪ public_owns key ⊆ live s ∧ from_option public_key_wf True ca ∧
          from_option public_key_wf True key)
    (λ r s s', yields ∅ tbs_owns (from_option (λ o, ∃ cn', cn = Some cn' ∧ cn' ≠ ""%string ∧
         tbs_built i cn' serial (composite_spki_made key)
           (if is_ca then root_made key else server_made ca key (default ""%string dns))
           (tbs_values (obj_val o))) True) r s s' ∧
       (∀ cn', cn = Some cn' → cn' ≠ ""%string → name_of always cn' (λ _, True) → builder_reliable →
          key_exports key →
          (if is_ca then conf_accepted root_conf
           else key_exports ca ∧ ∃ d, dns = Some d ∧ san_fits d ∧ conf_accepted (server_conf d)) →
          is_Some r)).
Proof.
  wp_start. destruct P as (Hl & Hca & Hkey). unfold make_tbs.
  assert (HP : ∀ s', live s ⊆ live s' → public_owns key ⊆ live s' ∧ from_option public_key_wf True key)
    by (intros s' Hs'; split; [ms_lia|done]).
  destruct is_ca.
  - eapply (wp_assembled (make_composite_spki key) _ (composite_spki_made key) (key_exports key));
      [apply spec_make_composite_spki|by apply builds_root|ms_lia|exact HP|].
    intros r s' F Hr Hok. split; [split; [exact F|destruct r as [o|]; [by apply Hr|exact I]]|].
    intros cn' Hcn Hne Hal Hrel Hk Hc. by apply (Hok cn').
  - eapply (wp_assembled (make_composite_spki key) _ (composite_spki_made key) (key_exports key));
      [apply spec_make_composite_spki|by apply builds_server|exact Hl|exact HP|].
    intros r s' F Hr Hok. split; [split; [exact F|destruct r as [o|]; [by apply Hr|exact I]]|].
    intros cn' Hcn Hne Hal Hrel Hk [Hk' Hc]. by apply (Hok cn').
Qed.

#[export] Instance spec_make_sm2_encryption_tbs key i cn ca :
  Spec (make_sm2_encryption_tbs key i cn ca)
    (λ s, public_owns ca ∪ owns key ⊆ live s ∧ from_option public_key_wf True ca)
    (λ r s s', yields ∅ tbs_owns (from_option (λ o, ∃ cn', cn = Some cn' ∧ cn' ≠ ""%string ∧
         tbs_built i cn' 3 (sm2_spki_made key) (encryption_made ca key) (tbs_values (obj_val o))) True) r s s' ∧
       (∀ cn', cn = Some cn' → cn' ≠ ""%string → name_of always cn' (λ _, True) → builder_reliable →
          sm2_exports key → key_exports ca → conf_accepted encryption_conf → is_Some r)).
Proof.
  wp_start. destruct P as [Hl Hca]. unfold make_sm2_encryption_tbs.
  eapply (wp_assembled (make_sm2_spki key) _ (sm2_spki_made key) (sm2_exports key)).
  - apply spec_make_sm2_spki.
  - by apply builds_encryption.
  - exact Hl.
  - intros s' Hs'. unfold alive. ms_lia.
  - intros r s' F Hr Hok. split; [split; [exact F|]|].
    + destruct r as [o|]; [by apply Hr|done].
    + intros cn' Hcn Hne Hal Hrel Hk Hc Hconf. by apply (Hok cn').
Qed.
End specs.
