(* ===== verification/X509Env.v ===== *)
(** * A concrete environment: building certificates

    Certificates that are decoded from their encoding: the signed part, its
    algorithm and its signature are read back, the rest is left empty. *)

From stdpp Require Import pretty.
From S2P Require Import Prelude Machine External Der Environment X509 Asn1 X509Build.

(** The certificate with this signed part and this signature. *)
Definition env_decoded (tbs sig : list byte) : env_cert :=
  Cert 0 0 (-1) 1 tbs sig COMPOSITE_SM2_DILITHIUM_EXPERIMENTAL_OID COMPOSITE_SM2_DILITHIUM_EXPERIMENTAL_OID
    [] None 0 [] [] [] [] [] None "".

(** A sequence of three elements, the last a bit string. *)
Definition env_decode_certificate (e : list byte) : option (env_cert * Z) :=
  '(_, content, _) ← (if env_fits e then der_read e else None);
  '(_, _, rest) ← der_read content;
  '(_, _, bits) ← der_read rest;
  '(_, value, _) ← der_read bits;
  Some (env_decoded (ztake (len content - len rest) content) (tail value), len e).

Definition env_issuer : @X509Library env_openssl := env_x509_with env_decode_certificate.

Definition env_number (z : Z) : list byte := lit (pretty z).

Section library.
Context (decode : list byte → option (env_cert * Z)).
#[local] Existing Instance env_openssl.
#[local] Instance env_library : @X509Library env_openssl := env_x509_with decode.

(** Certificates are decoded with [decode], and with [read] from PEM. *)
Definition env_builder_with (read : list byte → option env_cert) : @X509Builder env_openssl env_library := {|
  X509_NAME_new _ := Some 0;
  X509_NAME_dup n _ := Some n;
  X509_VAL_new _ := Some (Validity (0 : ASN1_TIME) (0 : ASN1_TIME));
  X509_ALGOR_new _ := Some ""%string;
  X509_PUBKEY_new _ := Some (""%string, []);
  ASN1_INTEGER_new _ := Some 0;
  ASN1_BIT_STRING_new _ := Some (BitString 0 []);
  ASN1_OCTET_STRING_new _ := Some [];
  AUTHORITY_KEYID_new _ := Some (AuthorityKeyid None);
  ASN1_item_alloc _ := true;
  OPENSSL_sk_new _ := true;
  OPENSSL_sk_grow _ _ := true;
  X509_NAME_add_entry_by_txt (n : Z) _ _ v _ := (1, 1000 * n + strlen v);
  ASN1_INTEGER_set _ v _ := (1, v);
  ASN1_OCTET_STRING_set _ d _ := (1, d);
  ASN1_BIT_STRING_set b d _ := (1, BitString (bits_flags b) d);
  X509_gmtime_adj _ d _ := Some d;
  X509_ALGOR_set0 _ o _ _ := (1, o);
  X509_PUBKEY_set0_param _ o _ _ k _ := (1, (o, k));
  X509V3_EXT_conf_nid _ v _ := Some (lit v);
  X509V3_EXT_i2d_octet_string _ _ d _ := Some d;
  X509V3_EXT_i2d_authority_keyid _ _ a _ := Some (default [] (akid_keyid a));
  X509_EXTENSION_create_by_OBJ _ _ d _ := Some d;
  i2d_ASN1_INTEGER z := der_tlv 0x02 (env_number z);
  i2d_X509_ALGOR a := der_tlv 0x30 (lit a);
  i2d_X509_NAME n := der_tlv 0x30 (env_number n);
  i2d_X509_VAL v :=
    der_tlv 0x30 (der_tlv 0x17 (env_number (val_notBefore v)) ++ der_tlv 0x17 (env_number (val_notAfter v)));
  i2d_X509_PUBKEY k := der_tlv 0x30 (der_tlv 0x06 (lit (fst k)) ++ der_tlv 0x03 (snd k));
  i2d_ASN1_BIT_STRING v := der_tlv 0x03 (Byte.x00 :: bits_data v);
  i2d_X509_EXTENSION e := der_tlv 0x30 e;
  ASN1_item_i2d e _ := if env_fits e then (len e, Some e) else (-1, None);
  PEM_write_X509 c _ := (1, lit "PEM" ++ c_tbs c);
  i2d_X509_fp c _ := (1, c_tbs c);
  PEM_read_X509 b _ := read b;
  X509_NAME_oneline n _ := Some (pretty n)
|}.

Lemma env_builder_with_contracts read : @X509BuilderContracts _ _ (env_builder_with read).
Proof.
  split; cbn; try done. intros e t n buf. destruct (env_fits e) eqn:E; intros [= <- <-]; [|lia].
  intros _. split; [by apply Z.leb_le|done].
Qed.

End library.

Section builder.
#[local] Existing Instances env_openssl env_issuer.

Definition env_builder : @X509Builder env_openssl env_issuer :=
  env_builder_with env_decode_certificate (λ b, Some (env_decoded (zdrop 3 b) [])).

Lemma env_issuer_sizes : @X509Sizes _ env_issuer.
Proof.
  apply env_x509_with_sizes. intros e c n. unfold env_decode_certificate. intros H.
  repeat (apply bind_Some in H as ([[? ?] ?] & _ & H)). injection H as <- <-. pose proof (len_nonneg e). lia.
Qed.

Lemma env_builder_contracts : @X509BuilderContracts _ _ env_builder.
Proof. apply env_builder_with_contracts. Qed.

Lemma lit_inj s1 s2 : lit s1 = lit s2 → s1 = s2.
Proof.
  unfold lit. intros H. rewrite <-(String.string_of_list_byte_of_string s1), H.
  apply String.string_of_list_byte_of_string.
Qed.

Lemma env_number_inj a b : env_number a = env_number b → a = b.
Proof. by intros ->%lit_inj%(inj pretty). Qed.

Lemma tlv_elementary {A} tag (f : A → list byte) :
  0 ≤ tag < 256 → (∀ x y, f x = f y → x = y) → elementary (λ x, der_tlv tag (f x)).
Proof.
  intros Ht Hf x Hx. pose proof (len_der_tlv tag (f x)). split; [eexists _, _; split; [done|lia]|].
  intros y Hy. pose proof (len_der_tlv tag (f y)) as Hle. rewrite <-Hy in Hle.
  apply der_tlv_inj in Hy as [_ Hy]; [by apply Hf|lia..].
Qed.

(** A pair of elements in a sequence. *)
Lemma pair_elementary {A B C} (p : C → A * B) (f : A → list byte) (g : B → list byte) :
  (∀ x y, p x = p y → x = y) → elementary f → elementary g →
  elementary (λ x, der_tlv 0x30 (f (fst (p x)) ++ g (snd (p x)))).
Proof.
  intros Hp Hf Hg x Hx. pose proof (len_der_tlv 0x30 (f (fst (p x)) ++ g (snd (p x)))) as Hl.
  split; [eexists _, _; split; [done|lia]|].
  intros y Hy. pose proof (len_der_tlv 0x30 (f (fst (p y)) ++ g (snd (p y)))) as Hl'. rewrite <-Hy in Hl'.
  apply der_tlv_inj in Hy as [_ Hy]; [|lia..]. rewrite len_app in Hl, Hl'.
  pose proof (len_nonneg (f (fst (p x)))). pose proof (len_nonneg (g (snd (p x)))).
  pose proof (len_nonneg (f (fst (p y)))). pose proof (len_nonneg (g (snd (p y)))).
  destruct (Hf (fst (p x)) ltac:(lia)) as [He Hfi]. destruct (Hf (fst (p y)) ltac:(lia)) as [He' _].
  destruct (Hg (snd (p x)) ltac:(lia)) as [_ Hgi].
  apply element_app_inj in Hy as [Ef Eg]; [|done..]. apply Hfi in Ef. apply Hgi in Eg.
  apply Hp. by apply injective_projections.
Qed.

Lemma env_elements : @X509Elements _ _ env_builder.
Proof.
  split.
  - apply tlv_elementary; [lia|]. apply env_number_inj.
  - apply tlv_elementary; [lia|]. apply lit_inj.
  - apply tlv_elementary; [lia|]. apply env_number_inj.
  - apply (pair_elementary (λ v : @X509_VAL env_openssl env_issuer, (val_notBefore v : Z, val_notAfter v : Z))
      (λ t, der_tlv 0x17 (env_number t)) (λ t, der_tlv 0x17 (env_number t))).
    + by intros [? ?] [? ?] [= -> ->].
    + apply tlv_elementary; [lia|]. apply env_number_inj.
    + apply tlv_elementary; [lia|]. apply env_number_inj.
  - apply (pair_elementary (λ k : string * list byte, k)
      (λ o, der_tlv 0x06 (lit o)) (λ b, der_tlv 0x03 b)); [done|..].
    + apply tlv_elementary; [lia|]. apply lit_inj.
    + by apply tlv_elementary.
  - by apply (tlv_elementary 0x30 (λ e : list byte, e)).
  - intros v Hl. cbn in *. pose proof (len_der_tlv 0x03 (Byte.x00 :: bits_data v)).
    eexists _, _. split; [done|]. split; [done|lia].
Qed.
End builder.
