(* ===== verification/X509Create.v ===== *)
(** * hybrid_x509.c (creating a certificate)

    The signature of a certificate under the composite algorithm, and the three
    certificates the demonstration issues. *)

From S2P Require Import Prelude Machine External Dilithium Sm2 CompositeKey CompositeSig Der Environment X509 Asn1 X509Build X509Env.

Section signing.
Context `{Libc, OpenSSL, Dilithium2, !X509Library, !X509Builder}.

(** [flags &= ~(ASN1_STRING_FLAG_BITS_LEFT | 0x07)], then
    [flags |= ASN1_STRING_FLAG_BITS_LEFT] *)
Definition no_bits_left (v : ASN1_BIT_STRING) : ASN1_BIT_STRING :=
  BitString (Z.lor (Z.ldiff (bits_flags v) (Z.lor ASN1_STRING_FLAG_BITS_LEFT 0x07))
                   ASN1_STRING_FLAG_BITS_LEFT) (bits_data v).

Definition sign_tbs (tbs : option (obj COMPOSITE_TBS_CERTIFICATE))
    (signing_key : option HYBRID_PRIVATE_KEY) : M (option (obj X509)) :=
  match tbs, signing_key with
  | Some o, Some _ =>
      '(tbs_der_len, tbs_der) ← i2d_COMPOSITE_TBS_CERTIFICATE o;
      let done (certificate_der : option block) (signature : outbuf)
          (certificate : option (obj COMPOSITE_CERTIFICATE))
          (tbs : option (obj COMPOSITE_TBS_CERTIFICATE)) (parsed : option (obj X509)) :=
        free_object certificate_der;;
        free_object (out_block signature);;
        free_object tbs_der;;
        COMPOSITE_CERTIFICATE_free certificate;;
        COMPOSITE_TBS_CERTIFICATE_free tbs;;
        mret parsed in
      check negb (tbs_der_len <=? 0) else done None fresh_out None tbs None;;
      bytes ← borrow tbs_der;
      '(ok, signature) ← composite_sign signing_key bytes (size_of_Z tbs_der_len) None 0 fresh_out;
      check ok && (out_len signature <=? INT_MAX) else done None signature None tbs None;;
      certificate ← COMPOSITE_CERTIFICATE_new;
      match certificate with
      | None => done None signature None tbs None
      | Some c =>
          v ← deref c;
          COMPOSITE_TBS_CERTIFICATE_free (tbs_certificate v);;
          '(ok, a) ← set_composite_algorithm (signature_algorithm v);
          let v := CompositeCertificate tbs a (signature_value v) in
          check (ok : bool) else done None signature (Some (set_val c v)) None None;;
          data ← borrow (out_block signature);
          bits ← read data (out_len signature);
          '(ok, s) ← update_field (signature_value v) (λ s, ASN1_BIT_STRING_set s bits);
          let v := CompositeCertificate tbs a s in
          check (ok : bool) else done None signature (Some (set_val c v)) None None;;
          let v := CompositeCertificate tbs a ((λ s, set_val s (no_bits_left (obj_val s))) <$> s) in
          '(certificate_der_len, certificate_der) ← i2d_COMPOSITE_CERTIFICATE (set_val c v);
          check negb (certificate_der_len <=? 0)
            else done certificate_der signature (Some (set_val c v)) None None;;
          der ← borrow certificate_der;
          der ← read der certificate_der_len;
          r ← call (d2i_X509 der);
          parsed ← new_object (λ _, fst <$> r);
          if is_null parsed || negb (from_option snd 0 r =? certificate_der_len)
          then free_object parsed;; done certificate_der signature (Some (set_val c v)) None None
          else done certificate_der signature (Some (set_val c v)) None parsed
      end
  | _, _ => COMPOSITE_TBS_CERTIFICATE_free tbs;; mret None
  end.

Definition hybrid_x509_create_root (ca_private_key : option HYBRID_PRIVATE_KEY)
    (ca_public_key : option HYBRID_PUBLIC_KEY) (common_name : option string)
    : M (option (obj X509)) :=
  name ← make_name common_name;
  match name with
  | None => mret None
  | Some n =>
      v ← deref n;
      tbs ← make_tbs ca_public_key v common_name 1 true ca_public_key None;
      free_object name;;
      sign_tbs tbs ca_private_key
  end.

(** The subject name belongs to the certificate and is never [NULL]. *)
Definition hybrid_x509_create_server (ca_private_key : option HYBRID_PRIVATE_KEY)
    (ca_public_key server_public_key : option HYBRID_PUBLIC_KEY)
    (issuer_certificate : option (obj X509)) (common_name dns_name : option string)
    : M (option (obj X509)) :=
  match issuer_certificate with
  | None => mret None
  | Some i =>
      c ← deref i;
      tbs ← make_tbs server_public_key (X509_get_subject_name c) common_name 2 false
              ca_public_key dns_name;
      sign_tbs tbs ca_private_key
  end.

Definition hybrid_x509_create_sm2_encryption (ca_private_key : option HYBRID_PRIVATE_KEY)
    (ca_public_key : option HYBRID_PUBLIC_KEY) (server_sm2_public_key : option (obj EVP_PKEY))
    (issuer_certificate : option (obj X509)) (common_name : option string)
    : M (option (obj X509)) :=
  if is_null ca_private_key || is_null ca_public_key || is_null server_sm2_public_key ||
     is_null issuer_certificate || is_null common_name || bool_decide (common_name = Some ""%string)
  then mret None
  else
    match issuer_certificate with
    | None => mret None
    | Some i =>
        c ← deref i;
        tbs ← make_sm2_encryption_tbs server_sm2_public_key (X509_get_subject_name c) common_name
                ca_public_key;
        sign_tbs tbs ca_private_key
    end.
End signing.

#[global] Arguments sign_tbs : simpl never.
#[global] Arguments hybrid_x509_create_root : simpl never.
#[global] Arguments hybrid_x509_create_server : simpl never.
#[global] Arguments hybrid_x509_create_sm2_encryption : simpl never.
#[export] Hint Opaque sign_tbs hybrid_x509_create_root hybrid_x509_create_server
  hybrid_x509_create_sm2_encryption :
  typeclass_instances.

(** ** Specifications *)

(** [flags] say that every bit of the value is used. *)
Lemma no_bits_left_flags v :
  Z.testbit (bits_flags (no_bits_left v)) 3 = true ∧ Z.land (bits_flags (no_bits_left v)) 0x07 = 0.
Proof.
  unfold no_bits_left, ASN1_STRING_FLAG_BITS_LEFT. cbn [bits_flags]. split.
  - by rewrite Z.lor_spec, orb_true_r.
  - apply Z.bits_inj'. intros n Hn. rewrite Z.bits_0, Z.land_spec, Z.lor_spec, Z.ldiff_spec.
    change (Z.lor 8 7) with (Z.ones 4). change 7 with (Z.ones 3). rewrite !Z.testbit_ones_nonneg by lia.
    destruct (Z.ltb_spec n 3); [|by rewrite andb_false_r].
    assert (n = 0 ∨ n = 1 ∨ n = 2) as [-> | [-> | ->]] by lia; cbn; by rewrite ?andb_false_r.
Qed.

Section sign_specs.
Context `{Libc, OpenSSL, !OpenSSLSizes, Dilithium2, !Dilithium2Sizes, !X509Library, !X509Sizes,
          !X509Builder, !X509BuilderContracts}.

(** [c] is decoded from the encoding of the fields [f], the composite
    algorithm and a composite signature over the encoding of [f]. *)
Definition signed_encoding (k : HYBRID_PRIVATE_KEY) (f : tbs_fields) (e : list byte) : Prop :=
  ∃ a v, e = certificate_der f a v ∧ composite_algorithm a ∧
    composite_signed k (tbs_der f) [] (bits_data v) ∧
    Z.testbit (bits_flags v) 3 = true ∧ Z.land (bits_flags v) 0x07 = 0.
Definition signed_certificate (k : HYBRID_PRIVATE_KEY) (f : tbs_fields) (c : X509) : Prop :=
  ∃ e, signed_encoding k f e ∧ once _ (d2i_X509 e) (on_some (eq (c, len e))).

(** Everything that may be produced is short enough, and the encoding decoded. *)
Definition always_decoded (k : HYBRID_PRIVATE_KEY) (f : tbs_fields) : Prop :=
  len (tbs_der f) ≤ INT_MAX ∧
  (∀ sig, composite_signed k (tbs_der f) [] sig → len sig ≤ INT_MAX) ∧
  ∀ e, signed_encoding k f e → len e ≤ INT_MAX ∧ always _ (d2i_X509 e) (on_some (λ r, snd r = len e)).

(** The certificate encoded, and the encoding decoded: what the exit is given. *)
Lemma wp_decode_encoding {B} c t a v (exit : option block → option (obj X509) → M B) Φ s :
  let e := certificate_der (tbs_values (obj_val t)) (obj_val a) (obj_val v) in
  certificate_owns (Some c) ⊆ live s → obj_val c = CompositeCertificate (Some t) (Some a) (Some v) →
  (∀ der p s', frame ∅ (owns der ⊎ owns p) s s' →
     (∀ o, p = Some o → once _ (d2i_X509 e) (on_some (eq (obj_val o, len e)))) →
     (builder_reliable → len e ≤ INT_MAX → always _ (d2i_X509 e) (on_some (λ r, snd r = len e)) → is_Some p) →
     wp (exit der p) Φ s') →
  wp ('(certificate_der_len, certificate_der) ← i2d_COMPOSITE_CERTIFICATE c;
      check negb (certificate_der_len <=? 0) else exit certificate_der None;;
      der ← borrow certificate_der;
      der ← read der certificate_der_len;
      r ← call (d2i_X509 der);
      parsed ← new_object (λ _, fst <$> r);
      if is_null parsed || negb (from_option snd 0 r =? certificate_der_len)
      then free_object parsed;; exit certificate_der None
      else exit certificate_der parsed) Φ s.
Proof.
  intros e Hl Hc Hexit. pose proof (frame_refl s). wp_call as [n der] ([F Hder] & Henc).
  cbn [fst snd] in *. fold e in Hder, Henc.
  destruct (Z.leb_spec n 0); cbn [negb].
  { apply Hexit; [solve_frame|done|]. intros Hr Hle _. specialize (Henc (builder_encodes Hr) Hle). lia. }
  destruct (Hder ltac:(cbn; lia)) as (Hmax & Hn & b & Hbd & Hb). cbn [fst snd] in Hmax, Hn, Hbd. subst n der.
  wp_call as data [-> ->]. cbn [fmap option_fmap option_map]. rewrite Hb.
  wp_call as bits [-> ->]. rewrite bytes_at_all. wp_call as d [F1 Hd]. wp_call as p [F2 Hp].
  destruct p as [p|]; cbn [is_null orb].
  2: { wp_call as ? ?. apply Hexit; [solve_frame|done|]. intros _ _ Hdec. specialize (Hdec (tick s0)).
       rewrite Hd in Hdec. by destruct d. }
  destruct d as [[c' l]|]; [|done]. cbn [fmap option_fmap option_map fst] in Hp. injection Hp as Hp.
  cbn [from_option snd]. destruct (Z.eqb_spec l (len e)) as [->|Hl']; cbn [negb].
  - apply Hexit; [solve_frame| |done]. intros ? [= <-]. exists (tick s0). by rewrite Hd, Hp.
  - wp_call as ? ?. apply Hexit; [solve_frame|done|]. intros _ _ Hdec. specialize (Hdec (tick s0)).
    by rewrite Hd in Hdec.
Qed.

(** The exit of [sign_tbs]. *)
Lemma wp_sign_exit (cd sig der : option block) ce t (p : option (obj X509)) Φ s :
  certificate_owns ce ⊎ tbs_owns t ⊎ owns cd ⊎ owns sig ⊎ owns der ⊆ live s →
  (∀ s', frame (owns cd ⊎ owns sig ⊎ owns der ⊎ certificate_owns ce ⊎ tbs_owns t) ∅ s s' → Φ p s') →
  wp (free_object cd;; free_object sig;; free_object der;; COMPOSITE_CERTIFICATE_free ce;;
      COMPOSITE_TBS_CERTIFICATE_free t;; mret p) Φ s.
Proof. intros Hl HΦ. pose proof (frame_refl s). do 5 wp_call as ? ?. apply wp_ret, HΦ. solve_frame. Qed.

#[export] Instance spec_sign_tbs tbs key :
  Spec (sign_tbs tbs key)
    (λ s, tbs_owns tbs ⊎ private_owns key ⊆ live s ∧ from_option private_key_wf True key)
    (λ r s s', yields (tbs_owns tbs) owns (from_option (λ c, ∃ k t, key = Some k ∧ tbs = Some t ∧
         signed_certificate k (tbs_values (obj_val t)) (obj_val c)) True) r s s' ∧
       (∀ k t, key = Some k → tbs = Some t → builder_reliable →
          composite_always_signs k (tbs_der (tbs_values (obj_val t))) [] →
          always_decoded k (tbs_values (obj_val t)) → is_Some r)).
Proof.
  wp_start. destruct P as [Hl Hwf]. unfold sign_tbs.
  destruct tbs as [o|]; [|wp_call as ? ?; apply wp_ret; by (split; [wp_end|])].
  destruct key as [k|]; [|wp_call as ? ?; apply wp_ret; by (split; [wp_end|])].
  wp_call as [n der] ([F Hder] & Henc). cbn [fst snd] in *.
  set (Post := λ (r : option (obj X509)) s', _ ∧ _).
  assert (Hfail : ∀ (cd sig : option block) ce t s',
    frame (tbs_owns (Some o)) (owns cd ⊎ owns sig ⊎ owns der ⊎ certificate_owns ce ⊎ tbs_owns t) s s' →
    ¬ (builder_reliable ∧ composite_always_signs k (tbs_der (tbs_values (obj_val o))) [] ∧
       always_decoded k (tbs_values (obj_val o))) →
    wp (free_object cd;; free_object sig;; free_object der;; COMPOSITE_CERTIFICATE_free ce;;
        COMPOSITE_TBS_CERTIFICATE_free t;; mret None) Post s').
  { intros cd sig ce t s' F' Hn. apply wp_sign_exit; [solve_alive|]. intros s'' F''. frame_merge.
    split; [split; [solve_frame|done]|]. intros k' t' [= <-] [= <-] ???. by destruct Hn. }
  destruct (Z.leb_spec n 0); cbn [negb].
  { apply Hfail; [solve_frame|]. intros (Hr & _ & Hd & _). specialize (Henc (builder_encodes Hr) Hd). lia. }
  destruct (Hder ltac:(cbn; lia)) as (Hmax & Hn & b & Hbd & Hb). cbn [fst snd] in Hmax, Hn, Hbd. subst n der.
  set (m := tbs_der (tbs_values (obj_val o))) in *.
  wp_call as bytes [-> ->]. assert (0 ≤ len m ≤ SIZE_MAX) by (pose proof (len_nonneg m); unfold INT_MAX, SIZE_MAX in *; lia).
  rewrite size_of_Z_small by done.
  wp_call as [ok sig] ([F1 Hsig] & Hall).
  { cbn [fmap option_fmap option_map]. rewrite Hb. apply valid_all. lia. }
  cbn [fmap option_fmap option_map] in *. rewrite Hb, bytes_at_all in *. cbn [fst snd out_owns] in *.
  destruct ok; cbn [andb].
  2: { cbn in Hsig. subst sig. apply Hfail; [solve_frame|]. intros (Hr & Hs & _).
       assert (false = true); [|done]. apply (Hall k); [done|by apply builder_malloc|cbn; lia|done|done]. }
  destruct Hsig as (sb & sn & -> & Hsn & _ & _ & k0 & Hk0 & Hsigned). injection Hk0 as <-.
  change (bytes_at None 0) with (@nil byte) in *. cbn [out_len out_block set_out fst snd default from_option id] in *.
  clear Hall Henc. subst sn. destruct (Z.leb_spec (len (obj_val sb)) INT_MAX).
  2: { apply Hfail; [solve_frame|]. intros (_ & _ & _ & Hlen & _). specialize (Hlen _ Hsigned). lia. }
  wp_call as ce ([F2 Hce] & Hceok). destruct ce as [[ci ce]|]; cycle 1.
  { apply Hfail; [solve_frame|]. intros (Hr & _ & _). by destruct (Hceok (builder_asn1 Hr)). }
  destruct Hce as (t0 & a0 & v0 & Hce). cbn [obj_val] in Hce. subst ce.
  wp_call as ce [-> ->]. cbn [obj_val tbs_certificate signature_algorithm signature_value].
  wp_call as ? ?. wp_call as [ok a] (F4 & (av & Hav & Ha) & Haok). cbn [fst snd] in Hav, Ha, Haok. subst a. destruct ok; cycle 1.
  { apply Hfail; [solve_frame|]. intros (Hr & _ & _). by specialize (Haok Hr). }
  specialize (Ha eq_refl). clear Haok. cbn [signature_value]. unfold set_val. cbn [obj_id].
  wp_call as data [-> ->]. wp_call as bits [-> ->]. cbn [fmap option_fmap option_map]. rewrite bytes_at_all.
  wp_call as [ok v] (F6 & rc & vv & Hset & Hv & Hok). cbn [fst snd] in Hv, Hok. subst ok v.
  destruct (Z.eqb_spec rc 0) as [->|Hrc]; cbn [negb].
  { apply Hfail; [solve_frame|]. intros (Hr & _ & _). pose proof (builder_bits_set Hr (obj_val v0) (obj_val sb) (tick s4)). by rewrite Hset in *. }
  pose proof (bits_set_value (obj_val v0) (obj_val sb) (tick s4)) as Hbits. rewrite Hset in Hbits. cbn [fst snd] in Hbits.
  specialize (Hbits Hrc). unfold set_val. cbn [fmap option_fmap option_map obj_val obj_id].
  assert (He : signed_encoding k (tbs_values (obj_val o)) (certificate_der (tbs_values (obj_val o)) av (no_bits_left vv))).
  { exists av, (no_bits_left vv). split; [done|]. split; [done|].
    split; [by cbn [bits_data no_bits_left]; rewrite Hbits|]. apply no_bits_left_flags. }
  eapply (wp_decode_encoding _ o (Obj (obj_id a0) av) (Obj (obj_id v0) (no_bits_left vv))
    (λ cd p, free_object cd;; _)); [solve_alive|done|].
  intros cd p s6 F7 Hp Hpok. frame_merge. cbn [obj_val] in *. apply wp_sign_exit; [solve_alive|]. intros s7 F8. frame_merge.
  split; [split; [solve_frame|]|].
  - destruct p as [p|]; [|done]. exists k, o. split; [done|]. split; [done|].
    eexists. split; [done|]. by apply Hp.
  - intros ? ? [= <-] [= <-] Hr _ (_ & _ & Hdec). by apply Hpok; [|apply Hdec..].
Qed.

(** Every certificate with fields that [built] allows is signed and decoded. *)
Definition always_signed (k : HYBRID_PRIVATE_KEY) (built : tbs_fields → Prop) : Prop :=
  ∀ f, built f → composite_always_signs k (tbs_der f) [] ∧ always_decoded k f.

(** [c] is made from fields that [built] allows and signed with [key]. *)
Definition certificate_made (key : option HYBRID_PRIVATE_KEY) (built : tbs_fields → Prop) (c : X509) : Prop :=
  ∃ k f, key = Some k ∧ built f ∧ signed_certificate k f c.

(** The fields of the certificates issued. *)
Definition root_fields (pk : option HYBRID_PUBLIC_KEY) (cn : option string) (f : tbs_fields) : Prop :=
  ∃ cn' i, cn = Some cn' ∧ cn' ≠ ""%string ∧ name_of once cn' (eq i) ∧
    tbs_built i cn' 1 (composite_spki_made pk) (root_made pk) f.
Definition server_fields (ca pk : option HYBRID_PUBLIC_KEY) (issuer : option (obj X509))
    (cn dns : option string) (f : tbs_fields) : Prop :=
  ∃ cn' i, cn = Some cn' ∧ cn' ≠ ""%string ∧ issuer = Some i ∧
    tbs_built (X509_get_subject_name (obj_val i)) cn' 2 (composite_spki_made pk)
      (server_made ca pk (default ""%string dns)) f.
Definition sm2_encryption_fields (ca : option HYBRID_PUBLIC_KEY) (key : option (obj EVP_PKEY))
    (issuer : option (obj X509)) (cn : option string) (f : tbs_fields) : Prop :=
  ∃ cn' i, cn = Some cn' ∧ cn' ≠ ""%string ∧ issuer = Some i ∧
    tbs_built (X509_get_subject_name (obj_val i)) cn' 3 (sm2_spki_made key) (encryption_made ca key) f.

#[export] Instance spec_hybrid_x509_create_root sk pk cn :
  Spec (hybrid_x509_create_root sk pk cn)
    (λ s, private_owns sk ∪ public_owns pk ⊆ live s ∧ from_option private_key_wf True sk ∧
          from_option public_key_wf True pk)
    (λ r s s', yields ∅ owns (from_option (λ c, certificate_made sk (root_fields pk cn) (obj_val c)) True) r s s' ∧
       (∀ k cn', sk = Some k → cn = Some cn' → cn' ≠ ""%string → name_of always cn' (λ _, True) →
          builder_reliable → key_exports pk → conf_accepted root_conf →
          always_signed k (root_fields pk cn) → is_Some r)).
Proof.
  wp_start. destruct P as (Hl & Hsk & Hpk). unfold hybrid_x509_create_root.
  wp_call as n ([F Hn] & Hname). destruct n as [n|]; cycle 1.
  { apply wp_ret. split; [by wp_end|]. intros k cn' _ Hcn Hne Hal Hr. destruct (Hname cn'); try done. }
  destruct Hn as (cn' & -> & Hne & Hcn). wp_call as v [-> ->].
  wp_call as t ([F1 Ht] & Htok). wp_call as ? ?. eapply wp_spec; [apply _|split; [solve_alive|done]|].
  intros p s' ([F' Hr] & Hrok). frame_merge. split; [split; [solve_frame|]|].
  - destruct p as [c|]; [|done]. destruct Hr as (k & t' & -> & -> & Hc). exists k. eexists. split; [done|].
    split; [|done]. destruct Ht as (? & [= <-] & _ & Ht). by exists cn', (obj_val n).
  - intros k ? -> [= <-] _ Hal Hrel Hex Hconf Hsig. destruct (Htok cn') as [t' ->]; try done.
    destruct Ht as (? & [= <-] & _ & Ht). destruct (Hsig (tbs_values (obj_val t'))) as [Hs Hd];
      [by exists cn', (obj_val n)|]. by eapply Hrok.
Qed.

#[export] Instance spec_hybrid_x509_create_server sk ca pk issuer cn dns :
  Spec (hybrid_x509_create_server sk ca pk issuer cn dns)
    (λ s, private_owns sk ∪ (public_owns ca ∪ public_owns pk) ∪ owns issuer ⊆ live s ∧
          from_option private_key_wf True sk ∧ from_option public_key_wf True ca ∧
          from_option public_key_wf True pk)
    (λ r s s', yields ∅ owns
         (from_option (λ c, certificate_made sk (server_fields ca pk issuer cn dns) (obj_val c)) True) r s s' ∧
       (∀ k i cn' d, sk = Some k → issuer = Some i → cn = Some cn' → cn' ≠ ""%string →
          dns = Some d → san_fits d → name_of always cn' (λ _, True) → builder_reliable →
          key_exports pk → key_exports ca → conf_accepted (server_conf d) →
          always_signed k (server_fields ca pk issuer cn dns) → is_Some r)).
Proof.
  wp_start. destruct P as (Hl & Hsk & Hca & Hpk). unfold hybrid_x509_create_server.
  destruct issuer as [i|]; [|by apply wp_ret; split; [wp_end|]].
  wp_call as c [-> ->]. wp_call as t ([F1 Ht] & Htok).
  eapply wp_spec; [apply _|split; [solve_alive|done]|].
  intros p s' ([F' Hr] & Hrok). frame_merge. split; [split; [solve_frame|]|].
  - destruct p as [c|]; [|done]. destruct Hr as (k & t' & -> & -> & Hc). exists k. eexists. split; [done|].
    split; [|done]. destruct Ht as (cn' & -> & Hne & Ht). by exists cn', i.
  - intros k ? cn' d -> [= <-] -> Hne -> Hd Hal Hrel Hex Hex' Hconf Hsig.
    destruct (Htok cn') as [t' ->]; try done; [by split; [|exists d]|].
    destruct Ht as (? & [= <-] & _ & Ht). destruct (Hsig (tbs_values (obj_val t'))) as [Hs Hd'];
      [by exists cn', i|]. by eapply Hrok.
Qed.

#[export] Instance spec_hybrid_x509_create_sm2_encryption sk ca key issuer cn :
  Spec (hybrid_x509_create_sm2_encryption sk ca key issuer cn)
    (λ s, private_owns sk ∪ (public_owns ca ∪ owns key) ∪ owns issuer ⊆ live s ∧
          from_option private_key_wf True sk ∧ from_option public_key_wf True ca)
    (λ r s s', yields ∅ owns
         (from_option (λ c, certificate_made sk (sm2_encryption_fields ca key issuer cn) (obj_val c)) True) r s s' ∧
       (∀ k i cn', sk = Some k → issuer = Some i → cn = Some cn' → cn' ≠ ""%string →
          name_of always cn' (λ _, True) → builder_reliable →
          sm2_exports key → key_exports ca → conf_accepted encryption_conf →
          always_signed k (sm2_encryption_fields ca key issuer cn) → is_Some r)).
Proof.
  wp_start. destruct P as (Hl & Hsk & Hca). unfold hybrid_x509_create_sm2_encryption.
  destruct (_ || bool_decide _) eqn:E.
  { apply wp_ret. split; [by wp_end|]. intros k i cn' -> -> -> Hne _ _ (o & -> & _) (c & ? & -> & _) _ _.
    rewrite (bool_decide_eq_false_2 (Some cn' = Some ""%string)) in E by congruence. done. }
  destruct issuer as [i|]; [|by simpl_bool].
  wp_call as c [-> ->]. wp_call as t ([F1 Ht] & Htok).
  eapply wp_spec; [apply _|split; [solve_alive|done]|].
  intros p s' ([F' Hr] & Hrok). frame_merge. split; [split; [solve_frame|]|].
  - destruct p as [c|]; [|done]. destruct Hr as (k & t' & -> & -> & Hc). exists k. eexists. split; [done|].
    split; [|done]. destruct Ht as (cn' & -> & Hne & Ht). by exists cn', i.
  - intros k ? cn' -> [= <-] -> Hne Hal Hrel Hex Hex' Hconf Hsig.
    destruct (Htok cn') as [t' ->]; try done.
    destruct Ht as (? & [= <-] & _ & Ht). destruct (Hsig (tbs_values (obj_val t'))) as [Hs Hd'];
      [by exists cn', i|]. by eapply Hrok.
Qed.

(** ** Properties *)

(** C8. A root certificate, when one is returned, is the decoding of the DER
    encoding of version 3 fields for the given name, serial number 1, the
    given public key and the extensions of a root, signed with the composite
    algorithm over the encoding of those fields with the given private key;
    nothing else remains allocated, whichever step failed. It is returned when
    the library does not fail, the name is not empty and the keys can be used. *)
Theorem hybrid_x509_create_root_correct sk pk cn s :
  private_owns sk ∪ public_owns pk ⊆ live s → from_option private_key_wf True sk →
  from_option public_key_wf True pk →
  wp (hybrid_x509_create_root sk pk cn) (λ r s',
    live s' = live s ⊎ owns r ∧
    (∀ c, r = Some c → certificate_made sk (root_fields pk cn) (obj_val c)) ∧
    (∀ k cn', sk = Some k → cn = Some cn' → cn' ≠ ""%string → name_of always cn' (λ _, True) →
       builder_reliable → key_exports pk → conf_accepted root_conf →
       always_signed k (root_fields pk cn) → is_Some r)) s.
Proof.
  intros Hl Hsk Hpk. eapply wp_spec; [apply _|done|]. intros r s' ([F Hr] & Hok).
  split; [pose proof (frame_live _ _ _ _ F); ms_lia|]. split; [by intros c ->|done].
Qed.

(** C9. A server certificate, when one is returned, names the subject of the
    given certificate as its issuer, carries serial number 2, the server's
    public key, the DNS name and the identifiers of both keys, and is signed
    over the encoding of these fields with the given private key; nothing else
    remains allocated. It is returned when the library does not fail and the
    DNS name fits the buffer of 300 bytes. *)
Theorem hybrid_x509_create_server_correct sk ca pk issuer cn dns s :
  private_owns sk ∪ (public_owns ca ∪ public_owns pk) ∪ owns issuer ⊆ live s →
  from_option private_key_wf True sk → from_option public_key_wf True ca →
  from_option public_key_wf True pk →
  wp (hybrid_x509_create_server sk ca pk issuer cn dns) (λ r s',
    live s' = live s ⊎ owns r ∧
    (∀ c, r = Some c → certificate_made sk (server_fields ca pk issuer cn dns) (obj_val c)) ∧
    (∀ k i cn' d, sk = Some k → issuer = Some i → cn = Some cn' → cn' ≠ ""%string →
       dns = Some d → san_fits d → name_of always cn' (λ _, True) → builder_reliable →
       key_exports pk → key_exports ca → conf_accepted (server_conf d) →
       always_signed k (server_fields ca pk issuer cn dns) → is_Some r)) s.
Proof.
  intros Hl Hsk Hca Hpk. eapply wp_spec; [apply _|done|]. intros r s' ([F Hr] & Hok).
  split; [pose proof (frame_live _ _ _ _ F); ms_lia|]. split; [by intros c ->|done].
Qed.

(** The encryption certificate of a server carries an SM2 key, serial
    number 3 and the encryption key usages, names the subject of the given
    certificate as its issuer and is signed by the composite key of the
    authority; a missing argument yields none, and nothing else remains
    allocated. *)
Theorem hybrid_x509_create_sm2_encryption_correct sk ca key issuer cn s :
  private_owns sk ∪ (public_owns ca ∪ owns key) ∪ owns issuer ⊆ live s →
  from_option private_key_wf True sk → from_option public_key_wf True ca →
  wp (hybrid_x509_create_sm2_encryption sk ca key issuer cn) (λ r s',
    live s' = live s ⊎ owns r ∧
    (∀ c, r = Some c → certificate_made sk (sm2_encryption_fields ca key issuer cn) (obj_val c)) ∧
    (∀ k i cn', sk = Some k → issuer = Some i → cn = Some cn' → cn' ≠ ""%string →
       name_of always cn' (λ _, True) → builder_reliable → sm2_exports key → key_exports ca →
       conf_accepted encryption_conf → always_signed k (sm2_encryption_fields ca key issuer cn) →
       is_Some r)) s.
Proof.
  intros Hl Hsk Hca. eapply wp_spec; [apply _|done|]. intros r s' ([F Hr] & Hok).
  split; [pose proof (frame_live _ _ _ _ F); ms_lia|]. split; [by intros c ->|done].
Qed.

(** The fields of an issued certificate. *)
Definition issued_fields (f : tbs_fields) : Prop :=
  ∃ i cn serial spki made, tbs_built i cn serial spki made f.

Lemma issued_version_3 f : issued_fields f → version_3_fields f.
Proof.
  intros (i & cn & n & spki & made & a & i' & d & s & k & e & -> & _). by exists 2, n, a, i', d, s, k, e.
Qed.

(** C10. The encoding of an issued certificate determines every field in it:
    two certificates with the same bytes have the same version, serial number,
    algorithm, names, validity, subject key and extensions. *)
Theorem issued_certificate_determined `{!X509Elements} k k' f f' e :
  issued_fields f → issued_fields f' → len e < 2 ^ 64 →
  signed_encoding k f e → signed_encoding k' f' e →
  f = f'.
Proof.
  intros Hf Hf' Hl (a & v & -> & _) (a' & v' & He & _).
  by apply certificate_der_inj in He as (-> & _); [|by apply issued_version_3..|].
Qed.
End sign_specs.

(** ** Example: issuing with the concrete environment *)

Section example.
#[local] Existing Instances env_libc env_openssl env_openssl_sizes env_dilithium env_dilithium_sizes
  env_issuer env_issuer_sizes env_builder env_builder_contracts env_elements.

Definition env_one : state := env_state [1]%positive.
Definition env_ca_certificate : obj X509 := Obj 1%positive (env_decoded (lit "root") []).

(** What the program returns for the inputs of the witnesses. *)
Definition returned {A} (m : M (option (obj A))) : bool :=
  match m env_one with Some (Some _, _) => true | _ => false end.

Lemma env_issues_root :
  returned (hybrid_x509_create_root (Some env_private) (Some env_public) (Some "root"%string)) = true.
Proof. by vm_compute. Qed.

Lemma env_one_alive {A} (o : obj A) : obj_id o = 1%positive → owns (Some o) ⊆ live env_one.
Proof. intros Ho. apply (env_alive o [1]%positive). rewrite Ho. left. Qed.

Lemma env_one_keys : private_owns (Some env_private) ∪ public_owns (Some env_public) ⊆ live env_one.
Proof. cbn. pose proof (env_one_alive env_key eq_refl) as H. cbn in H. ms_lia. Qed.

Lemma env_one_issuer :
  private_owns (Some env_private) ∪ (public_owns (Some env_public) ∪ public_owns (Some env_public)) ∪
  owns (Some env_ca_certificate) ⊆ live env_one.
Proof.
  pose proof env_one_keys. pose proof (env_one_alive env_ca_certificate eq_refl). ms_lia.
Qed.

Lemma hybrid_x509_create_root_correct_witness :
  returned (hybrid_x509_create_root (Some env_private) (Some env_public) (Some "root"%string)) = true ∧
  wp (hybrid_x509_create_root (Some env_private) (Some env_public) (Some "root"%string)) (λ r s',
    live s' = live env_one ⊎ owns r ∧
    (∀ c, r = Some c → certificate_made (Some env_private)
       (root_fields (Some env_public) (Some "root"%string)) (obj_val c)) ∧
    (∀ k cn', Some env_private = Some k → Some "root"%string = Some cn' → cn' ≠ ""%string →
       name_of always cn' (λ _, True) → builder_reliable → key_exports (Some env_public) →
       conf_accepted root_conf → always_signed k (root_fields (Some env_public) (Some "root"%string)) →
       is_Some r)) env_one.
Proof.
  split; [apply env_issues_root|].
  apply (hybrid_x509_create_root_correct (Some env_private) (Some env_public) (Some "root"%string) env_one);
    [apply env_one_keys|apply env_private_wf|apply env_public_wf].
Defined.

Lemma hybrid_x509_create_server_correct_witness :
  let server := hybrid_x509_create_server (Some env_private) (Some env_public) (Some env_public)
    (Some env_ca_certificate) (Some "server"%string) (Some "host"%string) in
  returned server = true ∧ san_fits "host" ∧
  wp server (λ r s', live s' = live env_one ⊎ owns r ∧
    (∀ c, r = Some c → certificate_made (Some env_private) (server_fields (Some env_public) (Some env_public)
       (Some env_ca_certificate) (Some "server"%string) (Some "host"%string)) (obj_val c)) ∧
    (∀ k i cn' d, Some env_private = Some k → Some env_ca_certificate = Some i →
       Some "server"%string = Some cn' → cn' ≠ ""%string → Some "host"%string = Some d → san_fits d →
       name_of always cn' (λ _, True) → builder_reliable →
       key_exports (Some env_public) → key_exports (Some env_public) → conf_accepted (server_conf d) →
       always_signed k (server_fields (Some env_public) (Some env_public)
         (Some env_ca_certificate) (Some "server"%string) (Some "host"%string)) → is_Some r)) env_one.
Proof.
  split; [by vm_compute|]. split; [by vm_compute|].
  apply (hybrid_x509_create_server_correct (Some env_private) (Some env_public) (Some env_public)
    (Some env_ca_certificate) (Some "server"%string) (Some "host"%string) env_one);
    [apply env_one_issuer|apply env_private_wf|apply env_public_wf|apply env_public_wf].
Defined.

Lemma hybrid_x509_create_sm2_encryption_correct_witness :
  let encryption := hybrid_x509_create_sm2_encryption (Some env_private) (Some env_public) (Some env_key)
    (Some env_ca_certificate) (Some "server"%string) in
  returned encryption = true ∧
  wp encryption (λ r s', live s' = live env_one ⊎ owns r ∧
    (∀ c, r = Some c → certificate_made (Some env_private) (sm2_encryption_fields (Some env_public)
       (Some env_key) (Some env_ca_certificate) (Some "server"%string)) (obj_val c)) ∧
    (∀ k i cn', Some env_private = Some k → Some env_ca_certificate = Some i →
       Some "server"%string = Some cn' → cn' ≠ ""%string → name_of always cn' (λ _, True) →
       builder_reliable → sm2_exports (Some env_key) → key_exports (Some env_public) →
       conf_accepted encryption_conf → always_signed k (sm2_encryption_fields (Some env_public)
         (Some env_key) (Some env_ca_certificate) (Some "server"%string)) → is_Some r)) env_one.
Proof.
  split; [by vm_compute|].
  apply (hybrid_x509_create_sm2_encryption_correct (Some env_private) (Some env_public) (Some env_key)
    (Some env_ca_certificate) (Some "server"%string) env_one);
    [|apply env_private_wf|apply env_public_wf].
  pose proof env_one_keys. pose proof (env_one_alive env_ca_certificate eq_refl).
  pose proof (env_one_alive env_key eq_refl). ms_lia.
Defined.

Lemma env_signed m ctx :
  len ctx ≤ COMPOSITE_MAX_CONTEXT_BYTES → composite_signed env_private m ctx (env_signature m ctx).
Proof.
  intros Hc. exists env_key, (fit 32 m), (env_dilithium_sign Byte.x07 (composite_message ctx (fit 32 m))),
    (env_sm2_sign Byte.x07 (composite_message ctx (fit 32 m))).
  split; [done|]. split; [split; [by apply len_fit|by exists 0%N]|]. split; [done|].
  split; [by exists 0%N|]. split; [exists 0%N; exists 0%N; split; [done|]; exists 0%N; split; [done|];
    exists 8, 0%N; done|].
  split; [done|]. split; [by apply len_fit|]. split; [done|].
  exists 0%N. cbn. split; [done|]. split; [|exists 0%N; cbn; by rewrite !byte_of_Z_of_byte].
  eexists _, _. split; [done|]. split; apply Z.lt_le_trans with 1; try lia; apply env_small_range.
Qed.

(** Fields without extensions. *)
Definition env_fields : tbs_fields :=
  TbsFields (Some 2) (Some 1) (Some COMPOSITE_SM2_DILITHIUM_EXPERIMENTAL_OID) (Some 2023004) (Some (Validity (-60) 31536000))
    (Some 2023004) (Some (COMPOSITE_SM2_DILITHIUM_EXPERIMENTAL_OID, [Byte.x07])) None None (Some []).

Lemma issued_certificate_determined_witness :
  let e := certificate_der env_fields COMPOSITE_SM2_DILITHIUM_EXPERIMENTAL_OID
    (BitString 8 (env_signature (tbs_der env_fields) [])) in
  issued_fields env_fields ∧ signed_encoding env_private env_fields e ∧ env_fields = env_fields.
Proof.
  intros e.
  assert (Hf : issued_fields env_fields).
  { exists 2023004, "root"%string, 1, (λ _, True), []. do 6 eexists. split; [reflexivity|].
    split; [exists COMPOSITE_SM2_DILITHIUM_EXPERIMENTAL_OID, ""%string; split; exists 0%N; done|].
    split; [exists 0%N; done|].
    split; [exists 0, 0; split; exists 0%N; done|]. split; [|split; [done|constructor]].
    exists 0%N. exists 0%N. split; [done|]. exists 0%N. split; [done|]. by exists 0%N. }
  assert (Hs : signed_encoding env_private env_fields e).
  { eexists _, (BitString 8 _). split; [reflexivity|].
    split; [exists COMPOSITE_SM2_DILITHIUM_EXPERIMENTAL_OID, ""%string; split; exists 0%N; done|].
    split; [apply env_signed; done|]. done. }
  split; [done|]. split; [done|].
  apply (issued_certificate_determined env_private env_private env_fields env_fields e); try done.
Defined.
End example.
