(* ===== verification/X509Files.v ===== *)
(** * hybrid_x509.c (certificate files)

    A certificate written in PEM and in DER, and read from PEM. *)

From S2P Require Import Prelude Machine External Posix Environment X509 Asn1 X509Build X509Env.

Section files.
Context `{OpenSSL, !X509Library, !X509Builder, Posix}.

(** [PEM_write_X509(f, c)], [i2d_X509_fp(f, c)]: what is written goes to the
    stream also when the call fails. *)
Definition stream_put (f : obj FILE) (encode : N → Z * list byte) : M (bool * obj FILE) :=
  r ← call encode;
  '(ok, f) ← stream_write f (snd r);
  mret (negb (fst r =? 0) && ok, f).

(** [if (f != NULL) fclose(f)] *)
Definition close_stream (f : option (obj FILE)) : M Z :=
  match f with None => mret 0 | Some f => fclose f end.

(** The results of [fclose] are not looked at. *)
Definition hybrid_x509_write_files (certificate : option (obj X509)) (pem_path der_path : option string)
    : M bool :=
  match certificate, pem_path, der_path with
  | Some cert, Some pem, Some der =>
      pem_file ← fopen_write pem;
      der_file ← fopen_write der;
      let done (pem_file der_file : option (obj FILE)) (ok : bool) :=
        close_stream pem_file;; close_stream der_file;; mret ok in
      match pem_file, der_file with
      | Some p, Some d =>
          c ← deref cert;
          '(ok, p) ← stream_put p (PEM_write_X509 c);
          if negb ok then done (Some p) (Some d) false
          else
            '(ok, d) ← stream_put d (i2d_X509_fp c);
            done (Some p) (Some d) ok
      | _, _ => done pem_file der_file false
      end
  | _, _, _ => mret false
  end.

Definition hybrid_x509_read_pem (path : option string) : M (option (obj X509)) :=
  match path with
  | None => mret None
  | Some p =>
      input ← fopen_read p;
      match input with
      | None => mret None
      | Some f =>
          content ← stream_content f;
          certificate ← new_object (PEM_read_X509 content);
          fclose_input f;;
          mret certificate
      end
  end.
End files.
#[global] Arguments stream_put : simpl never.
#[global] Arguments close_stream : simpl never.
#[global] Arguments hybrid_x509_write_files : simpl never.
#[global] Arguments hybrid_x509_read_pem : simpl never.
#[export] Hint Opaque stream_put close_stream hybrid_x509_write_files hybrid_x509_read_pem : typeclass_instances.

(** ** Specifications *)

Section specs.
Context `{OpenSSL, !X509Library, !X509Builder, Posix}.

(** Opening a file and writing to a buffer never fail for reasons of their own;
    handing over what the buffers hold, in [fclose], may. *)
Definition writing_works : Prop :=
  (∀ path t, sys_fault "fopen" path t = 0) ∧ ∀ path t, sys_fault "fwrite" path t = 0.

Lemma reliable_writing : reliable_files → writing_works.
Proof. intros [Hr _]. by split. Qed.

Lemma writing_no_fault name path e : writing_works → name = "fopen"%string ∨ name = "fwrite"%string → ¬ fault name path e.
Proof. intros [Ho Hw] [-> | ->] (He & t & E); by rewrite ?Ho, ?Hw in E. Qed.

(** The bytes an encoder writes when it succeeds. *)
Definition encoder_output (encode : N → Z * list byte) (data : list byte) : Prop :=
  once _ encode (λ r, fst r ≠ 0 ∧ snd r = data).
Definition encoder_succeeds (encode : N → Z * list byte) : Prop := always _ encode (λ r, fst r ≠ 0).

#[export] Instance spec_stream_put f encode :
  Spec (stream_put f encode) (alive (Some f))
    (λ r s s', ∃ s1 fs v, frame ∅ ∅ s s1 ∧ s' = with_files fs s1 ∧ snd r = set_val f v ∧
       file_path v = file_path (obj_val f) ∧
       ∀ m base, stream_at (obj_val f) m [] base (files s) →
         (writing_works → encoder_succeeds encode → fst r = true) ∧
         ∃ data, stream_at v m data base fs ∧ (fst r = true → encoder_output encode data ∧
           (buffer_keeps (len data) → data ≠ [] → file_pending v ≠ []))).
Proof.
  wp_start. unfold stream_put. wp_call as [rc data] [F Hr].
  assert (Hfs : files s0 = files s) by by fs_simpl.
  wp_call as [ok f'] (s1 & fs & v & F1 & -> & Hv & Hp & Hw). cbn [fst snd] in *. subst f'.
  rewrite Hfs in Hw. apply wp_ret. exists s1, fs, v. split; [solve_frame|]. split_and!; [done..|]. intros m base Hat.
  destruct (Hw _ _ _ Hat) as (Hok & total & Hat' & Ht). cbn [fst]. split.
  - intros Hworks Henc. unfold encoder_succeeds in Henc. always_auto.
    destruct Hok as [->|[e He]]; [|by apply writing_no_fault in He; [|done|right]].
    rewrite andb_true_r. by apply negb_true_iff, Z.eqb_neq.
  - exists total. split; [done|]. intros [Hrc%negb_true_iff%Z.eqb_neq ->]%andb_true_iff.
    destruct (Ht eq_refl) as [-> Hk]. split; [unfold encoder_output; once_auto|by apply Hk].
Qed.

(** The paths lead to two different files. *)
Definition two_targets (fs : gmap string node) (pem der : option string) (pp dp : string) : Prop :=
  ∃ p d, pem = Some p ∧ der = Some d ∧ resolve_target MAXSYMLINKS fs p = inl pp ∧
    resolve_target MAXSYMLINKS fs d = inl dp ∧ pp ≠ dp.

(** Each file holds its encoding up to what was lost at its end: nothing when
    files work; what the buffer kept when no buffer could be emptied at last. *)
Definition files_written (c : X509) (pp dp : string) (fs fs' : gmap string node) : Prop :=
  ∃ m m' a a' la b b' lb, fs' = <[dp := Regular m' b']> (<[pp := Regular m a']> fs) ∧
    encoder_output (PEM_write_X509 c) a ∧ encoder_output (i2d_X509_fp c) b ∧ a = a' ++ la ∧ b = b' ++ lb ∧
    (reliable_files → la = [] ∧ lb = []) ∧
    (nothing_flushed → (buffer_keeps (len a) → a ≠ [] → la ≠ []) ∧ (buffer_keeps (len b) → b ≠ [] → lb ≠ [])).

Lemma resolve_target_insert links fs path pp m c q :
  (∀ n, fs !! pp = Some n → ∃ m c, n = Regular m c) →
  resolve_target links fs path = inl q → resolve_target links (<[pp := Regular m c]> fs) path = inl q.
Proof.
  intros Hpp. revert path. induction links as [|links IH]; intros path;
    unfold resolve_target; fold resolve_target; destruct (decide (path = pp)) as [->|];
    rewrite ?lookup_insert_eq, ?(lookup_insert_ne _ pp) by congruence.
  1, 3: destruct (fs !! pp) as [n|] eqn:E; [|done]; destruct (Hpp n eq_refl) as (? & ? & ->); done.
  - done.
  - destruct (fs !! path) as [[]|]; try done. apply IH.
Qed.

(** Two streams at two files, each at the end of what was written to it. *)
Definition both_at (p d : FILE) (m m' : Z) (a b : list byte) (base fs : gmap string node) : Prop :=
  file_path p ≠ file_path d ∧ ∃ x y,
    fs = <[file_path d := Regular m' y]> (<[file_path p := Regular m x]> base) ∧
    file_offset p = len x ∧ a = x ++ file_pending p ∧ file_offset d = len y ∧ b = y ++ file_pending d.

Lemma both_left p d m m' a b base fs :
  both_at p d m m' a b base fs →
  ∃ base', stream_at p m a base' fs ∧ ∀ v a' fs', file_path v = file_path p →
    stream_at v m a' base' fs' → both_at v d m m' a' b base fs'.
Proof.
  intros (Hne & x & y & -> & Hx & -> & Hy & ->). exists (<[file_path d := Regular m' y]> base). split.
  - exists x. split; [|done]. by rewrite insert_insert_ne.
  - intros v a' fs' Hv (x' & -> & Hx' & ->). rewrite Hv in *. split; [congruence|]. exists x', y.
    split; [|done]. rewrite Hv. by rewrite insert_insert_ne.
Qed.

Lemma both_right p d m m' a b base fs :
  both_at p d m m' a b base fs →
  ∃ base', stream_at d m' b base' fs ∧ ∀ v b' fs', file_path v = file_path d →
    stream_at v m' b' base' fs' → both_at p v m m' a b' base fs'.
Proof.
  intros (Hne & x & y & -> & Hx & -> & Hy & ->). exists (<[file_path p := Regular m x]> base). split.
  - by exists y.
  - intros v b' fs' Hv (y' & -> & Hy' & ->). rewrite Hv in *. split; [congruence|]. exists x, y'. by rewrite Hv.
Qed.

(** A stream closed, if there is one. *)
#[export] Instance spec_close_stream f :
  Spec (close_stream f) (alive f)
    (λ r s s', ∃ s1 fs, frame (owns f) ∅ s s1 ∧ s' = with_files fs s1 ∧
       ∀ o m total base, f = Some o → stream_at (obj_val o) m total base (files s) →
         ∃ data lost, fs = <[file_path (obj_val o) := Regular m data]> base ∧ total = data ++ lost ∧
           (reliable_files → lost = []) ∧ (nothing_flushed → lost = file_pending (obj_val o))).
Proof.
  wp_start. unfold close_stream. destruct f as [f|].
  - eapply wp_spec; [apply _|done|]. intros r s' (s1 & fs & F & -> & Hf). exists s1, fs.
    split; [done|]. split; [done|]. intros o m total base [= <-] Hat.
    destruct (Hf _ _ _ Hat) as (Hr & data & lost & ? & ? & Hz & ?). exists data, lost. split_and!; try done.
    intros Hrel. apply Hz. destruct Hr as [|[name Hn]]; [done|]. by apply reliable_no_fault in Hn.
  - apply wp_ret. exists s, (files s). rewrite with_files_files. by split_and!.
Qed.

Lemma wp_close_both (p d : option (obj FILE)) (ok : bool) Φ s :
  owns p ⊎ owns d ⊆ live s →
  (∀ s1 fs, frame (owns p ⊎ owns d) ∅ s s1 →
     (∀ po d_ m m' a b base, p = Some po → d = Some d_ →
        both_at (obj_val po) (obj_val d_) m m' a b base (files s) →
        ∃ a' la b' lb, fs = <[file_path (obj_val d_) := Regular m' b']> (<[file_path (obj_val po) := Regular m a']> base) ∧
          a = a' ++ la ∧ b = b' ++ lb ∧ (reliable_files → la = [] ∧ lb = []) ∧
          (nothing_flushed → la = file_pending (obj_val po) ∧ lb = file_pending (obj_val d_))) →
     Φ ok (with_files fs s1)) →
  wp (close_stream p;; close_stream d;; mret ok) Φ s.
Proof.
  intros Hl HΦ. pose proof (frame_refl s).
  wp_call as r (s1 & fs & F & -> & Hp). fs_simpl. wp_call as r' (s2 & fs2 & F2 & -> & Hd). fs_simpl.
  apply wp_ret, HΦ; [solve_frame|]. intros po d_ m m' a b base -> -> Hat.
  pose proof Hat as (Hne & x & y & Hfs & Hx & Ha & Hy & Hb).
  destruct (Hp po m a (<[file_path (obj_val d_) := Regular m' y]> base) eq_refl) as (a' & la & -> & Hal & Hra & Hna).
  { exists x. rewrite Hfs, insert_insert_ne by done. done. }
  destruct (Hd d_ m' b (<[file_path (obj_val po) := Regular m a']> base) eq_refl) as (b' & lb & -> & Hbl & Hrb & Hnb).
  { exists y. rewrite insert_insert_ne by done. done. }
  exists a', la, b', lb. split_and!; auto.
Qed.

#[export] Instance spec_hybrid_x509_write_files cert pem der :
  Spec (hybrid_x509_write_files cert pem der) (alive cert)
    (λ r s s', ∃ s1 fs, frame ∅ ∅ s s1 ∧ s' = with_files fs s1 ∧
       (r = true → ∃ c p d, cert = Some c ∧ pem = Some p ∧ der = Some d) ∧
       ∀ c pp dp, cert = Some c → two_targets (files s) pem der pp dp →
         (r = true → files_written (obj_val c) pp dp (files s) fs) ∧
         (writing_works → encoder_succeeds (PEM_write_X509 (obj_val c)) →
            encoder_succeeds (i2d_X509_fp (obj_val c)) → r = true)).
Proof.
  wp_start. unfold hybrid_x509_write_files. set (Post := λ (r : bool) s', ∃ _ _, _ ∧ _ ∧ _ ∧ _).
  assert (Hnull : cert = None ∨ pem = None ∨ der = None → wp (mret false) Post s).
  { intros Hn. apply wp_ret. exists s, (files s). rewrite with_files_files. split_and!; try done.
    intros c pp dp -> (? & ? & -> & -> & _). naive_solver. }
  destruct cert as [c|]; [|by apply Hnull; left].
  destruct pem as [pem|]; [|by apply Hnull; auto].
  destruct der as [der|]; [|by apply Hnull; auto]. clear Hnull.
  wp_call as pf (s1 & fs1 & F & -> & Hpf). fs_simpl.
  wp_call as df (s2 & fs2 & F2 & -> & Hdf). fs_simpl.
  (* a failing exit: success was not to be expected *)
  assert (Hfail : ∀ p d s3 fs3, frame ∅ (owns p ⊎ owns d) s s3 →
    (∀ pp dp, two_targets (files s) (Some pem) (Some der) pp dp → writing_works →
       encoder_succeeds (PEM_write_X509 (obj_val c)) → encoder_succeeds (i2d_X509_fp (obj_val c)) → False) →
    wp (close_stream p;; close_stream d;; mret false) Post (with_files fs3 s3)).
  { intros p d s3 fs3 F3 Hno. apply wp_close_both; [solve_alive|]. intros s4 fs F4 _. frame_merge. eexists _, fs.
    split; [solve_frame|]. split; [done|]. split; [done|]. intros c' pp dp [= <-] Ht. split; [done|].
    intros. by destruct (Hno pp dp Ht). }
  destruct pf as [pf|].
  2: { apply Hfail; [solve_frame|]. intros pp dp (p & d & [= <-] & [= <-] & Hp & Hd & Hne) Hw _ _.
       destruct Hpf as (_ & [(e & He)|(e & He)]); [congruence|]. by apply writing_no_fault in He; [|done|left]. }
  destruct Hpf as (pp & m & Hpp & Hpv & -> & _).
  assert (Hdp0 : ∀ dp, resolve_target MAXSYMLINKS (files s) der = inl dp →
    resolve_target MAXSYMLINKS (<[pp := Regular m []]> (files s)) der = inl dp).
  { intros dp. apply resolve_target_insert. by eapply resolve_target_regular. }
  destruct df as [df|].
  2: { apply Hfail; [solve_frame|]. intros pp' dp (p & d & [= <-] & [= <-] & Hp & Hd & Hne) Hw _ _.
       destruct Hdf as (_ & [(e & He)|(e & He)]); [|by apply writing_no_fault in He; [|done|left]].
       apply Hdp0 in Hd. congruence. }
  destruct Hdf as (dp & m' & Hdp & Hdv & -> & _).
  assert (Hboth : ∀ pp' dp', two_targets (files s) (Some pem) (Some der) pp' dp' → pp' = pp ∧ dp' = dp ∧
    both_at (obj_val pf) (obj_val df) m m' [] [] (files s) (<[dp := Regular m' []]> (<[pp := Regular m []]> (files s)))).
  { intros pp' dp' (p & d & [= <-] & [= <-] & Hp & Hd & Hne). apply Hdp0 in Hd. simplify_eq.
    split_and!; [congruence..|]. rewrite Hpv, Hdv. split; [cbn; congruence|]. by exists [], []. }
  clear Hpp Hdp Hdp0. assert (Hpp : file_path (obj_val pf) = pp) by by rewrite Hpv.
  assert (Hdp : file_path (obj_val df) = dp) by by rewrite Hdv. clear Hpv Hdv.
  wp_call as c' [-> ->]. wp_call as [ok pf1] (u3 & fs3 & v & F3 & -> & Hpf & Hvp & Hput). cbn [fst snd] in Hpf, Hput. subst pf1.
  fs_simpl. destruct ok; cbn [negb].
  2: { apply Hfail; [solve_frame|]. intros pp' dp' (_ & _ & Hat)%Hboth Hw Hp _.
       destruct (both_left _ _ _ _ _ _ _ _ Hat) as (base & Hat' & _). destruct (Hput _ _ Hat') as [Hok _]. by specialize (Hok Hw Hp). }
  wp_call as [ok df1] (u4 & fs4 & w & F4 & -> & Hdf & Hwp & Hput'). cbn [fst snd] in Hdf, Hput'. subst df1.
  fs_simpl.
  assert (Hstep : ∀ pp' dp', two_targets (files s) (Some pem) (Some der) pp' dp' → pp' = pp ∧ dp' = dp ∧
    ∃ a b, both_at v w m m' a b (files s) fs4 ∧ encoder_output (PEM_write_X509 (obj_val c)) a ∧
      (buffer_keeps (len a) → a ≠ [] → file_pending v ≠ []) ∧
      (writing_works → encoder_succeeds (i2d_X509_fp (obj_val c)) → ok = true) ∧
      (ok = true → encoder_output (i2d_X509_fp (obj_val c)) b ∧ (buffer_keeps (len b) → b ≠ [] → file_pending w ≠ []))).
  { intros pp' dp' (-> & -> & Hat)%Hboth. split; [done|]. split; [done|].
    destruct (both_left _ _ _ _ _ _ _ _ Hat) as (base & Hat' & Hback). destruct (Hput _ _ Hat') as (_ & a & Hat1 & Ha).
    destruct (Ha eq_refl). apply Hback in Hat1; [|done]. clear Hback Hat'.
    destruct (both_right _ _ _ _ _ _ _ _ Hat1) as (base' & Hat' & Hback). destruct (Hput' _ _ Hat') as (? & b & Hat2 & Hb).
    apply Hback in Hat2; [|done]. by exists a, b. }
  clear Hboth Hput Hput'. destruct ok.
  2: { apply (Hfail (Some (set_val pf v)) (Some (set_val df w))); [solve_frame|].
       intros pp' dp' (_ & _ & a & b & _ & _ & _ & Hw & _)%Hstep Hworks _ Hd. by specialize (Hw Hworks Hd). }
  apply wp_close_both; [solve_alive|]. intros u5 fs F5 Hfs. frame_merge. eexists _, fs.
  split; [solve_frame|]. split; [done|]. split; [intros _; by exists c, pem, der|].
  intros c' pp' dp' [= <-] (-> & -> & a & b & Hat & Ha & Hka & _ & Hb)%Hstep. split; [|done]. intros _.
  destruct (Hb eq_refl) as [Hb' Hkb].
  destruct (Hfs _ _ _ _ _ _ _ eq_refl eq_refl Hat) as (a' & la & b' & lb & -> & Hal & Hbl & Hrel & Hnone).
  cbn [obj_val set_val] in *. rewrite Hvp, Hwp, Hpp, Hdp.
  exists m, m', a, a', la, b, b', lb. split_and!; try done. intros Hn. destruct (Hnone Hn) as [-> ->]. done.
Qed.

Lemma resolve_lookup links fs path pp n : resolve links fs path = inl (pp, n) → fs !! pp = Some n.
Proof.
  revert path. induction links as [|links IH]; intros path; rewrite resolve_unfold;
    destruct (fs !! path) as [[]|] eqn:E; intros ?; simplify_eq; try done. by eapply IH.
Qed.

Lemma resolve_of_target links fs path pp n :
  resolve_target links fs path = inl pp → fs !! pp = Some n → resolve links fs path = inl (pp, n).
Proof.
  revert path. induction links as [|links IH]; intros path; rewrite resolve_unfold; unfold resolve_target;
    fold resolve_target; destruct (fs !! path) as [[]|] eqn:E; intros ? Hn; simplify_eq; try done. by apply IH.
Qed.

#[export] Instance spec_hybrid_x509_read_pem path :
  Spec (hybrid_x509_read_pem path) (λ _, True)
    (λ r s s', frame ∅ (owns r) s s' ∧
       (r ≠ None → is_Some path) ∧
       ∀ p pp m content, path = Some p → resolve MAXSYMLINKS (files s) p = inl (pp, Regular m content) →
         (∀ c, r = Some c → once _ (PEM_read_X509 content) (eq (Some (obj_val c)))) ∧
         (reliable_files → always _ (PEM_read_X509 content) is_Some → is_Some r)).
Proof.
  wp_start. unfold hybrid_x509_read_pem. destruct path as [path|]; [|by apply wp_ret].
  wp_call as f [F Hf]. fs_simpl. destruct f as [f|]; cycle 1.
  { apply wp_ret. split; [solve_frame|]. split; [done|]. intros p pp m content [= <-] Hp. split; [done|].
    intros Hrel _. destruct Hf as [(e & He)|(e & He)]; [congruence|]. by apply reliable_no_fault in He. }
  destruct Hf as (pp & n & Hp & Hv). wp_call as content [-> Hc]. rewrite Hv in Hc. cbn [file_path file_offset] in Hc.
  fs_simpl. wp_call as c [F1 Hr]. wp_call as ? ?. apply wp_ret. split; [solve_frame|]. split; [done|].
  intros p pp' m content' [= <-] Hp'. rewrite Hp in Hp'. injection Hp' as <- ->.
  apply resolve_lookup in Hp. rewrite (Hc _ _ Hp eq_refl) in Hr. split.
  - intros c' ->. exists (tick s0). by rewrite Hr.
  - intros _ Hal. specialize (Hal (tick s0)). rewrite Hr in Hal. destruct c; [by eexists|by destruct Hal].
Qed.

(** [c] is what is read from the certificate at the path [p], if a regular
    file is there, and reading it always gives one. *)
Definition certificate_read (fs : gmap string node) (p : string) (c : X509) : Prop :=
  ∀ pp m content, resolve MAXSYMLINKS fs p = inl (pp, Regular m content) →
    once _ (PEM_read_X509 content) (eq (Some c)).
Definition certificate_readable (fs : gmap string node) (p : string) : Prop :=
  ∃ pp m content, resolve MAXSYMLINKS fs p = inl (pp, Regular m content) ∧
    always _ (PEM_read_X509 content) is_Some.

Lemma read_pem_result fs p (r : option (obj X509)) :
  (∀ p' pp m content, Some p = Some p' → resolve MAXSYMLINKS fs p' = inl (pp, Regular m content) →
     (∀ c, r = Some c → once _ (PEM_read_X509 content) (eq (Some (obj_val c)))) ∧
     (reliable_files → always _ (PEM_read_X509 content) is_Some → is_Some r)) →
  (∀ c, r = Some c → certificate_read fs p (obj_val c)) ∧
  (reliable_files → certificate_readable fs p → is_Some r).
Proof.
  intros H'. split.
  - intros c Hc pp m content Hp. by eapply H'.
  - intros Hr (pp & m & content & Hp & Hal). by eapply H'.
Qed.
(** What is written in PEM is read as the same certificate. *)
Definition pem_restores (c : X509) : Prop :=
  ∀ content, encoder_output (PEM_write_X509 c) content → always _ (PEM_read_X509 content) (eq (Some c)).

(** ** Properties *)

(** C37. A certificate written to two different files is read back from the PEM
    file as it was, whenever both calls to the encoders succeed, links are
    followed and files work: the DER file written next to it, even through a
    link, does not disturb it. *)
Theorem certificate_files_round_trip (c : obj X509) pem der pp dp s :
  alive (Some c) s → two_targets (files s) (Some pem) (Some der) pp dp → reliable_files →
  pem_restores (obj_val c) →
  wp (ok ← hybrid_x509_write_files (Some c) (Some pem) (Some der);
      r ← hybrid_x509_read_pem (Some pem);
      mret (ok, r)) (λ '(ok, r) s', live s' = live s ⊎ owns r ∧
    (ok = true → ∃ c', r = Some c' ∧ obj_val c' = obj_val c) ∧
    (encoder_succeeds (PEM_write_X509 (obj_val c)) → encoder_succeeds (i2d_X509_fp (obj_val c)) → ok = true)) s.
Proof.
  intros Hc Ht Hrel Hpem. pose proof (frame_refl s).
  wp_call as ok (s1 & fs & F & -> & _ & Hw). fs_simpl. destruct (Hw c pp dp eq_refl Ht) as [Hok Hall].
  wp_call as r (F1 & _ & Hr). fs_simpl. apply wp_ret.
  split; [apply frame_live in F1; cbn [live with_files]; ms_lia|].
  split; [|intros; apply Hall; [by apply reliable_writing|done..]]. intros Ho. destruct (Hok Ho) as (m & m' & a & a' & la & b & b' & lb & -> & Ha & _ & Hal & _ & Hab & _).
  destruct (Hab Hrel) as [-> _]. rewrite app_nil_r in Hal. subst a'. destruct Ht as (? & ? & [= <-] & [= <-] & Hpp & Hdp & Hne).
  assert (Hres : resolve MAXSYMLINKS (<[dp := Regular m' b']> (<[pp := Regular m a]> (files s))) pem =
    inl (pp, Regular m a)).
  { apply resolve_of_target; [|by rewrite lookup_insert_ne, lookup_insert_eq].
    apply resolve_target_insert; [|apply resolve_target_insert; [by eapply resolve_target_regular|done]].
    intros n. rewrite lookup_insert_ne by done. by eapply resolve_target_regular. }
  destruct (Hr _ _ _ _ eq_refl Hres) as [Hread His]. specialize (Hpem a Ha).
  destruct His as [c' ->]; [done| |].
  { intros t. by destruct (Hpem t). }
  exists c'. split; [done|]. destruct (Hread c' eq_refl) as [t Ht]. specialize (Hpem t). congruence.
Qed.
(** C38. The outcome of closing the files is not looked at: when they can be
    opened and what overflows the buffers can be written, but not what the
    buffers still hold at the end, success is reported for any certificate,
    and each file holds only the encoding up to that point, so that its end is
    missing whenever the buffer kept some of it back. *)
Theorem write_files_failure_unreported (c : obj X509) pem der pp dp s :
  alive (Some c) s → two_targets (files s) (Some pem) (Some der) pp dp →
  writing_works → nothing_flushed →
  encoder_succeeds (PEM_write_X509 (obj_val c)) → encoder_succeeds (i2d_X509_fp (obj_val c)) →
  wp (hybrid_x509_write_files (Some c) (Some pem) (Some der)) (λ r s', r = true ∧ live s' = live s ∧
    ∃ m m' a a' la b b' lb, files s' = <[dp := Regular m' b']> (<[pp := Regular m a']> (files s)) ∧
      encoder_output (PEM_write_X509 (obj_val c)) a ∧ encoder_output (i2d_X509_fp (obj_val c)) b ∧
      a = a' ++ la ∧ b = b' ++ lb ∧
      (buffer_keeps (len a) → a ≠ [] → la ≠ []) ∧ (buffer_keeps (len b) → b ≠ [] → lb ≠ [])) s.
Proof.
  intros Hc Ht Hw Hn Ha Hb. eapply wp_spec; [apply _|done|]. intros r s' (s1 & fs & F & -> & _ & Hr).
  destruct (Hr c pp dp eq_refl Ht) as [Hok Hall]. specialize (Hall Hw Ha Hb). subst r.
  split; [done|]. split; [pose proof (frame_live _ _ _ _ F); cbn [live with_files]; ms_lia|].
  destruct (Hok eq_refl) as (m & m' & a & a' & la & b & b' & lb & -> & ? & ? & ? & ? & _ & Hnone).
  destruct (Hnone Hn). by exists m, m', a, a', la, b, b', lb.
Qed.
End specs.

(** ** Concrete instances *)

Section example.
#[local] Existing Instances env_libc env_openssl env_openssl_sizes env_issuer env_issuer_sizes env_builder
  env_builder_contracts.

Definition env_certificate : obj X509 := Obj 1%positive (env_decoded (lit "root") []).

(** The PEM file is reached through a link. *)
Definition env_linked : state :=
  with_files {["root.pem"%string := Symlink "store.pem"]} (env_state [1]%positive).
Definition env_write_and_read `{Posix} : M (bool * option (obj X509)) :=
  ok ← hybrid_x509_write_files (Some env_certificate) (Some "root.pem"%string) (Some "root.der"%string);
  r ← hybrid_x509_read_pem (Some "root.pem"%string);
  mret (ok, r).

Lemma certificate_files_round_trip_witness :
  two_targets (files env_linked) (Some "root.pem"%string) (Some "root.der"%string) "store.pem" "root.der" ∧
  wp (@env_write_and_read env_posix) (λ '(ok, r) s', live s' = live env_linked ⊎ owns r ∧
    (ok = true → ∃ c', r = Some c' ∧ obj_val c' = obj_val env_certificate) ∧
    (encoder_succeeds (PEM_write_X509 (obj_val env_certificate)) →
     encoder_succeeds (i2d_X509_fp (obj_val env_certificate)) → ok = true)) env_linked.
Proof.
  assert (Ht : two_targets (files env_linked) (Some "root.pem"%string) (Some "root.der"%string) "store.pem" "root.der")
    by (by exists "root.pem"%string, "root.der"%string).
  split; [done|]. apply (@certificate_files_round_trip env_openssl env_issuer env_builder env_posix env_certificate
    "root.pem" "root.der" "store.pem" "root.der" env_linked); [|done|apply env_reliable_files|].
  - apply (env_alive env_certificate [1]%positive). left.
  - intros content [t [_ <-]] t'. done.
Defined.

(** A device that takes whole blocks until the files are closed, and nothing
    then. *)
Definition env_full : Posix := {|
  umask := 0x12;
  BUFSIZ := 4096;
  sys_fault name _ _ := if String.eqb name "fflush" then 28 else 0;
  io_count name n _ := if String.eqb name "fwrite" then 4096 * (n / 4096) else 0
|}.

(** A certificate of 5000 bytes. *)
Definition env_large : obj X509 := Obj 1%positive (env_decoded (zeros 5000) []).

Definition content_lengths (fs : gmap string node) : list (string * Z) :=
  map (λ '(p, n), (p, match n with Regular _ c => len c | _ => -1 end)) (map_to_list fs).

Lemma write_files_failure_unreported_witness :
  let run := @hybrid_x509_write_files _ _ _ env_full (Some env_large) (Some "root.pem"%string) (Some "root.der"%string) in
  let s := env_state [1]%positive in
  fmap (M := option) (λ '(r, s'), (r, content_lengths (files s'))) (run s) =
    Some (true, [("root.der", 4096); ("root.pem", 4096)])%string ∧
  @buffer_keeps env_full 5003 ∧ @buffer_keeps env_full 5000 ∧
  wp run (λ r s', r = true ∧ live s' = live s ∧
    ∃ m m' a a' la b b' lb,
      files s' = <["root.der"%string := Regular m' b']> (<["root.pem"%string := Regular m a']> (files s)) ∧
      encoder_output (PEM_write_X509 (obj_val env_large)) a ∧ encoder_output (i2d_X509_fp (obj_val env_large)) b ∧
      a = a' ++ la ∧ b = b' ++ lb ∧
      (@buffer_keeps env_full (len a) → a ≠ [] → la ≠ []) ∧ (@buffer_keeps env_full (len b) → b ≠ [] → lb ≠ [])) s.
Proof.
  intros run s. split; [by vm_compute|]. split; [by split|]. split; [by split|].
  apply (@write_files_failure_unreported env_openssl env_issuer env_builder env_full env_large
    "root.pem" "root.der" "root.pem" "root.der" s).
  - apply (env_alive env_large [1]%positive). left.
  - by exists "root.pem"%string, "root.der"%string.
  - by split.
  - by split.
  - by intros t.
  - by intros t.
Defined.
End example.
