(* ===== verification/Chain.v ===== *)
(** * hybrid_chain.h, hybrid_chain.c

    Verification of a two-level chain: a self-signed composite root, a server
    certificate and an SM2 encryption certificate issued by it, and the
    report of every check. *)

From S2P Require Import Prelude Machine External Dilithium Sm2 CompositeKey CompositeSig X509 Environment.

(** [obj_mac.h], [x509v3.h] *)
Definition NID_server_auth : Z := 129.
Definition GEN_DNS : Z := 2.

Record HYBRID_CERT_VERIFY_RESULT := CertResult {
  issuer_subject_link_valid : bool;
  validity_valid : bool;
  issuer_ca_constraints_valid : bool;
  subject_constraints_valid : bool;
  eku_valid : bool;
  san_valid : bool;
  key_identifiers_valid : bool;
  pqc_extension_present : bool;
  composite_oids_valid : bool;
  subject_public_key_composite : bool;
  subject_public_key_sm2 : bool;
  composite_public_key_valid : bool;
  signature_format_valid : bool;
  cert_dilithium_valid : bool;
  cert_sm2_valid : bool;
  cert_composite_valid : bool;
  certificate_valid : bool
}.

Record HYBRID_CHAIN_VERIFY_RESULT := ChainResult {
  trust_anchor_configured : bool;
  chain_root : HYBRID_CERT_VERIFY_RESULT;
  chain_server : HYBRID_CERT_VERIFY_RESULT;
  chain_valid : bool
}.

(** [{0}] *)
Definition zero_result : HYBRID_CERT_VERIFY_RESULT :=
  CertResult false false false false false false false false false
             false false false false false false false false.

(** The four assignments from a composite verification. *)
Definition set_signature_result (r : HYBRID_CERT_VERIFY_RESULT) (c : COMPOSITE_VERIFY_RESULT)
    : HYBRID_CERT_VERIFY_RESULT :=
  CertResult (issuer_subject_link_valid r) (validity_valid r) (issuer_ca_constraints_valid r)
    (subject_constraints_valid r) (eku_valid r) (san_valid r) (key_identifiers_valid r)
    (pqc_extension_present r) (composite_oids_valid r) (subject_public_key_composite r)
    (subject_public_key_sm2 r) (composite_public_key_valid r)
    (format_valid c) (dilithium_valid c) (sm2_valid c) (composite_valid c) (certificate_valid r).

Definition set_certificate_valid (r : HYBRID_CERT_VERIFY_RESULT) (v : bool)
    : HYBRID_CERT_VERIFY_RESULT :=
  CertResult (issuer_subject_link_valid r) (validity_valid r) (issuer_ca_constraints_valid r)
    (subject_constraints_valid r) (eku_valid r) (san_valid r) (key_identifiers_valid r)
    (pqc_extension_present r) (composite_oids_valid r) (subject_public_key_composite r)
    (subject_public_key_sm2 r) (composite_public_key_valid r) (signature_format_valid r)
    (cert_dilithium_valid r) (cert_sm2_valid r) (cert_composite_valid r) v.

Section chain.
Context `{Libc, OpenSSL, Dilithium2, !X509Library}.

Definition certificate_time_valid (certificate : option (obj X509)) : M bool :=
  match certificate with
  | None => mret false
  | Some cert =>
      c ← deref cert;
      before ← call (X509_cmp_current_time (X509_get0_notBefore c));
      after ← call (X509_cmp_current_time (X509_get0_notAfter c));
      mret ((before <? 0) && (after >? 0))
  end.

Definition usage_bit (usage : ASN1_BIT_STRING) (n : Z) : bool :=
  negb (ASN1_BIT_STRING_get_bit usage n =? 0).

Definition certificate_constraints_valid (certificate : obj X509) (is_ca : bool) : M bool :=
  c ← deref certificate;
  '(ext, critical) ← call (X509_get_ext_basic_constraints c);
  constraints ← new_object (λ _, ext);
  basic_valid ← match constraints with
                | None => mret false
                | Some o => b ← deref o;
                    mret ((critical =? 1) && Bool.eqb (negb (bc_ca b =? 0)) is_ca)
                end;
  free_object constraints;;
  '(ext, critical) ← call (X509_get_ext_key_usage c);
  usage ← new_object (λ _, ext);
  usage_valid ← match usage with
                | None => mret false
                | Some o =>
                    u ← deref o;
                    mret ((critical =? 1) &&
                      if is_ca then
                        usage_bit u 5 && usage_bit u 6 && negb (usage_bit u 0) &&
                        negb (usage_bit u 2) && negb (usage_bit u 3) && negb (usage_bit u 4)
                      else
                        usage_bit u 0 && negb (usage_bit u 2) && negb (usage_bit u 3) &&
                        negb (usage_bit u 4) && negb (usage_bit u 5) && negb (usage_bit u 6))
                end;
  free_object usage;;
  mret (basic_valid && usage_valid).

Definition encryption_certificate_constraints_valid (certificate : obj X509) : M bool :=
  c ← deref certificate;
  '(ext, critical) ← call (X509_get_ext_basic_constraints c);
  constraints ← new_object (λ _, ext);
  basic_valid ← match constraints with
                | None => mret false
                | Some o => b ← deref o; mret ((critical =? 1) && (bc_ca b =? 0))
                end;
  free_object constraints;;
  '(ext, critical) ← call (X509_get_ext_key_usage c);
  usage ← new_object (λ _, ext);
  usage_valid ← match usage with
                | None => mret false
                | Some o =>
                    u ← deref o;
                    mret ((critical =? 1) &&
                      (negb (usage_bit u 0) && usage_bit u 2 && usage_bit u 4 &&
                       negb (usage_bit u 5) && negb (usage_bit u 6)))
                end;
  free_object usage;;
  mret (basic_valid && usage_valid).

(** The loop over the purposes, left at the first server purpose. *)
Fixpoint find_server_auth (usage : list ASN1_OBJECT) : bool :=
  match usage with
  | [] => false
  | o :: rest => if OBJ_obj2nid o =? NID_server_auth then true else find_server_auth rest
  end.

Definition server_eku_valid (certificate : obj X509) : M bool :=
  c ← deref certificate;
  usage ← new_object (X509_get_ext_ext_key_usage c);
  match usage with
  | None => mret false
  | Some o => u ← deref o; free_object usage;; mret (find_server_auth u)
  end.

(** The loop over the names, left at the first DNS name that is not empty. *)
Fixpoint find_dns_name (names : list GENERAL_NAME) : bool :=
  match names with
  | [] => false
  | name :: rest =>
      if (gn_type name =? GEN_DNS) &&
         match gn_dNSName name with Some d => len d >? 0 | None => false end
      then true else find_dns_name rest
  end.

Definition server_san_valid (certificate : obj X509) : M bool :=
  c ← deref certificate;
  names ← new_object (X509_get_ext_subject_alt_name c);
  match names with
  | None => mret false
  | Some o => n ← deref o; free_object names;; mret (find_dns_name n)
  end.

Definition subject_key_identifier_present (certificate : obj X509) : M bool :=
  c ← deref certificate;
  identifier ← new_object (X509_get_ext_subject_key_identifier c);
  id ← borrow identifier;
  free_object identifier;;
  mret (match id with Some i => len i >? 0 | None => false end).

Definition server_key_identifiers_valid (certificate issuer : obj X509) : M bool :=
  c ← deref certificate;
  i ← deref issuer;
  subject_identifier ← new_object (X509_get_ext_subject_key_identifier c);
  issuer_identifier ← new_object (X509_get_ext_subject_key_identifier i);
  authority ← new_object (X509_get_ext_authority_key_identifier c);
  sid ← borrow subject_identifier;
  iid ← borrow issuer_identifier;
  valid ← match authority with
          | None => mret false
          | Some a =>
              auth ← deref a;
              mret (match sid, iid, akid_keyid auth with
                    | Some s, Some n, Some k =>
                        (len s >? 0) && (len n >? 0) && (len n =? len k) && bool_decide (n = k)
                    | _, _, _ => false
                    end)
          end;
  free_object authority;;
  free_object issuer_identifier;;
  free_object subject_identifier;;
  mret valid.

Definition verify_certificate_signature (certificate : option (obj X509))
    (issuer_key : option HYBRID_PUBLIC_KEY) (result : HYBRID_CERT_VERIFY_RESULT)
    : M (bool * HYBRID_CERT_VERIFY_RESULT) :=
  let done (tbs_der : outbuf) (result : HYBRID_CERT_VERIFY_RESULT) :=
    free_object (out_block tbs_der);;
    mret (cert_composite_valid result, result) in
  '(ok, tbs_der) ← hybrid_x509_get_tbs_der certificate fresh_out;
  if negb ok then done tbs_der result
  else
    '(ok, signature) ← hybrid_x509_get_signature certificate fresh_view;
    if negb ok then done tbs_der result
    else
      tbs ← borrow (out_block tbs_der);
      '(_, composite_result) ←
        composite_verify_detailed issuer_key tbs (out_len tbs_der) None 0
          (view_ptr signature) (view_len signature)
          (Some (VerifyResult false false false false));
      match composite_result with
      | Some cr => done tbs_der (set_signature_result result cr)
      | None => undefined
      end.

(** The last steps of each verification: the local key is released, the
    report copied out and its verdict returned. *)
Definition finish_certificate (key : option HYBRID_PUBLIC_KEY)
    (result : option HYBRID_CERT_VERIFY_RESULT) (local : HYBRID_CERT_VERIFY_RESULT)
    : M (bool * option HYBRID_CERT_VERIFY_RESULT) :=
  hybrid_public_key_cleanup key;;
  mret (certificate_valid local, match result with None => None | Some _ => Some local end).

Definition names_link (subject issuer : X509) : bool :=
  X509_NAME_cmp (X509_get_issuer_name subject) (X509_get_subject_name issuer) =? 0.

Definition hybrid_verify_root_self_signature (root : option (obj X509))
    (result : option HYBRID_CERT_VERIFY_RESULT) : M (bool * option HYBRID_CERT_VERIFY_RESULT) :=
  let root_key := Some zero_public_key in
  match root with
  | None => finish_certificate root_key result zero_result
  | Some cert =>
      c ← deref cert;
      let link := names_link c c in
      time ← certificate_time_valid root;
      issuer_ca ← certificate_constraints_valid cert true;
      ids ← subject_key_identifier_present cert;
      marker ← hybrid_x509_has_pqc_extension root;
      oids ← hybrid_x509_composite_signature_algorithms_valid root;
      spki ← hybrid_x509_subject_public_key_is_composite root;
      '(key_ok, root_key) ← hybrid_x509_get_composite_public_key root root_key;
      let local := CertResult link time issuer_ca issuer_ca true true ids marker oids spki
                     false key_ok false false false false false in
      '(_, local) ← (if negb key_ok then mret (false, local)
                     else verify_certificate_signature root root_key local);
      finish_certificate root_key result (set_certificate_valid local
        (issuer_subject_link_valid local && validity_valid local &&
         issuer_ca_constraints_valid local && pqc_extension_present local &&
         key_identifiers_valid local && composite_oids_valid local &&
         subject_public_key_composite local &&
         composite_public_key_valid local && cert_composite_valid local))
  end.

Definition hybrid_verify_certificate (certificate issuer_certificate : option (obj X509))
    (result : option HYBRID_CERT_VERIFY_RESULT) : M (bool * option HYBRID_CERT_VERIFY_RESULT) :=
  let issuer_key := Some zero_public_key in
  match certificate, issuer_certificate with
  | Some cert, Some issuer =>
      c ← deref cert;
      i ← deref issuer;
      let link := names_link c i in
      time ← certificate_time_valid certificate;
      issuer_ca ← certificate_constraints_valid issuer true;
      subject ← certificate_constraints_valid cert false;
      eku ← server_eku_valid cert;
      san ← server_san_valid cert;
      ids ← server_key_identifiers_valid cert issuer;
      marker ← hybrid_x509_has_pqc_extension certificate;
      oids ← hybrid_x509_composite_signature_algorithms_valid certificate;
      spki ← hybrid_x509_subject_public_key_is_composite certificate;
      '(key_ok, issuer_key) ← hybrid_x509_get_composite_public_key issuer_certificate issuer_key;
      let local := CertResult link time issuer_ca subject eku san ids marker oids spki
                     false key_ok false false false false false in
      '(_, local) ← (if negb key_ok then mret (false, local)
                     else verify_certificate_signature certificate issuer_key local);
      finish_certificate issuer_key result (set_certificate_valid local
        (issuer_subject_link_valid local && validity_valid local &&
         issuer_ca_constraints_valid local &&
         subject_constraints_valid local && eku_valid local && san_valid local &&
         key_identifiers_valid local && pqc_extension_present local &&
         composite_oids_valid local &&
         subject_public_key_composite local &&
         composite_public_key_valid local && cert_composite_valid local))
  | _, _ => finish_certificate issuer_key result zero_result
  end.

Definition hybrid_verify_encryption_certificate (certificate issuer_certificate : option (obj X509))
    (result : option HYBRID_CERT_VERIFY_RESULT) : M (bool * option HYBRID_CERT_VERIFY_RESULT) :=
  let issuer_key := Some zero_public_key in
  match certificate, issuer_certificate with
  | Some cert, Some issuer =>
      c ← deref cert;
      i ← deref issuer;
      let link := names_link c i in
      time ← certificate_time_valid certificate;
      issuer_ca ← certificate_constraints_valid issuer true;
      subject ← encryption_certificate_constraints_valid cert;
      ids ← server_key_identifiers_valid cert issuer;
      marker ← hybrid_x509_has_pqc_extension certificate;
      oids ← hybrid_x509_composite_signature_algorithms_valid certificate;
      spki ← hybrid_x509_subject_public_key_is_sm2 certificate;
      '(key_ok, issuer_key) ← hybrid_x509_get_composite_public_key issuer_certificate issuer_key;
      let local := CertResult link time issuer_ca subject true true ids marker oids
                     false spki key_ok false false false false false in
      '(_, local) ← (if negb key_ok then mret (false, local)
                     else verify_certificate_signature certificate issuer_key local);
      finish_certificate issuer_key result (set_certificate_valid local
        (issuer_subject_link_valid local && validity_valid local &&
         issuer_ca_constraints_valid local &&
         subject_constraints_valid local && key_identifiers_valid local &&
         pqc_extension_present local && composite_oids_valid local &&
         subject_public_key_sm2 local &&
         composite_public_key_valid local && cert_composite_valid local))
  | _, _ => finish_certificate issuer_key result zero_result
  end.

Definition hybrid_verify_chain (root server : option (obj X509))
    (result : option HYBRID_CHAIN_VERIFY_RESULT) : M (bool * option HYBRID_CHAIN_VERIFY_RESULT) :=
  let anchor := negb (is_null root) in
  '(_, r) ← hybrid_verify_root_self_signature root (Some zero_result);
  '(_, s) ← hybrid_verify_certificate server root (Some zero_result);
  let r := default zero_result r in
  let s := default zero_result s in
  let local := ChainResult anchor r s (anchor && certificate_valid r && certificate_valid s) in
  mret (chain_valid local, match result with None => None | Some _ => Some local end).
End chain.
#[global] Arguments certificate_time_valid : simpl never.
#[global] Arguments certificate_constraints_valid : simpl never.
#[global] Arguments encryption_certificate_constraints_valid : simpl never.
#[global] Arguments server_eku_valid : simpl never.
#[global] Arguments server_san_valid : simpl never.
#[global] Arguments subject_key_identifier_present : simpl never.
#[global] Arguments server_key_identifiers_valid : simpl never.
#[global] Arguments verify_certificate_signature : simpl never.
#[global] Arguments finish_certificate : simpl never.
#[global] Arguments hybrid_verify_root_self_signature : simpl never.
#[global] Arguments hybrid_verify_certificate : simpl never.
#[global] Arguments hybrid_verify_encryption_certificate : simpl never.
#[global] Arguments hybrid_verify_chain : simpl never.

(** ** Specifications *)

(** The key usages of RFC 5280, by bit. *)
Definition digitalSignature : Z := 0.
Definition keyEncipherment : Z := 2.
Definition dataEncipherment : Z := 3.
Definition keyAgreement : Z := 4.
Definition keyCertSign : Z := 5.
Definition cRLSign : Z := 6.

Section specs.
Context `{Libc, OpenSSL, !OpenSSLSizes, Dilithium2, !Dilithium2Sizes, !X509Library, !X509Sizes}.

(** The current time is within the validity of [c]. *)
Definition time_valid (Q : modality) (c : X509) : Prop :=
  Q _ (X509_cmp_current_time (X509_get0_notBefore c)) (λ v, v < 0) ∧
  Q _ (X509_cmp_current_time (X509_get0_notAfter c)) (λ v, 0 < v).

(** Among [tracked], the usages in [u] are those of [allowed]. *)
Definition usage_is (u : ASN1_BIT_STRING) (tracked allowed : list Z) : Prop :=
  Forall (λ n, ASN1_BIT_STRING_get_bit u n ≠ 0 ↔ n ∈ allowed) tracked.

(** The basic constraints of [c] are critical and say [ca]; its key usage is
    critical and, among [tracked], is [allowed]. *)
Definition constraints (Q : modality) (c : X509) (ca : bool) (tracked allowed : list Z) : Prop :=
  Q _ (X509_get_ext_basic_constraints c) (λ r, snd r = 1 ∧
    on_some (λ b, bc_ca b ≠ 0 ↔ ca = true) (fst r)) ∧
  Q _ (X509_get_ext_key_usage c) (λ r, snd r = 1 ∧
    on_some (λ u, usage_is u tracked allowed) (fst r)).

Definition all_usages : list Z :=
  [digitalSignature; keyEncipherment; dataEncipherment; keyAgreement; keyCertSign; cRLSign].
Definition ca_constraints (Q : modality) (c : X509) : Prop :=
  constraints Q c true all_usages [keyCertSign; cRLSign].
Definition server_constraints (Q : modality) (c : X509) : Prop :=
  constraints Q c false all_usages [digitalSignature].
(** Data encipherment may be set or not. *)
Definition encryption_constraints (Q : modality) (c : X509) : Prop :=
  constraints Q c false [digitalSignature; keyEncipherment; keyAgreement; keyCertSign; cRLSign]
    [keyEncipherment; keyAgreement].

Definition server_purpose (Q : modality) (c : X509) : Prop :=
  Q _ (X509_get_ext_ext_key_usage c) (on_some (λ l,
    ∃ o, o ∈ l ∧ OBJ_obj2nid o = NID_server_auth)).

Definition dns_named (Q : modality) (c : X509) : Prop :=
  Q _ (X509_get_ext_subject_alt_name c) (on_some (λ l,
    ∃ n d, n ∈ l ∧ gn_type n = GEN_DNS ∧ gn_dNSName n = Some d ∧ 0 < len d)).

Definition key_identified (Q : modality) (c : X509) : Prop :=
  Q _ (X509_get_ext_subject_key_identifier c) (on_some (λ s, 0 < len s)).

(** The authority key identifier of [c] is the subject key identifier of [i]. *)
Definition key_identifiers_link (Q : modality) (c i : X509) : Prop :=
  key_identified Q c ∧
  Q _ (X509_get_ext_subject_key_identifier i) (on_some (λ n, 0 < len n ∧
    Q _ (X509_get_ext_authority_key_identifier c) (on_some (λ a, akid_keyid a = Some n)))).

Lemma find_server_auth_spec l :
  find_server_auth l = true ↔ ∃ o, o ∈ l ∧ OBJ_obj2nid o = NID_server_auth.
Proof.
  induction l as [|o l IH]; cbn [find_server_auth].
  - split; [done|]. intros (o & Ho & _). by apply elem_of_nil in Ho.
  - setoid_rewrite elem_of_cons. destruct (Z.eqb_spec (OBJ_obj2nid o) NID_server_auth).
    + naive_solver.
    + rewrite IH. naive_solver.
Qed.

Lemma find_dns_name_spec l :
  find_dns_name l = true ↔
  ∃ n d, n ∈ l ∧ gn_type n = GEN_DNS ∧ gn_dNSName n = Some d ∧ 0 < len d.
Proof.
  induction l as [|n l IH]; cbn [find_dns_name].
  - split; [done|]. intros (n & d & Hn & _). by apply elem_of_nil in Hn.
  - setoid_rewrite elem_of_cons. destruct (Z.eqb_spec (gn_type n) GEN_DNS), (gn_dNSName n) as [d|] eqn:Hd;
      cbn [andb]; try destruct (Z.gtb_spec (len d) 0); rewrite ?IH; split; intros; naive_solver lia.
Qed.

#[export] Instance spec_certificate_time_valid cert :
  Spec (certificate_time_valid (Some cert)) (alive (Some cert))
    (λ r s s', frame ∅ ∅ s s' ∧
       decides r (time_valid once (obj_val cert)) (time_valid always (obj_val cert))).
Proof.
  wp_start. unfold certificate_time_valid, time_valid. wp_call as r [-> ->].
  wp_call as b [F1 Hb]. wp_call as a [F2 Ha]. apply wp_ret. split; [solve_frame|]. split.
  - intros ?. simpl_bool. simpl_bool. once_auto.
  - intros [Hal1 Hal2]. always_auto.
Qed.

Ltac usage_auto :=
  unfold usage_is, all_usages, usage_bit, digitalSignature, keyEncipherment, dataEncipherment,
    keyAgreement, keyCertSign, cRLSign;
  rewrite ?List.Forall_cons_iff, Forall_nil_iff, ?elem_of_cons, ?elem_of_nil; lia.

Lemma ca_usage_spec u :
  usage_bit u 5 && usage_bit u 6 && negb (usage_bit u 0) && negb (usage_bit u 2) &&
  negb (usage_bit u 3) && negb (usage_bit u 4) = true ↔
  usage_is u all_usages [keyCertSign; cRLSign].
Proof. usage_auto. Qed.

Lemma server_usage_spec u :
  usage_bit u 0 && negb (usage_bit u 2) && negb (usage_bit u 3) &&
  negb (usage_bit u 4) && negb (usage_bit u 5) && negb (usage_bit u 6) = true ↔
  usage_is u all_usages [digitalSignature].
Proof. usage_auto. Qed.

Lemma encryption_usage_spec u :
  negb (usage_bit u 0) && usage_bit u 2 && usage_bit u 4 && negb (usage_bit u 5) && negb (usage_bit u 6) = true ↔
  usage_is u [digitalSignature; keyEncipherment; keyAgreement; keyCertSign; cRLSign]
    [keyEncipherment; keyAgreement].
Proof. usage_auto. Qed.

(** One extension read: the object is released whatever it says. *)
Definition extension_says {A} (Q : modality) (ext : N → option A * Z) (P : A → Prop) : Prop :=
  Q _ ext (λ r, snd r = 1 ∧ on_some P (fst r)).

Lemma wp_extension {A B} (ext : N → option A * Z) (test : A → bool) (P : A → Prop)
    (k : bool → M B) Φ s :
  (∀ a, test a = true ↔ P a) →
  (∀ b s', frame ∅ ∅ s s' →
     decides b (extension_says once ext P) (extension_says always ext P) → wp (k b) Φ s') →
  wp ('(e, critical) ← call ext;
      o ← new_object (λ _, e);
      v ← match o with
          | None => mret false
          | Some p => a ← deref p; mret ((critical =? 1) && test a)
          end;
      free_object o;; k v) Φ s.
Proof.
  intros Htest HΦ. pose proof (frame_refl s). unfold extension_says in *.
  wp_call as [e critical] [F1 He]. wp_call as [o|] [F2 Ho]; cbn in Ho; subst e.
  - wp_call as r [-> ->]. wp_call as ? ?. apply HΦ; [solve_frame|]. split.
    + intros ?. simpl_bool. once_auto. by apply Htest.
    + intros Hal. always_auto. apply andb_true_iff. split; [lia|]. by apply Htest.
  - wp_call as ? ?. apply HΦ; [solve_frame|]. split; [done|].
    intros Hal. always_auto.
Qed.

Lemma eqb_negb_spec z ca : Bool.eqb (negb (z =? 0)) ca = true ↔ (z ≠ 0 ↔ ca = true).
Proof. destruct (Z.eqb_spec z 0), ca; cbn; naive_solver. Qed.

#[export] Instance spec_certificate_constraints_valid cert ca :
  Spec (certificate_constraints_valid cert ca) (alive (Some cert))
    (λ r s s', frame ∅ ∅ s s' ∧
       decides r ((if ca then ca_constraints else server_constraints) once (obj_val cert))
                 ((if ca then ca_constraints else server_constraints) always (obj_val cert))).
Proof.
  wp_start. unfold certificate_constraints_valid. wp_call as r [-> ->].
  apply (wp_extension _ _ (λ b, bc_ca b ≠ 0 ↔ ca = true)); [intros; apply eqb_negb_spec|].
  intros b1 s1 F1 Hb1.
  eapply (wp_extension _ (λ u, if ca then _ else _)
    (λ u, usage_is u all_usages (if ca then [keyCertSign; cRLSign] else [digitalSignature])));
    [intros u; destruct ca; [apply ca_usage_spec|apply server_usage_spec]|].
  intros b2 s2 F2 Hb2. apply wp_ret. frame_merge. split; [solve_frame|].
  destruct ca; exact (decides_and _ _ _ _ _ _ Hb1 Hb2).
Qed.

#[export] Instance spec_encryption_certificate_constraints_valid cert :
  Spec (encryption_certificate_constraints_valid cert) (alive (Some cert))
    (λ r s s', frame ∅ ∅ s s' ∧
       decides r (encryption_constraints once (obj_val cert))
                 (encryption_constraints always (obj_val cert))).
Proof.
  wp_start. unfold encryption_certificate_constraints_valid. wp_call as r [-> ->].
  apply (wp_extension _ _ (λ b, bc_ca b ≠ 0 ↔ false = true)); [intros; lia|].
  intros b1 s1 F1 Hb1.
  eapply wp_extension; [intros u; apply encryption_usage_spec|].
  intros b2 s2 F2 Hb2. apply wp_ret. frame_merge. split; [solve_frame|].
  exact (decides_and _ _ _ _ _ _ Hb1 Hb2).
Qed.

#[export] Instance spec_server_eku_valid cert :
  Spec (server_eku_valid cert) (alive (Some cert))
    (λ r s s', frame ∅ ∅ s s' ∧
       decides r (server_purpose once (obj_val cert)) (server_purpose always (obj_val cert))).
Proof.
  wp_start. unfold server_eku_valid, server_purpose. wp_call as r [-> ->].
  wp_call as [u|] [F Hu]; cbn in Hu.
  - wp_call as r [-> ->]. wp_call as ? ?. apply wp_ret. split; [solve_frame|].
    split; rewrite find_server_auth_spec; intros; [once_auto|always_auto].
  - apply wp_ret. split; [done|]. split; [done|]. intros Hal. always_auto.
Qed.

#[export] Instance spec_server_san_valid cert :
  Spec (server_san_valid cert) (alive (Some cert))
    (λ r s s', frame ∅ ∅ s s' ∧
       decides r (dns_named once (obj_val cert)) (dns_named always (obj_val cert))).
Proof.
  wp_start. unfold server_san_valid, dns_named. wp_call as r [-> ->].
  wp_call as [u|] [F Hu]; cbn in Hu.
  - wp_call as r [-> ->]. wp_call as ? ?. apply wp_ret. split; [solve_frame|].
    split; rewrite find_dns_name_spec; intros; [once_auto|always_auto].
  - apply wp_ret. split; [done|]. split; [done|]. intros Hal. always_auto.
Qed.

#[export] Instance spec_subject_key_identifier_present cert :
  Spec (subject_key_identifier_present cert) (alive (Some cert))
    (λ r s s', frame ∅ ∅ s s' ∧
       decides r (key_identified once (obj_val cert)) (key_identified always (obj_val cert))).
Proof.
  wp_start. unfold subject_key_identifier_present, key_identified. wp_call as r [-> ->].
  wp_call as [u|] [F Hu]; cbn in Hu; wp_call as r [-> ->]; wp_call as ? ?; apply wp_ret;
    (split; [solve_frame|]); cbn; (split; [intros ?; simpl_bool; simpl_bool; try done; once_auto|
                                           intros Hal; always_auto]).
Qed.

#[export] Instance spec_server_key_identifiers_valid cert issuer :
  Spec (server_key_identifiers_valid cert issuer) (λ s, alive (Some cert) s ∧ alive (Some issuer) s)
    (λ r s s', frame ∅ ∅ s s' ∧
       decides r (key_identifiers_link once (obj_val cert) (obj_val issuer))
                 (key_identifiers_link always (obj_val cert) (obj_val issuer))).
Proof.
  wp_start. destruct P as [Hc Hi]. unfold server_key_identifiers_valid, key_identifiers_link, key_identified.
  wp_call as r [-> ->]. wp_call as r [-> ->].
  wp_call as sid [F1 Hs]. wp_call as iid [F2 Hn]. wp_call as auth [F3 Ha].
  wp_call as r [-> ->]. wp_call as r [-> ->].
  destruct auth as [a|]; cbn in Ha.
  - wp_call as r [-> ->]. do 3 wp_call as ? ?. apply wp_ret. split; [solve_frame|].
    destruct sid as [sid|], iid as [iid|], (akid_keyid (obj_val a)) as [k|] eqn:Hk; cbn in *; split;
      try done; try (intros [Hal1 Hal2]; always_auto; simplify_eq; fail).
    + intros ?. simpl_bool. simpl_bool. split; once_auto. congruence.
    + intros [Hal1 Hal2]. always_auto. simplify_eq.
      rewrite Z.eqb_refl, bool_decide_eq_true_2; lia || done.
  - do 3 wp_call as ? ?. apply wp_ret. split; [solve_frame|]. split; [done|].
    destruct iid; cbn in Hn; intros [Hal1 Hal2]; always_auto.
Qed.

(** The signature of [c] verifies under [k] over its signed part. *)
Definition certificate_signed (k : HYBRID_PUBLIC_KEY) (c : X509) : Prop :=
  ∃ tbs sig, certificate_tbs once c (eq tbs) ∧ certificate_signature c = Some sig ∧
    composite_accepted k tbs [] sig.
Definition certificate_always_signed (k : HYBRID_PUBLIC_KEY) (c : X509) : Prop :=
  reliable_malloc ∧ ∃ sig, certificate_signature c = Some sig ∧
    certificate_tbs always c (λ tbs, composite_always_accepted k tbs [] sig).

#[export] Instance spec_verify_certificate_signature cert key result :
  Spec (verify_certificate_signature (Some cert) (Some key) result)
    (λ s, alive (Some cert) s ∧ public_owns (Some key) ⊆ live s ∧ public_key_wf key ∧
          set_signature_result result (VerifyResult false false false false) = result)
    (λ r s s', frame ∅ ∅ s s' ∧ ∃ local, r = (composite_valid local, set_signature_result result local) ∧
       composite_valid local = dilithium_valid local && sm2_valid local ∧
       decides (composite_valid local) (certificate_signed key (obj_val cert))
               (certificate_always_signed key (obj_val cert))).
Proof.
  wp_start. destruct P as (Hc & Hl & Hwf & Hz). unfold verify_certificate_signature.
  assert (Hcv : cert_composite_valid result = false) by by rewrite <-Hz.
  wp_call as [[] tb] ([F Htb] & Hall); cbn [negb out_post fst] in *.
  2: { subst tb. wp_call as ? ?. apply wp_ret. split; [solve_frame|].
       exists (VerifyResult false false false false). rewrite Hz, Hcv. split_and!; try done.
       split; [done|]. intros (_ & sig & _ & Htbs). apply (Hall cert eq_refl). intros t. destruct (Htbs t) as (? & der & ? & _).
       split; [done|]. by exists der. }
  destruct Htb as (b & ? & -> & -> & Hn & ? & [= <-] & Htbs).
  cbn [out_block out_len set_out fst snd default from_option id].
  wp_call as [ok v] [-> Hsig]. cbn [mbind option_bind] in Hsig.
  destruct (certificate_signature (obj_val cert)) as [sig|] eqn:Hsg; simplify_eq/=.
  2: { wp_call as ? ?. apply wp_ret. split; [solve_frame|].
       exists (VerifyResult false false false false). rewrite Hz, Hcv. split_and!; try done.
       split; [done|]. intros (_ & sig & Hs & _). congruence. }
  assert (Hsl : len sig ≤ INT_MAX).
  { unfold certificate_signature in Hsg. destruct (X509_get0_signature (obj_val cert)) as [[v|] a] eqn:Hv; [|done].
    pose proof (signature_bits_size _ _ _ Hv). cbn in Hsg. destruct (_ && _); by simplify_eq. }
  assert (Hv0 : valid None 0) by (split; [size_lia|done]).
  cbn [set_view view_ptr view_len fst snd default from_option id].
  wp_call as r [-> ->]. wp_call as [v cr] (F1 & local & Hr & Hcv' & Hf & Ht & Hd). simplify_eq/=.
  wp_call as ? ?. apply wp_ret. split; [solve_frame|]. exists local. split; [done|]. split; [done|].
  rewrite !bytes_at_all in *. change (bytes_at None 0) with (@nil byte) in *. split.
  - rewrite Hcv'. intros [Hdv Hsv]%andb_true_iff.
    destruct (format_valid local) eqn:E; [|destruct (Hf eq_refl); congruence].
    destruct (Ht eq_refl) as (k & o & [= <-] & Ho & _ & Hr). exists (obj_val b), sig.
    split_and!; try done. by exists o, local.
  - intros (Hrel & sig' & Hs & Hal). rewrite Hsg in Hs. simplify_eq. destruct Htbs as (t & Hpos & der & Htbs & <-).
    destruct (Hal t) as (_ & der' & Hder & Hacc). rewrite Htbs in Hder. simplify_eq.
    destruct (id Hacc) as (o & d & Ho & _). rewrite Hcv'.
    pose proof (len_nonneg (obj_val b)).
    eapply composite_decides_accepted; try done. apply Hd; done || lia.
Qed.

(** The composite key of [i] verifies the signature of [c]. *)
Definition issued_by (i c : X509) : Prop :=
  ∃ e k, certificate_key_bytes i = Some e ∧ composite_imported e k ∧ certificate_signed k c.
Definition always_issued_by (i c : X509) : Prop :=
  ∃ e, certificate_key_bytes i = Some e ∧ len e = COMPOSITE_PUBLIC_KEY_BYTES ∧
    e !! Z.to_nat DILITHIUM_PUBLIC_KEY_BYTES = Some Byte.x04 ∧
    sm2_always_imports (zdrop DILITHIUM_PUBLIC_KEY_BYTES e) ∧
    ∀ k, composite_imported e k → certificate_always_signed k c.

(** The key of the issuer is imported and, if that succeeds, the signature
    verified; [key] is then to be released. *)
Definition signature_checked (i c : obj X509) (local : HYBRID_CERT_VERIFY_RESULT) : Prop :=
  cert_composite_valid local = cert_dilithium_valid local && cert_sm2_valid local ∧
  decides (composite_public_key_valid local && cert_composite_valid local)
          (issued_by (obj_val i) (obj_val c)) (always_issued_by (obj_val i) (obj_val c)).

Lemma wp_check_signature (i c : obj X509) (mk : bool → HYBRID_CERT_VERIFY_RESULT)
    (result : option HYBRID_CERT_VERIFY_RESULT)
    (verdict : HYBRID_CERT_VERIFY_RESULT → bool) s Φ :
  alive (Some i) s → alive (Some c) s →
  (∀ ok, composite_public_key_valid (mk ok) = ok ∧
     set_signature_result (mk ok) (VerifyResult false false false false) = mk ok) →
  (∀ ok cr s', frame ∅ ∅ s s' →
     let local := set_signature_result (mk ok) cr in
     signature_checked i c local →
     let local := set_certificate_valid local (verdict local) in
     Φ (certificate_valid local, (λ _, local) <$> result) s') →
  wp ('(key_ok, key) ← hybrid_x509_get_composite_public_key (Some i) (Some zero_public_key);
      '(_, local) ← (if negb key_ok then mret (false, mk key_ok)
                     else verify_certificate_signature (Some c) key (mk key_ok));
      finish_certificate key result (set_certificate_valid local (verdict local))) Φ s.
Proof.
  intros Hi Hc Hmk HΦ. pose proof (frame_refl s). unfold finish_certificate, signature_checked in *.
  wp_call as [[] key] ([F Hk] & Hall); cbn [negb fst] in *.
  - destruct Hk as (? & e & k & [= <-] & He & -> & Himp).
    assert (Hwf : public_key_wf k).
    { destruct Himp as (Hle & Hd & _). unfold public_key_wf. rewrite Hd, len_ztake; size_lia. }
    destruct (Hmk true) as [Hv Hz].
    wp_call as r (F1 & cr & -> & Hcv & Hdec1 & Hdec2). wp_call as r [F2 ->]. apply wp_ret.
    replace (match result with Some _ => _ | None => None end) with
      ((λ _, set_certificate_valid (set_signature_result (mk true) cr)
               (verdict (set_signature_result (mk true) cr))) <$> result) by by destruct result.
    apply HΦ; [solve_frame|]. cbn. rewrite Hv. split; [done|]. split.
    + intros Ha. exists e, k. split_and!; try done. by apply Hdec1.
    + intros (e' & He' & _ & _ & _ & Hal). simplify_eq. apply Hdec2. by apply Hal.
  - subst key. wp_pure. apply wp_ret. wp_call as r [F2 ->]. apply wp_ret.
    destruct (Hmk false) as [Hv Hz]. rewrite <-Hz.
    replace (match result with Some _ => _ | None => None end) with
      ((λ _, set_certificate_valid (set_signature_result (mk false) (VerifyResult false false false false))
               (verdict (set_signature_result (mk false) (VerifyResult false false false false)))) <$> result)
      by by destruct result.
    apply HΦ; [solve_frame|]. cbn. rewrite Hv. split; [done|]. split; [done|].
    intros (e & He & Hle & H04 & Hal & _). by apply (Hall i e).
Qed.

(** ** The conditions on a certificate

    Each has a condition [I] on its signature as the last part. *)

Definition root_accepts (Q : modality) (I : Prop) (c : X509) : Prop :=
  names_link c c = true ∧ time_valid Q c ∧ ca_constraints Q c ∧ certificate_marked Q c ∧
  key_identified Q c ∧ signature_algorithms_composite c = true ∧ spki_composite c = true ∧ I.

Definition server_accepts (Q : modality) (I : Prop) (c i : X509) : Prop :=
  names_link c i = true ∧ time_valid Q c ∧ ca_constraints Q i ∧ server_constraints Q c ∧
  server_purpose Q c ∧ dns_named Q c ∧ key_identifiers_link Q c i ∧
  certificate_marked Q c ∧ signature_algorithms_composite c = true ∧ spki_composite c = true ∧ I.

Definition encryption_accepts (Q : modality) (I : Prop) (c i : X509) : Prop :=
  names_link c i = true ∧ time_valid Q c ∧ ca_constraints Q i ∧ encryption_constraints Q c ∧
  key_identifiers_link Q c i ∧ certificate_marked Q c ∧
  signature_algorithms_composite c = true ∧ certificate_sm2_key Q c (λ _, True) ∧ I.

(** A root and a server certificate that meet all of them. *)
Definition chain_accepted (Q : modality) (I : X509 → X509 → Prop) (r s : X509) : Prop :=
  root_accepts Q (I r r) r ∧ server_accepts Q (I r s) s r.

(** The entries of a report that make its verdict. *)
Definition common_flags (l : HYBRID_CERT_VERIFY_RESULT) : bool :=
  issuer_subject_link_valid l && validity_valid l && issuer_ca_constraints_valid l &&
  key_identifiers_valid l && pqc_extension_present l && composite_oids_valid l &&
  composite_public_key_valid l && cert_composite_valid l.
Definition root_flags (l : HYBRID_CERT_VERIFY_RESULT) : bool :=
  common_flags l && subject_public_key_composite l.
Definition server_flags (l : HYBRID_CERT_VERIFY_RESULT) : bool :=
  common_flags l && subject_constraints_valid l && eku_valid l && san_valid l &&
  subject_public_key_composite l.
Definition encryption_flags (l : HYBRID_CERT_VERIFY_RESULT) : bool :=
  common_flags l && subject_constraints_valid l && subject_public_key_sm2 l.

(** The verdict is that of the conditions, and the report agrees with it. *)
Definition root_verdict (r : option (obj X509)) (local : HYBRID_CERT_VERIFY_RESULT) : Prop :=
  match r with
  | Some r => signature_checked r r local ∧
      certificate_valid local = root_flags local ∧
      decides (certificate_valid local)
        (root_accepts once (issued_by (obj_val r) (obj_val r)) (obj_val r))
        (root_accepts always (always_issued_by (obj_val r) (obj_val r)) (obj_val r))
  | None => local = zero_result
  end.

Definition server_verdict (c i : option (obj X509)) (local : HYBRID_CERT_VERIFY_RESULT) : Prop :=
  match c, i with
  | Some c, Some i => signature_checked i c local ∧
      certificate_valid local = server_flags local ∧
      decides (certificate_valid local)
        (server_accepts once (issued_by (obj_val i) (obj_val c)) (obj_val c) (obj_val i))
        (server_accepts always (always_issued_by (obj_val i) (obj_val c)) (obj_val c) (obj_val i))
  | _, _ => local = zero_result
  end.

Definition encryption_verdict (c i : option (obj X509)) (local : HYBRID_CERT_VERIFY_RESULT) : Prop :=
  match c, i with
  | Some c, Some i => signature_checked i c local ∧
      certificate_valid local = encryption_flags local ∧
      decides (certificate_valid local)
        (encryption_accepts once (issued_by (obj_val i) (obj_val c)) (obj_val c) (obj_val i))
        (encryption_accepts always (always_issued_by (obj_val i) (obj_val c)) (obj_val c) (obj_val i))
  | _, _ => local = zero_result
  end.

Lemma decides_cert (r : bool) (c : obj X509) (P : modality → X509 → Prop) :
  (r = true → ∃ c', Some c = Some c' ∧ P once (obj_val c')) ∧
  (∀ c', Some c = Some c' → P always (obj_val c') → r = true) →
  decides r (P once (obj_val c)) (P always (obj_val c)).
Proof. unfold decides. naive_solver. Qed.

(** The conjunction of a verdict, part by part. *)
Ltac verdict_auto :=
  repeat match goal with H : (_ = true → ∃ c, _) ∧ _ |- _ => apply decides_cert in H end;
  cbn -[decides] in *; rewrite <-!andb_assoc;
  repeat (apply decides_and; [first [assumption|apply decides_eq]|]); assumption.

Ltac flags_auto :=
  cbn; unfold root_flags, server_flags, encryption_flags, common_flags; cbn; apply eq_true_iff_eq;
  rewrite !andb_true_iff; tauto.

Ltac finish_null :=
  unfold finish_certificate; wp_call as r [F ->]; apply wp_ret; (split; [solve_frame|]);
  exists zero_result.

#[export] Instance spec_hybrid_verify_root_self_signature c result :
  Spec (hybrid_verify_root_self_signature c result) (alive c)
    (λ r s s', frame ∅ ∅ s s' ∧ ∃ local,
       r = (certificate_valid local, (λ _, local) <$> result) ∧ root_verdict c local).
Proof.
  wp_start. unfold hybrid_verify_root_self_signature.
  destruct c as [c|]; [|finish_null; by destruct result].
  wp_call as r [-> ->].
  wp_call as time [F1 Htime]. wp_call as ica [F2 Hica]. wp_call as ids [F6 Hids].
  wp_call as marker [F7 Hmarker]. wp_call as oids [-> ->]. wp_call as spki [-> ->].
  eapply wp_check_signature; [solve_alive|solve_alive|by split|].
  intros ok cr s' F' local Hsig. subst local. frame_merge. split; [solve_frame|].
  eexists. split; [done|]. split; [exact Hsig|]. split; [flags_auto|]. destruct Hsig as [_ Hsig]. verdict_auto.
Qed.

#[export] Instance spec_hybrid_verify_certificate c i result :
  Spec (hybrid_verify_certificate c i result) (λ s, alive c s ∧ alive i s)
    (λ r s s', frame ∅ ∅ s s' ∧ ∃ local,
       r = (certificate_valid local, (λ _, local) <$> result) ∧ server_verdict c i local).
Proof.
  wp_start. destruct P as [Hc Hi]. unfold hybrid_verify_certificate.
  destruct c as [c|], i as [i|]; [|finish_null; by destruct result..].
  wp_call as r [-> ->]. wp_call as r [-> ->].
  wp_call as time [F1 Htime]. wp_call as ica [F2 Hica]. wp_call as subj [F3 Hsubj].
  wp_call as eku [F4 Heku]. wp_call as san [F5 Hsan]. wp_call as ids [F6 Hids].
  wp_call as marker [F7 Hmarker]. wp_call as oids [-> ->]. wp_call as spki [-> ->].
  eapply wp_check_signature; [solve_alive|solve_alive|by split|].
  intros ok cr s' F' local Hsig. subst local. frame_merge. split; [solve_frame|].
  eexists. split; [done|]. split; [exact Hsig|]. split; [flags_auto|]. destruct Hsig as [_ Hsig]. verdict_auto.
Qed.

#[export] Instance spec_hybrid_verify_encryption_certificate c i result :
  Spec (hybrid_verify_encryption_certificate c i result) (λ s, alive c s ∧ alive i s)
    (λ r s s', frame ∅ ∅ s s' ∧ ∃ local,
       r = (certificate_valid local, (λ _, local) <$> result) ∧ encryption_verdict c i local).
Proof.
  wp_start. destruct P as [Hc Hi]. unfold hybrid_verify_encryption_certificate.
  destruct c as [c|], i as [i|]; [|finish_null; by destruct result..].
  wp_call as r [-> ->]. wp_call as r [-> ->].
  wp_call as time [F1 Htime]. wp_call as ica [F2 Hica]. wp_call as subj [F3 Hsubj].
  wp_call as ids [F6 Hids].
  wp_call as marker [F7 Hmarker]. wp_call as oids [-> ->]. wp_call as spki [F8 Hspki].
  apply (decides_cert _ _ (λ Q c, certificate_sm2_key Q c (λ _, True))) in Hspki.
  eapply wp_check_signature; [solve_alive|solve_alive|by split|].
  intros ok cr s' F' local Hsig. subst local. frame_merge. split; [solve_frame|].
  eexists. split; [done|]. split; [exact Hsig|]. split; [flags_auto|]. destruct Hsig as [_ Hsig]. verdict_auto.
Qed.

#[export] Instance spec_hybrid_verify_chain root server result :
  Spec (hybrid_verify_chain root server result) (λ s, alive root s ∧ alive server s)
    (λ r s s', frame ∅ ∅ s s' ∧ ∃ local,
       r = (chain_valid local, (λ _, local) <$> result) ∧
       trust_anchor_configured local = negb (is_null root) ∧
       root_verdict root (chain_root local) ∧ server_verdict server root (chain_server local) ∧
       chain_valid local = certificate_valid (chain_root local) && certificate_valid (chain_server local)).
Proof.
  wp_start. destruct P as [Hr Hs]. unfold hybrid_verify_chain.
  wp_call as r1 (F1 & lr & -> & Hlr). wp_call as r2 (F2 & ls & -> & Hls).
  apply wp_ret. split; [solve_frame|]. eexists (ChainResult _ lr ls _). split; [by destruct result|].
  split; [done|]. split; [done|]. split; [done|].
  destruct root; [done|]. cbn in *. subst lr. done.
Qed.

Lemma chain_valid_accepted root server local :
  root_verdict root (chain_root local) → server_verdict server root (chain_server local) →
  chain_valid local = certificate_valid (chain_root local) && certificate_valid (chain_server local) →
  chain_valid local = true →
  ∃ ro se, root = Some ro ∧ server = Some se ∧ chain_accepted once issued_by (obj_val ro) (obj_val se).
Proof.
  intros Hro Hse ->. intros [Ha Hb]%andb_true_iff.
  destruct root as [ro|]; cbn in Hro; [|by rewrite Hro in Ha].
  destruct server as [se|]; cbn in Hse; [|by rewrite Hse in Hb].
  exists ro, se. split_and!; try done. split; [by apply Hro|by apply Hse].
Qed.

(** ** Properties *)

(** C4. A chain is accepted only if the root is configured and meets every
    condition on a self-signed root, and the server certificate meets every
    condition on a server certificate issued by it, its composite signature
    included. *)
Theorem hybrid_verify_chain_sound root server report s :
  alive root s → alive server s →
  wp (hybrid_verify_chain root server report) (λ r s', frame ∅ ∅ s s' ∧
    (fst r = true → ∃ ro se, root = Some ro ∧ server = Some se ∧
       root_accepts once (issued_by (obj_val ro) (obj_val ro)) (obj_val ro) ∧
       server_accepts once (issued_by (obj_val ro) (obj_val se)) (obj_val se) (obj_val ro))) s.
Proof.
  intros Hr Hs. eapply wp_mono; [by apply spec|]. intros r s' (F & local & -> & _ & Hro & Hse & Hv).
  split; [done|]. intros Hok. by destruct (chain_valid_accepted _ _ _ Hro Hse Hv Hok) as (ro & se & -> & -> & ? & ?); exists ro, se.
Qed.

(** C26. A chain whose certificates meet every condition, whenever the libraries
    are asked, is accepted. *)
Theorem hybrid_verify_chain_complete ro se report s :
  alive (Some ro) s → alive (Some se) s →
  root_accepts always (always_issued_by (obj_val ro) (obj_val ro)) (obj_val ro) →
  server_accepts always (always_issued_by (obj_val ro) (obj_val se)) (obj_val se) (obj_val ro) →
  wp (hybrid_verify_chain (Some ro) (Some se) report) (λ r s', frame ∅ ∅ s s' ∧ fst r = true) s.
Proof.
  intros Hr Hs Hra Hsa. eapply wp_mono; [by apply spec|].
  intros r s' (F & local & -> & _ & (_ & _ & _ & Hro) & (_ & _ & _ & Hse) & Hv).
  split; [done|]. cbn [fst]. by rewrite Hv, Hro, Hse.
Qed.

(** C27. An encryption certificate is accepted only if it meets every condition,
    an SM2 subject key and a composite signature by the issuer included, and is
    accepted if it meets them whenever the libraries are asked. *)
Theorem hybrid_verify_encryption_certificate_correct c i report s :
  alive c s → alive i s →
  wp (hybrid_verify_encryption_certificate c i report) (λ r s', frame ∅ ∅ s s' ∧
    (fst r = true → ∃ co io, c = Some co ∧ i = Some io ∧
       encryption_accepts once (issued_by (obj_val io) (obj_val co)) (obj_val co) (obj_val io)) ∧
    (∀ co io, c = Some co → i = Some io →
       encryption_accepts always (always_issued_by (obj_val io) (obj_val co)) (obj_val co) (obj_val io) →
       fst r = true)) s.
Proof.
  intros Hc Hi. eapply wp_mono; [by apply spec|]. intros r s' (F & local & -> & Hv).
  split; [done|]. cbn [fst]. destruct c as [co|], i as [io|]; cbn in Hv; try by subst.
  destruct Hv as (_ & _ & Hv1 & Hv2). split.
  - intros ?. exists co, io. split_and!; auto.
  - by intros ? ? [= <-] [= <-].
Qed.

(** The report of a certificate verification is consistent: its verdict,
    which is the value returned, is the conjunction of its entries, and its
    composite entry is the conjunction of the two signatures'. *)
Theorem hybrid_verify_certificate_report c i report s :
  alive (Some c) s → alive (Some i) s →
  wp (hybrid_verify_certificate (Some c) (Some i) (Some report)) (λ r s', ∃ local,
    r = (certificate_valid local, Some local) ∧ certificate_valid local = server_flags local ∧
    cert_composite_valid local = cert_dilithium_valid local && cert_sm2_valid local) s.
Proof.
  intros Hc Hi. eapply wp_mono; [by apply spec|].
  intros r s' (F & local & -> & [Hand _] & Hv & _). by exists local.
Qed.
End specs.

(** ** Example: a root, a server and an encryption certificate *)

Section example.
#[local] Existing Instances env_libc env_openssl env_dilithium env_openssl_sizes env_dilithium_sizes
  env_x509 env_x509_sizes.

Definition env_spki (k : byte) : list byte := fit 1312 [k] ++ env_point k.

Definition env_root : env_cert :=
  Cert 1 1 (-1) 1 (lit "root") (env_signature (lit "root") [])
    COMPOSITE_SM2_DILITHIUM_EXPERIMENTAL_OID COMPOSITE_SM2_DILITHIUM_EXPERIMENTAL_OID
    (env_spki Byte.x07) None 1 [Byte.x05; Byte.x06] [] [] [Byte.x01] [Byte.x01]
    (Some [Byte.x05; Byte.x00]) "".

Definition env_server : env_cert :=
  Cert 2 1 (-1) 1 (lit "server") (env_signature (lit "server") [])
    COMPOSITE_SM2_DILITHIUM_EXPERIMENTAL_OID COMPOSITE_SM2_DILITHIUM_EXPERIMENTAL_OID
    (env_spki Byte.x08) None 0 [Byte.x00] ["1.3.6.1.5.5.7.3.1"%string] [GeneralName 2 (Some (lit "host"))]
    [Byte.x02] [Byte.x01] (Some [Byte.x05; Byte.x00]) "host".

Definition env_encryption : env_cert :=
  Cert 2 1 (-1) 1 (lit "encryption") (env_signature (lit "encryption") [])
    COMPOSITE_SM2_DILITHIUM_EXPERIMENTAL_OID "1.2.156.10197.1.301"
    (env_point Byte.x09) (Some Byte.x09) 0 [Byte.x02; Byte.x04] [] []
    [Byte.x03] [Byte.x01] (Some [Byte.x05; Byte.x00]) "".

Lemma env_fromdata c k t : EVP_PKEY_fromdata_public c "SM2" (env_point k) t = (1, Some k).
Proof.
  change (EVP_PKEY_fromdata_public c "SM2" (env_point k) t)
    with (if decide (env_point k = env_point k) then (1, Some k) else (0, None)).
  by rewrite decide_True.
Qed.

Lemma env_imports k : sm2_always_imports (env_point k).
Proof.
  intros t1. intros t2. split; [done|]. intros t3. rewrite env_fromdata. split; [done|].
  intros t4. intros t5. done.
Qed.

Lemma env_imported k k' : sm2_imported (env_point k) k' → k' = k.
Proof.
  intros (t1 & t2 & _ & t3 & H3). rewrite env_fromdata in H3. by destruct H3 as (_ & t4 & t5 & _ & <-).
Qed.

Lemma env_spki_point k : zdrop DILITHIUM_PUBLIC_KEY_BYTES (env_spki k) = env_point k.
Proof. apply zdrop_app. by rewrite len_fit. Qed.

(** A certificate signed by the key of the root. *)
Lemma env_issued (c : env_cert) :
  c_signature c = env_signature (c_tbs c) [] → env_fits (c_tbs c) = true → 0 < len (c_tbs c) →
  always_issued_by (env_root : X509) (c : X509).
Proof.
  intros Hsig Hfit Hpos. exists (env_spki Byte.x07).
  split; [by vm_compute|]. split; [by vm_compute|]. split; [by vm_compute|]. split.
  { rewrite env_spki_point. apply env_imports. }
  intros k (_ & Hd & o & Ho & Himp). split; [done|]. exists (c_signature c).
  assert (Hl : env_fits (c_signature c) = true) by (rewrite Hsig; unfold env_fits; by rewrite len_env_signature).
  split.
  { unfold certificate_signature. cbn. rewrite Hl. cbn. by rewrite Hsig, len_env_signature. }
  intros t. cbn. rewrite Hfit. cbn [fst]. split; [done|]. exists (c_tbs c). split; [done|].
  rewrite Hsig. apply (env_key_always_accepted k o); [done| |by rewrite Hd; vm_compute|done].
  rewrite env_spki_point in Himp. by apply env_imported in Himp.
Qed.

Lemma env_ca_constraints (c : env_cert) :
  c_ca c = 1 → c_usage c = [Byte.x05; Byte.x06] → ca_constraints always (c : X509).
Proof.
  intros Hca Hu. split; intros t; cbn; rewrite ?Hca, ?Hu; (split; [done|]).
  - done.
  - apply ca_usage_spec. by vm_compute.
Qed.

Lemma env_marked (c : env_cert) :
  c_marker c = Some [Byte.x05; Byte.x00] → certificate_marked always (c : X509).
Proof. intros Hm t. cbn. unfold pqc_marked. cbn. by rewrite Hm. Qed.

Lemma env_time_valid (c : env_cert) :
  c_before c < 0 → 0 < c_after c → time_valid always (c : X509).
Proof. intros Hb Ha. by split; intros t. Qed.

Lemma env_root_accepted :
  root_accepts always (always_issued_by (env_root : X509) (env_root : X509)) (env_root : X509).
Proof.
  split; [done|]. split; [by apply env_time_valid|]. split; [by apply env_ca_constraints|].
  split; [by apply env_marked|]. split; [by intros t|]. split; [by vm_compute|].
  split; [by vm_compute|]. by apply env_issued.
Qed.

Lemma env_key_link (c i : env_cert) :
  0 < len (c_subject_id c) → 0 < len (c_subject_id i) → c_authority_id c = c_subject_id i →
  key_identifiers_link always (c : X509) (i : X509).
Proof. intros Hc Hi Ha. split; intros t; [done|]. split; [done|]. intros t'. cbn. by rewrite Ha. Qed.

Lemma env_server_accepted :
  server_accepts always (always_issued_by (env_root : X509) (env_server : X509))
    (env_server : X509) (env_root : X509).
Proof.
  split; [done|]. split; [by apply env_time_valid|]. split; [by apply env_ca_constraints|].
  split.
  { split; intros t; (split; [done|]); [done|]. apply server_usage_spec. by vm_compute. }
  split; [intros t; eexists; split; [by left|done]|].
  split; [intros t; eexists _, _; split; [by left|by split_and!]|].
  split; [by apply env_key_link|]. split; [by apply env_marked|]. split; [by vm_compute|].
  split; [by vm_compute|]. by apply env_issued.
Qed.

Lemma env_encryption_accepted :
  encryption_accepts always (always_issued_by (env_root : X509) (env_encryption : X509))
    (env_encryption : X509) (env_root : X509).
Proof.
  split; [done|]. split; [by apply env_time_valid|]. split; [by apply env_ca_constraints|].
  split.
  { split; intros t; (split; [done|]); [done|]. apply encryption_usage_spec. by vm_compute. }
  split; [by apply env_key_link|]. split; [by apply env_marked|]. split; [by vm_compute|].
  split; [intros t; done|]. by apply env_issued.
Qed.

Definition env_root_obj : obj (X509 (X509Library := env_x509)) := Obj 1%positive env_root.
Definition env_server_obj : obj (X509 (X509Library := env_x509)) := Obj 2%positive env_server.
Definition env_encryption_obj : obj (X509 (X509Library := env_x509)) := Obj 3%positive env_encryption.
Definition env_three : state := env_state [1; 2; 3]%positive.

Lemma env_three_alive {A} (o : obj A) : obj_id o ∈ [1; 2; 3]%positive → alive (Some o) env_three.
Proof. apply env_alive. Qed.

Lemma hybrid_verify_chain_sound_witness :
  alive (Some env_root_obj) env_three ∧
  wp (hybrid_verify_chain (Some env_root_obj) (Some env_server_obj) None) (λ r s', frame ∅ ∅ env_three s' ∧
    (fst r = true → ∃ ro se, Some env_root_obj = Some ro ∧ Some env_server_obj = Some se ∧
       root_accepts once (issued_by (obj_val ro) (obj_val ro)) (obj_val ro) ∧
       server_accepts once (issued_by (obj_val ro) (obj_val se)) (obj_val se) (obj_val ro))) env_three.
Proof.
  split; [apply env_three_alive; set_solver|].
  apply (hybrid_verify_chain_sound (Some env_root_obj) (Some env_server_obj) None env_three);
    apply env_three_alive; set_solver.
Defined.

Lemma hybrid_verify_chain_complete_witness :
  server_accepts always (always_issued_by (obj_val env_root_obj) (obj_val env_server_obj))
    (obj_val env_server_obj) (obj_val env_root_obj) ∧
  wp (hybrid_verify_chain (Some env_root_obj) (Some env_server_obj) None)
    (λ r s', frame ∅ ∅ env_three s' ∧ fst r = true) env_three.
Proof.
  split; [apply env_server_accepted|].
  apply (hybrid_verify_chain_complete env_root_obj env_server_obj None env_three);
    [apply env_three_alive; set_solver|apply env_three_alive; set_solver
    |apply env_root_accepted|apply env_server_accepted].
Defined.

Lemma hybrid_verify_encryption_certificate_correct_witness :
  encryption_accepts always (always_issued_by (obj_val env_root_obj) (obj_val env_encryption_obj))
    (obj_val env_encryption_obj) (obj_val env_root_obj) ∧
  wp (hybrid_verify_encryption_certificate (Some env_encryption_obj) (Some env_root_obj) None)
    (λ r s', frame ∅ ∅ env_three s' ∧
      (fst r = true → ∃ co io, Some env_encryption_obj = Some co ∧ Some env_root_obj = Some io ∧
         encryption_accepts once (issued_by (obj_val io) (obj_val co)) (obj_val co) (obj_val io)) ∧
      (∀ co io, Some env_encryption_obj = Some co → Some env_root_obj = Some io →
         encryption_accepts always (always_issued_by (obj_val io) (obj_val co)) (obj_val co) (obj_val io) →
         fst r = true)) env_three.
Proof.
  split; [apply env_encryption_accepted|].
  apply (hybrid_verify_encryption_certificate_correct (Some env_encryption_obj) (Some env_root_obj) None env_three);
    apply env_three_alive; set_solver.
Defined.

Lemma hybrid_verify_certificate_report_witness :
  alive (Some env_server_obj) env_three ∧
  wp (hybrid_verify_certificate (Some env_server_obj) (Some env_root_obj) (Some zero_result))
    (λ r s', ∃ local,
      r = (certificate_valid local, Some local) ∧ certificate_valid local = server_flags local ∧
      cert_composite_valid local = cert_dilithium_valid local && cert_sm2_valid local) env_three.
Proof.
  split; [apply env_three_alive; set_solver|].
  apply (hybrid_verify_certificate_report env_server_obj env_root_obj zero_result env_three);
    apply env_three_alive; set_solver.
Defined.
End example.
