(* ===== verification/X509Issued.v ===== *)
(** * Certificates issued and verified

    The signature of a certificate that hybrid_x509.c issues is one that
    hybrid_chain.c accepts under the public key of the issuer. *)

From S2P Require Import Prelude Machine External Environment Der Dilithium Sm2 CompositeKey CompositeSig X509 Asn1 X509Build X509Env X509Create Chain.

Section decoding.
Context `{Libc, OpenSSL, !OpenSSLSizes, Dilithium2, !Dilithium2Sizes, !X509Library, !X509Sizes,
          !X509Builder, !X509BuilderContracts}.

(** What is decoded from an encoding shows what was encoded: the signed part
    and the signature, whose bits are read whole. *)
Class X509Decoding : Prop := {
  decoded_tbs f a v t c n t' : d2i_X509 (certificate_der f a v) t = Some (c, n) →
    0 < len (tbs_der f) ∧ i2d_re_X509_tbs c t' = (len (tbs_der f), Some (tbs_der f));
  decoded_signature f a v t c n : d2i_X509 (certificate_der f a v) t = Some (c, n) →
    Z.land (bits_flags v) 7 = 0 → 0 < len (bits_data v) → certificate_signature c = Some (bits_data v)
}.

(** The two halves of a generated key pair that shares its SM2 key. *)
Definition key_pair (sk : HYBRID_PRIVATE_KEY) (pk : HYBRID_PUBLIC_KEY) : Prop :=
  ∃ o, sm2_private_key sk = Some o ∧ sm2_public_key pk = Some o ∧ sm2_generated (obj_val o) ∧
    dilithium_keypair (dilithium_public_key pk) (dilithium_secret_key sk).

Lemma key_pair_wf sk pk : key_pair sk pk → private_key_wf sk ∧ public_key_wf pk.
Proof. intros (o & _ & _ & _ & t & Hkp). by destruct (dilithium2_keypair_sizes _ _ _ Hkp). Qed.

Lemma signed_not_empty k m ctx sig : composite_signed k m ctx sig → 0 < len sig.
Proof.
  intros (o & d & ds & ss & _ & _ & _ & _ & _ & -> & Hd & _). rewrite len_app, Hd.
  pose proof (len_nonneg ss). size_lia.
Qed.

Lemma signed_certificate_verifies `{!SchemeLaws, !X509Decoding} sk pk f c :
  key_pair sk pk → signed_certificate sk f c → certificate_always_signed pk c.
Proof.
  intros (o & Hsk & Hpk & Hgen & Hkp) (e & (a & v & -> & _ & Hs & _ & Hfl) & t & Hdec).
  cbn in Hdec. destruct (d2i_X509 _ t) as [[c' n]|] eqn:E; [|done]. injection Hdec as <- <-.
  split; [apply law_malloc|]. exists (bits_data v).
  split; [eapply decoded_signature; [done..|by eapply signed_not_empty]|].
  intros t'. destruct (decoded_tbs _ _ _ _ _ _ t' E) as [Hpos ->]. split; [done|].
  exists (tbs_der f). split; [done|]. by eapply signed_always_accepted.
Qed.
End decoding.

(** ** Clients *)

Section clients.
Context `{Libc, OpenSSL, !OpenSSLSizes, Dilithium2, !Dilithium2Sizes, !X509Library, !X509Sizes,
          !X509Builder, !X509BuilderContracts, !SchemeLaws, !X509Decoding}.

(** The signature of the certificate that [issue] makes, verified under [key]. *)
Definition issue_and_verify (issue : M (option (obj X509))) (key : HYBRID_PUBLIC_KEY) : M (option bool) :=
  certificate ← issue;
  match certificate with
  | None => mret None
  | Some _ =>
      '(ok, _) ← verify_certificate_signature certificate (Some key) zero_result;
      free_object certificate;;
      mret (Some ok)
  end.

(** A fresh key pair, its root certificate and the verification of the latter. *)
Definition generate_root_and_verify (cn : string) : M (option bool) :=
  '(ok, (sk, pk)) ← composite_key_generate (Some zero_private_key) (Some zero_public_key);
  match ok, pk with
  | true, Some p =>
      r ← issue_and_verify (hybrid_x509_create_root sk pk (Some cn)) p;
      hybrid_private_key_cleanup sk;;
      hybrid_public_key_cleanup pk;;
      mret r
  | _, _ => mret None
  end.

Lemma wp_issue_and_verify issue sk pk built s :
  key_pair sk pk → public_owns (Some pk) ⊆ live s →
  wp issue (λ c s', live s' = live s ⊎ owns c ∧
    (∀ c', c = Some c' → certificate_made (Some sk) built (obj_val c'))) s →
  wp (issue_and_verify issue pk) (λ r s', live s' = live s ∧ (r = None ∨ r = Some true)) s.
Proof.
  intros Hkp Hl Hi. unfold issue_and_verify. apply wp_bind. eapply wp_mono; [apply Hi|].
  intros [c|] s1 [Hs1 Hc]; [|apply wp_ret; split; [cbn in Hs1; ms_lia|by left]].
  destruct (Hc c eq_refl) as (k & f & [= <-] & _ & Hsc). cbn [owns] in Hs1.
  destruct (key_pair_wf _ _ Hkp). pose proof (frame_refl s1).
  wp_call as [ok rep] (F & local & [= -> _] & _ & _ & Hall). wp_call as ? ?. apply wp_ret.
  split; [match goal with F : frame _ _ s1 _ |- _ => pose proof (frame_live _ _ _ _ F) end; ms_lia|].
  right. f_equal. apply Hall. by eapply signed_certificate_verifies.
Qed.

(** C5. Whatever certificate is issued with the private half of a generated key
    pair - a root, a server certificate or an encryption certificate, for any
    names and any subject key - its composite signature is accepted under the
    public half, and nothing remains allocated. *)
Theorem issued_certificates_verify sk pk subject key issuer cn dns s :
  key_pair sk pk →
  private_owns (Some sk) ∪ (public_owns (Some pk) ∪ (public_owns subject ∪ owns key)) ∪ owns issuer ⊆ live s →
  from_option public_key_wf True subject →
  let verified issue := wp (issue_and_verify issue pk) (λ r s', live s' = live s ∧ (r = None ∨ r = Some true)) s in
  verified (hybrid_x509_create_root (Some sk) subject cn) ∧
  verified (hybrid_x509_create_server (Some sk) (Some pk) subject issuer cn dns) ∧
  verified (hybrid_x509_create_sm2_encryption (Some sk) (Some pk) key issuer cn).
Proof.
  intros Hkp Hl Hs. destruct (key_pair_wf _ _ Hkp). cbv zeta.
  split_and!; (eapply wp_issue_and_verify; [done|ms_lia|]);
    (eapply wp_spec; [apply _|split_and!; [ms_lia|done..]|]); intros r s' ([F Hr] & _);
    (split; [pose proof (frame_live _ _ _ _ F); ms_lia|by intros c ->]).
Qed.

(** The certificate that a freshly generated key pair issues for itself
    verifies under its own public key; when the pair has been cleaned up
    nothing remains allocated, whichever step failed. *)
Theorem generated_root_verifies cn s :
  wp (generate_root_and_verify cn) (λ r s', live s' = live s ∧ (r = None ∨ r = Some true)) s.
Proof.
  unfold generate_root_and_verify. wp_pure.
  eapply wp_spec; [apply _|split; [owns_lia|apply zero_private_key_wf]|].
  intros [[] [sk pk]] s1; cbv beta iota.
  2: { intros (_ & F & _). apply wp_ret. split; [|by left]. pose proof (frame_live _ _ _ _ F). owns_lia. }
  destruct sk as [sk|], pk as [pk|]; [|done..].
  intros (o & s0 & Hsk & Hpk & Hgen & Hkp & F & ->).
  pose proof (frame_live _ _ _ _ F) as L0. cbn [private_owns public_owns zero_private_key zero_public_key
    sm2_private_key sm2_public_key owns] in L0.
  set (s2 := add_residue _ s0). assert (Hl : live s2 = live s0) by done. clearbody s2.
  assert (Hpair : key_pair sk pk) by by exists o. destruct (key_pair_wf _ _ Hpair).
  assert (private_owns (Some sk) = owns (Some o) ∧ public_owns (Some pk) = owns (Some o)) as [Hso Hpo]
    by (cbn [private_owns public_owns]; by rewrite Hsk, Hpk).
  apply wp_bind. eapply wp_mono; [eapply wp_issue_and_verify; [done|rewrite Hpo; owns_lia|]|].
  { eapply wp_spec; [apply _|split_and!; [rewrite Hso, Hpo; owns_lia|done..]|]. intros r s' ([Fr Hr] & _).
    split; [pose proof (frame_live _ _ _ _ Fr); ms_lia|by intros c ->]. }
  intros r s3 [L3 Hr]. wp_pure. eapply wp_spec; [apply _|split; [rewrite Hso; owns_lia|done]|].
  rewrite Hso. intros ? s4 [F4 _]. pose proof (frame_live _ _ _ _ F4).
  wp_pure. eapply wp_spec; [apply _|rewrite Hpo; owns_lia|].
  rewrite Hpo. intros ? s5 [F5 _]. pose proof (frame_live _ _ _ _ F5). apply wp_ret. split; [owns_lia|done].
Qed.
End clients.

(** ** A concrete instance *)

Section example.
#[local] Existing Instances env_libc env_openssl env_openssl_sizes env_dilithium env_dilithium_sizes
  env_issuer env_issuer_sizes env_builder env_builder_contracts.

Lemma env_decodes f a v c n t :
  d2i_X509 (certificate_der f a v) t = Some (c, n) →
  c = env_decoded (tbs_der f) (bits_data v) ∧ 0 < len (tbs_der f) ∧
  env_fits (tbs_der f) = true ∧ env_fits (bits_data v) = true.
Proof.
  change (env_decode_certificate (certificate_der f a v) = Some (c, n) →
    c = env_decoded (tbs_der f) (bits_data v) ∧ 0 < len (tbs_der f) ∧
    env_fits (tbs_der f) = true ∧ env_fits (bits_data v) = true).
  unfold env_decode_certificate. destruct (env_fits (certificate_der f a v)) eqn:E; [|done].
  assert (Hl : len (certificate_der f a v) ≤ INT_MAX) by by apply Z.leb_le.
  unfold certificate_der, asn1_sequence in *. cbn [concat] in *. rewrite app_nil_r in *.
  set (alg := i2d_X509_ALGOR a) in *. set (bits := i2d_ASN1_BIT_STRING v) in *.
  pose proof (len_der_tlv 0x30 (tbs_der f ++ alg ++ bits)) as L1. rewrite !len_app in L1.
  pose proof (len_nonneg (tbs_der f)). pose proof (len_nonneg alg). pose proof (len_nonneg bits).
  assert (Ht : ∃ x, tbs_der f = der_tlv 0x30 x) by by eexists. destruct Ht as [x Ht].
  pose proof (len_der_tlv 0x30 x) as Lx. rewrite <-Ht in Lx.
  pose proof (len_der_tlv 0x30 (lit a)) as La. change (der_tlv 0x30 (lit a)) with alg in La.
  pose proof (len_der_tlv 0x03 (Byte.x00 :: bits_data v)) as Lb.
  change (der_tlv 0x03 (Byte.x00 :: bits_data v)) with bits in Lb. rewrite len_cons in Lb.
  rewrite <-(app_nil_r (der_tlv 48 _)), der_read_tlv by (rewrite ?len_app; size_lia).
  cbn [mbind option_bind]. rewrite Ht at 1. rewrite der_read_tlv by size_lia. cbn [mbind option_bind].
  assert (Ha : der_read (alg ++ bits) = Some (0x30, lit a, bits)) by (apply der_read_tlv; size_lia).
  assert (Hb : der_read bits = Some (0x03, Byte.x00 :: bits_data v, [])).
  { rewrite <-(app_nil_r bits). apply der_read_tlv; [lia|rewrite len_cons; size_lia]. }
  rewrite Ha. cbn [mbind option_bind]. rewrite Hb. cbn [mbind option_bind list.tail].
  replace (len (tbs_der f ++ alg ++ bits) - len (alg ++ bits)) with (len (tbs_der f)) by (rewrite !len_app; lia).
  rewrite ztake_app by done. intros [= <- _]. split; [done|]. split.
  - rewrite Ht. unfold der_tlv. rewrite len_cons, len_app. pose proof (len_nonneg (der_length (len x))).
    pose proof (len_nonneg x). lia.
  - unfold env_fits. split; apply Z.leb_le; size_lia.
Qed.

Lemma env_decoding : X509Decoding.
Proof.
  split.
  - intros f a v t c n t' (-> & Hpos & Hf & _)%env_decodes. split; [done|].
    transitivity (if env_fits (tbs_der f) then (len (tbs_der f), Some (tbs_der f)) else (-1, None)); [done|].
    by rewrite Hf.
  - intros f a v t c n (-> & _ & _ & Hf)%env_decodes Hfl Hl. unfold certificate_signature.
    transitivity (match (if env_fits (bits_data v) then Some (BitString 0 (bits_data v)) else None) with
      | Some b => if (Z.land (bits_flags b) 7 =? 0) && (0 <? len (bits_data b)) then Some (bits_data b) else None
      | None => None
      end); [done|].
    rewrite Hf. cbn [bits_flags bits_data]. by rewrite (proj2 (Z.ltb_lt _ _) Hl).
Qed.

Lemma env_pair : key_pair env_private env_public.
Proof.
  exists env_key. split; [done|]. split; [done|]. split; [|by exists 7%N].
  exists 7%N. exists 7%N. split; [done|]. by exists 7%N.
Qed.

Lemma generated_root_verifies_witness :
  SchemeLaws ∧ X509Decoding ∧
  fst <$> generate_root_and_verify "root" empty_state = Some (Some true) ∧
  wp (generate_root_and_verify "root") (λ r s', live s' = live empty_state ∧ (r = None ∨ r = Some true)) empty_state.
Proof.
  pose proof env_scheme_laws. pose proof env_decoding. split; [done|]. split; [done|].
  split; [by vm_compute|]. apply (generated_root_verifies "root" empty_state).
Defined.

Lemma issued_certificates_verify_witness :
  key_pair env_private env_public ∧
  let verified issue := wp (issue_and_verify issue env_public)
    (λ r s', live s' = live env_one ∧ (r = None ∨ r = Some true)) env_one in
  verified (hybrid_x509_create_root (Some env_private) (Some env_public) (Some "name"%string)) ∧
  verified (hybrid_x509_create_server (Some env_private) (Some env_public) (Some env_public)
    (Some env_ca_certificate) (Some "name"%string) (Some "host"%string)) ∧
  verified (hybrid_x509_create_sm2_encryption (Some env_private) (Some env_public) (Some env_key)
    (Some env_ca_certificate) (Some "name"%string)).
Proof.
  pose proof env_scheme_laws. pose proof env_decoding. split; [apply env_pair|].
  apply (issued_certificates_verify env_private env_public (Some env_public) (Some env_key)
    (Some env_ca_certificate) (Some "name"%string) (Some "host"%string) env_one);
    [apply env_pair| |apply env_public_wf].
  pose proof env_one_keys. pose proof (env_one_alive env_ca_certificate eq_refl).
  pose proof (env_one_alive env_key eq_refl). ms_lia.
Defined.
End example.
