(* ===== verification/Tlcp.v ===== *)
(** * tlcp_hybrid_cert_adapter.h, tlcp_hybrid_cert_adapter.c

    The adapter a TLCP stack calls on the certificates of a handshake: strict
    decoding, recognition of a composite certificate, verification of the
    signing certificate against the trust anchor, the report, and the callback
    that also verifies the encryption certificate. *)

From S2P Require Import Prelude Machine External Dilithium Sm2 CompositeKey CompositeSig X509 Environment Chain.

Definition composite_oid_der : list byte :=
  map byte_of_Z [0x06; 0x0a; 0x2b; 0x06; 0x01; 0x04; 0x01; 0x81; 0xfd; 0x59; 0x01; 0x01].

Inductive TLCP_HYBRID_CERT_RESULT :=
  | TLCP_HYBRID_CERT_INVALID
  | TLCP_HYBRID_CERT_NOT_APPLICABLE
  | TLCP_HYBRID_CERT_VALID.

#[export] Instance result_eq_dec : EqDecision TLCP_HYBRID_CERT_RESULT.
Proof. solve_decision. Defined.

Definition int_of_result (r : TLCP_HYBRID_CERT_RESULT) : Z :=
  match r with
  | TLCP_HYBRID_CERT_INVALID => -1
  | TLCP_HYBRID_CERT_NOT_APPLICABLE => 0
  | TLCP_HYBRID_CERT_VALID => 1
  end.

Record TLCP_HYBRID_CERT_VERIFY_REPORT := VerifyReport {
  recognized_composite : bool;
  oid_ok : bool;
  pqc_marker_ok : bool;
  issuer_subject_ok : bool;
  validity_ok : bool;
  constraints_ok : bool;
  key_usage_ok : bool;
  hostname_ok : bool;
  dilithium_ok : bool;
  sm2_ok : bool;
  composite_ok : bool;
  encryption_subject_spki_sm2_ok : bool;
  encryption_oid_ok : bool;
  encryption_pqc_marker_ok : bool;
  encryption_dilithium_ok : bool;
  encryption_sm2_ok : bool;
  encryption_composite_ok : bool;
  encryption_certificate_ok : bool;
  tlcp_dual_identity_ok : bool;
  tlcp_dual_certificate_ok : bool;
  report_chain : HYBRID_CHAIN_VERIFY_RESULT;
  report_encryption : HYBRID_CERT_VERIFY_RESULT
}.

Record TLCP_HYBRID_CERT_ADAPTER_CONFIG := AdapterConfig {
  trust_anchor_der : ptr;
  trust_anchor_der_len : Z;
  expected_hostname : option string;
  last_report : option TLCP_HYBRID_CERT_VERIFY_REPORT
}.

Definition zero_chain : HYBRID_CHAIN_VERIFY_RESULT := ChainResult false zero_result zero_result false.

(** A report on which only the recognition is set. *)
Definition blank_report (recognized : bool) : TLCP_HYBRID_CERT_VERIFY_REPORT :=
  VerifyReport recognized false false false false false false false false false false
    false false false false false false false false false zero_chain zero_result.

(** The report on a recognised signing certificate, from the two checks on it,
    the report on its chain and the hostname check. *)
Definition signing_report (oid marker : bool) (chain : HYBRID_CHAIN_VERIFY_RESULT) (hostname : bool)
    : TLCP_HYBRID_CERT_VERIFY_REPORT :=
  let server := chain_server chain in
  VerifyReport true oid marker
    (issuer_subject_link_valid server)
    (validity_valid (chain_root chain) && validity_valid server)
    (issuer_ca_constraints_valid server && subject_constraints_valid server)
    (subject_constraints_valid server) hostname
    (cert_dilithium_valid server) (cert_sm2_valid server) (cert_composite_valid server)
    false false false false false false false false false chain zero_result.

(** The loop of [contains_composite_oid], [fuel] bounding its iterations. *)
Fixpoint find_composite_oid (fuel : nat) (der : ptr) (i last : Z) : M bool :=
  match fuel with
  | O => undefined
  | S fuel =>
      if negb (i <=? last) then mret false
      else
        window ← read (zdrop i <$> der) (len composite_oid_der);
        if bool_decide (window = composite_oid_der) then mret true
        else find_composite_oid fuel der (size_add i 1) last
  end.

Definition contains_composite_oid (der : ptr) (der_len : Z) : M bool :=
  if is_null der || (der_len <? len composite_oid_der) then mret false
  else
    let last := size_sub der_len (len composite_oid_der) in
    find_composite_oid (S (S (Z.to_nat last))) der 0 last.

Section tlcp.
Context `{Libc, OpenSSL, Dilithium2, !X509Library}.

Definition decode_der_strict (der : ptr) (der_len : Z) : M (option (obj X509)) :=
  if is_null der || (der_len =? 0) || (der_len >? LONG_MAX) then mret None
  else
    bytes ← read der der_len;
    r ← call (d2i_X509 bytes);
    certificate ← new_object (λ _, fst <$> r);
    if is_null certificate || negb (from_option snd 0 r =? der_len)
    then free_object certificate;; mret None
    else mret certificate.

(** Moves the pointer and the length at its two arguments. *)
Definition decode_next_certificate (der : option ptr) (der_len : option Z)
    : M (option (obj X509) * (option ptr * option Z)) :=
  match der, der_len with
  | Some (Some start), Some n =>
      if (n =? 0) || (n >? LONG_MAX) then mret (None, (der, der_len))
      else
        bytes ← read (Some start) n;
        r ← call (d2i_X509 bytes);
        certificate ← new_object (λ _, fst <$> r);
        let consumed := from_option snd 0 r in
        if is_null certificate || (consumed <=? 0) || (size_of_Z consumed >? n)
        then free_object certificate;; mret (None, (der, der_len))
        else mret (certificate, (Some (Some (zdrop consumed start)),
                                 Some (size_sub n (size_of_Z consumed))))
  | _, _ => mret (None, (der, der_len))
  end.

Definition certificate_mentions_composite (certificate : option (obj X509)) : M bool :=
  match certificate with
  | None => mret false
  | Some cert =>
      c ← deref cert;
      let outer := snd (X509_get0_signature c) in
      let inner := X509_get0_tbs_sigalg c in
      let outer_object := outer ≫= (λ a, fst (X509_ALGOR_get0 a)) in
      let inner_object := inner ≫= (λ a, fst (X509_ALGOR_get0 a)) in
      composite ← new_object (OBJ_txt2obj COMPOSITE_SM2_DILITHIUM_EXPERIMENTAL_OID 1);
      recognized ←
        match composite with
        | None => mret false
        | Some o =>
            v ← deref o;
            let same (object : option ASN1_OBJECT) :=
              match object with Some x => OBJ_cmp x v =? 0 | None => false end in
            mret (same outer_object || same inner_object)
        end;
      free_object composite;;
      mret recognized
  end.

Definition tlcp_hybrid_cert_get_sm2_sign_public_key (cert_der : ptr) (cert_der_len : Z)
    (sm2_public_key : ptr) : M (bool * ptr) :=
  let done (certificate : option (obj X509)) (public_key : option HYBRID_PUBLIC_KEY)
      (ok : bool) (sm2_public_key : ptr) :=
    hybrid_public_key_cleanup public_key;;
    free_object certificate;;
    mret (ok, sm2_public_key) in
  let public_key := Some zero_public_key in
  certificate ← decode_der_strict cert_der cert_der_len;
  if is_null certificate then done certificate public_key false sm2_public_key
  else
    algorithms ← hybrid_x509_composite_algorithms_valid certificate;
    if negb algorithms then done certificate public_key false sm2_public_key
    else
      '(ok, public_key) ← hybrid_x509_get_composite_public_key certificate public_key;
      if negb ok then done certificate public_key false sm2_public_key
      else
        '(ok, sm2_public_key) ← composite_get_sm2_public_key_octets public_key sm2_public_key;
        done certificate public_key ok sm2_public_key.

Definition hostname_matches (c : X509) (host : option string) : bool :=
  match host with
  | None => true
  | Some h => String.eqb h "" || (X509_check_host c h =? 1)
  end.

Definition tlcp_hybrid_cert_verify_der (signing_cert_der : ptr) (signing_cert_der_len : Z)
    (anchor_der : ptr) (anchor_der_len : Z) (host : option string) (sm2_public_key : ptr)
    (report : option TLCP_HYBRID_CERT_VERIFY_REPORT)
    : M (TLCP_HYBRID_CERT_RESULT * (ptr * option TLCP_HYBRID_CERT_VERIFY_REPORT)) :=
  let done (root signing : option (obj X509)) (sm2_public_key : ptr)
      (local : TLCP_HYBRID_CERT_VERIFY_REPORT) (chain_ok : bool) :=
    free_object root;;
    free_object signing;;
    let report := match report with None => None | Some _ => Some local end in
    if negb (recognized_composite local)
    then mret (TLCP_HYBRID_CERT_NOT_APPLICABLE, (sm2_public_key, report))
    else mret (if chain_ok then TLCP_HYBRID_CERT_VALID else TLCP_HYBRID_CERT_INVALID,
               (sm2_public_key, report)) in
  sm2_public_key ← match sm2_public_key with
                   | None => mret None
                   | Some k => k ← cleanse k SM2_UNCOMPRESSED_PUBLIC_KEY_BYTES; mret (Some k)
                   end;
  signing ← decode_der_strict signing_cert_der signing_cert_der_len;
  match signing with
  | None =>
      recognized ← contains_composite_oid signing_cert_der signing_cert_der_len;
      done None None sm2_public_key (blank_report recognized) false
  | Some cert =>
      recognized ← certificate_mentions_composite signing;
      if negb recognized then done None signing sm2_public_key (blank_report recognized) false
      else
        oid ← hybrid_x509_composite_algorithms_valid signing;
        marker ← hybrid_x509_has_pqc_extension signing;
        root ← decode_der_strict anchor_der anchor_der_len;
        '(chain_ok, chain) ← (if is_null root then mret (false, Some zero_chain)
                              else hybrid_verify_chain root signing (Some zero_chain));
        let chain := default zero_chain chain in
        let server := chain_server chain in
        c ← deref cert;
        let local := signing_report oid marker chain (hostname_matches c host) in
        if negb (oid_ok local) || negb (pqc_marker_ok local) || negb chain_ok ||
           negb (hostname_ok local) || is_null sm2_public_key
        then done root signing sm2_public_key local false
        else
          '(ok, sm2_public_key) ← tlcp_hybrid_cert_get_sm2_sign_public_key
            signing_cert_der signing_cert_der_len sm2_public_key;
          done root signing sm2_public_key local (if negb ok then false else chain_ok)
  end.
End tlcp.

Definition pass_fail (b : bool) : string := if b then "PASS" else "FAIL".

Definition tlcp_hybrid_cert_report_print (report : option TLCP_HYBRID_CERT_VERIFY_REPORT) : M unit :=
  match report with
  | None => mret tt
  | Some r =>
      print ("[Hybrid Cert] Composite OID: " ++ pass_fail (oid_ok r));;
      print ("[Hybrid Cert] PQC marker: " ++ pass_fail (pqc_marker_ok r));;
      print ("[Hybrid Cert] issuer/subject: " ++ pass_fail (issuer_subject_ok r));;
      print ("[Hybrid Cert] validity: " ++ pass_fail (validity_ok r));;
      print ("[Hybrid Cert] constraints: " ++ pass_fail (constraints_ok r));;
      print ("[Hybrid Cert] hostname: " ++ pass_fail (hostname_ok r));;
      print ("[Hybrid Cert] Dilithium2: " ++ pass_fail (dilithium_ok r));;
      print ("[Hybrid Cert] SM2: " ++ pass_fail (sm2_ok r));;
      print ("[Hybrid Cert] Composite AND: " ++ pass_fail (composite_ok r));;
      print ("[Hybrid Cert] Encryption SPKI is SM2: " ++ pass_fail (encryption_subject_spki_sm2_ok r));;
      print ("[Hybrid Cert] Encryption Composite OID: " ++ pass_fail (encryption_oid_ok r));;
      print ("[Hybrid Cert] Encryption PQC marker: " ++ pass_fail (encryption_pqc_marker_ok r));;
      print ("[Hybrid Cert] Encryption Dilithium2: " ++ pass_fail (encryption_dilithium_ok r));;
      print ("[Hybrid Cert] Encryption SM2: " ++ pass_fail (encryption_sm2_ok r));;
      print ("[Hybrid Cert] Encryption Composite AND: " ++ pass_fail (encryption_composite_ok r));;
      print ("[Hybrid Cert] Encryption certificate overall: " ++ pass_fail (encryption_certificate_ok r));;
      print ("[Hybrid Cert] TLCP dual identity: " ++ pass_fail (tlcp_dual_identity_ok r));;
      print ("[Hybrid Cert] TLCP dual certificate overall: " ++ pass_fail (tlcp_dual_certificate_ok r))
  end.

(** The assignments of the callback to the report of a valid signing
    certificate. *)
Definition set_encryption_report (r : TLCP_HYBRID_CERT_VERIFY_REPORT) (ok : bool)
    (e : HYBRID_CERT_VERIFY_RESULT) (identity : bool) : TLCP_HYBRID_CERT_VERIFY_REPORT :=
  VerifyReport (recognized_composite r) (oid_ok r) (pqc_marker_ok r) (issuer_subject_ok r)
    (validity_ok r) (constraints_ok r) (key_usage_ok r) (hostname_ok r) (dilithium_ok r)
    (sm2_ok r) (composite_ok r)
    (subject_public_key_sm2 e) (composite_oids_valid e) (pqc_extension_present e)
    (cert_dilithium_valid e) (cert_sm2_valid e) (cert_composite_valid e)
    ok identity (composite_ok r && ok && identity) (report_chain r) e.

Section callback.
Context `{Libc, OpenSSL, Dilithium2, !X509Library}.

Definition same_identity (signing encryption : option (obj X509)) : M bool :=
  match signing, encryption with
  | Some a, Some b =>
      a ← deref a;
      b ← deref b;
      mret ((X509_NAME_cmp (X509_get_subject_name a) (X509_get_subject_name b) =? 0) &&
            (X509_NAME_cmp (X509_get_issuer_name a) (X509_get_issuer_name b) =? 0))
  | _, _ => mret false
  end.

(** The difference of two pointers into one buffer. *)
Definition ptr_diff (p q : ptr) : Z := len (default [] q) - len (default [] p).

Definition tlcp_hybrid_cert_gmssl_verify_callback (cert_chain_der : ptr) (cert_chain_der_len : Z)
    (sm2_public_key : ptr) (arg : option TLCP_HYBRID_CERT_ADAPTER_CONFIG) (verbose : Z)
    : M (Z * (ptr * option TLCP_HYBRID_CERT_ADAPTER_CONFIG)) :=
  match arg with
  | None => mret (int_of_result TLCP_HYBRID_CERT_INVALID, (sm2_public_key, arg))
  | Some config =>
      '(signing, (cursor, remaining)) ←
        decode_next_certificate (Some cert_chain_der) (Some cert_chain_der_len);
      let signing_der_len :=
        if is_null signing then 0
        else size_of_Z (ptr_diff (default None cursor) cert_chain_der) in
      '(encryption, _) ← decode_next_certificate cursor remaining;
      '(result, (sm2_public_key, local)) ←
        tlcp_hybrid_cert_verify_der cert_chain_der signing_der_len
          (trust_anchor_der config) (trust_anchor_der_len config)
          (expected_hostname config) sm2_public_key (Some (blank_report false));
      let local := default (blank_report false) local in
      '(result, (root, local)) ←
        match result with
        | TLCP_HYBRID_CERT_VALID =>
            root ← decode_der_strict (trust_anchor_der config) (trust_anchor_der_len config);
            '(ok, e) ← hybrid_verify_encryption_certificate encryption root
                         (Some (report_encryption local));
            identity ← same_identity signing encryption;
            let local := set_encryption_report local ok (default zero_result e) identity in
            mret (if negb (tlcp_dual_certificate_ok local) then TLCP_HYBRID_CERT_INVALID
                  else TLCP_HYBRID_CERT_VALID, (root, local))
        | _ => mret (result, (None, local))
        end;
      let config := AdapterConfig (trust_anchor_der config) (trust_anchor_der_len config)
        (expected_hostname config) (match last_report config with None => None | Some _ => Some local end) in
      (if negb (verbose =? 0) && negb (bool_decide (result = TLCP_HYBRID_CERT_NOT_APPLICABLE))
       then tlcp_hybrid_cert_report_print (Some local) else mret tt);;
      free_object encryption;;
      free_object signing;;
      free_object root;;
      mret (int_of_result result, (sm2_public_key, Some config))
  end.
End callback.

#[global] Arguments signing_report : simpl never.
#[global] Arguments contains_composite_oid : simpl never.
#[global] Arguments decode_der_strict : simpl never.
#[global] Arguments decode_next_certificate : simpl never.
#[global] Arguments certificate_mentions_composite : simpl never.
#[global] Arguments tlcp_hybrid_cert_get_sm2_sign_public_key : simpl never.
#[global] Arguments tlcp_hybrid_cert_verify_der : simpl never.
#[global] Arguments tlcp_hybrid_cert_report_print : simpl never.
#[global] Arguments same_identity : simpl never.
#[global] Arguments tlcp_hybrid_cert_gmssl_verify_callback : simpl never.

(** ** Specifications *)

(** The object identifier occurs in the bytes. *)
Definition mentions_oid (e : list byte) : Prop := ∃ pre post, e = pre ++ composite_oid_der ++ post.

Lemma len_composite_oid_der : len composite_oid_der = 12.
Proof. done. Qed.

(** The window at [i] is the object identifier. *)
Lemma mentions_oid_window e :
  mentions_oid e ↔ ∃ i, 0 ≤ i ≤ len e - 12 ∧ ztake 12 (zdrop i e) = composite_oid_der.
Proof.
  rewrite <-len_composite_oid_der. split.
  - intros (pre & post & ->). exists (len pre). split; [pose proof (len_nonneg pre); rewrite !len_app; pose proof (len_nonneg post); lia|].
    rewrite zdrop_app by done. by apply ztake_app.
  - intros (i & Hi & Hw). exists (ztake i e), (zdrop (len composite_oid_der) (zdrop i e)).
    rewrite <-Hw at 1. by rewrite !ztake_zdrop.
Qed.

Lemma wp_find_composite_oid fuel e i last s :
  0 ≤ i ≤ last + 1 → last + 12 ≤ len e → last < SIZE_MAX → last + 1 - i < Z.of_nat fuel →
  wp (find_composite_oid fuel (Some e) i last)
    (λ r s', s' = s ∧ (r = true ↔ ∃ j, i ≤ j ≤ last ∧ ztake 12 (zdrop j e) = composite_oid_der)) s.
Proof.
  intros Hi Hl Hs. revert i Hi. induction fuel as [|fuel IH]; intros i Hi Hf; [lia|].
  cbn [find_composite_oid fmap option_fmap option_map]. rewrite len_composite_oid_der.
  destruct (Z.leb_spec i last) as [Hle|Hgt]; cbn [negb].
  2: { apply wp_ret. split; [done|]. split; [done|]. intros (j & ? & _). lia. }
  apply wp_bind. eapply wp_spec; [apply _| |].
  { unfold readable. cbn [fmap option_fmap option_map]. rewrite len_zdrop; lia. }
  intros r s' [-> ->]. unfold bytes_at. cbn [default from_option id].
  destruct (bool_decide _) eqn:E; simpl_bool.
  - apply wp_ret. split; [done|]. split; [|done]. intros _. exists i. split; [lia|done].
  - rewrite size_add_small by lia. eapply wp_mono; [apply IH; lia|]. intros r s' [-> Hr].
    split; [done|]. rewrite Hr. split; intros (j & Hj & Hw).
    + exists j. split; [lia|done].
    + exists j. split; [|done]. destruct (decide (j = i)) as [->|]; [done|lia].
Qed.

#[export] Instance spec_contains_composite_oid der n :
  Spec (contains_composite_oid der n) (λ _, valid der n)
    (λ r s s', s' = s ∧ (r = true ↔ mentions_oid (bytes_at der n))).
Proof.
  intros s [Hn Hv]. unfold contains_composite_oid. rewrite len_composite_oid_der. setoid_rewrite mentions_oid_window.
  destruct der as [e|]; cbn [is_null orb].
  2: { apply wp_ret. split; [done|]. split; [done|]. intros (i & Hi & _).
       rewrite bytes_at_null in Hi. unfold len in Hi. cbn in Hi. lia. }
  unfold bytes_at. cbn [default from_option id]. rewrite len_ztake by lia.
  destruct (Z.ltb_spec n 12).
  { apply wp_ret. split; [done|]. split; [done|]. intros (i & Hi & _). lia. }
  rewrite size_sub_small by lia. eapply wp_mono; [apply wp_find_composite_oid; lia|].
  intros r s' [-> Hr]. split; [done|]. rewrite Hr. split; intros (j & Hj & Hw); (exists j; split; [lia|]).
  - rewrite <-ztake_of_zdrop, ztake_ztake by lia. done.
  - rewrite <-ztake_of_zdrop, ztake_ztake in Hw by lia. done.
Qed.

Section specs.
Context `{Libc, OpenSSL, !OpenSSLSizes, Dilithium2, !Dilithium2Sizes, !X509Library, !X509Sizes}.

(** The bytes [e] are one certificate, whole, that satisfies [P]. *)
Definition der_decoded (Q : modality) (e : list byte) (P : X509 → Prop) : Prop :=
  0 < len e ≤ LONG_MAX ∧ Q _ (d2i_X509 e) (on_some (λ r, snd r = len e ∧ P (fst r))).

(** [e] starts with a certificate; [P] holds of it and of its length. *)
Definition next_decoded (Q : modality) (e : list byte) (P : X509 → Z → Prop) : Prop :=
  0 < len e ≤ LONG_MAX ∧
  Q _ (d2i_X509 e) (on_some (λ r, 0 < snd r ≤ len e ∧ P (fst r) (snd r))).

Lemma der_decoded_once e c P : der_decoded once e (eq c) → P c → der_decoded once e P.
Proof.
  intros (He & t & Hd) HP. split; [done|]. exists t.
  destruct (d2i_X509 e t) as [[c' n]|]; cbn in *; naive_solver.
Qed.

#[export] Instance spec_decode_der_strict der n :
  Spec (decode_der_strict der n) (λ _, valid der n)
    (λ r s s', frame ∅ (owns r) s s' ∧
       (∀ c, r = Some c → is_Some der ∧ n = len (bytes_at der n) ∧
                          der_decoded once (bytes_at der n) (eq (obj_val c))) ∧
       (∀ P, der_decoded always (bytes_at der n) P → ∃ c, r = Some c ∧ P (obj_val c))).
Proof.
  wp_start. unfold decode_der_strict, der_decoded.
  destruct der as [e|]; cbn [is_null orb].
  2: { apply wp_ret. split_and!; [done|done|]. intros P'. rewrite bytes_at_null. intros [[? _] _]. done. }
  pose proof (len_bytes_at_some e n P) as Hl. rewrite Hl.
  wp_case ((n =? 0) || (n >? LONG_MAX)).
  { apply wp_ret. split_and!; [done|done|]. intros P' [? _]. destruct (n >? LONG_MAX) eqn:?; simpl_bool; lia. }
  wp_call as r [-> ->]. wp_call as r [F1 Hr]. wp_call as o [F2 Ho]. cbn beta in Ho.
  destruct r as [[c m]|]; destruct o as [o|]; cbn in Ho; simplify_eq; cbn [is_null orb from_option snd].
  2: { wp_call as ? ?. apply wp_ret. split_and!; [solve_frame|done|]. intros P' [_ Hal]. always_auto. }
  destruct P as [Hn _]. destruct (Z.eqb_spec m n) as [->|]; cbn [negb].
  - apply wp_ret. split_and!; [solve_frame| |].
    + intros ? [= <-]. split_and!; [done|done|lia|lia|]. once_auto.
    + intros P' [_ Hal]. always_auto. by exists o.
  - wp_call as ? ?. apply wp_ret. split_and!; [solve_frame|done|]. intros P' [_ Hal]. always_auto.
Qed.

(** On success the cursor is past the certificate. *)
#[export] Instance spec_decode_next_certificate der n :
  Spec (decode_next_certificate (Some der) (Some n)) (λ _, valid der n)
    (λ r s s', frame ∅ (owns (fst r)) s s' ∧
       match fst r with
       | Some c => ∃ e m, der = Some e ∧ 0 < m ≤ n ∧ n ≤ LONG_MAX ∧
           snd r = (Some (Some (zdrop m e)), Some (n - m)) ∧
           next_decoded once (bytes_at der n) (λ c' m', c' = obj_val c ∧ m' = m)
       | None => snd r = (Some der, Some n)
       end ∧
       (∀ P, next_decoded always (bytes_at der n) P → ∃ c e m, der = Some e ∧ fst r = Some c ∧
          snd r = (Some (Some (zdrop m e)), Some (n - m)) ∧ P (obj_val c) m)).
Proof.
  wp_start. unfold decode_next_certificate, next_decoded.
  destruct der as [e|].
  2: { apply wp_ret. split_and!; [done|done|]. intros P'. rewrite bytes_at_null. intros [[? _] _]. done. }
  pose proof (len_bytes_at_some e n P) as Hl. rewrite Hl. pose proof P as [Hn Hle].
  wp_case ((n =? 0) || (n >? LONG_MAX)).
  { apply wp_ret. split_and!; [done|done|]. intros P' [? _]. destruct (n >? LONG_MAX) eqn:?; simpl_bool; lia. }
  wp_call as r [-> ->]. wp_call as r [F1 Hr]. wp_call as o [F2 Ho]. cbn beta in Ho. cbn zeta.
  destruct r as [[c m]|]; destruct o as [o|]; cbn in Ho; simplify_eq; cbn [is_null orb from_option snd].
  2: { wp_call as ? ?. apply wp_ret. split_and!; [solve_frame|done|]. intros P' [_ Hal]. always_auto. }
  destruct (Z.leb_spec m 0); cbn [orb].
  { wp_call as ? ?. apply wp_ret. split_and!; [solve_frame|done|]. intros P' [_ Hal]. always_auto. }
  pose proof (d2i_x509_size _ _ _ _ Hr) as Hm. rewrite Hl in Hm. rewrite size_of_Z_small by lia.
  destruct (Z.gtb_spec m n); [lia|]. rewrite size_sub_small by lia.
  apply wp_ret. split_and!; [solve_frame| |].
  - exists e, m. split_and!; [done|done|lia|lia|done|lia|lia|]. cbn. once_auto.
  - intros P' [_ Hal]. always_auto. by exists o, e, m.
Qed.

(** One of the algorithm identifiers of [c] is [o]. *)
Definition mentions_object (c : X509) (o : ASN1_OBJECT) : Prop :=
  ∃ a x, (snd (X509_get0_signature c) = Some a ∨ X509_get0_tbs_sigalg c = Some a) ∧
         fst (X509_ALGOR_get0 a) = Some x ∧ OBJ_cmp x o = 0.
Definition mentions_composite (Q : modality) (c : X509) : Prop :=
  Q _ (OBJ_txt2obj COMPOSITE_SM2_DILITHIUM_EXPERIMENTAL_OID 1) (on_some (mentions_object c)).

#[export] Instance spec_certificate_mentions_composite c :
  Spec (certificate_mentions_composite (Some c)) (alive (Some c))
    (λ r s s', frame ∅ ∅ s s' ∧
       decides r (mentions_composite once (obj_val c)) (mentions_composite always (obj_val c))).
Proof.
  wp_start. unfold certificate_mentions_composite, mentions_composite.
  wp_call as r [-> ->]. wp_call as [o|] [F Ho]; cbn in Ho.
  2: { wp_call as ? ?. apply wp_ret. split; [solve_frame|]. split; [done|]. intros Hal. always_auto. }
  wp_call as r [-> ->]. wp_call as ? ?. apply wp_ret. split; [solve_frame|].
  match goal with |- decides ?r _ _ => assert (Hr : r = true ↔ mentions_object (obj_val c) (obj_val o)) end.
  { unfold mentions_object. rewrite orb_true_iff.
    destruct (snd (X509_get0_signature (obj_val c))) as [a|], (X509_get0_tbs_sigalg (obj_val c)) as [b|];
      cbn [mbind option_bind]; try destruct (fst (X509_ALGOR_get0 a)) eqn:?;
      try destruct (fst (X509_ALGOR_get0 b)) eqn:?; rewrite ?Z.eqb_eq; naive_solver. }
  split; rewrite Hr; intros; [once_auto|always_auto].
Qed.

(** The certificate [c] holds a composite key, whose SM2 part has the octets
    [pub]. *)
Definition signing_key (c : X509) (pub : list byte) : Prop :=
  signature_algorithms_composite c = true ∧ spki_composite c = true ∧
  ∃ e k o, certificate_key_bytes c = Some e ∧ composite_imported e k ∧
    sm2_public_key k = Some o ∧ sm2_octets (obj_val o) pub.
Definition always_signing_key (c : X509) : Prop :=
  signature_algorithms_composite c = true ∧ spki_composite c = true ∧
  ∃ e, certificate_key_bytes c = Some e ∧ len e = COMPOSITE_PUBLIC_KEY_BYTES ∧
    e !! Z.to_nat DILITHIUM_PUBLIC_KEY_BYTES = Some Byte.x04 ∧
    sm2_always_imports (zdrop DILITHIUM_PUBLIC_KEY_BYTES e) ∧
    ∀ k o, composite_imported e k → sm2_public_key k = Some o → sm2_always_octets (obj_val o).

#[export] Instance spec_tlcp_hybrid_cert_get_sm2_sign_public_key der n pk :
  Spec (tlcp_hybrid_cert_get_sm2_sign_public_key der n pk)
    (λ _, valid der n ∧ from_option (λ b, len b = SM2_UNCOMPRESSED_PUBLIC_KEY_BYTES) True pk)
    (λ r s s', frame ∅ ∅ s s' ∧ is_null pk = is_null (snd r) ∧
       from_option (λ b, len b = SM2_UNCOMPRESSED_PUBLIC_KEY_BYTES) True (snd r) ∧
       (fst r = true → ∃ pub, snd r = Some pub ∧
          der_decoded once (bytes_at der n) (λ c, signing_key c pub)) ∧
       (is_Some pk → der_decoded always (bytes_at der n) always_signing_key → fst r = true)).
Proof.
  wp_start. destruct P as [Hv Hpk]. unfold tlcp_hybrid_cert_get_sm2_sign_public_key, signing_key.
  wp_call as cert (F & Hdec & Hal).
  set (Post := λ (r : bool * ptr) s', frame ∅ ∅ s s' ∧ _).
  assert (Hdone : ∀ key (ok : bool) pk' s', frame ∅ (owns cert ⊎ public_owns key) s s' →
    is_null pk = is_null pk' ∧ from_option (λ b, len b = SM2_UNCOMPRESSED_PUBLIC_KEY_BYTES) True pk' →
    (ok = true → ∃ pub c, pk' = Some pub ∧ cert = Some c ∧ signing_key (obj_val c) pub) →
    (is_Some pk → ∀ c, cert = Some c → always_signing_key (obj_val c) → ok = true) →
    wp (hybrid_public_key_cleanup key;; free_object cert;; mret (ok, pk')) Post s').
  { intros key ok pk' s' F1 [Hn Hl] Hok Hc. wp_call as r [F2 ->]. wp_call as ? ?. apply wp_ret.
    split_and!; [solve_frame|done|done| |].
    - intros (pub & c & -> & -> & Hk)%Hok. exists pub. split; [done|].
      destruct (Hdec _ eq_refl) as (_ & _ & Hd). by eapply der_decoded_once.
    - intros Hp (c & -> & Hk)%Hal. by eapply Hc. }
  destruct cert as [cert|]; cbn [is_null]; [|by apply Hdone].
  wp_call as r [-> ->]. cbn [from_option]. unfold always_signing_key, signing_key in Hdone.
  destruct (signature_algorithms_composite (obj_val cert)) eqn:Ha, (spki_composite (obj_val cert)) eqn:Hs;
    cbn [andb negb];
    try (apply Hdone; [by owns_unfold; rewrite ms_right_id|by split|done|naive_solver congruence]).
  wp_call as [[] key] ([F1 Hk] & Hka); cbn [negb fst snd] in *.
  2: { subst key. apply Hdone; [solve_frame|by split|done|].
       intros _ ? [= <-] (_ & _ & e & He & Hle & H04 & Himp & _). by eapply (Hka cert). }
  destruct Hk as (? & e & k & [= <-] & He & -> & Hk). pose proof Hk as (_ & _ & o & Ho & _).
  wp_call as [ok pk'] (F2 & Hn & Hl & Hok & Hall).
  cbn [fst snd] in *. apply Hdone; [solve_frame|by split| |].
  - intros (? & o' & pub & [= <-] & Ho' & -> & Hoct)%Hok. exists pub, cert.
    split_and!; [done..|]. by exists e, k, o'.
  - intros Hp ? [= <-] (_ & _ & e' & He' & _ & _ & _ & Hoct). simplify_eq. eapply Hall; [done|done|done|].
    by eapply Hoct.
Qed.

(** The conditions on a signing certificate [c] under the root [r]. *)
Definition signing_accepts (host : option string) (c r : X509) (pub : list byte) : Prop :=
  mentions_composite once c ∧ root_accepts once (issued_by r r) r ∧
  server_accepts once (issued_by r c) c r ∧ hostname_matches c host = true ∧ signing_key c pub.
Definition always_signing_accepts (host : option string) (c r : X509) : Prop :=
  mentions_composite always c ∧ root_accepts always (always_issued_by r r) r ∧
  server_accepts always (always_issued_by r c) c r ∧ hostname_matches c host = true ∧
  always_signing_key c.

(** The entries of the report on the signing certificate. *)
Definition signing_flags (l : TLCP_HYBRID_CERT_VERIFY_REPORT) : bool :=
  recognized_composite l && oid_ok l && pqc_marker_ok l && issuer_subject_ok l && validity_ok l &&
  constraints_ok l && key_usage_ok l && hostname_ok l && dilithium_ok l && sm2_ok l && composite_ok l.

(** The result and report of the verification of [e] under the anchor [a]. *)
Record signing_verdict (e a : list byte) (host : option string) (pk pk' : ptr)
    (res : TLCP_HYBRID_CERT_RESULT) (local : TLCP_HYBRID_CERT_VERIFY_REPORT) : Prop := {
  sv_key_null : is_null pk = is_null pk';
  sv_key_len : from_option (λ b, len b = SM2_UNCOMPRESSED_PUBLIC_KEY_BYTES) True pk';
  sv_not_applicable : res = TLCP_HYBRID_CERT_NOT_APPLICABLE ↔ recognized_composite local = false;
  sv_recognized : recognized_composite local = true →
    mentions_oid e ∨ der_decoded once e (mentions_composite once);
  sv_recognizes : der_decoded always e (mentions_composite always) → recognized_composite local = true;
  sv_malformed : mentions_oid e → (∀ t c, d2i_X509 e t ≠ Some (c, len e)) →
    recognized_composite local = true;
  sv_sound : res = TLCP_HYBRID_CERT_VALID → ∃ c r pub, pk' = Some pub ∧
    der_decoded once e (eq c) ∧ der_decoded once a (eq r) ∧ signing_accepts host c r pub;
  sv_flags : res = TLCP_HYBRID_CERT_VALID → signing_flags local = true;
  sv_complete : is_Some pk →
    der_decoded always e (λ c, der_decoded always a (always_signing_accepts host c)) →
    res = TLCP_HYBRID_CERT_VALID;
  sv_and : composite_ok local = dilithium_ok local && sm2_ok local
}.

Context `{!X509Decoding}.

Lemma der_decoded_unique e c P : der_decoded once e (eq c) → der_decoded once e P → P c.
Proof.
  intros (_ & t & H9) (_ & t' & H10).
  destruct (d2i_X509 e t) as [[c1 n1]|] eqn:E1, (d2i_X509 e t') as [[c2 n2]|] eqn:E2; cbn in *; try done.
  destruct H9 as [-> <-], H10 as [-> HP]. rewrite <-(app_nil_r e) in E1 at 1.
  by rewrite (d2i_x509_prefix _ _ _ _ _ _ _ E1 E2) in HP.
Qed.

Lemma always_accepted_mentions e a host :
  der_decoded always e (λ c, der_decoded always a (always_signing_accepts host c)) →
  der_decoded always e (mentions_composite always).
Proof.
  intros [He Hd]. split; [done|]. intros t. specialize (Hd t).
  destruct (d2i_X509 e t) as [[c n]|]; [|done]. destruct Hd as [Hn [_ Hd]]. split; [done|]. specialize (Hd 0%N).
  destruct (d2i_X509 a 0%N) as [[r m]|]; [|done]. by destruct Hd as (_ & Hm & _).
Qed.

(** The verdict when the certificate is not decoded or not recognised. *)
Lemma blank_verdict e a host pk pk' (recognized : bool) :
  is_null pk = is_null pk' → from_option (λ b, len b = SM2_UNCOMPRESSED_PUBLIC_KEY_BYTES) True pk' →
  (recognized = true → mentions_oid e) →
  (mentions_oid e → (∀ t c, d2i_X509 e t ≠ Some (c, len e)) → recognized = true) →
  ¬ der_decoded always e (mentions_composite always) →
  signing_verdict e a host pk pk'
    (if recognized then TLCP_HYBRID_CERT_INVALID else TLCP_HYBRID_CERT_NOT_APPLICABLE)
    (blank_report recognized).
Proof.
  intros Hn Hl Hr Hm Hd. split; try done; try (by destruct recognized).
  - left. by apply Hr.
  - intros _ Hal. destruct Hd. by eapply always_accepted_mentions.
Qed.

Ltac rewrite_flags :=
  simpl_bool; repeat match goal with H : _ = true |- _ => rewrite H; clear H end; done.

(** The verdict flags of a valid chain. *)
Lemma valid_chain_flags c r lr ls :
  root_verdict (Some r) lr → server_verdict (Some c) (Some r) ls →
  certificate_valid lr = true → certificate_valid ls = true →
  issuer_subject_link_valid ls && (validity_valid lr && validity_valid ls) &&
  (issuer_ca_constraints_valid ls && subject_constraints_valid ls) && subject_constraints_valid ls &&
  cert_dilithium_valid ls && cert_sm2_valid ls && cert_composite_valid ls = true.
Proof.
  intros (_ & -> & _) ([Hand _] & -> & _). unfold root_flags, server_flags, common_flags.
  intros ? ?. simpl_bool. rewrite Hand in *. simpl_bool.
  rewrite_flags.
Qed.

Lemma wp_clear_key {B} (pk : ptr) (k : ptr → M B) Φ s :
  from_option (λ b, len b = SM2_UNCOMPRESSED_PUBLIC_KEY_BYTES) True pk →
  (∀ pk', is_null pk = is_null pk' →
     from_option (λ b, len b = SM2_UNCOMPRESSED_PUBLIC_KEY_BYTES) True pk' → wp (k pk') Φ s) →
  wp (pk ← match pk with
           | None => mret None
           | Some k => k ← cleanse k SM2_UNCOMPRESSED_PUBLIC_KEY_BYTES; mret (Some k)
           end; k pk) Φ s.
Proof.
  intros Hpk HΦ. pose proof (frame_refl s). destruct pk as [b|]; cbn in Hpk.
  - wp_call as r [-> ->]. apply wp_ret. apply HΦ; [done|]. by apply len_cleanse.
  - wp_pure. apply wp_ret. by apply HΦ.
Qed.

(** The chain verification when there is a root: its report, what its success
    means and when it succeeds. *)
Definition chain_checked (c : obj X509) (root : option (obj X509)) (ok : bool)
    (ch : HYBRID_CHAIN_VERIFY_RESULT) : Prop :=
  cert_composite_valid (chain_server ch) =
    cert_dilithium_valid (chain_server ch) && cert_sm2_valid (chain_server ch) ∧
  (ok = true → ∃ r, root = Some r ∧
     root_verdict (Some r) (chain_root ch) ∧ server_verdict (Some c) (Some r) (chain_server ch) ∧
     certificate_valid (chain_root ch) = true ∧ certificate_valid (chain_server ch) = true) ∧
  (∀ r, root = Some r →
     root_accepts always (always_issued_by (obj_val r) (obj_val r)) (obj_val r) →
     server_accepts always (always_issued_by (obj_val r) (obj_val c)) (obj_val c) (obj_val r) →
     ok = true).

Lemma wp_verify_root {B} (c : obj X509) root (k : bool * option HYBRID_CHAIN_VERIFY_RESULT → M B) Φ s :
  alive root s → alive (Some c) s →
  (∀ ok ch s', frame ∅ ∅ s s' → chain_checked c root ok ch → wp (k (ok, Some ch)) Φ s') →
  wp (r ← (if is_null root then mret (false, Some zero_chain)
           else hybrid_verify_chain root (Some c) (Some zero_chain)); k r) Φ s.
Proof.
  intros Hr Hc HΦ. pose proof (frame_refl s). destruct root as [r|]; cbn [is_null].
  - wp_call as res (F & ch & -> & _ & Hroot & Hserver & Hok). apply HΦ; [done|].
    pose proof Hserver as [[Hand _] _]. split; [done|]. rewrite Hok. split.
    + intros ?. simpl_bool. by exists r.
    + intros ? [= <-] Har Has. destruct Hroot as (_ & _ & _ & Hra), Hserver as (_ & _ & _ & Hsa).
      by rewrite Hra, Hsa.
  - wp_pure. apply wp_ret. apply HΦ; [done|]. by split_and!.
Qed.

(** The verdict when the certificate is recognised. *)
Lemma recognised_verdict e a host pk pk' (ok : bool) (c : obj X509) root (chain_ok : bool) ch (marker : bool) :
  let local := signing_report (signature_algorithms_composite (obj_val c) && spki_composite (obj_val c))
                 marker ch (hostname_matches (obj_val c) host) in
  let all := oid_ok local && pqc_marker_ok local && chain_ok && hostname_ok local = true in
  is_null pk = is_null pk' → from_option (λ b, len b = SM2_UNCOMPRESSED_PUBLIC_KEY_BYTES) True pk' →
  der_decoded once e (eq (obj_val c)) → mentions_composite once (obj_val c) →
  (∀ P, der_decoded always e P → P (obj_val c)) →
  (∀ r, root = Some r → der_decoded once a (eq (obj_val r))) →
  (∀ P, der_decoded always a P → ∃ r, root = Some r ∧ P (obj_val r)) →
  (certificate_marked always (obj_val c) → marker = true) →
  chain_checked c root chain_ok ch →
  (ok = true → all ∧ ∃ pub, pk' = Some pub ∧ der_decoded once e (λ c, signing_key c pub)) →
  (is_Some pk → all → der_decoded always e always_signing_key → ok = true) →
  signing_verdict e a host pk pk'
    (if ok then TLCP_HYBRID_CERT_VALID else TLCP_HYBRID_CERT_INVALID) local.
Proof.
  intros local all Hn Hl Hd Hm Hal Hr Hral Hmark (Hand & Hcok & Hcal) Hok Hok'.
  split; try done; try (by destruct ok).
  - intros _. right. by eapply der_decoded_once.
  - destruct ok; [|done]. intros _. destruct (Hok eq_refl) as (Hall & pub & -> & Hkey). unfold all in Hall.
    simpl_bool. destruct Hcok as (r & -> & (_ & _ & Hra & _) & (_ & _ & Hsa & _) & ? & ?); [done|].
    exists (obj_val c), (obj_val r), pub. split_and!; [done|done|by apply Hr|]. split_and!; auto.
    exact (der_decoded_unique e (obj_val c) (λ c, signing_key c pub) Hd Hkey).
  - destruct ok; [|done]. intros _. destruct (Hok eq_refl) as (Hall & _). unfold all in Hall.
    simpl_bool. destruct Hcok as (r & -> & Hrv & Hsv & ? & ?); [done|].
    pose proof (valid_chain_flags _ _ _ _ Hrv Hsv ltac:(done) ltac:(done)) as Hf.
    unfold signing_flags, local, signing_report in *. cbn -[andb] in *. rewrite_flags.
  - intros Hp Hacc. pose proof (Hal _ Hacc) as (r & -> & _ & Hra & Hsa & Hh & Hk)%Hral.
    rewrite Hok'; [done|done| |].
    + unfold all, local. cbn. destruct Hk as (-> & -> & _). rewrite Hh, (Hcal r), Hmark; try done.
      by destruct Hsa as (_ & _ & _ & _ & _ & _ & _ & ? & _).
    + destruct Hacc as [He Hacc]. split; [done|]. intros t. specialize (Hacc t).
      destruct (d2i_X509 e t) as [[c' n]|]; [|done]. destruct Hacc as (? & ? & Hx). split; [done|].
      specialize (Hx 0%N). destruct (d2i_X509 a 0%N) as [[r' m]|]; [|done]. by destruct Hx as (_ & _ & _ & _ & _ & Hx).
Qed.

#[export] Instance spec_tlcp_hybrid_cert_verify_der der n ader an host pk report :
  Spec (tlcp_hybrid_cert_verify_der der n ader an host pk report)
    (λ _, valid der n ∧ valid ader an ∧
          from_option (λ b, len b = SM2_UNCOMPRESSED_PUBLIC_KEY_BYTES) True pk)
    (λ r s s', frame ∅ ∅ s s' ∧ ∃ res pk' local, r = (res, (pk', (λ _, local) <$> report)) ∧
       signing_verdict (bytes_at der n) (bytes_at ader an) host pk pk' res local).
Proof.
  wp_start. destruct P as (Hv & Hav & Hpk). unfold tlcp_hybrid_cert_verify_der.
  set (e := bytes_at der n). set (a := bytes_at ader an).
  set (Post := λ r s', frame ∅ ∅ s s' ∧ _).
  assert (Hdone : ∀ (root signing : option (obj X509)) pk' local (ok : bool) s',
    frame ∅ (owns root ⊎ owns signing) s s' →
    signing_verdict e a host pk pk' (if recognized_composite local then
      if ok then TLCP_HYBRID_CERT_VALID else TLCP_HYBRID_CERT_INVALID
      else TLCP_HYBRID_CERT_NOT_APPLICABLE) local →
    wp (free_object root;; free_object signing;;
        if negb (recognized_composite local)
        then mret (TLCP_HYBRID_CERT_NOT_APPLICABLE,
                   (pk', match report with None => None | Some _ => Some local end))
        else mret (if ok then TLCP_HYBRID_CERT_VALID else TLCP_HYBRID_CERT_INVALID,
                   (pk', match report with None => None | Some _ => Some local end)))
      Post s').
  { intros root signing pk' local ok s' F1 Hsv. subst Post. wp_call as ? ?. wp_call as ? ?. cbn zeta.
    destruct (recognized_composite local); cbn [negb]; apply wp_ret; (split; [solve_frame|]);
      eexists _, _, local; (split; [by destruct report|done]). }
  clearbody Post. apply wp_clear_key; [done|]. intros pk' Hn Hl.
  wp_call as cert (F & Hdec & Hal). fold e in Hdec, Hal. destruct cert as [cert|].
  2: { wp_call as b [-> Hb]. fold e in Hb. apply (Hdone None None pk' (blank_report b) false); [solve_frame|]. cbn [recognized_composite blank_report].
       apply blank_verdict; try done.
       - by apply Hb.
       - intros Hm _. by apply Hb.
       - intros (? & [=] & _)%Hal. }
  destruct (Hdec _ eq_refl) as (_ & _ & Hd). clear Hdec.
  wp_call as recognized [F1 [Hrec1 Hrec2]]. destruct recognized; cbn [negb].
  2: { apply (Hdone None (Some cert) pk' (blank_report false) false); [solve_frame|]. cbn [recognized_composite blank_report].
       apply (blank_verdict _ _ _ _ _ false); try done.
       - intros _ Hu. destruct Hd as (_ & t & Ht). specialize (Hu t).
         destruct (d2i_X509 e t) as [[c m]|]; [|done]. destruct Ht as [Hm _]. cbn in Hm. subst m. naive_solver.
       - intros (? & [= <-] & Hm)%Hal. by apply Hrec2 in Hm. }
  wp_call as oid [-> ->]. cbn [from_option]. wp_call as marker (F2 & Hmark).
  wp_call as root (F3 & Hroot & Hral). fold a in Hroot, Hral.
  apply wp_verify_root; [solve_alive|solve_alive|].
  intros chain_ok ch s' F4 (Hand & Hcok & Hcal). frame_merge. wp_call as r [-> ->].
  cbn [default from_option id].
  set (local := signing_report _ marker ch _).
  assert (Hverdict : ∀ pk'' (ok : bool), is_null pk = is_null pk'' →
    from_option (λ b, len b = SM2_UNCOMPRESSED_PUBLIC_KEY_BYTES) True pk'' →
    (ok = true → oid_ok local && pqc_marker_ok local && chain_ok && hostname_ok local = true ∧
       ∃ pub, pk'' = Some pub ∧ der_decoded once e (λ c, signing_key c pub)) →
    (is_Some pk → oid_ok local && pqc_marker_ok local && chain_ok && hostname_ok local = true →
       der_decoded always e always_signing_key → ok = true) →
    signing_verdict e a host pk pk'' (if recognized_composite local then
      if ok then TLCP_HYBRID_CERT_VALID else TLCP_HYBRID_CERT_INVALID
      else TLCP_HYBRID_CERT_NOT_APPLICABLE) local).
  { intros pk'' ok Hn' Hl' Hok Hok'. apply (recognised_verdict e a host pk pk'' ok cert root chain_ok ch marker);
      try done.
    - by apply Hrec1.
    - intros P' (? & [= <-] & HP)%Hal. done.
    - intros r Hr. by apply Hroot.
    - by apply (proj2 Hmark). }
  clearbody local.
  match goal with |- wp (if ?b then _ else _) _ _ => destruct b eqn:E end.
  - apply (Hdone root (Some cert) pk' local false); [solve_frame|]. apply (Hverdict pk' false); try done.
    intros [? ->] Hall _. rewrite <-Hn in E.
    destruct (oid_ok local), (pqc_marker_ok local), chain_ok, (hostname_ok local); done.
  - wp_call as [ok pk''] (F5 & Hn' & Hl' & Hok & Hoka). cbn [fst snd] in *.
    apply (Hdone root (Some cert) pk'' local (if negb ok then false else chain_ok)); [solve_frame|].
    assert (Hall : oid_ok local && pqc_marker_ok local && chain_ok && hostname_ok local = true).
    { by destruct (oid_ok local), (pqc_marker_ok local), chain_ok, (hostname_ok local). }
    apply (Hverdict pk'' (if negb ok then false else chain_ok)); [congruence|done| |].
    + intros Ho. split; [done|]. apply Hok. by destruct ok.
    + intros [? ->] _ Hk. rewrite Hoka; [by destruct chain_ok; simpl_bool| |done].
      apply is_null_false. by rewrite <-Hn.
Qed.

Lemma wp_print_then line (k : unit → M unit) s :
  (∀ s, wp (k tt) (λ _ s', ∃ l, s' = add_output l s) s) →
  wp (print line ≫= k) (λ _ s', ∃ l, s' = add_output l s) s.
Proof.
  intros Hk. apply wp_bind.
  change (wp (k tt) (λ _ s', ∃ l, s' = add_output l s) (add_output [line] s)).
  eapply wp_mono; [apply Hk|]. intros _ s' [l ->].
  exists ([line] ++ l). unfold add_output. by rewrite app_assoc.
Qed.

#[export] Instance spec_tlcp_hybrid_cert_report_print report :
  Spec (tlcp_hybrid_cert_report_print report) (λ _, True) (λ r s s', ∃ l, s' = add_output l s).
Proof.
  intros s _. unfold tlcp_hybrid_cert_report_print. destruct report as [r|].
  - do 17 (apply wp_print_then; clear s; intros s). by eexists.
  - apply wp_ret. exists []. by rewrite add_output_nil.
Qed.

Lemma ptr_diff_zdrop m (b : list byte) : 0 ≤ m ≤ len b → ptr_diff (Some (zdrop m b)) (Some b) = m.
Proof. intros. unfold ptr_diff. cbn. rewrite len_zdrop; lia. Qed.

Lemma bytes_at_zdrop m n (b : list byte) : 0 ≤ m ≤ n → bytes_at (Some (zdrop m b)) (n - m) = zdrop m (bytes_at (Some b) n).
Proof. apply ztake_of_zdrop. Qed.

Lemma bytes_at_prefix m n (b : list byte) : 0 ≤ m ≤ n → bytes_at (Some b) m = ztake m (bytes_at (Some b) n).
Proof. intros. symmetry. by apply ztake_ztake. Qed.

Definition names_same (a b : X509) : bool :=
  (X509_NAME_cmp (X509_get_subject_name a) (X509_get_subject_name b) =? 0) &&
  (X509_NAME_cmp (X509_get_issuer_name a) (X509_get_issuer_name b) =? 0).

#[export] Instance spec_same_identity a b :
  Spec (same_identity a b) (λ s, alive a s ∧ alive b s)
    (λ r s s', s' = s ∧ r = match a, b with
                            | Some a, Some b => names_same (obj_val a) (obj_val b)
                            | _, _ => false
                            end).
Proof.
  wp_start. destruct P as [Ha Hb]. unfold same_identity.
  destruct a as [a|], b as [b|]; try by apply wp_ret.
  wp_call as r [-> ->]. wp_call as r [-> ->]. by apply wp_ret.
Qed.

(** The conditions of the callback on the first two certificates of the
    chain, [c] of length [m] and then [d], under the root [r]. *)
Definition dual_accepts (chain a : list byte) (host : option string) (c d r : X509) (pub : list byte) : Prop :=
  ∃ m, next_decoded once chain (λ c' m', c' = c ∧ m' = m) ∧
    next_decoded once (zdrop m chain) (λ d' _, d' = d) ∧ der_decoded once a (eq r) ∧
    signing_accepts host c r pub ∧ encryption_accepts once (issued_by r d) d r ∧ names_same c d = true.
Definition dual_always_accepts (chain a : list byte) (host : option string) : Prop :=
  next_decoded always chain (λ c m, next_decoded always (zdrop m chain) (λ d _,
    der_decoded always (ztake m chain) (λ c', der_decoded always a (always_signing_accepts host c')) ∧
    der_decoded always a (λ r, encryption_accepts always (always_issued_by r d) d r) ∧
    names_same c d = true)).

Definition config_report (config : TLCP_HYBRID_CERT_ADAPTER_CONFIG)
    (local : TLCP_HYBRID_CERT_VERIFY_REPORT) : TLCP_HYBRID_CERT_ADAPTER_CONFIG :=
  AdapterConfig (trust_anchor_der config) (trust_anchor_der_len config) (expected_hostname config)
    ((λ _, local) <$> last_report config).

(** The result and report of the callback on the chain [e] under the anchor
    [a]. *)
Record callback_verdict (e a : list byte) (host : option string) (pk pk' : ptr)
    (res : TLCP_HYBRID_CERT_RESULT) (local : TLCP_HYBRID_CERT_VERIFY_REPORT) : Prop := {
  cv_sound : res = TLCP_HYBRID_CERT_VALID →
    signing_flags local && tlcp_dual_certificate_ok local = true ∧
    ∃ c d r pub, pk' = Some pub ∧ dual_accepts e a host c d r pub;
  cv_complete : is_Some pk → dual_always_accepts e a host → res = TLCP_HYBRID_CERT_VALID;
  cv_undecoded : (∀ t, d2i_X509 e t = None) → res = TLCP_HYBRID_CERT_NOT_APPLICABLE
}.

(** The report is printed and the certificates released. *)
Lemma wp_callback_end config verbose (enc cert root : option (obj X509)) (res : TLCP_HYBRID_CERT_RESULT)
    (pk' : ptr) local s0 s Φ :
  frame ∅ (owns enc ⊎ owns cert ⊎ owns root) s0 s →
  (∀ s1 l, frame ∅ ∅ s0 s1 →
     Φ (int_of_result res, (pk', Some (config_report config local))) (add_output l s1)) →
  wp ((if negb (verbose =? 0) && negb (bool_decide (res = TLCP_HYBRID_CERT_NOT_APPLICABLE))
       then tlcp_hybrid_cert_report_print (Some local) else mret tt);;
      free_object enc;; free_object cert;; free_object root;;
      mret (int_of_result res, (pk', Some (AdapterConfig (trust_anchor_der config)
        (trust_anchor_der_len config) (expected_hostname config)
        (match last_report config with None => None | Some _ => Some local end))))) Φ s.
Proof.
  intros F HΦ. apply wp_bind.
  assert (Hend : ∀ l, wp (free_object enc;; free_object cert;; free_object root;;
      mret (int_of_result res, (pk', Some (config_report config local)))) Φ (add_output l s)).
  { intros l. pose proof (frame_refl (add_output l s)).
    do 3 wp_call as ? ?. apply wp_ret, HΦ. frame_merge. solve_frame. }
  unfold config_report in Hend.
  replace (match last_report config with Some _ => Some local | None => None end)
    with ((λ _, local) <$> last_report config) by by destruct (last_report config).
  destruct (_ && _).
  - eapply wp_spec; [apply _|done|]. intros _ s' [l ->]. apply Hend.
  - apply wp_ret. rewrite <-(add_output_nil s). apply Hend.
Qed.

(** A certificate decoded from the start of a chain is the one its bytes
    decode to. *)
Lemma next_decoded_prefix e c m P :
  0 < m ≤ len e → next_decoded once e (λ c' m', c' = c ∧ m' = m) →
  der_decoded once (ztake m e) P → P c.
Proof.
  intros Hm (_ & t & Ht) (_ & t' & Ht').
  destruct (d2i_X509 e t) as [[c1 m1]|] eqn:E1; [|done]. cbn in Ht. destruct Ht as (_ & -> & ->).
  destruct (d2i_X509 (ztake m e) t') as [[c2 m2]|] eqn:E2; [|done]. destruct Ht' as [_ HP].
  pose proof (d2i_x509_prefix (ztake m e) (zdrop m e) t t' c c2 m2) as Hu.
  rewrite ztake_zdrop, len_ztake in Hu by lia. cbn in HP. by rewrite <-(Hu E1 E2).
Qed.

Lemma der_decoded_always_once e P : der_decoded always e P → der_decoded once e P.
Proof. intros [He Hd]. split; [done|]. by exists 0%N. Qed.

Lemma next_decoded_mono e (P P' : X509 → Z → Prop) :
  next_decoded once e P → (∀ c m, P c m → P' c m) → next_decoded once e P'.
Proof.
  intros (He & t & Hd) HP. split; [done|]. exists t.
  destruct (d2i_X509 e t) as [[c n]|]; cbn in *; naive_solver.
Qed.

(** Of no bytes nothing is recognised. *)
Lemma undecoded_not_applicable a host pk pk' res local :
  signing_verdict [] a host pk pk' res local → res = TLCP_HYBRID_CERT_NOT_APPLICABLE.
Proof.
  intros Hsv. apply (sv_not_applicable _ _ _ _ _ _ _ Hsv), not_true_iff_false.
  intros [(pre & post & Hnil)|[[Hlt _] _]]%(sv_recognized _ _ _ _ _ _ _ Hsv); [|done].
  apply (f_equal len) in Hnil. rewrite !len_app, len_composite_oid_der in Hnil.
  unfold len in *. cbn in Hnil. lia.
Qed.

(** The signing certificate was not found valid. *)
Lemma callback_rejects e a host pk pk' pk'' res c m local :
  res ≠ TLCP_HYBRID_CERT_VALID → 0 < m ≤ len e →
  next_decoded once e (λ c' m', c' = c ∧ m' = m) →
  (∀ P, next_decoded always e P → P c m) →
  signing_verdict (ztake m e) a host pk pk' res local → callback_verdict e a host pk pk'' res local.
Proof.
  intros Hres Hm Hn Hal Hsv. split; [done| |].
  - intros Hp Hd. unfold dual_always_accepts in Hd. pose proof (Hal _ Hd) as [He2 Hd2]. specialize (Hd2 0%N).
    destruct (d2i_X509 (zdrop m e) 0%N) as [[d k]|]; [|done]. destruct Hd2 as (_ & Hacc & _).
    by apply (sv_complete _ _ _ _ _ _ _ Hsv).
  - intros Hno. destruct Hn as (_ & t & Ht). by rewrite Hno in Ht.
Qed.

(** The signing certificate [c] was, and the next one, [enc], is checked. *)
Lemma callback_checks e a host pk pk' c m (enc root : option (obj X509)) local el :
  0 < m ≤ len e →
  next_decoded once e (λ c' m', c' = c ∧ m' = m) →
  (∀ P, next_decoded always e P → P c m) →
  (∀ d, enc = Some d → next_decoded once (zdrop m e) (λ d' _, d' = obj_val d)) →
  (∀ P, next_decoded always (zdrop m e) P → ∃ d k, enc = Some d ∧ P (obj_val d) k) →
  (∀ r, root = Some r → der_decoded once a (eq (obj_val r))) →
  (∀ P, der_decoded always a P → ∃ r, root = Some r ∧ P (obj_val r)) →
  signing_verdict (ztake m e) a host pk pk' TLCP_HYBRID_CERT_VALID local →
  encryption_verdict enc root el →
  let identity := match enc with Some d => names_same c (obj_val d) | None => false end in
  let local' := set_encryption_report local (certificate_valid el) el identity in
  callback_verdict e a host pk pk'
    (if negb (tlcp_dual_certificate_ok local') then TLCP_HYBRID_CERT_INVALID
     else TLCP_HYBRID_CERT_VALID) local'.
Proof.
  intros Hm Hn Hal Henc Heal Hroot Hral Hsv Hev identity local'.
  destruct (sv_sound _ _ _ _ _ _ _ Hsv eq_refl) as (c' & r' & pub & -> & Hc' & Hr' & Hacc).
  pose proof (sv_flags _ _ _ _ _ _ _ Hsv eq_refl) as Hf.
  assert (c' = c) as -> by exact (next_decoded_prefix e c m (eq c') Hm Hn Hc').
  assert (Hdual : tlcp_dual_certificate_ok local' = composite_ok local && certificate_valid el && identity) by done.
  split.
  - destruct (tlcp_dual_certificate_ok local') eqn:E; [|done]. intros _. symmetry in Hdual. simpl_bool.
    destruct enc as [d|]; [|done]. destruct root as [r|]; cbn in Hev; [|by subst el].
    split; [by rewrite andb_true_r|]. destruct Hev as (_ & _ & Hev & _).
    assert (r' = obj_val r) as -> by exact (der_decoded_unique a (obj_val r) (eq r') (Hroot r eq_refl) Hr').
    exists c, (obj_val d), (obj_val r), pub. split; [done|]. exists m. split_and!; auto.
  - intros Hp Hdacc. unfold dual_always_accepts in Hdacc. pose proof (Hal _ Hdacc) as Hd. apply Heal in Hd as (d & k & -> & Hd & He & Hi).
    apply Hral in He as (r & -> & He). destruct Hev as (_ & _ & _ & Hev).
    unfold identity in Hdual. rewrite Hi, Hev in Hdual by done.
    unfold signing_flags in Hf. simpl_bool. rewrite Hdual.
    match goal with H : composite_ok local = true |- _ => by rewrite H end.
  - intros Hno. destruct Hn as (_ & t & Ht). by rewrite Hno in Ht.
Qed.

#[export] Instance spec_tlcp_hybrid_cert_gmssl_verify_callback chain n pk config verbose :
  Spec (tlcp_hybrid_cert_gmssl_verify_callback chain n pk (Some config) verbose)
    (λ _, valid chain n ∧ valid (trust_anchor_der config) (trust_anchor_der_len config) ∧
          from_option (λ b, len b = SM2_UNCOMPRESSED_PUBLIC_KEY_BYTES) True pk)
    (λ r s s', ∃ s1 l res pk' local, frame ∅ ∅ s s1 ∧ s' = add_output l s1 ∧
       r = (int_of_result res, (pk', Some (config_report config local))) ∧
       callback_verdict (bytes_at chain n)
         (bytes_at (trust_anchor_der config) (trust_anchor_der_len config))
         (expected_hostname config) pk pk' res local).
Proof.
  wp_start. destruct P as (Hv & Hav & Hpk). unfold tlcp_hybrid_cert_gmssl_verify_callback.
  set (e := bytes_at chain n). set (a := bytes_at (trust_anchor_der config) _).
  wp_call as [cert cur] (F & Hc & Hcal). cbn [fst snd] in *. fold e in Hc, Hcal.
  destruct cert as [cert|]; cbn [is_null].
  - destruct Hc as (b & m & -> & Hm & Hn & -> & Hnext).
    pose proof Hv as [_ Hnb].
    cbn [default from_option id]. wp_call as [enc cur2] (F1 & Hd & Hdal).
    { unfold valid in *. rewrite len_zdrop; size_lia. }
    rewrite ptr_diff_zdrop, size_of_Z_small by size_lia.
    rewrite bytes_at_zdrop in Hdal by lia. fold e in Hdal.
    wp_call as r (F2 & res & pk' & local & -> & Hsv).
    cbn [fmap option_fmap option_map default from_option id fst snd] in *.
    rewrite (bytes_at_prefix m n) in Hsv by lia. fold e a in Hsv.
    assert (Hd' : ∀ d, enc = Some d → next_decoded once (zdrop m e) (λ d' _, d' = obj_val d)).
    { intros d ->. destruct Hd as (? & k & _ & _ & _ & _ & Hd). rewrite bytes_at_zdrop in Hd by lia.
      eapply next_decoded_mono; [exact Hd|]. by intros ? ? [? _]. }
    assert (Hle : 0 < m ≤ len e) by (unfold e; rewrite len_bytes_at_some by done; lia).
    assert (Hal1 : ∀ P, next_decoded always e P → P (obj_val cert) m).
    { intros P (c & b' & k & [= <-] & [= <-] & [= Hk] & HP)%Hcal.
      assert (k = m) as -> by lia. done. }
    assert (Hal2 : ∀ P, next_decoded always (zdrop m e) P → ∃ d k, enc = Some d ∧ P (obj_val d) k).
    { intros P (d & b' & k & _ & Hk & _ & HP)%Hdal. by exists d, k. }
    wp_pure. destruct res.
    1, 2: apply wp_ret; apply wp_callback_end with (s0 := s); [solve_frame|];
      intros s9 l F9; eexists s9, l, _, _, _; split; [done|]; split; [done|]; split; [done|];
      by eapply callback_rejects.
    wp_call as root (F3 & Hroot & Hral). fold a in Hroot, Hral.
    wp_call as v (F4 & el & -> & Hel). wp_call as identity [-> ->]. cbn [fmap option_fmap option_map default from_option id].
    apply wp_ret. apply wp_callback_end with (s0 := s); [solve_frame|].
    intros s9 l F9. eexists s9, l, _, _, _. split; [done|]. split; [done|]. split; [done|].
    eapply (callback_checks e a _ _ _ (obj_val cert) m enc root local el); try done.
    intros r Hr. by apply Hroot.
  - (* the first certificate is not decoded *)
    subst cur. cbn [default from_option id]. wp_call as [enc cur2] (F1 & _ & _).
    assert (Hv0 : valid chain 0) by (split; [size_lia|]; destruct chain; size_lia).
    wp_call as r (F2 & res & pk' & local & -> & Hsv).
    cbn [fmap option_fmap option_map default from_option id fst snd] in *.
    assert (Hnil : bytes_at chain 0 = []) by by destruct chain.
    rewrite Hnil in Hsv. pose proof (undecoded_not_applicable _ _ _ _ _ _ Hsv) as ->.
    wp_pure. apply wp_ret. apply wp_callback_end with (s0 := s); [solve_frame|].
    intros s9 l F9. eexists s9, l, _, _, _. split; [done|]. split; [done|]. split; [done|].
    split; [done| |done]. intros Hp Hacc. unfold dual_always_accepts in Hacc.
    apply Hcal in Hacc as (? & ? & ? & _ & [=] & _).
Qed.

(** ** Properties *)

(** C28. The byte search finds the object identifier exactly when it occurs in
    the first [n] bytes: the loop terminates without reading outside them. *)
Theorem contains_composite_oid_correct der n s :
  valid der n →
  wp (contains_composite_oid der n) (λ r s', s' = s ∧
    (r = true ↔ ∃ pre post, bytes_at der n = pre ++ composite_oid_der ++ post)) s.
Proof. exact (spec_contains_composite_oid der n s). Qed.

(** C6. A signing certificate is found valid only if its bytes are one whole
    certificate, recognised as composite, that meets every condition on a
    server certificate under the trust anchor, itself a valid root, whose
    name matches when one is asked for, and whose SM2 key is the one
    returned; every entry of the report on it is then set. *)
Theorem tlcp_hybrid_cert_verify_der_sound der n ader an host pk report s :
  valid der n → valid ader an →
  from_option (λ b, len b = SM2_UNCOMPRESSED_PUBLIC_KEY_BYTES) True pk →
  wp (tlcp_hybrid_cert_verify_der der n ader an host pk report) (λ r s', frame ∅ ∅ s s' ∧
    (fst r = TLCP_HYBRID_CERT_VALID →
       from_option (λ l, signing_flags l = true) True (snd (snd r)) ∧
       ∃ c ro pub, fst (snd r) = Some pub ∧ der_decoded once (bytes_at der n) (eq c) ∧
         der_decoded once (bytes_at ader an) (eq ro) ∧ signing_accepts host c ro pub)) s.
Proof.
  intros Hv Ha Hp. eapply wp_mono; [by apply spec|].
  intros r s' (F & res & pk' & local & -> & Hsv). split; [done|]. cbn [fst snd]. intros Hres. split.
  - destruct report; [|done]. by apply (sv_flags _ _ _ _ _ _ _ Hsv).
  - by apply (sv_sound _ _ _ _ _ _ _ Hsv).
Qed.

(** A signing certificate that meets every condition, whenever the
    libraries are asked, is found valid. *)
Theorem tlcp_hybrid_cert_verify_der_complete der n ader an host pk report s :
  valid der n → valid ader an → len pk = SM2_UNCOMPRESSED_PUBLIC_KEY_BYTES →
  der_decoded always (bytes_at der n) (λ c,
    der_decoded always (bytes_at ader an) (always_signing_accepts host c)) →
  wp (tlcp_hybrid_cert_verify_der der n ader an host (Some pk) report) (λ r s', frame ∅ ∅ s s' ∧
    fst r = TLCP_HYBRID_CERT_VALID) s.
Proof.
  intros Hv Ha Hp Hacc. eapply wp_mono; [by apply spec|].
  intros r s' (F & res & pk' & local & -> & Hsv). split; [done|].
  by apply (sv_complete _ _ _ _ _ _ _ Hsv).
Qed.

(** The adapter declines a certificate exactly when its report does not
    recognise it. What it recognises mentions the composite algorithm, as one
    of its identifiers or in its bytes; a certificate that names the algorithm,
    or bytes that are no certificate and contain the identifier, are
    recognised. *)
Theorem tlcp_hybrid_cert_recognition der n ader an host pk report s :
  valid der n → valid ader an →
  from_option (λ b, len b = SM2_UNCOMPRESSED_PUBLIC_KEY_BYTES) True pk →
  wp (tlcp_hybrid_cert_verify_der der n ader an host pk (Some report)) (λ r s', ∃ local,
    let e := bytes_at der n in
    snd (snd r) = Some local ∧
    (fst r = TLCP_HYBRID_CERT_NOT_APPLICABLE ↔ recognized_composite local = false) ∧
    (recognized_composite local = true → mentions_oid e ∨ der_decoded once e (mentions_composite once)) ∧
    (der_decoded always e (mentions_composite always) ∨
     (mentions_oid e ∧ ∀ t c, d2i_X509 e t ≠ Some (c, len e)) → recognized_composite local = true)) s.
Proof.
  intros Hv Ha Hp. eapply wp_mono; [by apply spec|].
  intros r s' (F & res & pk' & local & -> & []). exists local. cbn [fst snd]. split_and!; naive_solver.
Qed.

(** C3. The callback accepts only if the chain starts with two certificates
    such that the first is a valid signing certificate, the second a valid
    encryption certificate under the same root, and both have the same subject
    and issuer; and it accepts any chain that meets those conditions whenever
    the libraries are asked. *)
Theorem tlcp_callback_correct chain n pk config verbose s :
  valid chain n → valid (trust_anchor_der config) (trust_anchor_der_len config) →
  len pk = SM2_UNCOMPRESSED_PUBLIC_KEY_BYTES →
  wp (tlcp_hybrid_cert_gmssl_verify_callback chain n (Some pk) (Some config) verbose) (λ r s',
    let e := bytes_at chain n in
    let a := bytes_at (trust_anchor_der config) (trust_anchor_der_len config) in
    live s' = live s ∧
    (fst r = 1 → ∃ c d ro pub, fst (snd r) = Some pub ∧
       dual_accepts e a (expected_hostname config) c d ro pub) ∧
    (dual_always_accepts e a (expected_hostname config) → fst r = 1)) s.
Proof.
  intros Hv Ha Hp. eapply wp_mono; [by apply spec|].
  intros r s' (s1 & l & res & pk' & local & F & -> & -> & Hcv). cbn [fst snd].
  destruct F as [L _ _ _]. rewrite !ms_right_id in L. split; [done|]. split.
  - intros Hr. destruct (cv_sound _ _ _ _ _ _ _ Hcv) as [_ Hs]; [by destruct res|done].
  - intros Hacc. by rewrite (cv_complete _ _ _ _ _ _ _ Hcv) by done.
Qed.

(** C29. When the first certificate of the chain does not decode, the callback
    declines the chain instead of rejecting it, even if the bytes contain the
    composite algorithm identifier: the caller then falls back to its ordinary
    verification. *)
Theorem tlcp_callback_malformed chain n pk config verbose s :
  valid chain n → valid (trust_anchor_der config) (trust_anchor_der_len config) →
  len pk = SM2_UNCOMPRESSED_PUBLIC_KEY_BYTES →
  mentions_oid (bytes_at chain n) → (∀ t, d2i_X509 (bytes_at chain n) t = None) →
  wp (tlcp_hybrid_cert_gmssl_verify_callback chain n (Some pk) (Some config) verbose) (λ r s',
    fst r = int_of_result TLCP_HYBRID_CERT_NOT_APPLICABLE) s.
Proof.
  intros Hv Ha Hp _ Hno. eapply wp_mono; [by apply spec|].
  intros r s' (s1 & l & res & pk' & local & F & -> & -> & Hcv). cbn [fst].
  by rewrite (cv_undecoded _ _ _ _ _ _ _ Hcv Hno).
Qed.
End specs.

(** ** Examples *)

Section witnesses.
(** A certificate is encoded in two bytes. *)
Definition env_decode_x509 (e : list byte) : option (env_cert * Z) :=
  if decide (take 2 e = [Byte.x30; Byte.x01]) then Some (env_root, 2)
  else if decide (take 2 e = [Byte.x30; Byte.x02]) then Some (env_server, 2)
  else if decide (take 2 e = [Byte.x30; Byte.x03]) then Some (env_encryption, 2)
  else None.
Definition env_x509_der : @X509Library env_openssl := env_x509_with env_decode_x509.

Lemma env_decode_size e c n : env_decode_x509 e = Some (c, n) → n = 2 ∧ 2 ≤ len e.
Proof.
  unfold env_decode_x509, len.
  intros Hd. repeat case_decide; try done; simplify_eq;
    match goal with Ht : take 2 e = [_; _] |- _ =>
      assert (length (take 2 e) = 2%nat) as Hl by (by rewrite Ht); rewrite length_take in Hl end; lia.
Qed.

Lemma env_x509_der_sizes : @X509Sizes _ env_x509_der.
Proof. apply env_x509_with_sizes. intros e c n H%env_decode_size. lia. Qed.

Lemma env_x509_der_decoding : @X509Decoding _ env_x509_der.
Proof.
  split. intros a b t t' c c' n H1 H2.
  change (env_decode_x509 (a ++ b) = Some (c, len a)) in H1. change (env_decode_x509 a = Some (c', n)) in H2.
  destruct (env_decode_size _ _ _ H2) as [_ Hl]. unfold env_decode_x509 in *.
  rewrite take_app_le in H1 by (unfold len in Hl; lia).
  repeat case_decide; congruence.
Qed.

#[local] Existing Instances env_libc env_openssl env_dilithium env_openssl_sizes env_dilithium_sizes
  env_x509_der env_x509_der_sizes env_x509_der_decoding.

Definition env_anchor_der : list byte := [Byte.x30; Byte.x01].
Definition env_chain_der : list byte := [Byte.x30; Byte.x02; Byte.x30; Byte.x03].
Definition env_server_der : list byte := [Byte.x30; Byte.x02].
Definition env_config : TLCP_HYBRID_CERT_ADAPTER_CONFIG :=
  AdapterConfig (Some env_anchor_der) 2 (Some "host"%string) None.

Lemma contains_composite_oid_correct_witness :
  valid (Some (Byte.x00 :: composite_oid_der)) 13 ∧
  wp (contains_composite_oid (Some (Byte.x00 :: composite_oid_der)) 13) (λ r s', s' = empty_state ∧
    (r = true ↔ ∃ pre post, bytes_at (Some (Byte.x00 :: composite_oid_der)) 13 =
                            pre ++ composite_oid_der ++ post)) empty_state.
Proof.
  split; [by vm_compute|].
  apply (contains_composite_oid_correct (Some (Byte.x00 :: composite_oid_der)) 13 empty_state).
  by vm_compute.
Defined.

Lemma env_decoded_server :
  der_decoded always env_server_der (λ c, der_decoded always env_anchor_der
    (always_signing_accepts (Some "host"%string) c)).
Proof.
  split; [by vm_compute|]. intros t.
  change (d2i_X509 env_server_der t) with (Some (env_server, 2)). split; [done|].
  split; [by vm_compute|]. intros t'.
  change (d2i_X509 env_anchor_der t') with (Some (env_root, 2)). split; [done|].
  split.
  { intros t2. cbn. eexists _, _. split; [by left|]. by split. }
  split; [exact env_root_accepted|]. split; [exact env_server_accepted|]. split; [done|].
  split; [by vm_compute|]. split; [by vm_compute|]. exists (env_spki Byte.x08).
  split; [by vm_compute|]. split; [by vm_compute|]. split; [by vm_compute|].
  rewrite env_spki_point. split; [apply env_imports|].
  intros k o _ _. split; [done|]. intros t3. split; [done|]. by split_and!.
Qed.

Lemma env_decoded_server_once : der_decoded once env_server_der (eq (env_server : X509)).
Proof. split; [by vm_compute|]. by exists 0%N. Qed.

Lemma tlcp_hybrid_cert_verify_der_sound_witness :
  valid (Some env_server_der) 2 ∧
  wp (tlcp_hybrid_cert_verify_der (Some env_server_der) 2 (Some env_anchor_der) 2 None
        (Some (zeros 65)) (Some (blank_report false)))
    (λ r s', frame ∅ ∅ empty_state s' ∧
      (fst r = TLCP_HYBRID_CERT_VALID →
         from_option (λ l, signing_flags l = true) True (snd (snd r)) ∧
         ∃ c ro pub, fst (snd r) = Some pub ∧ der_decoded once (bytes_at (Some env_server_der) 2) (eq c) ∧
           der_decoded once (bytes_at (Some env_anchor_der) 2) (eq ro) ∧
           signing_accepts None c ro pub)) empty_state.
Proof.
  split; [by vm_compute|].
  apply (tlcp_hybrid_cert_verify_der_sound (Some env_server_der) 2 (Some env_anchor_der) 2 None
           (Some (zeros 65)) (Some (blank_report false)) empty_state); by vm_compute.
Defined.

Lemma tlcp_hybrid_cert_verify_der_complete_witness :
  der_decoded always env_server_der (λ c, der_decoded always env_anchor_der
    (always_signing_accepts (Some "host"%string) c)) ∧
  wp (tlcp_hybrid_cert_verify_der (Some env_server_der) 2 (Some env_anchor_der) 2 (Some "host"%string)
        (Some (zeros 65)) None)
    (λ r s', frame ∅ ∅ empty_state s' ∧ fst r = TLCP_HYBRID_CERT_VALID) empty_state.
Proof.
  split; [apply env_decoded_server|].
  apply (tlcp_hybrid_cert_verify_der_complete (Some env_server_der) 2 (Some env_anchor_der) 2
           (Some "host"%string) (zeros 65) None empty_state);
    [by vm_compute|by vm_compute|by vm_compute|apply env_decoded_server].
Defined.

Lemma tlcp_hybrid_cert_recognition_witness :
  valid (Some env_server_der) 2 ∧
  wp (tlcp_hybrid_cert_verify_der (Some env_server_der) 2 (Some env_anchor_der) 2 None
        (Some (zeros 65)) (Some (blank_report false)))
    (λ r s', ∃ local,
      let e := bytes_at (Some env_server_der) 2 in
      snd (snd r) = Some local ∧
      (fst r = TLCP_HYBRID_CERT_NOT_APPLICABLE ↔ recognized_composite local = false) ∧
      (recognized_composite local = true → mentions_oid e ∨ der_decoded once e (mentions_composite once)) ∧
      (der_decoded always e (mentions_composite always) ∨
       (mentions_oid e ∧ ∀ t c, d2i_X509 e t ≠ Some (c, len e)) → recognized_composite local = true))
    empty_state.
Proof.
  split; [by vm_compute|].
  apply (tlcp_hybrid_cert_recognition (Some env_server_der) 2 (Some env_anchor_der) 2 None
           (Some (zeros 65)) (blank_report false) empty_state); by vm_compute.
Defined.

Lemma env_dual_accepted : dual_always_accepts env_chain_der env_anchor_der (Some "host"%string).
Proof.
  split; [by vm_compute|]. intros t.
  change (d2i_X509 env_chain_der t) with (Some (env_server, 2)). split; [by vm_compute|].
  split; [by vm_compute|]. intros t'.
  change (d2i_X509 (zdrop 2 env_chain_der) t') with (Some (env_encryption, 2)). split; [by vm_compute|].
  split; [exact env_decoded_server|]. split; [|done].
  split; [by vm_compute|]. intros u.
  change (d2i_X509 env_anchor_der u) with (Some (env_root, 2)). split; [done|].
  exact env_encryption_accepted.
Qed.

Lemma tlcp_callback_correct_witness :
  dual_always_accepts env_chain_der env_anchor_der (Some "host"%string) ∧
  wp (tlcp_hybrid_cert_gmssl_verify_callback (Some env_chain_der) 4 (Some (zeros 65)) (Some env_config) 1)
    (λ r s',
      let e := bytes_at (Some env_chain_der) 4 in
      let a := bytes_at (trust_anchor_der env_config) (trust_anchor_der_len env_config) in
      live s' = live empty_state ∧
      (fst r = 1 → ∃ c d ro pub, fst (snd r) = Some pub ∧
         dual_accepts e a (expected_hostname env_config) c d ro pub) ∧
      (dual_always_accepts e a (expected_hostname env_config) → fst r = 1)) empty_state.
Proof.
  split; [apply env_dual_accepted|].
  apply (tlcp_callback_correct (Some env_chain_der) 4 (zeros 65) env_config 1 empty_state); by vm_compute.
Defined.

Lemma tlcp_callback_malformed_witness :
  mentions_oid (bytes_at (Some composite_oid_der) 12) ∧
  wp (tlcp_hybrid_cert_gmssl_verify_callback (Some composite_oid_der) 12 (Some (zeros 65)) (Some env_config) 0)
    (λ r s', fst r = int_of_result TLCP_HYBRID_CERT_NOT_APPLICABLE) empty_state.
Proof.
  assert (mentions_oid (bytes_at (Some composite_oid_der) 12)) by (exists [], []; by vm_compute).
  split; [done|].
  apply (tlcp_callback_malformed (Some composite_oid_der) 12 (zeros 65) env_config 0 empty_state);
    [by vm_compute|by vm_compute|by vm_compute|done|by intros t; vm_compute].
Defined.
End witnesses.
