(* ===== verification/Mlkem.v ===== *)
(** * mlkem.h, mlkem.c

    ML-KEM-768 through liboqs: the check of the provider's parameters, key
    generation into an empty key pair, encapsulation and decapsulation into the
    caller's buffers, and cleanup. *)

From S2P Require Import Prelude Machine External Environment.

Definition MLKEM768_ENCAPSULATION_KEY_BYTES : Z := 1184.
Definition MLKEM768_DECAPSULATION_KEY_BYTES : Z := 2400.
Definition MLKEM768_CIPHERTEXT_BYTES : Z := 1088.
Definition MLKEM768_SHARED_SECRET_BYTES : Z := 32.

#[export] Hint Unfold MLKEM768_ENCAPSULATION_KEY_BYTES MLKEM768_DECAPSULATION_KEY_BYTES
  MLKEM768_CIPHERTEXT_BYTES MLKEM768_SHARED_SECRET_BYTES : consts.

(** [oqs/kem.h], [oqs/common.h] *)
Definition OQS_KEM_alg_ml_kem_768 : string := "ML-KEM-768".
Definition OQS_SUCCESS : Z := 0.

Record MLKEM_KEYPAIR := Keypair {
  encapsulation_key : option block;
  encapsulation_key_len : Z;
  decapsulation_key : option block;
  decapsulation_key_len : Z
}.

Definition empty_keypair : MLKEM_KEYPAIR := Keypair None 0 None 0.

Section mlkem.
Context `{Libc, Liboqs}.

(** [strcmp] of a field that may be [NULL]. *)
Definition field_is (f : option string) (s : string) : bool := bool_decide (f = Some s).

Definition mlkem768_new_checked : M (option (obj OQS_KEM)) :=
  if OQS_KEM_alg_is_enabled OQS_KEM_alg_ml_kem_768 =? 0 then mret None
  else
    kem ← new_object (OQS_KEM_new OQS_KEM_alg_ml_kem_768);
    match kem with
    | None => mret None
    | Some o =>
        k ← deref o;
        if negb (field_is (method_name k) OQS_KEM_alg_ml_kem_768) ||
           negb (field_is (alg_version k) "FIPS203") ||
           negb (length_public_key k =? MLKEM768_ENCAPSULATION_KEY_BYTES) ||
           negb (length_secret_key k =? MLKEM768_DECAPSULATION_KEY_BYTES) ||
           negb (length_ciphertext k =? MLKEM768_CIPHERTEXT_BYTES) ||
           negb (length_shared_secret k =? MLKEM768_SHARED_SECRET_BYTES)
        then free_object kem;; mret None
        else mret kem
    end.

Definition mlkem768_algorithm_name : string := "ML-KEM-768".
Definition mlkem_provider_name : string := "liboqs".
Definition mlkem_provider_version : string := OQS_version.

Definition mlkem768_provider_check : M bool :=
  kem ← mlkem768_new_checked;
  if is_null kem then mret false else free_object kem;; mret true.

Definition mlkem768_keygen (keypair : option MLKEM_KEYPAIR) : M (bool * option MLKEM_KEYPAIR) :=
  match keypair with
  | None => mret (false, keypair)
  | Some kp =>
      if negb (is_null (encapsulation_key kp)) || negb (is_null (decapsulation_key kp)) ||
         negb (encapsulation_key_len kp =? 0) || negb (decapsulation_key_len kp =? 0)
      then mret (false, keypair)
      else
        kem ← mlkem768_new_checked;
        match kem with
        | None => mret (false, keypair)
        | Some o =>
            let done (ek dk : option block) (keypair : option MLKEM_KEYPAIR) (ok : bool) :=
              free_object ek;;
              clear_free dk MLKEM768_DECAPSULATION_KEY_BYTES;;
              free_object kem;;
              mret (ok, keypair) in
            ek ← malloc MLKEM768_ENCAPSULATION_KEY_BYTES;
            dk ← malloc MLKEM768_DECAPSULATION_KEY_BYTES;
            match ek, dk with
            | Some e, Some d =>
                k ← deref o;
                '(rc, (pk, sk)) ← call (OQS_KEM_keypair k);
                e ← memcpy_block e 0 pk;
                d ← memcpy_block d 0 sk;
                if negb (rc =? OQS_SUCCESS) then done (Some e) (Some d) keypair false
                else
                  done None None
                    (Some (Keypair (Some e) MLKEM768_ENCAPSULATION_KEY_BYTES
                                   (Some d) MLKEM768_DECAPSULATION_KEY_BYTES)) true
            | _, _ => done ek dk keypair false
            end
        end
  end.

(** [OQS_MEM_cleanse(p, n)] where [p] may be [NULL]. *)
Definition cleanse_if (p : ptr) (n : Z) : M ptr :=
  match p with None => mret None | Some b => b ← cleanse b n; mret (Some b) end.

Definition mlkem768_encaps (encapsulation_key : ptr) (encapsulation_key_len : Z)
    (ciphertext : ptr) (ciphertext_capacity : Z) (ciphertext_len : option Z) (shared_secret : ptr)
    : M (bool * (ptr * option Z * ptr)) :=
  let ciphertext_len := match ciphertext_len with None => None | Some _ => Some 0 end in
  shared_secret ← cleanse_if shared_secret MLKEM768_SHARED_SECRET_BYTES;
  match ciphertext, ciphertext_len, shared_secret with
  | Some ct, Some _, Some ss =>
      if is_null encapsulation_key ||
         negb (encapsulation_key_len =? MLKEM768_ENCAPSULATION_KEY_BYTES) ||
         (ciphertext_capacity <? MLKEM768_CIPHERTEXT_BYTES)
      then mret (false, (ciphertext, ciphertext_len, shared_secret))
      else
        kem ← mlkem768_new_checked;
        match kem with
        | None =>
            ss ← cleanse ss MLKEM768_SHARED_SECRET_BYTES;
            mret (false, (ciphertext, ciphertext_len, Some ss))
        | Some o =>
            k ← deref o;
            ek ← read encapsulation_key (length_public_key k);
            '(rc, (c, s)) ← call (OQS_KEM_encaps k ek);
            ct ← memcpy ct 0 c;
            ss ← memcpy ss 0 s;
            free_object kem;;
            if negb (rc =? OQS_SUCCESS) then
              ct ← cleanse ct MLKEM768_CIPHERTEXT_BYTES;
              ss ← cleanse ss MLKEM768_SHARED_SECRET_BYTES;
              mret (false, (Some ct, ciphertext_len, Some ss))
            else mret (true, (Some ct, Some MLKEM768_CIPHERTEXT_BYTES, Some ss))
        end
  | _, _, _ => mret (false, (ciphertext, ciphertext_len, shared_secret))
  end.

Definition mlkem768_decaps (decapsulation_key : ptr) (decapsulation_key_len : Z)
    (ciphertext : ptr) (ciphertext_len : Z) (shared_secret : ptr) : M (bool * ptr) :=
  match shared_secret with
  | None => mret (false, None)
  | Some ss =>
      if is_null decapsulation_key ||
         negb (decapsulation_key_len =? MLKEM768_DECAPSULATION_KEY_BYTES) ||
         is_null ciphertext || negb (ciphertext_len =? MLKEM768_CIPHERTEXT_BYTES)
      then ss ← cleanse ss MLKEM768_SHARED_SECRET_BYTES; mret (false, Some ss)
      else
        ss ← cleanse ss MLKEM768_SHARED_SECRET_BYTES;
        kem ← mlkem768_new_checked;
        match kem with
        | None => ss ← cleanse ss MLKEM768_SHARED_SECRET_BYTES; mret (false, Some ss)
        | Some o =>
            k ← deref o;
            ct ← read ciphertext (length_ciphertext k);
            dk ← read decapsulation_key (length_secret_key k);
            '(rc, s) ← call (OQS_KEM_decaps k ct dk);
            ss ← memcpy ss 0 s;
            free_object kem;;
            if negb (rc =? OQS_SUCCESS) then
              ss ← cleanse ss MLKEM768_SHARED_SECRET_BYTES; mret (false, Some ss)
            else mret (true, Some ss)
        end
  end.

Definition mlkem_keypair_cleanup (keypair : option MLKEM_KEYPAIR) : M (option MLKEM_KEYPAIR) :=
  match keypair with
  | None => mret None
  | Some kp =>
      free_object (encapsulation_key kp);;
      clear_free (decapsulation_key kp) MLKEM768_DECAPSULATION_KEY_BYTES;;
      mret (Some empty_keypair)
  end.

Definition mlkem_shared_secret_cleanup (shared_secret : ptr) : M ptr :=
  cleanse_if shared_secret MLKEM768_SHARED_SECRET_BYTES.
End mlkem.

#[global] Arguments mlkem768_new_checked : simpl never.
#[global] Arguments mlkem768_provider_check : simpl never.
#[global] Arguments mlkem768_keygen : simpl never.
#[global] Arguments cleanse_if : simpl never.
#[global] Arguments mlkem768_encaps : simpl never.
#[global] Arguments mlkem768_decaps : simpl never.
#[global] Arguments mlkem_keypair_cleanup : simpl never.
#[global] Arguments mlkem_shared_secret_cleanup : simpl never.

(** ** Specifications *)

(** The only parameters the checks admit. *)
Definition mlkem768 : OQS_KEM :=
  OqsKem (Some OQS_KEM_alg_ml_kem_768) (Some "FIPS203") MLKEM768_ENCAPSULATION_KEY_BYTES
    MLKEM768_DECAPSULATION_KEY_BYTES MLKEM768_CIPHERTEXT_BYTES MLKEM768_SHARED_SECRET_BYTES.

Definition keypair_owns (k : option MLKEM_KEYPAIR) : gmultiset positive :=
  match k with None => ∅ | Some k => owns (encapsulation_key k) ⊎ owns (decapsulation_key k) end.

Ltac owns_unfold ::=
  unfold out_owns, keypair_owns, empty_keypair in *;
  cbn [fst snd encapsulation_key decapsulation_key] in *.

(** The decapsulation key of a pair is either absent or of its size. *)
Definition keypair_wf (k : option MLKEM_KEYPAIR) : Prop :=
  from_option (λ k, from_option (λ d, len (obj_val d) = MLKEM768_DECAPSULATION_KEY_BYTES) True
                      (decapsulation_key k)) True k.

Section specs.
Context `{Libc, Liboqs, !LiboqsSizes}.

(** The provider offers the mechanism with the expected parameters. *)
Definition mlkem_offered (Q : modality) : Prop :=
  OQS_KEM_alg_is_enabled OQS_KEM_alg_ml_kem_768 ≠ 0 ∧
  Q _ (OQS_KEM_new OQS_KEM_alg_ml_kem_768) (on_some (eq mlkem768)).

Lemma kem_checks k :
  negb (field_is (method_name k) OQS_KEM_alg_ml_kem_768) ||
  negb (field_is (alg_version k) "FIPS203") ||
  negb (length_public_key k =? MLKEM768_ENCAPSULATION_KEY_BYTES) ||
  negb (length_secret_key k =? MLKEM768_DECAPSULATION_KEY_BYTES) ||
  negb (length_ciphertext k =? MLKEM768_CIPHERTEXT_BYTES) ||
  negb (length_shared_secret k =? MLKEM768_SHARED_SECRET_BYTES) = false ↔ k = mlkem768.
Proof.
  destruct k as [n v pk sk ct ss]. unfold field_is, mlkem768. cbn. split.
  - intros ?. simpl_bool. by subst.
  - by intros [= -> -> -> -> -> ->].
Qed.

#[export] Instance spec_mlkem768_new_checked :
  Spec mlkem768_new_checked (λ _, True)
    (λ r s s', frame ∅ (owns r) s s' ∧ (∀ o, r = Some o → obj_val o = mlkem768) ∧
       decides (negb (is_null r)) (mlkem_offered once) (mlkem_offered always)).
Proof.
  wp_start. unfold mlkem768_new_checked, mlkem_offered.
  wp_case (OQS_KEM_alg_is_enabled OQS_KEM_alg_ml_kem_768 =? 0).
  { apply wp_ret. split_and!; [done|done|]. split; [done|]. intros [? _]. congruence. }
  wp_call as [o|] [F Ho]; cbn in Ho.
  2: { apply wp_ret. split_and!; [done|done|]. split; [done|]. intros [_ Hal]. always_auto. }
  wp_call as r [-> ->]. match goal with |- wp (if ?b then _ else _) _ _ => destruct b eqn:Hk end.
  - wp_call as ? ?. apply wp_ret. split_and!; [solve_frame|done|]. split; [done|]. intros [_ Hal]. always_auto.
    match goal with E : mlkem768 = _ |- _ => symmetry in E; apply kem_checks in E end. congruence.
  - apply kem_checks in Hk. apply wp_ret. split_and!; [solve_frame|by intros ? [= <-]|]. split; [|done].
    intros _. split; [done|]. once_auto.
Qed.

#[export] Instance spec_mlkem768_provider_check :
  Spec mlkem768_provider_check (λ _, True)
    (λ r s s', frame ∅ ∅ s s' ∧ decides r (mlkem_offered once) (mlkem_offered always)).
Proof.
  wp_start. unfold mlkem768_provider_check. wp_call as o (F & _ & Hd).
  destruct o as [o|]; cbn [is_null negb] in *; [wp_call as ? ?|]; apply wp_ret; (split; [solve_frame|done]).
Qed.

#[export] Instance spec_mlkem768_keygen keypair :
  Spec (mlkem768_keygen keypair) (λ _, True)
    (λ r s s',
       match r with
       | (true, k) => ∃ e d, keypair = Some empty_keypair ∧
           k = Some (Keypair (Some e) MLKEM768_ENCAPSULATION_KEY_BYTES
                             (Some d) MLKEM768_DECAPSULATION_KEY_BYTES) ∧
           len (obj_val e) = MLKEM768_ENCAPSULATION_KEY_BYTES ∧
           len (obj_val d) = MLKEM768_DECAPSULATION_KEY_BYTES ∧
           once _ (OQS_KEM_keypair mlkem768) (eq (0, (obj_val e, obj_val d))) ∧
           frame ∅ (keypair_owns k) s s'
       | (false, k) => k = keypair ∧ frame ∅ ∅ s s'
       end ∧
       (keypair = Some empty_keypair → reliable_malloc → mlkem_offered always →
        always _ (OQS_KEM_keypair mlkem768) (λ r, fst r = 0) → fst r = true)).
Proof.
  wp_start. unfold mlkem768_keygen. destruct keypair as [kp|]; [|by apply wp_ret].
  match goal with |- wp (if ?b then _ else _) _ _ => destruct b eqn:Hk end.
  { apply wp_ret. split; [done|]. by intros [= ->]. }
  assert (Some kp = Some empty_keypair) as ->.
  { destruct kp as [[] ? [] ?]; cbn in Hk; simpl_bool; try done. by subst. }
  wp_call as [o|] (F & Ho & Hoff).
  2: { apply wp_ret. split; [done|]. intros _ _ Hal _. by apply Hoff in Hal. }
  pose proof (Ho _ eq_refl) as Hok.
  wp_call as ek [F1 He]. wp_call as dk [F2 Hd].
  destruct ek as [e|]; [destruct dk as [d|]|].
  2: { do 3 wp_call as ? ?. apply wp_ret. split; [split; [done|solve_frame]|]. intros _ Hr. by rewrite Hr in Hd. }
  2: { do 2 wp_call as ? ?; [by destruct dk|]. wp_call as ? ?. apply wp_ret.
       split; [split; [done|solve_frame]|]. intros _ Hr. by rewrite Hr in He. }
  wp_call as r [-> ->]. rewrite Hok.
  wp_call as [rc [pk sk]] [F3 Hkp]. destruct (kem_keypair_sizes _ _ _ _ _ Hkp) as [Hp Hs].
  destruct (Hp ltac:(done)) as [Hp1 Hp0], (Hs ltac:(done)) as [Hs1 Hs0]. clear Hp Hs.
  cbn [length_public_key length_secret_key mlkem768] in *.
  wp_call as r [-> ->]. wp_call as r [-> ->].
  wp_case (negb (rc =? OQS_SUCCESS)); cbn [set_val obj_val] in *.
  - wp_call as ? ?. wp_call as ? ?; [cbn [set_val obj_val]; rewrite len_splice; size_lia|]. wp_call as ? ?. apply wp_ret.
    split; [split; [done|solve_frame]|]. intros _ _ _ Hal. always_auto.
  - do 3 wp_call as ? ?. apply wp_ret. split; [|done].
    rewrite !splice_whole by (rewrite ?Hp0, ?Hs0; done).
    eexists _, _. split_and!; try done; cbn [obj_val set_val].
    + by apply Hp0.
    + by apply Hs0.
    + by eexists.
    + solve_frame.
Qed.

(** A pointer to an array of [n] bytes, or [NULL]. *)
Definition array (p : ptr) (n : Z) : Prop := from_option (λ b, len b = n) True p.

#[export] Instance spec_cleanse_if p n :
  Spec (cleanse_if p n) (λ _, array p n)
    (λ r s s', s' = s ∧ is_null r = is_null p ∧ array r n ∧ from_option zeroed True r).
Proof.
  wp_start. unfold cleanse_if. destruct p as [b|]; cbn in P; [|by apply wp_ret].
  wp_call as r [-> ->]; [pose proof (len_nonneg b); lia|]. apply wp_ret.
  split_and!; [done|done|by apply len_cleanse|by apply zeroed_cleanse].
Qed.

(** The shared secret is overwritten before the call, and again on failure. *)
Lemma wp_fail_secret {A} ss Φ s (v : list byte → A) :
  len ss = MLKEM768_SHARED_SECRET_BYTES →
  (∀ ss', len ss' = MLKEM768_SHARED_SECRET_BYTES → zeroed ss' → Φ (v ss') s) →
  wp (ss ← cleanse ss MLKEM768_SHARED_SECRET_BYTES; mret (v ss)) Φ s.
Proof.
  intros Hss HΦ. pose proof (frame_refl s). wp_call as r [-> ->]. apply wp_ret.
  apply HΦ; [by apply len_cleanse|by apply zeroed_cleanse].
Qed.

Definition encapsulated (ek ct ss : list byte) : Prop :=
  once _ (OQS_KEM_encaps mlkem768 ek) (eq (0, (ct, ss))).
Definition decapsulated (dk ct ss : list byte) : Prop :=
  once _ (OQS_KEM_decaps mlkem768 ct dk) (eq (0, ss)).

(** When encapsulation is bound to succeed. *)
Definition encaps_succeeds (ek ct ss : ptr) (n cap : Z) (outlen : option Z) : Prop :=
  (is_Some ek ∧ is_Some ct ∧ is_Some outlen ∧ is_Some ss) ∧
  n = MLKEM768_ENCAPSULATION_KEY_BYTES ∧ MLKEM768_CIPHERTEXT_BYTES ≤ cap ∧ mlkem_offered always ∧
  always _ (OQS_KEM_encaps mlkem768 (bytes_at ek n)) (λ r, fst r = 0).

(** The outcome of an encapsulation and the content it leaves at its outputs. *)
Record encaps_post (ek ct ss : ptr) (n cap : Z) (outlen : option Z) (ok : bool)
    (ct' : ptr) (outlen' : option Z) (ss' : ptr) : Prop := {
  ep_null : is_null ct' = is_null ct ∧ is_null ss' = is_null ss ∧ is_null outlen' = is_null outlen;
  ep_array : array ct' cap ∧ array ss' MLKEM768_SHARED_SECRET_BYTES;
  ep_ok : ok = true → ∃ secret, ss' = Some secret ∧ n = MLKEM768_ENCAPSULATION_KEY_BYTES ∧
    outlen' = Some MLKEM768_CIPHERTEXT_BYTES ∧ MLKEM768_CIPHERTEXT_BYTES ≤ cap ∧
    encapsulated (bytes_at ek n) (bytes_at ct' MLKEM768_CIPHERTEXT_BYTES) secret;
  ep_failed : ok = false → from_option (eq 0) True outlen' ∧ from_option zeroed True ss' ∧
    (ct' = ct ∨ zeroed (bytes_at ct' MLKEM768_CIPHERTEXT_BYTES));
  ep_complete : encaps_succeeds ek ct ss n cap outlen → ok = true
}.

#[export] Instance spec_mlkem768_encaps ek n ct cap outlen ss :
  Spec (mlkem768_encaps ek n ct cap outlen ss)
    (λ _, valid ek n ∧ array ct cap ∧ array ss MLKEM768_SHARED_SECRET_BYTES)
    (λ r s s', frame ∅ ∅ s s' ∧ ∃ ok ct' outlen' ss', r = (ok, (ct', outlen', ss')) ∧
       encaps_post ek ct ss n cap outlen ok ct' outlen' ss').
Proof.
  wp_start. destruct P as (Hek & Hct & Hss). unfold mlkem768_encaps.
  wp_call as ss' (-> & Hnull & Hss' & Hz).
  set (outlen' := match outlen with None => None | Some _ => Some 0 end).
  set (Post := λ r s', frame ∅ ∅ s s' ∧ ∃ ok ct' outlen' ss', r = _ ∧ _).
  assert (Hfail : ∀ ct' ss' s', frame ∅ ∅ s s' → is_null ct' = is_null ct → is_null ss' = is_null ss →
    array ct' cap → array ss' MLKEM768_SHARED_SECRET_BYTES → from_option zeroed True ss' →
    ct' = ct ∨ zeroed (bytes_at ct' MLKEM768_CIPHERTEXT_BYTES) →
    ¬ encaps_succeeds ek ct ss n cap outlen → Post (false, (ct', outlen', ss')) s').
  { intros ct' sd s' F H3 H4 H5 H6 H7 H8 H9. split; [done|]. eexists _, _, _, _. split; [done|].
    split; try done; by destruct outlen. }
  assert (Hok : ∀ ct' sd s', frame ∅ ∅ s s' → is_null ct' = is_null ct → is_Some ss → is_Some outlen →
    array ct' cap → len sd = MLKEM768_SHARED_SECRET_BYTES →
    n = MLKEM768_ENCAPSULATION_KEY_BYTES → MLKEM768_CIPHERTEXT_BYTES ≤ cap →
    encapsulated (bytes_at ek n) (bytes_at ct' MLKEM768_CIPHERTEXT_BYTES) sd →
    Post (true, (ct', Some MLKEM768_CIPHERTEXT_BYTES, Some sd)) s').
  { intros ct' sd s' F H3 [? ->] [? ->] H6 H7 H8 H9 H10. split; [done|]. eexists _, _, _, _. split; [done|].
    split; try done. intros _. by exists sd. }
  clearbody Post.
  destruct ct as [c|]; [destruct outlen as [ol|]; [destruct ss' as [sb|]|]|];
    try (apply wp_ret, Hfail; try done; [by left|]; intros ((? & [? ?] & [? ?] & [? ?]) & _);
         subst; try done; by destruct ss; fail).
  subst outlen'. cbn [array from_option] in Hct, Hss'. destruct ss as [sa|]; [|done].
  match goal with |- wp (if ?b then _ else _) _ _ => destruct b eqn:Hb end.
  { apply wp_ret, Hfail; try done; [by left|]. intros (([? ->] & _) & -> & Hcap & _).
    rewrite Z.eqb_refl in Hb. cbn in Hb. apply Z.ltb_lt in Hb. lia. }
  simpl_bool.
  wp_call as [o|] (F & Ho & Hoff).
  2: { apply wp_fail_secret; [done|]. intros ss' Hl Hz'. apply Hfail; try done; [by left|].
       intros (_ & _ & _ & Hal & _). by apply Hoff in Hal. }
  pose proof (Ho _ eq_refl) as Hk. wp_call as r [-> ->]. rewrite Hk.
  cbn [length_public_key mlkem768]. replace MLKEM768_ENCAPSULATION_KEY_BYTES with n by done.
  subst ek. wp_call as r [-> ->].
  wp_call as [rc [cb sd]] [F1 He]. destruct (kem_encaps_sizes _ _ _ _ _ _ He) as [Hc Hs].
  destruct (Hc ltac:(done)) as [Hc1 Hc0], (Hs ltac:(done)) as [Hs1 Hs0]. clear Hc Hs.
  cbn [length_ciphertext length_shared_secret mlkem768] in *.
  wp_call as r [-> ->]. wp_call as r [-> ->]. wp_call as ? ?.
  wp_case (negb (rc =? OQS_SUCCESS)).
  - assert (Hlc : len (splice (Z.to_nat 0) cb c) = len c) by (rewrite len_splice; lia).
    wp_call as r9 [-> ->]. apply wp_fail_secret; [rewrite len_splice; lia|]. intros ss' Hl Hz'.
    apply Hfail; try done; [solve_frame|..].
    + unfold array. cbn [from_option]. rewrite (len_splice 0); rewrite ?len_zeros; size_lia.
    + right. unfold bytes_at. cbn [default from_option id].
      apply zeroed_prefix; size_lia.
    + intros (_ & _ & _ & _ & Hal). always_auto.
  - apply wp_ret, Hok; try done; [solve_frame|..].
    + unfold array. cbn [from_option]. by rewrite len_splice; lia.
    + rewrite len_splice; lia.
    + exists (tick s0). rewrite He. rewrite (splice_whole sd) by (rewrite Hs0; done).
      unfold bytes_at. cbn [default from_option id]. rewrite <-(Hc0 eq_refl).
      by rewrite splice_prefix by lia.
Qed.

(** When decapsulation is bound to succeed. *)
Definition decaps_succeeds (dk ct ss : ptr) (n m : Z) : Prop :=
  (is_Some dk ∧ is_Some ct ∧ is_Some ss) ∧
  n = MLKEM768_DECAPSULATION_KEY_BYTES ∧ m = MLKEM768_CIPHERTEXT_BYTES ∧ mlkem_offered always ∧
  always _ (OQS_KEM_decaps mlkem768 (bytes_at ct m) (bytes_at dk n)) (λ r, fst r = 0).

#[export] Instance spec_mlkem768_decaps dk n ct m ss :
  Spec (mlkem768_decaps dk n ct m ss)
    (λ _, valid dk n ∧ valid ct m ∧ array ss MLKEM768_SHARED_SECRET_BYTES)
    (λ r s s', frame ∅ ∅ s s' ∧ is_null (snd r) = is_null ss ∧
       array (snd r) MLKEM768_SHARED_SECRET_BYTES ∧
       (fst r = true → ∃ secret, snd r = Some secret ∧ n = MLKEM768_DECAPSULATION_KEY_BYTES ∧
          m = MLKEM768_CIPHERTEXT_BYTES ∧ decapsulated (bytes_at dk n) (bytes_at ct m) secret) ∧
       (fst r = false → from_option zeroed True (snd r)) ∧
       (decaps_succeeds dk ct ss n m → fst r = true)).
Proof.
  wp_start. destruct P as (Hdk & Hct & Hss). unfold mlkem768_decaps, decaps_succeeds.
  destruct ss as [sb|]; [|apply wp_ret; split_and!; try done; by intros ((_ & _ & [? [=]]) & _)].
  cbn [array from_option] in Hss.
  set (Post := λ r s', frame ∅ ∅ s s' ∧ _).
  assert (Hfail : ∀ sd s', frame ∅ ∅ s s' → len sd = MLKEM768_SHARED_SECRET_BYTES →
    ¬ decaps_succeeds dk ct (Some sb) n m →
    wp (ss ← cleanse sd MLKEM768_SHARED_SECRET_BYTES; mret (false, Some ss)) Post s').
  { intros sd s' F Hl Hno. apply wp_fail_secret; [done|]. intros ss' Hl' Hz. by split_and!. }
  match goal with |- wp (if ?b then _ else _) _ _ => destruct b eqn:Hb end.
  { apply Hfail; try done. intros (([? ->] & [? ->] & _) & -> & -> & _). by rewrite !Z.eqb_refl in Hb. }
  simpl_bool. subst. wp_call as r [-> ->].
  wp_call as [o|] (F & Ho & Hoff).
  2: { apply Hfail; [done|by apply len_cleanse|]. intros (_ & _ & _ & Hal & _). by apply Hoff in Hal. }
  pose proof (Ho _ eq_refl) as Hk. wp_call as r [-> ->]. rewrite Hk.
  cbn [length_ciphertext length_secret_key mlkem768]. wp_call as r [-> ->]. wp_call as r [-> ->].
  wp_call as [rc sd] [F1 Hd]. destruct (kem_decaps_size _ _ _ _ _ _ Hd ltac:(done)) as [Hs Hs0].
  cbn [length_shared_secret mlkem768] in *.
  pose proof (len_cleanse sb _ Hss) as Hl.
  wp_call as r [-> ->]. wp_call as ? ?. wp_case (negb (rc =? OQS_SUCCESS)).
  - apply Hfail; [solve_frame|by rewrite len_splice; lia|]. intros (_ & _ & _ & _ & Hal). always_auto.
  - apply wp_ret. split; [solve_frame|]. split_and!; try done.
    + unfold array. cbn [snd from_option]. rewrite len_splice; lia.
    + intros _. eexists. split_and!; try done. exists (tick s0). rewrite Hd.
      rewrite splice_whole; [done|]. rewrite Hs0, Hl; done.
Qed.

#[export] Instance spec_mlkem_keypair_cleanup keypair :
  Spec (mlkem_keypair_cleanup keypair) (λ s, keypair_owns keypair ⊆ live s ∧ keypair_wf keypair)
    (λ r s s', frame (keypair_owns keypair) ∅ s s' ∧ r = (λ _, empty_keypair) <$> keypair).
Proof.
  wp_start. destruct P as [Hl Hwf]. unfold mlkem_keypair_cleanup.
  destruct keypair as [[ek n dk m]|]; cbn in Hl, Hwf; [|by apply wp_ret].
  cbn [encapsulation_key decapsulation_key]. wp_call as ? ?.
  wp_call as ? ?; [by destruct dk|]. apply wp_ret. split; [solve_frame|done].
Qed.

#[export] Instance spec_mlkem_shared_secret_cleanup ss :
  Spec (mlkem_shared_secret_cleanup ss) (λ _, array ss MLKEM768_SHARED_SECRET_BYTES)
    (λ r s s', s' = s ∧ is_null r = is_null ss ∧ from_option zeroed True r).
Proof.
  wp_start. unfold mlkem_shared_secret_cleanup. eapply wp_spec; [apply _|done|]. naive_solver.
Qed.

(** C30. Key generation fills an empty key pair with a fresh key pair of the
    mechanism and hands its two blocks to the caller; a pair that is not empty,
    or a failure at any step, leaves the caller's structure as it was, keeps
    nothing and wipes the partial decapsulation key. With a provider that
    offers the mechanism and no allocation failure it succeeds. *)
Theorem mlkem768_keygen_correct keypair s :
  wp (mlkem768_keygen keypair) (λ r s',
    frame ∅ (if fst r then keypair_owns (snd r) else ∅) s s' ∧
    (fst r = false → snd r = keypair) ∧
    (fst r = true → keypair = Some empty_keypair ∧ ∃ e d,
       snd r = Some (Keypair (Some e) 1184 (Some d) 2400) ∧
       len (obj_val e) = 1184 ∧ len (obj_val d) = 2400 ∧
       ∃ t, OQS_KEM_keypair mlkem768 t = (0, (obj_val e, obj_val d))) ∧
    (keypair = Some empty_keypair → reliable_malloc → mlkem_offered always →
     always _ (OQS_KEM_keypair mlkem768) (λ r, fst r = 0) → fst r = true)) s.
Proof.
  eapply wp_mono; [by apply spec|]. intros [[] k] s' [H3 Hc]; cbn [fst snd] in *.
  - destruct H3 as (e & d & -> & -> & He & Hd & [t Ht] & F). split_and!; try done.
    intros _. split; [done|]. exists e, d. split_and!; try done. by exists t.
  - destruct H3 as [-> F]. by split_and!.
Qed.

(** C31. Encapsulation succeeds only for an encapsulation key of the right size
    and a large enough buffer, and then reports a ciphertext of 1088 bytes; on
    every failure the reported length is zero, the shared secret is all zeros
    and the ciphertext buffer is either untouched or zeroed. *)
Theorem mlkem768_encaps_correct ek n ct cap outlen ss s :
  valid ek n → array ct cap → array ss MLKEM768_SHARED_SECRET_BYTES →
  wp (mlkem768_encaps ek n ct cap outlen ss) (λ r s', frame ∅ ∅ s s' ∧
    let '(ok, (ct', outlen', ss')) := r in
    array ct' cap ∧ array ss' 32 ∧
    (ok = true → n = 1184 ∧ 1088 ≤ cap ∧ outlen' = Some 1088 ∧ ∃ secret, ss' = Some secret ∧
       ∃ t, OQS_KEM_encaps mlkem768 (bytes_at ek n) t = (0, (bytes_at ct' 1088, secret))) ∧
    (ok = false → from_option (eq 0) True outlen' ∧ from_option zeroed True ss' ∧
       (ct' = ct ∨ zeroed (bytes_at ct' 1088))) ∧
    (encaps_succeeds ek ct ss n cap outlen → ok = true)) s.
Proof.
  intros Hek Hct Hss. eapply wp_mono; [by apply spec|].
  intros r s' (F & ok & ct' & outlen' & ss' & -> & [_ [? ?] Hok Hf Hc]). split_and!; try done.
  intros (secret & -> & ? & ? & ? & t & Ht)%Hok. split_and!; try done.
  exists secret. split; [done|]. by exists t.
Qed.

(** Decapsulation checks the sizes of the key and of the ciphertext; on
    success the shared secret is the mechanism's, on failure the buffer is all
    zeros. *)
Theorem mlkem768_decaps_correct dk n ct m ss s :
  valid dk n → valid ct m → array ss MLKEM768_SHARED_SECRET_BYTES →
  wp (mlkem768_decaps dk n ct m ss) (λ r s', frame ∅ ∅ s s' ∧
    is_null (snd r) = is_null ss ∧ array (snd r) 32 ∧
    (fst r = true → n = 2400 ∧ m = 1088 ∧ ∃ secret, snd r = Some secret ∧
       ∃ t, OQS_KEM_decaps mlkem768 (bytes_at ct m) (bytes_at dk n) t = (0, secret)) ∧
    (fst r = false → from_option zeroed True (snd r)) ∧
    (decaps_succeeds dk ct ss n m → fst r = true)) s.
Proof.
  intros Hdk Hct Hss. eapply wp_mono; [by apply spec|].
  intros r s' (F & Hn & Ha & Hok & Hf & Hc). split_and!; try done.
  intros (secret & ? & ? & ? & t & Ht)%Hok. split_and!; try done. exists secret. split; [done|].
  by exists t.
Qed.
End specs.

(** ** Examples *)

Section witnesses.
#[local] Existing Instances env_libc env_liboqs env_liboqs_sizes.

Lemma mlkem768_keygen_correct_witness :
  mlkem_offered always ∧
  wp (mlkem768_keygen (Some empty_keypair)) (λ r s',
    frame ∅ (if fst r then keypair_owns (snd r) else ∅) empty_state s' ∧
    (fst r = false → snd r = Some empty_keypair) ∧
    (fst r = true → Some empty_keypair = Some empty_keypair ∧ ∃ e d,
       snd r = Some (Keypair (Some e) 1184 (Some d) 2400) ∧
       len (obj_val e) = 1184 ∧ len (obj_val d) = 2400 ∧
       ∃ t, OQS_KEM_keypair mlkem768 t = (0, (obj_val e, obj_val d))) ∧
    (Some empty_keypair = Some empty_keypair → reliable_malloc → mlkem_offered always →
     always _ (OQS_KEM_keypair mlkem768) (λ r, fst r = 0) → fst r = true)) empty_state.
Proof.
  split; [|apply (mlkem768_keygen_correct (Some empty_keypair) empty_state)].
  by split.
Defined.

Lemma mlkem768_encaps_correct_witness :
  valid (Some (zeros 1184)) 1184 ∧
  wp (mlkem768_encaps (Some (zeros 1184)) 1184 (Some (zeros 1088)) 1088 (Some 0) (Some (zeros 32)))
    (λ r s', frame ∅ ∅ empty_state s' ∧
      let '(ok, (ct', outlen', ss')) := r in
      array ct' 1088 ∧ array ss' 32 ∧
      (ok = true → 1184 = 1184 ∧ 1088 ≤ 1088 ∧ outlen' = Some 1088 ∧ ∃ secret, ss' = Some secret ∧
         ∃ t, OQS_KEM_encaps mlkem768 (bytes_at (Some (zeros 1184)) 1184) t =
              (0, (bytes_at ct' 1088, secret))) ∧
      (ok = false → from_option (eq 0) True outlen' ∧ from_option zeroed True ss' ∧
         (ct' = Some (zeros 1088) ∨ zeroed (bytes_at ct' 1088))) ∧
      (encaps_succeeds (Some (zeros 1184)) (Some (zeros 1088)) (Some (zeros 32)) 1184 1088 (Some 0) →
         ok = true)) empty_state.
Proof.
  split; [by vm_compute|].
  apply (mlkem768_encaps_correct (Some (zeros 1184)) 1184 (Some (zeros 1088)) 1088 (Some 0)
           (Some (zeros 32)) empty_state); by vm_compute.
Defined.

Lemma mlkem768_decaps_correct_witness :
  valid (Some (zeros 2400)) 2400 ∧
  wp (mlkem768_decaps (Some (zeros 2400)) 2400 (Some (zeros 1088)) 1088 (Some (zeros 32)))
    (λ r s', frame ∅ ∅ empty_state s' ∧
      is_null (snd r) = is_null (Some (zeros 32)) ∧ array (snd r) 32 ∧
      (fst r = true → 2400 = 2400 ∧ 1088 = 1088 ∧ ∃ secret, snd r = Some secret ∧
         ∃ t, OQS_KEM_decaps mlkem768 (bytes_at (Some (zeros 1088)) 1088)
                (bytes_at (Some (zeros 2400)) 2400) t = (0, secret)) ∧
      (fst r = false → from_option zeroed True (snd r)) ∧
      (decaps_succeeds (Some (zeros 2400)) (Some (zeros 1088)) (Some (zeros 32)) 2400 1088 →
         fst r = true)) empty_state.
Proof.
  split; [by vm_compute|].
  apply (mlkem768_decaps_correct (Some (zeros 2400)) 2400 (Some (zeros 1088)) 1088
           (Some (zeros 32)) empty_state); by vm_compute.
Defined.
End witnesses.
