(* ===== verification/MlkemDemo.v ===== *)
(** * tools/mlkem_demo.c

    One key exchange in a process: the client generates a key pair, the server
    encapsulates under it, the client decapsulates, and the two secrets are
    compared. *)

From S2P Require Import Prelude Machine External Environment Tools Mlkem.

Section demo.
Context `{Libc, Liboqs}.

Definition demo_header : list string :=
  (["=== FIPS 203 ML-KEM Demo ==="; "";
    "Algorithm:"; "  " ++ mlkem768_algorithm_name;
    "Provider:"; "  " ++ mlkem_provider_name ++ " " ++ mlkem_provider_version; "";
    "Parameters:";
    "  Encapsulation key: " ++ dec MLKEM768_ENCAPSULATION_KEY_BYTES ++ " bytes";
    "  Decapsulation key: " ++ dec MLKEM768_DECAPSULATION_KEY_BYTES ++ " bytes";
    "  Ciphertext:        " ++ dec MLKEM768_CIPHERTEXT_BYTES ++ " bytes";
    "  Shared secret:       " ++ dec MLKEM768_SHARED_SECRET_BYTES ++ " bytes"; ""])%string.

Definition demo_report (keygen_ok encaps_ok decaps_ok match_ok : bool) : list string :=
  (["KeyGen:"; "  " ++ verdict keygen_ok "PASS" "FAIL"; "";
    "Encapsulation:"; "  " ++ verdict encaps_ok "PASS" "FAIL"; "";
    "Decapsulation:"; "  " ++ verdict decaps_ok "PASS" "FAIL"; "";
    "Shared secret:"; "  " ++ verdict match_ok "MATCH" "MISMATCH"; "";
    "Result:";
    "  ML-KEM-768 " ++ verdict (keygen_ok && encaps_ok && decaps_ok && match_ok) "PASS" "FAIL"])%string.

(** Each step runs when the one before succeeded. *)
Definition mlkem_demo_main : M Z :=
  let client := Some empty_keypair in
  ciphertext ← local_array MLKEM768_CIPHERTEXT_BYTES;
  let server_secret := Some (zeros (Z.to_nat MLKEM768_SHARED_SECRET_BYTES)) in
  let client_secret := Some (zeros (Z.to_nat MLKEM768_SHARED_SECRET_BYTES)) in
  print_lines demo_header;;
  '(keygen_ok, client) ←
    (available ← mlkem768_provider_check;
     if negb available then mret (false, client) else mlkem768_keygen client);
  let pair := default empty_keypair client in
  '(encaps_ok, (ciphertext, ciphertext_len, server_secret)) ←
    (if negb keygen_ok then mret (false, (Some ciphertext, Some 0, server_secret))
     else
       ek ← borrow (encapsulation_key pair);
       mlkem768_encaps ek (encapsulation_key_len pair) (Some ciphertext)
         MLKEM768_CIPHERTEXT_BYTES (Some 0) server_secret);
  '(decaps_ok, client_secret) ←
    (if negb encaps_ok then mret (false, client_secret)
     else
       dk ← borrow (decapsulation_key pair);
       mlkem768_decaps dk (decapsulation_key_len pair) ciphertext (default 0 ciphertext_len)
         client_secret);
  match_ok ←
    (if negb decaps_ok then mret false
     else
       a ← read server_secret MLKEM768_SHARED_SECRET_BYTES;
       b ← read client_secret MLKEM768_SHARED_SECRET_BYTES;
       mret (bool_decide (a = b)));
  print_lines (demo_report keygen_ok encaps_ok decaps_ok match_ok);;
  server_secret ← mlkem_shared_secret_cleanup server_secret;
  client_secret ← mlkem_shared_secret_cleanup client_secret;
  mlkem_keypair_cleanup client;;
  retire (default [] server_secret);;
  retire (default [] client_secret);;
  mret (if keygen_ok && encaps_ok && decaps_ok && match_ok then EXIT_SUCCESS else EXIT_FAILURE).
End demo.

#[global] Arguments demo_header : simpl never.
#[global] Arguments demo_report : simpl never.
#[global] Arguments mlkem_demo_main : simpl never.

Section specs.
Context `{Libc, Liboqs, !LiboqsSizes}.

(** The provider carries the exchange through. *)
Definition exchange_always_works : Prop :=
  reliable_malloc ∧ mlkem_offered always ∧
  always _ (OQS_KEM_keypair mlkem768) (λ r, fst r = 0) ∧
  ∀ ek, always _ (OQS_KEM_encaps mlkem768 ek) (λ r, fst r = 0).

Definition result_line (ok : bool) : string := "  ML-KEM-768 " ++ verdict ok "PASS" "FAIL".

(** The exit status agrees with the last line printed; the secrets are wiped
    and the key pair released. *)
Record demo_end (ok : bool) (s : state) (r : Z) (s' : state) : Prop := {
  de_status : r = if ok then EXIT_SUCCESS else EXIT_FAILURE;
  de_live : live s' = live s;
  de_residue : ∃ rs, residue s' = rs ++ residue s ∧ Forall zeroed rs;
  de_output : ∃ l, output s' = output s ++ l ++ [result_line ok]
}.

Lemma frame_demo_end ok s s1 l out :
  frame ∅ ∅ s s1 → out = l ++ [result_line ok] →
  demo_end ok s (if ok then EXIT_SUCCESS else EXIT_FAILURE) (add_output out s1).
Proof.
  intros [L R _ O] ->. split; [done| |done|].
  - cbn. rewrite !ms_right_id in L. done.
  - exists l. cbn. by rewrite O.
Qed.

Lemma demo_report_last a b c d : ∃ l, demo_report a b c d = l ++ [result_line (a && b && c && d)].
Proof. by exists (removelast (demo_report a b c d)). Qed.

Lemma wp_demo_end (keygen_ok encaps_ok decaps_ok match_ok : bool) client ss cs l s s1 Φ :
  frame ∅ (keypair_owns client) s s1 → keypair_wf client →
  array ss MLKEM768_SHARED_SECRET_BYTES → array cs MLKEM768_SHARED_SECRET_BYTES →
  (∀ r s', demo_end (keygen_ok && encaps_ok && decaps_ok && match_ok) s r s' → Φ r s') →
  wp (print_lines (demo_report keygen_ok encaps_ok decaps_ok match_ok);;
      server_secret ← mlkem_shared_secret_cleanup ss;
      client_secret ← mlkem_shared_secret_cleanup cs;
      mlkem_keypair_cleanup client;;
      retire (default [] server_secret);;
      retire (default [] client_secret);;
      mret (if keygen_ok && encaps_ok && decaps_ok && match_ok then EXIT_SUCCESS else EXIT_FAILURE))
    Φ (add_output l s1).
Proof.
  intros F Hwf Hss Hcs HΦ. wp_call as ? ->. rewrite add_output_app.
  wp_call as a (-> & _ & Ha). wp_call as b (-> & _ & Hb). wp_call as r2 [F1 _].
  wp_call as ? F2; [by destruct a; [|constructor]|]. wp_call as ? F3; [by destruct b; [|constructor]|].
  destruct (demo_report_last keygen_ok encaps_ok decaps_ok match_ok) as [l' ->].
  apply wp_ret, HΦ. eapply frame_demo_end; [solve_frame|apply app_assoc].
Qed.

(** The outcome of a decapsulation in the exchange. *)
Lemma kem_agrees `{!KemCorrect} t u ek dk ct ss rc ss' :
  mlkem_offered once → (0, (ek, dk)) = OQS_KEM_keypair mlkem768 t → encapsulated ek ct ss →
  OQS_KEM_decaps mlkem768 ct dk u = (rc, ss') → rc = 0 ∧ ss' = ss.
Proof.
  intros (_ & t0 & Hoff) Hk [t' He] Hd. symmetry in Hk, He.
  destruct (OQS_KEM_new OQS_KEM_alg_ml_kem_768 t0) as [k|] eqn:E; [|done]. cbn in Hoff. subst k.
  by eapply kem_decaps_encaps.
Qed.

(** The steps that are skipped, up to the report. *)
Ltac wp_skip :=
  repeat (lazymatch goal with |- wp (print_lines _ ≫= _) _ _ => fail | _ => wp_pure end;
          cbn beta iota delta [negb]).

(** The demonstration reports success, in its exit status and its last
    line, only if a generated key pair, an encapsulation under it and a
    decapsulation with it ended in one secret; with a correct and working
    mechanism it always does. Whatever happens, both blocks of the key pair are
    released and every secret is wiped before it is given back. *)
Theorem mlkem_demo_correct s :
  wp mlkem_demo_main (λ r s', ∃ ok, demo_end ok s r s' ∧
    (ok = true → ∃ ek dk ct secret t, OQS_KEM_keypair mlkem768 t = (0, (ek, dk)) ∧
       encapsulated ek ct secret ∧ decapsulated dk ct secret) ∧
    (KemCorrect → exchange_always_works → ok = true)) s.
Proof.
  pose proof (frame_refl s) as F0. unfold mlkem_demo_main.
  wp_call as ct [F Hct]. wp_call as ? ->. clear r.
  match goal with |- wp _ _ (add_output ?l _) => generalize l; intros l1 end.
  assert (Hz : array (Some (zeros (Z.to_nat MLKEM768_SHARED_SECRET_BYTES))) MLKEM768_SHARED_SECRET_BYTES) by done.
  wp_call as ok (F9 & Hok1 & Hok2). destruct ok; cbn [negb].
  2: { wp_skip. apply (wp_demo_end false false false false) with (s := s); try done; try solve_frame.
       intros r s' Hend. exists false. split_and!; try done. intros _ (_ & Hoff & _). by apply Hok2 in Hoff. }
  wp_call as [[] client] [Hkey Hkeyok]; cbn [negb fst] in *.
  2: { destruct Hkey as [-> Fk]. frame_merge. wp_skip.
       apply (wp_demo_end false false false false) with (s := s); try done; try solve_frame.
       intros r s' Hend. exists false. split_and!; try done. intros _ (? & ? & ? & _). by apply Hkeyok. }
  destruct Hkey as (e & d & _ & -> & He & Hd & [t Ht] & Fk). frame_merge.
  assert (Hwf : keypair_wf (Some (Keypair (Some e) 1184 (Some d) 2400))) by done.
  cbn [default from_option id encapsulation_key decapsulation_key encapsulation_key_len decapsulation_key_len].
  wp_call as r [-> ->]. cbn [fmap option_fmap option_map].
  wp_call as r (F2 & ok & ct' & n & ss & -> & Henc).
  destruct Henc as [(Hn1 & Hn2 & _) [Ha1 Ha2] Henc _ Hencok].
  destruct ok; cbn [negb].
  2: { wp_skip. apply (wp_demo_end true false false false) with (s := s); try done; try solve_frame.
       intros r s' Hend. exists false. split_and!; try done. intros _ (? & ? & _ & Hal). apply Hencok.
       unfold encaps_succeeds. split_and!; try done; by eexists. }
  destruct (Henc eq_refl) as (secret & -> & _ & -> & _ & Hsecret). clear Henc Hencok.
  destruct ct' as [c|]; [|done]. cbn [array from_option] in Ha1, Ha2.
  rewrite bytes_at_full in Hsecret by done. cbn [default from_option id].
  wp_call as r [-> ->]. cbn [fmap option_fmap option_map].
  wp_call as [decaps_ok cs] (F3 & _ & Ha3 & Hdec & _ & Hdecok). cbn [fst snd] in *.
  rewrite !bytes_at_full in Hdec by done. rewrite bytes_at_full in Hsecret by done.
  destruct decaps_ok; cbn [negb].
  2: { wp_skip. apply (wp_demo_end true true false false) with (s := s); try done; try solve_frame.
       intros r s' Hend. exists false. split_and!; try done. intros ? (_ & ? & _). apply Hdecok.
       unfold decaps_succeeds. split_and!; try done; [by eexists..|].
       rewrite !bytes_at_full by done. intros u. destruct (OQS_KEM_decaps mlkem768 c (obj_val d) u) eqn:Hu.
       by edestruct (kem_agrees _ _ _ _ _ _ _ _ (Hok1 eq_refl) Ht Hsecret Hu). }
  destruct (Hdec eq_refl) as (secret' & -> & _ & _ & Hsecret'). cbn [array from_option] in Ha3.
  wp_skip. wp_call as r [-> ->]. wp_call as r [-> ->]. wp_skip. rewrite !bytes_at_full by done.
  apply (wp_demo_end true true true (bool_decide (secret = secret'))) with (s := s); try done; try solve_frame.
  intros r s' Hend. eexists. split_and!; [exact Hend|..].
  - intros <-%bool_decide_eq_true. by exists (obj_val e), (obj_val d), c, secret, t.
  - intros ? _. apply bool_decide_eq_true. destruct Hsecret' as [u Hu]. symmetry in Hu.
    by edestruct (kem_agrees _ _ _ _ _ _ _ _ (Hok1 eq_refl) Ht Hsecret Hu).
Qed.
End specs.

(** ** Examples *)

Section witnesses.
#[local] Existing Instances env_libc env_liboqs env_liboqs_sizes.

Lemma mlkem_demo_correct_witness :
  KemCorrect ∧ exchange_always_works ∧
  wp mlkem_demo_main (λ r s', ∃ ok, demo_end ok empty_state r s' ∧
    (ok = true → ∃ ek dk ct secret t, OQS_KEM_keypair mlkem768 t = (0, (ek, dk)) ∧
       encapsulated ek ct secret ∧ decapsulated dk ct secret) ∧
    (KemCorrect → exchange_always_works → ok = true)) empty_state.
Proof.
  split; [exact env_kem_correct|]. split; [|apply (mlkem_demo_correct empty_state)].
  unfold exchange_always_works, mlkem_offered. by split_and!.
Defined.
End witnesses.
