(* ===== verification/VerifyChain.v ===== *)
(** * tools/verify_chain.c

    The tool reads a root and a server certificate, verifies the chain and
    prints the report. What it writes to the error stream is not modelled. *)

From S2P Require Import Prelude Machine External Posix Tools Environment Dilithium Sm2 CompositeKey CompositeSig X509 X509Env X509Files Chain.

Section tool.
Context `{Libc, OpenSSL, Dilithium2, !X509Library, !X509Builder, Posix}.

Definition pass_fail (value : bool) : string := verdict value "PASS" "FAIL".

(** [X509_NAME_oneline(name, NULL, 0)] *)
Definition name_oneline (name : X509_NAME) : M (option (obj string)) :=
  new_object (X509_NAME_oneline name).

(** [name != NULL ? name : "<invalid>"] *)
Definition shown_name (name : option (obj string)) : M string :=
  match name with None => mret "<invalid>"%string | Some o => deref o end.

Definition chain_report (root_subject server_subject : string) (result : HYBRID_CHAIN_VERIFY_RESULT)
    : list string :=
  let root := chain_root result in
  let server := chain_server result in
  (["=== Hybrid Certificate Chain Verification ===";
    "";
    "Trust Anchor:";
    "  Subject: " ++ root_subject;
    "  Composite Algorithm: " ++ COMPOSITE_SM2_DILITHIUM_EXPERIMENTAL_OID;
    "  Dilithium component: " ++ dilithium_algorithm_name ++ " (" ++ dec DILITHIUM_PUBLIC_KEY_BYTES ++
      "-byte public key)";
    "  SM2 component: sm2p256v1 uncompressed point";
    "  [INFO] Root is configured as trust anchor";
    "";
    "Root self-signature:";
    "  Dilithium: " ++ pass_fail (cert_dilithium_valid root);
    "  SM2:       " ++ pass_fail (cert_sm2_valid root);
    "  Composite: " ++ pass_fail (cert_composite_valid root);
    "  [" ++ verdict (cert_composite_valid root) "PASS" "FAIL" ++
      "] Root composite self-signature cryptographically " ++
      verdict (cert_composite_valid root) "valid" "invalid";
    "";
    "Server Certificate:";
    "  Subject:             " ++ server_subject;
    "  Issuer/Subject link: " ++ pass_fail (issuer_subject_link_valid server);
    "  Validity:            " ++ pass_fail (validity_valid server);
    "  BasicConstraints:    " ++ pass_fail (subject_constraints_valid server);
    "  Issuer CA/KeyUsage:  " ++ pass_fail (issuer_ca_constraints_valid server);
    "  ExtendedKeyUsage:    " ++ pass_fail (eku_valid server);
    "  SubjectAltName:      " ++ pass_fail (san_valid server);
    "  SKI/AKI link:        " ++ pass_fail (key_identifiers_valid server);
    "  Course Dilithium/PQC extension: " ++ pass_fail (pqc_extension_present server);
    "  Composite OID:       " ++ pass_fail (composite_oids_valid server);
    "";
    "Certificate signature:";
    "  Format:     " ++ pass_fail (signature_format_valid server);
    "  Dilithium:  " ++ pass_fail (cert_dilithium_valid server);
    "  SM2:        " ++ pass_fail (cert_sm2_valid server);
    "  Composite:  " ++ pass_fail (cert_composite_valid server);
    "";
    "Chain result:";
    "  " ++ verdict (chain_valid result) "VALID" "INVALID"])%string.

(** The report is local to the function and written by [hybrid_verify_chain]. *)
Definition verify_chain_main (argv : list string) : M Z :=
  match argv with
  | [_; root_path; server_path] =>
      root ← hybrid_x509_read_pem (Some root_path);
      server ← hybrid_x509_read_pem (Some server_path);
      let done (root_subject server_subject : option (obj string)) (exit_code : Z) :=
        free_object server_subject;;
        free_object root_subject;;
        free_object server;;
        free_object root;;
        mret exit_code in
      match root, server with
      | Some r, Some s =>
          rc ← deref r;
          root_subject ← name_oneline (X509_get_subject_name rc);
          sc ← deref s;
          server_subject ← name_oneline (X509_get_subject_name sc);
          '(_, result) ← hybrid_verify_chain root server
            (Some (ChainResult false zero_result zero_result false));
          match result with
          | None => undefined
          | Some result =>
              rn ← shown_name root_subject;
              sn ← shown_name server_subject;
              print_lines (chain_report rn sn result);;
              done root_subject server_subject (if chain_valid result then EXIT_SUCCESS else EXIT_FAILURE)
          end
      | _, _ => done None None EXIT_FAILURE
      end
  | _ => mret EXIT_FAILURE
  end.
End tool.
#[global] Arguments name_oneline : simpl never.
#[global] Arguments shown_name : simpl never.
#[global] Arguments chain_report : simpl never.
#[global] Arguments verify_chain_main : simpl never.

(** ** Specifications *)

Section specs.
Context `{Libc, OpenSSL, !OpenSSLSizes, Dilithium2, !Dilithium2Sizes, !X509Library, !X509Sizes, !X509Builder, Posix}.

#[export] Instance spec_name_oneline name :
  Spec (name_oneline name) (λ _, True) (λ r s s', frame ∅ (owns r) s s').
Proof. wp_start. unfold name_oneline. eapply wp_spec; [apply _|done|]. by intros r s' [F _]. Qed.

#[export] Instance spec_shown_name name :
  Spec (shown_name name) (alive name) (λ r s s', s' = s).
Proof. wp_start. unfold shown_name. destruct name; [|by apply wp_ret]. eapply wp_spec; [apply _|done|]. by intros ? ? [_ ->]. Qed.

Lemma chain_report_last rn sn result :
  ∃ l, chain_report rn sn result = l ++ [("  " ++ verdict (chain_valid result) "VALID" "INVALID")%string].
Proof. by exists (removelast (chain_report rn sn result)). Qed.

(** ** Properties *)

(** C36. The tool exits with success, and then the last line it prints is
    "VALID", only if the certificates read from the two files named on the
    command line form an accepted chain; it does so when files and library work
    and the certificates meet every condition. Nothing remains allocated and no
    file is changed, whatever happens. *)
Theorem verify_chain_main_correct argv s :
  wp (verify_chain_main argv) (λ r s',
    live s' = live s ∧ files s' = files s ∧ (r = EXIT_SUCCESS ∨ r = EXIT_FAILURE) ∧
    (r = EXIT_SUCCESS → ∃ p rp sp ro se, argv = [p; rp; sp] ∧
       certificate_read (files s) rp ro ∧ certificate_read (files s) sp se ∧
       chain_accepted once issued_by ro se ∧ ∃ l, output s' = output s ++ l ++ ["  VALID"%string]) ∧
    (∀ p rp sp, argv = [p; rp; sp] → reliable_files →
       certificate_readable (files s) rp → certificate_readable (files s) sp →
       (∀ ro se, certificate_read (files s) rp ro → certificate_read (files s) sp se →
          chain_accepted always always_issued_by ro se) → r = EXIT_SUCCESS)) s.
Proof.
  pose proof (frame_refl s). unfold verify_chain_main.
  set (Post := λ (r : Z) s', _ ∧ _).
  destruct argv as [|p [|rp [|sp [|]]]]; try (apply wp_ret; by split_and!; auto).
  wp_call as ro (F & _ & Hro). apply read_pem_result in Hro as [Hro Hrok].
  assert (Hfs : files s0 = files s) by by fs_simpl. wp_call as se (F1 & _ & Hse). rewrite Hfs in Hse. apply read_pem_result in Hse as [Hse Hseok].
  assert (Hnone : ro = None ∨ se = None →
    wp (free_object (@None (obj string));; free_object (@None (obj string));; free_object se;; free_object ro;;
        mret EXIT_FAILURE) Post s1).
  { intros Hn. do 4 wp_call as ? ?. apply wp_ret. split_and!.
    - pose proof (frame_live _ _ _ _ F). ms_lia.
    - by eapply frame_files.
    - by right.
    - done.
    - intros ? ? ? [= <- <- <-] Hrel Hr Hs _. destruct Hn as [-> | ->];
        [by destruct (Hrok Hrel Hr)|by destruct (Hseok Hrel Hs)]. }
  destruct ro as [ro|]; [|by apply Hnone; left]. destruct se as [se|]; [|by apply Hnone; right]. clear Hnone.
  specialize (Hro ro eq_refl). specialize (Hse se eq_refl).
  wp_call as rc [-> ->]. wp_call as rn F2. wp_call as sc [-> ->]. wp_call as sn F3.
  wp_call as [ok res] (F4 & local & Hres & _ & Hrv & Hsv & Hv). injection Hres as -> ->. cbn [fmap option_fmap option_map].
  wp_call as rs ->. wp_call as ss ->. wp_call as ? ->. do 4 wp_call as ? ?. apply wp_ret.
  destruct Hrv as (_ & _ & Hr1 & Hr2), Hsv as (_ & _ & Hs1 & Hs2). split_and!.
  - change (live (add_output ?l s9)) with (live s9). pose proof (frame_live _ _ _ _ F0). ms_lia.
  - change (files (add_output ?l s9)) with (files s9). by eapply frame_files.
  - destruct (chain_valid local); auto.
  - destruct (chain_valid local) eqn:E; [|done]. intros _. symmetry in Hv. apply andb_true_iff in Hv as [Hr Hs].
    exists p, rp, sp, (obj_val ro), (obj_val se). split_and!; try done; [split; auto|].
    destruct (chain_report_last rs ss local) as [l ->]. rewrite E. exists l.
    cbn [add_output output]. by rewrite (frame_output _ _ _ _ F0).
  - intros ? ? ? [= <- <- <-] _ _ _ Hacc. destruct (Hacc _ _ Hro Hse) as [Har Has].
    by rewrite Hv, (Hr2 Har), (Hs2 Has).
Qed.
End specs.

(** ** A concrete instance *)

Section example.
#[local] Existing Instances env_libc env_openssl env_openssl_sizes env_dilithium env_dilithium_sizes
  env_issuer env_issuer_sizes env_posix.

(** Two files with an accepted chain. *)
Definition env_reader : X509Builder := env_builder_with env_decode_certificate (λ b,
  if decide (b = lit "R") then Some env_root else if decide (b = lit "S") then Some env_server else None).
#[local] Existing Instance env_reader.
Definition env_chain_files : state :=
  with_files {["root.crt"%string := Regular 0x1a4 (lit "R"); "server.crt"%string := Regular 0x1a4 (lit "S")]} empty_state.

Lemma verify_chain_main_correct_witness :
  let argv := ["verify_chain"; "root.crt"; "server.crt"]%string in
  let s := env_chain_files in
  fst <$> verify_chain_main argv s = Some EXIT_SUCCESS ∧
  wp (verify_chain_main argv) (λ r s',
    live s' = live s ∧ files s' = files s ∧ (r = EXIT_SUCCESS ∨ r = EXIT_FAILURE) ∧
    (r = EXIT_SUCCESS → ∃ p rp sp ro se, argv = [p; rp; sp] ∧
       certificate_read (files s) rp ro ∧ certificate_read (files s) sp se ∧
       chain_accepted once issued_by ro se ∧ ∃ l, output s' = output s ++ l ++ ["  VALID"%string]) ∧
    (∀ p rp sp, argv = [p; rp; sp] → reliable_files →
       certificate_readable (files s) rp → certificate_readable (files s) sp →
       (∀ ro se, certificate_read (files s) rp ro → certificate_read (files s) sp se →
          chain_accepted always always_issued_by ro se) → r = EXIT_SUCCESS)) s.
Proof.
  intros argv s. split; [by vm_compute|]. apply (verify_chain_main_correct argv s).
Defined.
End example.
