(* ===== verification/InspectCert.v ===== *)
(** * tools/inspect_hybrid_cert.c

    The tool reads a certificate, extracts its composite key and signature and
    prints what they consist of. What it writes to the error stream is not
    modelled. *)

From S2P Require Import Prelude Machine External Posix Tools Environment Dilithium Sm2 CompositeKey CompositeSig X509 X509Env X509Files VerifyChain.

Section tool.
Context `{Libc, OpenSSL, Dilithium2, !X509Library, !X509Builder, Posix}.

Definition certificate_report (subject issuer : string) (algorithms marked : bool)
    (dilithium_signature_len sm2_signature_len signature_len : Z) : list string :=
  (["Subject: " ++ subject;
    "Issuer: " ++ issuer;
    "Composite Algorithm OID: " ++ COMPOSITE_SM2_DILITHIUM_EXPERIMENTAL_OID ++ " (EXPERIMENTAL)";
    "AlgorithmIdentifiers/SPKI: " ++ verdict algorithms "VALID" "INVALID";
    "Course Dilithium/PQC X.509v3 identifier " ++ HYBRID_PQC_EXTENSION_OID ++ ": " ++
      verdict marked "PRESENT" "MISSING";
    "Composite public key: " ++ dec DILITHIUM_PUBLIC_KEY_BYTES ++ " + " ++
      dec SM2_UNCOMPRESSED_PUBLIC_KEY_BYTES ++ " = " ++ dec COMPOSITE_PUBLIC_KEY_BYTES ++ " bytes";
    "Composite signature: " ++ dec dilithium_signature_len ++ " + " ++ dec sm2_signature_len ++
      " = " ++ dec signature_len ++ " bytes";
    "Dilithium parameter set: " ++ dilithium_algorithm_name;
    "SM2 public key: 0x04 || X(32) || Y(32)"])%string.

(** The four calls are joined by [||]: each is made when the ones before it
    succeeded. *)
Definition inspect_hybrid_cert_main (argv : list string) : M Z :=
  match argv with
  | [_; path] =>
      let public_key := hybrid_public_key_init (Some zero_public_key) in
      certificate ← hybrid_x509_read_pem (Some path);
      let done (public_key : option HYBRID_PUBLIC_KEY) (issuer subject : option (obj string))
          (exit_code : Z) :=
        free_object issuer;;
        free_object subject;;
        hybrid_public_key_cleanup public_key;;
        free_object certificate;;
        mret exit_code in
      match certificate with
      | None => done public_key None None EXIT_FAILURE
      | Some c =>
          '(ok, public_key) ← hybrid_x509_get_composite_public_key certificate public_key;
          check (ok : bool) else done public_key None None EXIT_FAILURE;;
          '(ok, signature) ← hybrid_x509_get_signature certificate fresh_view;
          check (ok : bool) else done public_key None None EXIT_FAILURE;;
          '(ok, (dilithium_signature, sm2_signature)) ←
            composite_parse_signature (view_ptr signature) (view_len signature) fresh_view fresh_view;
          check (ok : bool) else done public_key None None EXIT_FAILURE;;
          v ← deref c;
          subject ← name_oneline (X509_get_subject_name v);
          issuer ← name_oneline (X509_get_issuer_name v);
          subject_text ← shown_name subject;
          issuer_text ← shown_name issuer;
          algorithms ← hybrid_x509_composite_algorithms_valid certificate;
          marked ← hybrid_x509_has_pqc_extension certificate;
          print_lines (certificate_report subject_text issuer_text algorithms marked
            (view_len dilithium_signature) (view_len sm2_signature) (view_len signature));;
          done public_key issuer subject EXIT_SUCCESS
      end
  | _ => mret EXIT_FAILURE
  end.
End tool.
#[global] Arguments certificate_report : simpl never.
#[global] Arguments inspect_hybrid_cert_main : simpl never.

(** ** Specifications *)

Section specs.
Context `{Libc, OpenSSL, !OpenSSLSizes, Dilithium2, !Dilithium2Sizes, !X509Library, !X509Sizes, !X509Builder, Posix}.

(** [c] carries a composite public key and a composite signature of [n] bytes. *)
Definition hybrid_certificate (c : X509) (n : Z) : Prop :=
  (∃ e k, certificate_key_bytes c = Some e ∧ composite_imported e k) ∧
  ∃ sig, certificate_signature c = Some sig ∧ n = len sig ∧ DILITHIUM_SIGNATURE_BYTES < n ∧
    sm2_der_valid (zdrop DILITHIUM_SIGNATURE_BYTES sig).
Definition always_hybrid_certificate (c : X509) : Prop :=
  (∃ e, certificate_key_bytes c = Some e ∧ len e = COMPOSITE_PUBLIC_KEY_BYTES ∧
     e !! Z.to_nat DILITHIUM_PUBLIC_KEY_BYTES = Some Byte.x04 ∧
     sm2_always_imports (zdrop DILITHIUM_PUBLIC_KEY_BYTES e)) ∧
  ∃ sig, certificate_signature c = Some sig ∧ DILITHIUM_SIGNATURE_BYTES < len sig ∧
    sm2_der_always_valid (zdrop DILITHIUM_SIGNATURE_BYTES sig).

Lemma certificate_signature_size c d : certificate_signature c = Some d → 0 < len d ≤ INT_MAX.
Proof.
  unfold certificate_signature. destruct (X509_get0_signature c) as [[b|] a] eqn:E; cbn [fst]; [|done].
  pose proof (signature_bits_size _ _ _ E). destruct (_ && _) eqn:Eb; [|done]. intros [= <-]. simpl_bool. lia.
Qed.

(** ** Properties *)

(** The tool succeeds only for a file with a certificate that carries an
    importable composite key and a signature with both parts, the second one in
    strict DER; then its report gives the lengths of the two parts, which add up
    to that of the signature, and says that the algorithms are valid exactly if
    they are. It succeeds for every readable file with such a certificate.
    Nothing remains allocated and no file is changed. *)
Theorem inspect_hybrid_cert_main_correct argv s :
  wp (inspect_hybrid_cert_main argv) (λ r s',
    live s' = live s ∧ files s' = files s ∧ (r = EXIT_SUCCESS ∨ r = EXIT_FAILURE) ∧
    (r = EXIT_SUCCESS → ∃ p path c n subject issuer marked, argv = [p; path] ∧
       certificate_read (files s) path c ∧ hybrid_certificate c n ∧
       (marked = true → certificate_marked once c) ∧
       output s' = output s ++ certificate_report subject issuer
         (signature_algorithms_composite c && spki_composite c) marked
         DILITHIUM_SIGNATURE_BYTES (n - DILITHIUM_SIGNATURE_BYTES) n) ∧
    (∀ p path, argv = [p; path] → reliable_files → certificate_readable (files s) path →
       (∀ c, certificate_read (files s) path c → always_hybrid_certificate c) → r = EXIT_SUCCESS)) s.
Proof.
  pose proof (frame_refl s). unfold inspect_hybrid_cert_main.
  set (Post := λ (r : Z) s', _ ∧ _).
  destruct argv as [|p [|path [|]]]; try (apply wp_ret; by split_and!; auto).
  change (hybrid_public_key_init (Some zero_public_key)) with (Some zero_public_key).
  wp_call as ce (F & _ & Hc). apply read_pem_result in Hc as [Hc Hcok].
  assert (Hfail : ∀ k s', frame ∅ (public_owns k ⊎ owns ce) s s' →
    ¬ (reliable_files ∧ certificate_readable (files s) path ∧
       ∀ c, certificate_read (files s) path c → always_hybrid_certificate c) →
    wp (free_object (@None (obj string));; free_object (@None (obj string));;
        hybrid_public_key_cleanup k;; free_object ce;; mret EXIT_FAILURE) Post s').
  { intros k s' F' Hn. do 2 wp_call as ? ?. wp_call as k' [? _]. wp_call as ? ?. apply wp_ret. split_and!.
    - frame_live_facts. ms_lia.
    - by eapply frame_files.
    - by right.
    - done.
    - intros ? ? [= <- <-] ???. by destruct Hn. }
  destruct ce as [ce|]; cycle 1.
  { apply Hfail; [solve_frame|]. intros (Hr & Hp & _). by destruct (Hcok Hr Hp). }
  specialize (Hc ce eq_refl).
  wp_call as [[] k] ([F1 Hk] & Hkok); cbn [fst snd] in *; cycle 1.
  { subst k. apply Hfail; [solve_frame|]. intros (_ & _ & Hal). destruct (Hal _ Hc) as [(e & He & Hl & H4' & Hi) _].
    by specialize (Hkok ce e eq_refl ltac:(by eexists) He Hl H4' Hi). }
  destruct Hk as (? & e & k' & [= <-] & He & -> & Himp). clear Hkok.
  wp_call as [ok sig] [-> Hsig]. cbn [mbind option_bind] in Hsig.
  destruct (certificate_signature (obj_val ce)) as [d|] eqn:Ed; injection Hsig as -> ->; cycle 1.
  { apply Hfail; [solve_frame|]. intros (_ & _ & Hal). destruct (Hal _ Hc) as [_ (? & Hs & _)]. congruence. }
  cbn [view_ptr view_len set_view fst snd default from_option id].
  pose proof (certificate_signature_size _ _ Ed) as Hd.
  wp_call as [ok [dv sv]] (F2 & Hv & Hvok).
  assert (Hz : DILITHIUM_SIGNATURE_BYTES < len d →
    ztake (len d - DILITHIUM_SIGNATURE_BYTES) (zdrop DILITHIUM_SIGNATURE_BYTES d) = zdrop DILITHIUM_SIGNATURE_BYTES d).
  { intros Hl. apply ztake_all. rewrite len_zdrop; unfold DILITHIUM_SIGNATURE_BYTES in *; lia. }
  cbn [fst] in Hvok. destruct ok; cycle 1.
  { apply Hfail; [solve_frame|]. intros (_ & _ & Hal). destruct (Hal _ Hc) as [_ (d' & Hs & Hl & Hder)].
    rewrite Ed in Hs. injection Hs as <-. assert (false = true); [|done]. apply (Hvok d eq_refl); [size_lia|by rewrite Hz]. }
  destruct Hv as (? & [= <-] & Hl & -> & -> & Hder). rewrite Hz in Hder by lia. clear Hvok Hfail.
  cbn [view_ptr view_len set_view fst snd default from_option id].
  wp_call as v [-> ->]. wp_call as sn F3. wp_call as isn F4. wp_call as st ->. wp_call as it ->.
  wp_call as al [-> ->]. wp_call as mk (F5 & Hmk & _). wp_call as ? ->. do 2 wp_call as ? ?.
  wp_call as k2 [? _]. wp_call as ? ?. apply wp_ret. split_and!.
  - frame_live_facts. cbn [add_output live] in *. ms_lia.
  - exact (frame_files _ _ _ _ F0).
  - by left.
  - intros _. exists p, path, (obj_val ce), (len d), st, it, mk. split_and!; try done.
    + split; [by exists e, k'|]. exists d. split_and!; try done. lia.
    + intros (? & [= <-] & ?)%Hmk. done.
    + cbn [add_output output from_option]. by rewrite (frame_output _ _ _ _ F0).
  - done.
Qed.
End specs.

(** ** A concrete instance *)

Section example.
#[local] Existing Instances env_libc env_openssl env_openssl_sizes env_dilithium env_dilithium_sizes
  env_issuer env_issuer_sizes env_posix env_reader.

Lemma inspect_hybrid_cert_main_correct_witness :
  let argv := ["inspect_hybrid_cert"; "server.crt"]%string in
  let s := env_chain_files in
  fst <$> inspect_hybrid_cert_main argv s = Some EXIT_SUCCESS ∧
  wp (inspect_hybrid_cert_main argv) (λ r s',
    live s' = live s ∧ files s' = files s ∧ (r = EXIT_SUCCESS ∨ r = EXIT_FAILURE) ∧
    (r = EXIT_SUCCESS → ∃ p path c n subject issuer marked, argv = [p; path] ∧
       certificate_read (files s) path c ∧ hybrid_certificate c n ∧
       (marked = true → certificate_marked once c) ∧
       output s' = output s ++ certificate_report subject issuer
         (signature_algorithms_composite c && spki_composite c) marked
         DILITHIUM_SIGNATURE_BYTES (n - DILITHIUM_SIGNATURE_BYTES) n) ∧
    (∀ p path, argv = [p; path] → reliable_files → certificate_readable (files s) path →
       (∀ c, certificate_read (files s) path c → always_hybrid_certificate c) → r = EXIT_SUCCESS)) s.
Proof.
  intros argv s. split; [by vm_compute|]. apply (inspect_hybrid_cert_main_correct argv s).
Defined.
End example.
