(* ===== verification/GenerateDemo.v ===== *)
(** * tools/generate_demo_chain.c

    The tool makes or loads the keys of an authority and a server, issues the
    certificates of the demonstration and writes them after it verified them.
    What it writes to the error stream is not modelled. *)

From S2P Require Import Prelude Machine External Posix Tools Der Environment Dilithium Sm2 CompositeKey CompositeSig.
From S2P Require Import KeyStore KeyStoreFiles KeyStoreKeys KeyStoreContainer KeyStoreSave KeyStorePair KeyLife X509 Asn1 X509Build X509Env X509Create X509Files Chain.

Definition HYBRID_DEFAULT_SERVER_NAME : string := "server.local".

(** The authority's and the server's key pairs. *)
Abbreviation key_pairs :=
  (option HYBRID_PRIVATE_KEY * option HYBRID_PUBLIC_KEY *
   (option HYBRID_PRIVATE_KEY * option HYBRID_PUBLIC_KEY))%type.

Section tool.
Context `{Libc, OpenSSL, Dilithium2, !OpenSSLCipher, Posix, !X509Library, !X509Builder}.

(** Line for line [join_path] of the key store. *)
Definition key_subdirectory (root name : option string) : M (option block) := join_path root name.

(** Line for line [ensure_private_directory] of the key store. *)
Definition ensure_key_root (path : option string) : M bool := ensure_private_directory path.

(** The three directories, as far as they were made. *)
Definition make_directories (key_root : string) (generate_encryption : bool)
    : M (bool * (option block * option block * option block)) :=
  ok ← ensure_key_root (Some key_root);
  check (ok : bool) else mret (false, (None, None, None));;
  ca_directory ← key_subdirectory (Some key_root) (Some "ca"%string);
  check negb (is_null ca_directory) else mret (false, (None, None, None));;
  server_directory ← key_subdirectory (Some key_root) (Some "server"%string);
  check negb (is_null server_directory) else mret (false, (ca_directory, None, None));;
  if negb generate_encryption then mret (true, (ca_directory, server_directory, None))
  else
    encryption_directory ← key_subdirectory (Some key_root) (Some "server-encryption"%string);
    mret (negb (is_null encryption_directory), (ca_directory, server_directory, encryption_directory)).

Definition new_key_pairs (ca_directory server_directory : option string) (passphrase : string)
    (keys : key_pairs) : M (bool * key_pairs) :=
  let '(ca_private, ca_public, (server_private, server_public)) := keys in
  '(ok, (ca_private, ca_public)) ← composite_key_generate ca_private ca_public;
  let keys := (ca_private, ca_public, (server_private, server_public)) in
  check (ok : bool) else mret (false, keys);;
  '(ok, (server_private, server_public)) ← composite_key_generate server_private server_public;
  let keys := (ca_private, ca_public, (server_private, server_public)) in
  check (ok : bool) else mret (false, keys);;
  ok ← hybrid_key_store_save ca_directory ca_private ca_public (Some passphrase);
  check (ok : bool) else mret (false, keys);;
  ok ← hybrid_key_store_save server_directory server_private server_public (Some passphrase);
  check (ok : bool) else mret (false, keys);;
  print "Generated and persisted fresh, non-reused CA and Server Hybrid keypairs";;
  mret (true, keys).

Definition stored_key_pairs (ca_directory server_directory : option string) (passphrase : string)
    (keys : key_pairs) : M (bool * key_pairs) :=
  let '(ca_private, ca_public, (server_private, server_public)) := keys in
  '(ok, (ca_private, ca_public)) ← hybrid_key_store_load ca_directory (Some passphrase) ca_private ca_public;
  let keys := (ca_private, ca_public, (server_private, server_public)) in
  check (ok : bool) else mret (false, keys);;
  '(ok, (server_private, server_public)) ←
    hybrid_key_store_load server_directory (Some passphrase) server_private server_public;
  mret (ok, (ca_private, ca_public, (server_private, server_public))).

(** The certificates issued before, which must be a chain for the keys. *)
Definition existing_chain (root_pem server_pem : string) (keys : key_pairs)
    : M (bool * (option (obj X509) * option (obj X509))) :=
  let '(_, ca_public, (_, server_public)) := keys in
  existing_root ← hybrid_x509_read_pem (Some root_pem);
  existing_server ← hybrid_x509_read_pem (Some server_pem);
  let existing := (existing_root, existing_server) in
  check negb (is_null existing_root || is_null existing_server) else mret (false, existing);;
  ok ← hybrid_x509_public_key_matches existing_root ca_public;
  check (ok : bool) else mret (false, existing);;
  ok ← hybrid_x509_public_key_matches existing_server server_public;
  check (ok : bool) else mret (false, existing);;
  '(ok, _) ← hybrid_verify_chain existing_root existing_server
    (Some (ChainResult false zero_result zero_result false));
  check (ok : bool) else mret (false, existing);;
  print ("Loaded CA Hybrid private key matches " ++ root_pem ++ " Composite SPKI exactly");;
  print ("Loaded Server Hybrid private key matches " ++ server_pem ++ " Composite SPKI exactly");;
  mret (true, existing).

(** The outcome, whether the keys were loaded, the keys and the certificates
    that were there. *)
Definition obtain_keys (ca_directory server_directory : option string) (passphrase root_pem server_pem : string)
    (keys : key_pairs) : M (bool * (bool * key_pairs * (option (obj X509) * option (obj X509)))) :=
  ca_status ← hybrid_key_store_status ca_directory;
  server_status ← hybrid_key_store_status server_directory;
  if bool_decide (ca_status = HYBRID_KEY_STORE_MISSING) && bool_decide (server_status = HYBRID_KEY_STORE_MISSING)
  then
    '(ok, keys) ← new_key_pairs ca_directory server_directory passphrase keys;
    mret (ok, (false, keys, (None, None)))
  else if bool_decide (ca_status = HYBRID_KEY_STORE_COMPLETE) &&
          bool_decide (server_status = HYBRID_KEY_STORE_COMPLETE)
  then
    '(ok, keys) ← stored_key_pairs ca_directory server_directory passphrase keys;
    check (ok : bool) else mret (false, (false, keys, (None, None)));;
    '(ok, existing) ← existing_chain root_pem server_pem keys;
    mret (ok, (true, keys, existing))
  else mret (false, (false, keys, (None, None))).

Definition obtain_encryption_key (directory : option string) (passphrase : string) (loaded : bool)
    (encryption_pem : string) (existing_root : option (obj X509))
    : M (bool * (option (obj EVP_PKEY) * option (obj X509))) :=
  status ← hybrid_sm2_key_store_status directory;
  if bool_decide (status = HYBRID_KEY_STORE_MISSING)
  then
    key ← hybrid_sm2_generate_keypair;
    check negb (is_null key) else mret (false, (key, None));;
    ok ← hybrid_sm2_key_store_save directory key (Some passphrase);
    check (ok : bool) else mret (false, (key, None));;
    print "Generated and persisted a distinct TLCP SM2 encryption keypair";;
    mret (true, (key, None))
  else if bool_decide (status = HYBRID_KEY_STORE_COMPLETE) && loaded
  then
    key ← hybrid_sm2_key_store_load directory (Some passphrase);
    existing ← hybrid_x509_read_pem (Some encryption_pem);
    check negb (is_null key || is_null existing) else mret (false, (key, existing));;
    ok ← hybrid_x509_sm2_public_key_matches existing key;
    check (ok : bool) else mret (false, (key, existing));;
    '(ok, _) ← hybrid_verify_encryption_certificate existing existing_root (Some zero_result);
    check (ok : bool) else mret (false, (key, existing));;
    print ("Loaded TLCP encryption private key matches " ++ encryption_pem ++ " SM2 SPKI exactly");;
    mret (true, (key, existing))
  else mret (false, (None, None)).

(** The encryption certificate: made, matched with its key and verified. *)
Definition issue_encryption (ca_private : option HYBRID_PRIVATE_KEY) (ca_public : option HYBRID_PUBLIC_KEY)
    (key : option (obj EVP_PKEY)) (root : option (obj X509)) : M (bool * option (obj X509)) :=
  encryption ← hybrid_x509_create_sm2_encryption ca_private ca_public key root
                 (Some HYBRID_DEFAULT_SERVER_NAME);
  check negb (is_null encryption) else mret (false, encryption);;
  ok ← hybrid_x509_sm2_public_key_matches encryption key;
  check (ok : bool) else mret (false, encryption);;
  '(ok, _) ← hybrid_verify_encryption_certificate encryption root (Some zero_result);
  mret (ok, encryption).

(** The certificates, as far as they were made: the first three operands of
    [||], and the encryption certificate when there is to be one. *)
Definition issue_chain (keys : key_pairs) (generate_encryption : bool) (key : option (obj EVP_PKEY))
    : M (bool * (option (obj X509) * option (obj X509) * option (obj X509))) :=
  let '(ca_private, ca_public, (_, server_public)) := keys in
  root ← hybrid_x509_create_root ca_private ca_public (Some "Root Hybrid CA"%string);
  check negb (is_null root) else mret (false, (root, None, None));;
  server ← hybrid_x509_create_server ca_private ca_public server_public root
             (Some HYBRID_DEFAULT_SERVER_NAME) (Some HYBRID_DEFAULT_SERVER_NAME);
  check negb (is_null server) else mret (false, (root, server, None));;
  ok ← hybrid_x509_public_key_matches server server_public;
  check (ok : bool) else mret (false, (root, server, None));;
  '(ok, _) ← hybrid_verify_chain root server (Some (ChainResult false zero_result zero_result false));
  check (ok : bool) else mret (false, (root, server, None));;
  if negb generate_encryption then mret (true, (root, server, None))
  else
    '(ok, encryption) ← issue_encryption ca_private ca_public key root;
    mret (ok, (root, server, encryption)).

Definition write_chain (root server encryption : option (obj X509)) (root_pem root_der server_pem server_der : string)
    (encryption_paths : option (string * string)) : M bool :=
  ok ← hybrid_x509_write_files root (Some root_pem) (Some root_der);
  check (ok : bool) else mret false;;
  ok ← hybrid_x509_write_files server (Some server_pem) (Some server_der);
  check (ok : bool) else mret false;;
  match encryption_paths with
  | None => mret true
  | Some (pem, der) => hybrid_x509_write_files encryption (Some pem) (Some der)
  end.

Definition chain_written (loaded : bool) (root_pem root_der server_pem server_der : string)
    (encryption_paths : option (string * string)) : list string :=
  let wrote (kind pem der : string) :=
    ("Wrote " ++ kind ++ " certificate: " ++ pem ++ ", " ++ der)%string in
  [(verdict loaded "Reused validated" "Used new" ++ " persisted key material")%string;
   wrote "Root"%string root_pem root_der; wrote "Server"%string server_pem server_der] ++
  match encryption_paths with
  | None => []
  | Some (pem, der) => [wrote "TLCP encryption"%string pem der]
  end.

(** What [main] does once the arguments are known. *)
Definition generate_demo_chain (root_pem root_der server_pem server_der : string)
    (encryption_paths : option (string * string)) (key_root : string) (passphrase : option string) : M Z :=
  match passphrase with
  | None => mret EXIT_FAILURE
  | Some passphrase =>
      if strlen passphrase <? 12 then mret EXIT_FAILURE
      else
        let generate_encryption := negb (is_null encryption_paths) in
        let keys : key_pairs :=
          (Some zero_private_key, Some zero_public_key, (Some zero_private_key, Some zero_public_key)) in
        '(ok, (ca_directory, server_directory, encryption_directory)) ←
          make_directories key_root generate_encryption;
        let done (keys : key_pairs) (existing : option (obj X509) * option (obj X509))
            (encryption_key : option (obj EVP_PKEY)) (existing_encryption : option (obj X509))
            (chain : option (obj X509) * option (obj X509) * option (obj X509)) (exit_code : Z) : M Z :=
          let '(ca_private, ca_public, (server_private, server_public)) := keys in
          let '(root, server, encryption) := chain in
          free_object encryption_directory;; free_object server_directory;; free_object ca_directory;;
          free_object server;; free_object encryption;; free_object root;;
          free_object (snd existing);; free_object existing_encryption;; free_object (fst existing);;
          hybrid_public_key_cleanup server_public;; hybrid_private_key_cleanup server_private;;
          hybrid_public_key_cleanup ca_public;; hybrid_private_key_cleanup ca_private;;
          free_object encryption_key;;
          mret exit_code in
        check (ok : bool) else done keys (None, None) None None (None, None, None) EXIT_FAILURE;;
        ca ← string_at ca_directory;
        server ← string_at server_directory;
        '(ok, (loaded, keys, existing)) ← obtain_keys ca server passphrase root_pem server_pem keys;
        check (ok : bool) else done keys existing None None (None, None, None) EXIT_FAILURE;;
        '(ok, (encryption_key, existing_encryption)) ←
          (match encryption_paths with
           | None => mret (true, (None, None))
           | Some (pem, _) =>
               directory ← string_at encryption_directory;
               obtain_encryption_key directory passphrase loaded pem (fst existing)
           end);
        check (ok : bool)
          else done keys existing encryption_key existing_encryption (None, None, None) EXIT_FAILURE;;
        '(ok, chain) ← issue_chain keys generate_encryption encryption_key;
        check (ok : bool) else done keys existing encryption_key existing_encryption chain EXIT_FAILURE;;
        let '(root, server, encryption) := chain in
        ok ← write_chain root server encryption root_pem root_der server_pem server_der encryption_paths;
        check (ok : bool) else done keys existing encryption_key existing_encryption chain EXIT_FAILURE;;
        print_lines (chain_written loaded root_pem root_der server_pem server_der encryption_paths);;
        done keys existing encryption_key existing_encryption chain EXIT_SUCCESS
  end.

(** [argc] is 5, 6, 7 or 8; the passphrase is that of the environment. *)
Definition generate_demo_chain_main (argv : list string) (passphrase : option string) : M Z :=
  match argv with
  | [_; rp; rd; sp; sd] => generate_demo_chain rp rd sp sd None "keys" passphrase
  | [_; rp; rd; sp; sd; key_root] => generate_demo_chain rp rd sp sd None key_root passphrase
  | [_; rp; rd; sp; sd; ep; ed] => generate_demo_chain rp rd sp sd (Some (ep, ed)) "keys" passphrase
  | [_; rp; rd; sp; sd; ep; ed; key_root] =>
      generate_demo_chain rp rd sp sd (Some (ep, ed)) key_root passphrase
  | _ => mret EXIT_FAILURE
  end.
End tool.
#[global] Arguments key_subdirectory : simpl never.
#[global] Arguments ensure_key_root : simpl never.
#[global] Arguments make_directories : simpl never.
#[global] Arguments new_key_pairs : simpl never.
#[global] Arguments stored_key_pairs : simpl never.
#[global] Arguments existing_chain : simpl never.
#[global] Arguments obtain_keys : simpl never.
#[global] Arguments obtain_encryption_key : simpl never.
#[global] Arguments issue_encryption : simpl never.
#[global] Arguments issue_chain : simpl never.
#[global] Arguments write_chain : simpl never.
#[global] Arguments generate_demo_chain : simpl never.
#[global] Arguments chain_written : simpl never.
#[export] Hint Opaque key_subdirectory ensure_key_root make_directories new_key_pairs
  stored_key_pairs existing_chain obtain_keys obtain_encryption_key issue_encryption issue_chain
  write_chain generate_demo_chain : typeclass_instances.

(** ** Specifications *)

Section specs.
Context `{Libc, OpenSSL, !OpenSSLSizes, Dilithium2, !Dilithium2Sizes, !OpenSSLCipher, !CipherSizes, Posix,
          !X509Library, !X509Sizes, !X509Builder, !X509BuilderContracts}.

(** The references of the keys, and what sizes they have. *)
Definition pairs_own (k : key_pairs) : gmultiset positive :=
  let '(ca_private, ca_public, (server_private, server_public)) := k in
  private_owns ca_private ⊎ public_owns ca_public ⊎ private_owns server_private ⊎ public_owns server_public.
Definition pairs_wf (k : key_pairs) : Prop :=
  let '(ca_private, ca_public, (server_private, server_public)) := k in
  from_option private_key_wf True ca_private ∧ from_option public_key_wf True ca_public ∧
  from_option private_key_wf True server_private ∧ from_option public_key_wf True server_public.

(** The certificates that were there. *)
Definition existing_own (e : option (obj X509) * option (obj X509)) : gmultiset positive :=
  owns (fst e) ⊎ owns (snd e).

(** The frames of the context are turned into what they say about [live] and
    [files], and the current state gets a name. *)
Ltac frame_facts :=
  unfold moves in *;
  repeat match goal with
  | F : frame _ _ _ _ |- _ =>
      let L := fresh "L" in let K := fresh "K" in
      pose proof (frame_live _ _ _ _ F) as L; pose proof (frame_files _ _ _ _ F) as K; clear F
  end.
Ltac wp_rebase :=
  let settle S u fs :=
    (let s := fresh "s" in let L := fresh "L" in let K := fresh "K" in
     assert (L : live S = live u) by reflexivity; assert (K : files S = fs) by reflexivity;
     set (s := S) in *; clearbody s; pose proof (frame_refl s)) in
  frame_facts;
  match goal with
  | |- wp _ _ (add_residue ?x ?u) => settle (add_residue x u) u (files u)
  | |- wp _ _ (with_files ?x ?u) => settle (with_files x u) u x
  | |- wp _ _ (add_output ?x ?u) => settle (add_output x u) u (files u)
  | |- wp _ _ ?s => pose proof (frame_refl s)
  end.

(** The references to what has been obtained. *)
Definition obtained_own (o : bool * key_pairs * (option (obj X509) * option (obj X509))) : gmultiset positive :=
  pairs_own (snd (fst o)) ⊎ existing_own (snd o).

Ltac moves_lia :=
  frame_facts; unfold obtained_own, existing_own in *;
  cbn [fst snd owns pairs_own live add_output add_residue with_files] in *; ms_lia.

(** What happened to the files, one step after the other. *)
Ltac kept_done :=
  frame_facts; cbn [files add_output add_residue with_files fst snd] in *;
  let p := fresh "p" in let Hp := fresh "Hp" in
  intros p Hp;
  repeat match goal with H : _ ∧ _ |- _ => destruct H as [? ?] end;
  repeat match goal with
  | K : kept ?X ?a ?b |- _ =>
      let E := fresh "E" in assert (E : b !! p = a !! p) by (apply K; repeat (assumption || apply conj)); clear K
  end; congruence.

Lemma nul_free_c_string b : nul_free (c_string b).
Proof.
  unfold nul_free. induction b as [|x b IH]; cbn [c_string]; [constructor|].
  destruct (decide (x = Byte.x00)); [constructor|]. rewrite lit_cons. constructor; [|done].
  by rewrite Ascii.byte_of_ascii_of_byte.
Qed.

#[export] Instance spec_new_key_pairs ca sv ps keys :
  Spec (new_key_pairs ca sv ps keys)
    (λ s, from_option nul_free True ca ∧ from_option nul_free True sv ∧ pairs_own keys ⊆ live s ∧ pairs_wf keys)
    (λ r s s', moves (pairs_own keys) (pairs_own (snd r)) s s' ∧ pairs_wf (snd r) ∧
       kept (λ p, away ca p ∧ away sv p) (files s) (files s')).
Proof.
  wp_start. destruct keys as [[cap cak] [sp sk]]. destruct P as (Hca & Hsv & Hl & Hwf1 & Hwf2 & Hwf3 & Hwf4).
  cbn [pairs_own] in Hl. unfold new_key_pairs.
  apply wp_bind, wp_generate_pair; [ms_lia|done..|]. intros ok cap' cak' s1 L1 K1 ? ?.
  destruct ok; [|apply wp_ret; split_and!; [moves_lia|done..|kept_done]].
  apply wp_bind, wp_generate_pair; [moves_lia|done..|]. intros ok sp' sk' s2 L2 K2 ? ?.
  destruct ok; [|apply wp_ret; split_and!; [moves_lia|done..|kept_done]].
  apply wp_bind, wp_save_kept; [done|moves_lia|done|moves_lia|done|]. intros ok s3 L3 K3.
  destruct ok; [|apply wp_ret; split_and!; [moves_lia|done..|kept_done]].
  apply wp_bind, wp_save_kept; [done|moves_lia|done|moves_lia|done|]. intros ok s4 L4 K4.
  destruct ok; [|apply wp_ret; split_and!; [moves_lia|done..|kept_done]].
  wp_prints. apply wp_ret. split_and!; [moves_lia|done..|kept_done].
Qed.

#[export] Instance spec_stored_key_pairs ca sv ps keys :
  Spec (stored_key_pairs ca sv ps keys)
    (λ s, from_option nul_free True ca ∧ from_option nul_free True sv ∧ pairs_own keys ⊆ live s ∧ pairs_wf keys)
    (λ r s s', moves (pairs_own keys) (pairs_own (snd r)) s s' ∧ pairs_wf (snd r) ∧
       kept (λ p, away ca p ∧ away sv p) (files s) (files s')).
Proof.
  wp_start. destruct keys as [[cap cak] [sp sk]]. destruct P as (Hca & Hsv & Hl & Hwf1 & Hwf2 & Hwf3 & Hwf4).
  cbn [pairs_own] in Hl. unfold stored_key_pairs.
  apply wp_bind, wp_load_pair; [done|ms_lia|done..|]. intros ok cap' cak' s1 L1 K1 ? ?.
  destruct ok; [|apply wp_ret; split_and!; [moves_lia|done..|kept_done]].
  apply wp_bind, wp_load_pair; [done|moves_lia|done..|]. intros ok sp' sk' s2 L2 K2 ? ?.
  apply wp_ret. split_and!; [moves_lia|done..|kept_done].
Qed.

#[export] Instance spec_existing_chain rp sp keys :
  Spec (existing_chain rp sp keys) (λ s, pairs_own keys ⊆ live s ∧ pairs_wf keys)
    (λ r s s', moves ∅ (existing_own (snd r)) s s' ∧ files s' = files s ∧
       (fst r = true → ∃ ro se, snd r = (Some ro, Some se) ∧ chain_accepted once issued_by (obj_val ro) (obj_val se))).
Proof.
  wp_start. destruct keys as [[cap cak] [spr sk]]. destruct P as (Hl & Hwf1 & Hwf2 & Hwf3 & Hwf4).
  cbn [pairs_own] in Hl. unfold existing_chain.
  wp_call as ro (F & _ & _). wp_call as se (F1 & _ & _). set (Post := λ (r : bool * _) s', _ ∧ _ ∧ _).
  assert (Hfail : ∀ s', frame ∅ (owns ro ⊎ owns se) s s' → Post (false, (ro, se)) s').
  { intros s' F'. split_and!; [moves_lia|by apply (frame_files _ _ _ _ F')|done]. }
  destruct ro as [ro|]; cbn [is_null orb negb]; [|apply wp_ret, Hfail; solve_frame].
  destruct se as [se|]; cbn [is_null orb negb]; [|apply wp_ret, Hfail; solve_frame].
  wp_call as ok [F2 _]. destruct ok; [|apply wp_ret, Hfail; solve_frame].
  wp_call as ok [F3 _]. destruct ok; [|apply wp_ret, Hfail; solve_frame].
  wp_call as [ok rep] (F4 & local & Hrep & _ & Hro & Hse & Hv). injection Hrep as -> _.
  destruct (chain_valid local) eqn:E; [|apply wp_ret, Hfail; solve_frame].
  destruct (chain_valid_accepted _ _ _ Hro Hse (eq_trans E Hv) E) as (? & ? & [= <-] & [= <-] & Hacc).
  wp_prints. apply wp_ret. split_and!; [moves_lia| |intros _; by exists ro, se].
  frame_facts. by cbn [files add_output].
Qed.

#[export] Instance spec_obtain_keys ca sv ps rp sp keys :
  Spec (obtain_keys ca sv ps rp sp keys)
    (λ s, from_option nul_free True ca ∧ from_option nul_free True sv ∧ pairs_own keys ⊆ live s ∧ pairs_wf keys)
    (λ r s s', moves (pairs_own keys) (obtained_own (snd r)) s s' ∧ pairs_wf (snd (fst (snd r))) ∧
       kept (λ p, away ca p ∧ away sv p) (files s) (files s') ∧
       (fst r = true → fst (fst (snd r)) = true → ∃ ro se, snd (snd r) = (Some ro, Some se) ∧
          chain_accepted once issued_by (obj_val ro) (obj_val se))).
Proof.
  wp_start. destruct P as (Hca & Hsv & Hl & Hwf). unfold obtain_keys.
  wp_call as st (F & _ & _). wp_call as st' (F1 & _ & _).
  destruct (_ && _).
  { wp_call as [ok k] (L & Hk & Kk). cbn [fst snd] in *. wp_rebase. apply wp_ret.
    split_and!; [moves_lia|done|kept_done|done]. }
  destruct (_ && _).
  2: { apply wp_ret. split_and!; [moves_lia|done|kept_done|done]. }
  wp_call as [ok k] (L & Hk & Kk). cbn [fst snd] in *. wp_rebase.
  destruct ok; [|apply wp_ret; split_and!; [moves_lia|done|kept_done|done]].
  wp_call as [ok e] (L1 & Ke & He). cbn [fst snd] in *. wp_rebase. apply wp_ret.
  split_and!; [moves_lia|done|kept_done|]. intros Hok _. by apply He.
Qed.

(** The directories of the tool, under the directory of the keys. *)
Definition names (d : option block) (p : string) : Prop := (λ b, c_string (obj_val b)) <$> d = Some p.

#[export] Instance spec_make_directories root gen :
  Spec (make_directories root gen) (λ _, nul_free root)
    (λ r s s', let '(ok, (ca, sv, en)) := r in
       moves ∅ (owns ca ⊎ owns sv ⊎ owns en) s s' ∧ kept (λ p, p ≠ root) (files s) (files s') ∧
       (ok = true → private_directory (files s') root ∧
          names ca (store_path root "ca") ∧ names sv (store_path root "server") ∧
          (gen = true → names en (store_path root "server-encryption")))).
Proof.
  wp_start. unfold make_directories, ensure_key_root, key_subdirectory.
  assert (store_name "ca" ∧ store_name "server" ∧ store_name "server-encryption") as (? & ? & ?)
    by (split_and!; (split; [by repeat constructor|done])).
  wp_call as ok (s1 & fs & F & -> & Hfs & Hok & _).
  assert (kept (λ p, p ≠ root) (files s) fs).
  { rewrite <-(frame_files _ _ _ _ F0). destruct Hfs as [->|(? & [= <-] & _ & ->)]; [done|].
    intros p Hp. by rewrite lookup_insert_ne. }
  wp_rebase. destruct ok; [|apply wp_ret; split_and!; [moves_lia|kept_done|done]].
  destruct (Hok eq_refl) as (? & [= <-] & _ & Hpd).
  assert (Hdir : ∀ u, files u = fs → private_directory (files u) root) by (by intros u ->).
  wp_call as ca (F1 & Hca & _).
  destruct ca as [ca|]; cbn [is_null negb]; [|apply wp_ret; split_and!; [moves_lia|kept_done|done]].
  destruct (Hca ca eq_refl) as (? & [= <-] & _ & Hcn).
  wp_call as sv (F2 & Hsv & _).
  destruct sv as [sv|]; cbn [is_null negb]; [|apply wp_ret; split_and!; [moves_lia|kept_done|done]].
  destruct (Hsv sv eq_refl) as (? & [= <-] & _ & Hsn).
  destruct gen; cbn [negb].
  - wp_call as en (F3 & Hen & _). apply wp_ret. split_and!; [moves_lia|kept_done|].
    destruct en as [en|]; [|done]. destruct (Hen en eq_refl) as (? & [= <-] & _ & Hn). intros _.
    split; [apply Hdir; frame_facts; congruence|]. unfold names. cbn. by rewrite Hcn, Hsn, Hn.
  - apply wp_ret. split_and!; [moves_lia|kept_done|]. intros _.
    split; [apply Hdir; frame_facts; congruence|]. unfold names. cbn. by rewrite Hcn, Hsn.
Qed.

#[export] Instance spec_obtain_encryption_key d ps loaded pem ro :
  Spec (obtain_encryption_key d ps loaded pem ro) (λ s, from_option nul_free True d ∧ owns ro ⊆ live s)
    (λ r s s', moves ∅ (owns (fst (snd r)) ⊎ owns (snd (snd r))) s s' ∧ kept (away d) (files s) (files s')).
Proof.
  wp_start. destruct P as [Hd Hl]. unfold obtain_encryption_key.
  wp_call as st (s1 & fs & F & -> & Hfs & _).
  assert (kept (away d) (files s) fs).
  { rewrite <-(frame_files _ _ _ _ F0). destruct Hfs as [->|(? & -> & ? & _ & ->)]; [done|].
    apply entered_kept. by right. }
  wp_rebase. destruct (bool_decide _).
  { wp_call as key [F1 _].
    destruct key as [key|]; cbn [is_null negb]; [|apply wp_ret; split_and!; [moves_lia|kept_done]].
    apply wp_bind, wp_sm2_save_kept; [done|solve_alive|]. intros ok s3 L3 K3.
    destruct ok; [|apply wp_ret; split_and!; [moves_lia|kept_done]].
    wp_prints. apply wp_ret. split_and!; [moves_lia|kept_done]. }
  destruct (_ && _); [|apply wp_ret; split_and!; [moves_lia|kept_done]].
  wp_call as key (s3 & fs' & F3 & -> & Hfs' & _).
  assert (kept (away d) (files s0) fs').
  { rewrite <-(frame_files _ _ _ _ F). destruct Hfs' as [->|(? & -> & He)]; [done|]. by apply entered_kept. }
  wp_rebase. wp_call as ex (F4 & _ & _).
  destruct (negb (is_null key || is_null ex)); [|apply wp_ret; split_and!; [moves_lia|kept_done]].
  wp_call as ok [F5 _]. destruct ok; [|apply wp_ret; split_and!; [moves_lia|kept_done]].
  wp_call as [ok rep] (F6 & _). destruct ok; [|apply wp_ret; split_and!; [moves_lia|kept_done]].
  wp_prints. apply wp_ret. split_and!; [moves_lia|kept_done].
Qed.

(** The encryption certificate issued was made for the key and verifies under
    the root. *)
Definition encryption_issued (sk : option HYBRID_PRIVATE_KEY) (pk : option HYBRID_PUBLIC_KEY)
    (key : option (obj EVP_PKEY)) (root encryption : option (obj X509)) : Prop :=
  ∃ e ro, encryption = Some e ∧ root = Some ro ∧
    certificate_made sk (sm2_encryption_fields pk key root (Some HYBRID_DEFAULT_SERVER_NAME)) (obj_val e) ∧
    encryption_accepts once (issued_by (obj_val ro) (obj_val e)) (obj_val e) (obj_val ro).

#[export] Instance spec_issue_encryption sk pk key root :
  Spec (issue_encryption sk pk key root)
    (λ s, private_owns sk ∪ (public_owns pk ∪ owns key) ∪ owns root ⊆ live s ∧
          from_option private_key_wf True sk ∧ from_option public_key_wf True pk)
    (λ r s s', frame ∅ (owns (snd r)) s s' ∧
       (fst r = true → encryption_issued sk pk key root (snd r))).
Proof.
  wp_start. destruct P as (Hl & Hsk & Hpk). unfold issue_encryption.
  wp_call as e ([F He] & _). destruct e as [e|]; cbn [is_null negb]; [|apply wp_ret; split; [solve_frame|done]].
  wp_call as ok [F1 _]. destruct ok; [|apply wp_ret; split; [solve_frame|done]].
  wp_call as [ok rep] (F2 & local & Hrep & Hv). injection Hrep as -> _. apply wp_ret. split; [solve_frame|].
  cbn [fst snd]. intros Hok. destruct root as [ro|]; cbn in Hv; [|by subst local].
  exists e, ro. split_and!; try done. by apply Hv.
Qed.

(** The certificates issued were made with the keys and verify as a chain. *)
Definition chain_issued (keys : key_pairs) (root server : option (obj X509)) : Prop :=
  let '(ca_private, ca_public, (_, server_public)) := keys in
  ∃ ro se, root = Some ro ∧ server = Some se ∧
    certificate_made ca_private (root_fields ca_public (Some "Root Hybrid CA"%string)) (obj_val ro) ∧
    certificate_made ca_private (server_fields ca_public server_public root
      (Some HYBRID_DEFAULT_SERVER_NAME) (Some HYBRID_DEFAULT_SERVER_NAME)) (obj_val se) ∧
    chain_accepted once issued_by (obj_val ro) (obj_val se).

Definition chain_own (c : option (obj X509) * option (obj X509) * option (obj X509)) : gmultiset positive :=
  owns (fst (fst c)) ⊎ owns (snd (fst c)) ⊎ owns (snd c).

#[export] Instance spec_issue_chain keys gen key :
  Spec (issue_chain keys gen key) (λ s, pairs_own keys ⊎ owns key ⊆ live s ∧ pairs_wf keys)
    (λ r s s', let '(ok, (root, server, encryption)) := r in
       frame ∅ (owns root ⊎ owns server ⊎ owns encryption) s s' ∧
       (ok = true → chain_issued keys root server ∧
          (gen = true → encryption_issued (fst (fst keys)) (snd (fst keys)) key root encryption))).
Proof.
  wp_start. destruct keys as [[cap cak] [spr sk]]. destruct P as (Hl & Hwf1 & Hwf2 & Hwf3 & Hwf4).
  cbn [pairs_own] in Hl. unfold issue_chain.
  wp_call as ro ([F Hro] & _). destruct ro as [ro|]; cbn [is_null negb]; [|apply wp_ret; split; [solve_frame|done]].
  wp_call as se ([F1 Hse] & _). destruct se as [se|]; cbn [is_null negb]; [|apply wp_ret; split; [solve_frame|done]].
  wp_call as ok [F2 _]. destruct ok; [|apply wp_ret; split; [solve_frame|done]].
  wp_call as [ok rep] (F3 & local & Hrep & _ & Hrv & Hsv & Hv). injection Hrep as -> _.
  destruct (chain_valid local) eqn:E; [|apply wp_ret; split; [solve_frame|done]].
  destruct (chain_valid_accepted _ _ _ Hrv Hsv (eq_trans E Hv) E) as (? & ? & [= <-] & [= <-] & Hacc).
  assert (Hi : chain_issued (cap, cak, (spr, sk)) (Some ro) (Some se)) by (exists ro, se; by split_and!).
  destruct gen; cbn [negb]; [|apply wp_ret; split; [solve_frame|by intros _; split]].
  wp_call as [ok e] [F4 He]. apply wp_ret. split; [solve_frame|]. intros ->. split; [done|]. intros _. by apply He.
Qed.

(** The two files of a certificate, if their paths lead to different files. *)
Definition wrote (c : obj X509) (pem der : string) (fs fs' : gmap string node) : Prop :=
  ∀ pp dp, two_targets fs (Some pem) (Some der) pp dp → files_written (obj_val c) pp dp fs fs'.

(** The files of the chain, written one certificate after the other. *)
Definition chain_files (root server encryption : option (obj X509)) (rp rd sp sd : string)
    (encryption_paths : option (string * string)) (fs fs' : gmap string node) : Prop :=
  ∃ ro se fs1 fs2, root = Some ro ∧ server = Some se ∧ wrote ro rp rd fs fs1 ∧ wrote se sp sd fs1 fs2 ∧
    match encryption_paths with
    | None => fs' = fs2
    | Some (ep, ed) => ∃ e, encryption = Some e ∧ wrote e ep ed fs2 fs'
    end.

#[export] Instance spec_write_chain root server encryption rp rd sp sd paths :
  Spec (write_chain root server encryption rp rd sp sd paths)
    (λ s, owns root ⊎ owns server ⊎ owns encryption ⊆ live s)
    (λ r s s', ∃ s1 fs, frame ∅ ∅ s s1 ∧ s' = with_files fs s1 ∧
       (r = true → chain_files root server encryption rp rd sp sd paths (files s) fs)).
Proof.
  wp_start. unfold write_chain.
  wp_call as ok (s1 & fs1 & F & -> & Hsome & Hw). fs_simpl.
  destruct ok; [|apply wp_ret; exists s1, fs1; by split_and!].
  destruct (Hsome eq_refl) as (ro & ? & ? & -> & _).
  wp_call as ok (s2 & fs2 & F2 & -> & Hsome2 & Hw2). fs_simpl.
  destruct ok; [|apply wp_ret; eexists _, fs2; by split_and!].
  destruct (Hsome2 eq_refl) as (se & ? & ? & -> & _).
  assert (Hro : wrote ro rp rd (files s) fs1) by (intros pp dp Ht; by apply (Hw ro)).
  assert (Hse : wrote se sp sd fs1 fs2) by (intros pp dp Ht; by apply (Hw2 se)).
  destruct paths as [[ep ed]|].
  - eapply wp_spec; [apply _|solve_alive|]. intros ok s' (s3 & fs3 & F3 & -> & Hsome3 & Hw3). fs_simpl. frame_merge.
    eexists _, fs3. split; [solve_frame|]. split; [done|]. intros ->.
    destruct (Hsome3 eq_refl) as (e & ? & ? & -> & _). exists ro, se, fs1, fs2. split_and!; try done.
    exists e. split; [done|]. intros pp dp Ht. by apply (Hw3 e).
  - apply wp_ret. eexists _, fs2. split; [solve_frame|]. split; [done|]. intros _. by exists ro, se, fs1, fs2.
Qed.

(** The exit of the tool: everything it holds is released. *)
Lemma wp_demo_exit (ed sd cd : option block) (server encryption root es ee er : option (obj X509))
    cap cak spr sk (key : option (obj EVP_PKEY)) (code : Z) Φ s :
  owns ed ⊎ owns sd ⊎ owns cd ⊎ owns server ⊎ owns encryption ⊎ owns root ⊎ owns es ⊎ owns ee ⊎ owns er ⊎
    pairs_own (cap, cak, (spr, sk)) ⊎ owns key ⊆ live s → pairs_wf (cap, cak, (spr, sk)) →
  (∀ s', files s' = files s →
     live s' ⊎ (owns ed ⊎ owns sd ⊎ owns cd ⊎ owns server ⊎ owns encryption ⊎ owns root ⊎ owns es ⊎ owns ee ⊎
     owns er ⊎ pairs_own (cap, cak, (spr, sk)) ⊎ owns key) = live s → Φ code s') →
  wp (free_object ed;; free_object sd;; free_object cd;;
      free_object server;; free_object encryption;; free_object root;;
      free_object es;; free_object ee;; free_object er;;
      hybrid_public_key_cleanup sk;; hybrid_private_key_cleanup spr;;
      hybrid_public_key_cleanup cak;; hybrid_private_key_cleanup cap;;
      free_object key;; mret code) Φ s.
Proof.
  intros Hl (Hwf1 & Hwf2 & Hwf3 & Hwf4) HΦ. pose proof (frame_refl s).
  cbn [pairs_own] in *. do 9 wp_call as ? ?. do 4 wp_call as ? [? ?]. wp_call as ? ?.
  apply wp_ret, HΦ; frame_facts; [congruence|ms_lia].
Qed.

(** What the arguments name: the files of the certificates and the directory of
    the keys. *)
Definition demo_arguments (argv : list string) (rp rd sp sd : string) (paths : option (string * string))
    (key_root : string) : Prop :=
  ∃ name rest, argv = name :: [rp; rd; sp; sd] ++ from_option (λ '(ep, ed), [ep; ed]) [] paths ++ rest ∧
    (rest = [] ∧ key_root = "keys"%string ∨ rest = [key_root]).

(** Paths that are not those of the keys. *)
Definition elsewhere (key_root p : string) : Prop :=
  p ≠ key_root ∧ away (Some (store_path key_root "ca")) p ∧ away (Some (store_path key_root "server")) p ∧
  away (Some (store_path key_root "server-encryption")) p.

(** A run that succeeded: the chain that was issued was written to the files. *)
Definition demo_made (rp rd sp sd : string) (paths : option (string * string)) (key_root : string)
    (passphrase : option string) (fs fs' : gmap string node) : Prop :=
  ∃ ps keys key root server encryption fs1, passphrase = Some ps ∧ 12 ≤ strlen ps ∧ pairs_wf keys ∧
    chain_issued keys root server ∧
    (is_Some paths → encryption_issued (fst (fst keys)) (snd (fst keys)) key root encryption) ∧
    kept (elsewhere key_root) fs fs1 ∧ chain_files root server encryption rp rd sp sd paths fs1 fs'.

#[local] Ltac demo_fails :=
  apply wp_demo_exit; [moves_lia|done|]; intros ? ? ?; split; [moves_lia|by right].

Lemma wp_demo rp rd sp sd paths kr pass s :
  nul_free kr →
  wp (generate_demo_chain rp rd sp sd paths kr pass) (λ r s', live s' = live s ∧
    (r = EXIT_SUCCESS ∧ demo_made rp rd sp sd paths kr pass (files s) (files s') ∨ r = EXIT_FAILURE)) s.
Proof.
  intros Hkr. pose proof (frame_refl s). unfold generate_demo_chain.
  destruct pass as [ps|]; [|apply wp_ret; auto]. destruct (Z.ltb_spec (strlen ps) 12); [apply wp_ret; auto|].
  assert (Hzero : from_option private_key_wf True (Some zero_private_key) ∧
    private_owns (Some zero_private_key) = ∅) by (split; [apply zero_private_key_wf|done]).
  assert (Hzero' : from_option public_key_wf True (Some zero_public_key) ∧
    public_owns (Some zero_public_key) = ∅) by (split; [apply zero_public_key_wf|done]).
  generalize dependent (Some zero_public_key). intros zpk [Hpk Hpkn].
  generalize dependent (Some zero_private_key). intros zsk [Hsk Hskn].
  wp_call as [ok [[cd sv] ed]] (L & K & Hdir). wp_rebase. destruct ok; [|demo_fails].
  destruct (Hdir eq_refl) as (_ & Hca & Hsv & Hen). clear Hdir. unfold names in Hca, Hsv, Hen.
  wp_call as ca [-> ->]. rewrite Hca. wp_call as server [-> ->]. rewrite Hsv.
  assert (nul_free (store_path kr "ca") ∧ nul_free (store_path kr "server") ∧
    nul_free (store_path kr "server-encryption")) as (? & ? & Hef)
    by (split_and!; (apply nul_free_store_path; [done|by repeat constructor])).
  apply wp_bind. eapply wp_spec; [apply spec_obtain_keys|split_and!; [done|done|moves_lia|done..]|].
  intros [ok [[loaded keys] existing]] s2 (L2 & Hwf & K2 & Hex). cbn [fst snd] in *.
  destruct keys as [[cap cak] [spr sk]], existing as [er es]. cbn [fst snd] in *.
  destruct ok; [|demo_fails].
  set (enc := match paths with Some _ => _ | None => _ end).
  assert (Henc : ∀ Φ : _ → state → Prop, (∀ ok key ee s3, moves ∅ (owns key ⊎ owns ee) s2 s3 →
    kept (away (Some (store_path kr "server-encryption"))) (files s2) (files s3) → Φ (ok, (key, ee)) s3) → wp enc Φ s2).
  { intros Φ HΦ. subst enc. destruct paths as [[pem der]|]; [|apply wp_ret, HΦ; [moves_lia|done]].
    pose proof (frame_refl s2). wp_call as d [-> ->]; [moves_lia|]. rewrite (Hen eq_refl).
    eapply wp_spec; [apply spec_obtain_encryption_key|split; [done|moves_lia]|].
    intros [ok [key ee]] s3 [L3 K3]. by apply HΦ. }
  clearbody enc. apply wp_bind, Henc. intros ok key ee s3 L3 K3. clear Henc.
  destruct ok; [|demo_fails].
  apply wp_bind. eapply wp_spec; [apply spec_issue_chain|split; [moves_lia|done]|].
  intros [ok [[root server] encryption]] s4 [F4 Hc]. pose proof (frame_files _ _ _ _ F4) as Kc.
  destruct ok; [|demo_fails]. destruct (Hc eq_refl) as [Hci Hei]. clear Hc.
  apply wp_bind. eapply wp_spec; [apply spec_write_chain|moves_lia|].
  intros ok s' (s5 & fs & F5 & -> & Hw). destruct ok; [|demo_fails].
  wp_call as ? ->. apply wp_demo_exit; [moves_lia|done|]. intros s6 K6 L6. split; [moves_lia|]. left. split; [done|].
  rewrite K6. cbn [files add_output with_files].
  exists ps, (cap, cak, (spr, sk)), key, root, server, encryption, (files s4).
  split_and!; try done; [| |by apply Hw].
  - intros [? ->]. by apply Hei.
  - clear Hen Hei Hw Hex. intros p (Hp & Hp1 & Hp2 & Hp3). frame_facts.
    rewrite Kc, (K3 p Hp3), (K2 p (conj Hp1 Hp2)). by apply K.
Qed.

(** C14. The tool exits with success or failure with everything released, and
    succeeds only when a passphrase of at least twelve bytes was given, the
    certificates it writes were made with its keys and were verified as a
    chain, the encryption certificate too when one is asked for. It has then
    written one certificate after the other: where the two paths of a
    certificate lead to different files, these become its PEM and its DER
    encoding up to an end that may be lost because closing a file fails
    unnoticed, and the whole encodings when files work; the files of a later
    certificate may replace those of an earlier one. Before that, the tool has
    changed nothing except at the paths of its keys. *)
Theorem generate_demo_chain_main_correct argv passphrase s :
  Forall nul_free argv →
  wp (generate_demo_chain_main argv passphrase) (λ r s',
    live s' = live s ∧ (r = EXIT_SUCCESS ∨ r = EXIT_FAILURE) ∧
    (r = EXIT_SUCCESS → ∃ rp rd sp sd paths key_root, demo_arguments argv rp rd sp sd paths key_root ∧
       demo_made rp rd sp sd paths key_root passphrase (files s) (files s'))) s.
Proof.
  intros Hargv. unfold generate_demo_chain_main.
  assert (Hdone : ∀ rp rd sp sd paths kr, nul_free kr → demo_arguments argv rp rd sp sd paths kr →
    wp (generate_demo_chain rp rd sp sd paths kr passphrase) (λ r s',
    live s' = live s ∧ (r = EXIT_SUCCESS ∨ r = EXIT_FAILURE) ∧
    (r = EXIT_SUCCESS → ∃ rp rd sp sd paths key_root, demo_arguments argv rp rd sp sd paths key_root ∧
       demo_made rp rd sp sd paths key_root passphrase (files s) (files s'))) s).
  { intros. eapply wp_mono; [by apply wp_demo|]. intros r s' [? [[-> ?]| ->]]; split_and!; auto; [|done].
    intros _. by exists rp, rd, sp, sd, paths, kr. }
  assert (Hkeys : nul_free "keys"%string) by by repeat constructor.
  assert (Hlast : ∀ l x, argv = l ++ [x] → nul_free x).
  { intros l x ->. apply Forall_app in Hargv as [_ Hx]. by inversion Hx. }
  destruct argv as [|name [|rp [|rd [|sp [|sd [|a [|b [|c [|]]]]]]]]]; try (apply wp_ret; split_and!; auto; done).
  - apply Hdone; [done|]. exists name, []. split; [done|by left].
  - apply Hdone; [by apply (Hlast [name; rp; rd; sp; sd])|]. exists name, [a]. split; [done|by right].
  - apply Hdone; [done|]. exists name, []. split; [done|by left].
  - apply Hdone; [by apply (Hlast [name; rp; rd; sp; sd; a; b])|]. exists name, [c]. split; [done|by right].
Qed.
End specs.

(** ** A concrete instance *)

Section example.
#[local] Existing Instances env_libc env_openssl env_openssl_sizes env_dilithium env_dilithium_sizes
  env_cipher env_cipher_sizes env_posix.

(** The contents of the elements of a sequence. *)
Fixpoint env_contents (fuel : nat) (l : list byte) : list (list byte) :=
  match fuel, der_read l with
  | S fuel, Some (_, content, rest) => content :: env_contents fuel rest
  | _, _ => []
  end.

(** A certificate with the key and the signature of its encoding; the serial
    number tells which one of the example chain it is otherwise. *)
Definition env_filled (c : env_cert) (tbs sig spki : list byte) : env_cert :=
  Cert (c_subject c) (c_issuer c) (c_before c) (c_after c) tbs sig (c_algorithm c) (c_spki_algorithm c) spki
    (spki !! 1%nat) (c_ca c) (c_usage c) (c_purposes c) (c_names c) (c_subject_id c)
    (c_authority_id c) (c_marker c) (c_host c).

Definition env_decode_chain (e : list byte) : option (env_cert * Z) :=
  '(_, content, _) ← (if env_fits e then der_read e else None);
  '(_, tbs, rest) ← der_read content;
  '(_, _, bits) ← der_read rest;
  '(_, value, _) ← der_read bits;
  match env_contents 7 tbs with
  | [_; serial; _; _; _; _; key] =>
      spki ← env_contents 2 key !! 1%nat;
      let template := if decide (serial = lit "1") then env_root
                      else if decide (serial = lit "2") then env_server else env_encryption in
      Some (env_filled template (ztake (len content - len rest) content) (list.tail value) spki, len e)
  | _ => None
  end.

#[local] Instance env_chain_issuer : X509Library := env_x509_with env_decode_chain.
#[local] Instance env_chain_builder : X509Builder := env_builder_with env_decode_chain (λ _, None).
#[local] Instance env_chain_contracts : X509BuilderContracts := env_builder_with_contracts _ _.

#[local] Instance env_chain_sizes : X509Sizes.
Proof.
  apply env_x509_with_sizes. intros e c n. unfold env_decode_chain. intros H.
  repeat (apply bind_Some in H as ([[? ?] ?] & _ & H)). pose proof (len_nonneg e).
  repeat case_match; try done; apply bind_Some in H as (? & _ & H); injection H as <- <-; lia.
Qed.

(** Nothing is there before; the six files of the certificates and those of
    three key stores are there afterwards. *)
Lemma generate_demo_chain_main_correct_witness :
  let argv := ["generate_demo_chain"; "root.crt"; "root.der"; "sign.crt"; "sign.der"; "enc.crt"; "enc.der"; "keys"]%string in
  let passphrase := Some "twelve bytes"%string in
  let s := empty_state in
  Forall nul_free argv ∧
  fmap (M := option) (λ '(r, s'), (r, head (reverse (output s')), size (files s'))) (generate_demo_chain_main argv passphrase s) =
    Some (EXIT_SUCCESS, Some "Wrote TLCP encryption certificate: enc.crt, enc.der"%string, 15%nat) ∧
  wp (generate_demo_chain_main argv passphrase) (λ r s',
    live s' = live s ∧ (r = EXIT_SUCCESS ∨ r = EXIT_FAILURE) ∧
    (r = EXIT_SUCCESS → ∃ rp rd sp sd paths key_root, demo_arguments argv rp rd sp sd paths key_root ∧
       demo_made rp rd sp sd paths key_root passphrase (files s) (files s'))) s.
Proof.
  intros argv passphrase s. assert (Hargv : Forall nul_free argv) by by repeat constructor.
  split; [done|]. split; [by vm_compute|]. by apply (generate_demo_chain_main_correct argv passphrase s).
Defined.
End example.
