(* ===== verification/Benchmark.v ===== *)
(** * tools/benchmark_composite_verify.c

    The tool makes a key and a signature for each of four schemes, measures
    how long their verification takes, and reports. Floating-point arithmetic,
    the clock and the description of the machine are parameters. What it writes
    to the error stream, and the variable that keeps a compiler from removing
    the measured calls, are not modelled. *)

From Stdlib Require Import Strings.Ascii.
From S2P Require Import Prelude Machine External Posix Tools BenchStats Environment Dilithium Sm2 CompositeKey CompositeSig.

(** ** Parameters *)

(** [double], [long double]; [%.nf]. *)
Class FloatingPoint := {
  long_double : Type;
  double : Type;
  ld_of_Z : Z → long_double;
  ld_add : long_double → long_double → long_double;
  ld_div : long_double → long_double → long_double;
  double_of : long_double → double;
  d_sub : double → double → double;
  d_div : double → double → double;
  d_lt : double → double → bool;
  print_fixed : Z → double → string
}.

Record utsname := Utsname { sysname : string; release : string; machine : string }.

(** The clock (seconds and nanoseconds), [uname] and what the compiler and the
    build define. *)
Class Platform := {
  clock_gettime : N → option (Z * Z);
  uname : N → option utsname;
  (* macros: [__clang_version__], [__VERSION__], and the build type, where
     they are defined *)
  clang_version : option string;
  gcc_version : option string;
  build_type : option string;
  OpenSSL_version : string
}.

(** [EVP_PKEY_CTX_set_group_name] *)
Class OpenSSLGroups `{OpenSSL} := {
  EVP_PKEY_CTX_set_group_name : EVP_PKEY_CTX → string → N → Z * EVP_PKEY_CTX
}.

Definition BENCHMARK_MESSAGE_BYTES : Z := 1024.
Definition DEFAULT_WARMUP_ITERATIONS : Z := 1000.
Definition DEFAULT_TIMED_ITERATIONS : Z := 10000.

(** ** Measuring *)

Section measuring.
Context `{Libc, FloatingPoint, Platform}.

Record BENCHMARK_RESULT := BenchmarkResult {
  algorithm : string;
  count : Z;
  mean_ms : double;
  median_ms : double;
  p95_ms : double;
  p99_ms : double;
  min_ms : double;
  max_ms : double
}.

Definition COMPOSITE_REQUIREMENT_MS : double := double_of (ld_of_Z 50).

Definition now_ns : M Z :=
  timestamp ← call clock_gettime;
  mret match timestamp with
       | Some (sec, nsec) =>
           if (sec <? 0) || (nsec <? 0) then UINT64_MAX
           else size_add (size_mul (size_of_Z sec) 1000000000) (size_of_Z nsec)
       | None => UINT64_MAX
       end.

Definition ns_to_ms (nanoseconds : long_double) : double :=
  double_of (ld_div nanoseconds (ld_of_Z 1000000)).

(** The loops, over the iterations that remain. *)
Fixpoint warm_up (verify : M bool) (iterations : nat) : M bool :=
  match iterations with
  | O => mret true
  | S iterations =>
      verified ← verify;
      if verified : bool then warm_up verify iterations else mret false
  end.

Fixpoint timed_runs (verify : M bool) (iterations : nat) (samples : list Z) (total_ns : long_double)
    : M (option (list Z * long_double)) :=
  match iterations with
  | O => mret (Some (samples, total_ns))
  | S iterations =>
      start ← now_ns;
      verified ← verify;
      stop ← now_ns;
      check negb ((start =? UINT64_MAX) || (stop =? UINT64_MAX) || (stop <? start)) else mret None;;
      check (verified : bool) else mret None;;
      let elapsed := stop - start in
      timed_runs verify iterations (samples ++ [elapsed]) (ld_add total_ns (ld_of_Z elapsed))
  end.

(** The result of the sorted samples. *)
Definition summary (algorithm : string) (samples : list Z) (iterations : Z) (total_ns : long_double)
    : option BENCHMARK_RESULT :=
  let sorted := sort_samples samples in
  median_ns ← median_ns sorted iterations;
  p95 ← nearest_rank sorted iterations 95 100;
  p99 ← nearest_rank sorted iterations 99 100;
  min ← sample sorted 0;
  max ← sample sorted (size_sub iterations 1);
  Some (BenchmarkResult algorithm iterations
    (ns_to_ms (ld_div total_ns (ld_of_Z iterations))) (ns_to_ms (ld_of_Z median_ns))
    (ns_to_ms (ld_of_Z p95)) (ns_to_ms (ld_of_Z p99)) (ns_to_ms (ld_of_Z min)) (ns_to_ms (ld_of_Z max))).

(** The pointers are not [NULL]. The contents of the array are the list of
    the samples stored so far; outside it is undefined. *)
Definition run_benchmark (algorithm : string) (verify : M bool) (warmup_iterations iterations : Z)
    : M (option BENCHMARK_RESULT) :=
  if (iterations =? 0) || (iterations >? SIZE_MAX / 8) then mret None
  else
    samples ← malloc (size_mul iterations 8);
    match samples with
    | None => mret None
    | Some _ =>
        let done (r : option BENCHMARK_RESULT) := free_object samples;; mret r in
        ok ← warm_up verify (Z.to_nat warmup_iterations);
        if negb ok then done None
        else
          timed ← timed_runs verify (Z.to_nat iterations) [] (ld_of_Z 0);
          match timed with
          | None => done None
          | Some (values, total_ns) =>
              match summary algorithm values iterations total_ns with
              | None => undefined
              | Some result => done (Some result)
              end
          end
    end.
End measuring.

(** ** What is measured *)

Section schemes.
Context `{Libc, OpenSSL, !OpenSSLGroups, Dilithium2}.

Definition generate_ecdsa_p256_key : M (option (obj EVP_PKEY)) :=
  context ← new_object (EVP_PKEY_CTX_new_from_name "EC");
  key ← match context with
        | None => mret None
        | Some cx =>
            c ← deref cx;
            '(rc, c) ← call (EVP_PKEY_keygen_init c);
            if rc <=? 0 then mret None
            else
              '(rc, c) ← call (EVP_PKEY_CTX_set_group_name c "prime256v1");
              if rc <=? 0 then mret None
              else
                r ← call (EVP_PKEY_generate c);
                key ← new_object (λ _, snd r);
                if fst r <=? 0 then free_object key;; mret None else mret key
        end;
  free_object context;;
  mret key.

Definition ecdsa_p256_sha256_sign (key : option (obj EVP_PKEY)) (message : ptr) (message_len : Z)
    (signature : outbuf) : M (bool * outbuf) :=
  match key with
  | None => mret (false, signature)
  | Some key =>
      if is_null message || out_null signature then mret (false, signature)
      else
        let signature := fresh_out in
        context ← new_object EVP_MD_CTX_new;
        let done (output : option block) (r : bool * outbuf) :=
          free_object output;; free_object context;; mret r in
        match context with
        | None => done None (false, signature)
        | Some cx =>
            k ← deref key;
            '(rc, c) ← call (EVP_DigestSignInit_ex (obj_val cx) "SHA256" k);
            check negb (rc <=? 0) else done None (false, signature);;
            m ← read message message_len;
            '(rc, output_len) ← call (EVP_DigestSign_size c m);
            check negb (rc <=? 0) else done None (false, signature);;
            output ← malloc output_len;
            match output with
            | None => done None (false, signature)
            | Some buf =>
                '(rc, sig) ← call (EVP_DigestSign c output_len m);
                buf ← memcpy_block buf 0 sig;
                check negb (rc <=? 0) else done (Some buf) (false, signature);;
                done None (true, set_out buf (len sig))
            end
        end
  end.

(** The structures a verification is given a pointer to. *)
Record EVP_VERIFY_INPUT := EvpVerifyInput {
  evp_key : option (obj EVP_PKEY);
  evp_message : list byte;
  evp_signature : option block;
  evp_signature_len : Z
}.
Record DILITHIUM_VERIFY_INPUT := DilithiumVerifyInput {
  d_public_key : list byte;
  d_message : list byte;
  d_signature : option block;
  d_signature_len : Z
}.
Record COMPOSITE_VERIFY_INPUT := CompositeVerifyInput {
  c_public_key : option HYBRID_PUBLIC_KEY;
  c_message : list byte;
  c_signature : option block;
  c_signature_len : Z
}.

Definition ecdsa_p256_sha256_verify (input : EVP_VERIFY_INPUT) : M bool :=
  context ← new_object EVP_MD_CTX_new;
  let done (verified : bool) := free_object context;; mret verified in
  match context with
  | None => done false
  | Some cx =>
      match evp_key input with
      | None => done false
      | Some key =>
          k ← deref key;
          '(rc, c) ← call (EVP_DigestVerifyInit_ex (obj_val cx) "SHA256" k);
          check negb (rc <=? 0) else done false;;
          p ← borrow (evp_signature input);
          sig ← read p (evp_signature_len input);
          rc ← call (EVP_DigestVerify c sig (evp_message input));
          done (rc =? 1)
      end
  end.

Definition sm2_verify (input : EVP_VERIFY_INPUT) : M bool :=
  p ← borrow (evp_signature input);
  hybrid_sm2_verify (evp_key input) (Some (evp_message input)) (len (evp_message input))
    p (evp_signature_len input).

Definition dilithium2_verify (input : DILITHIUM_VERIFY_INPUT) : M bool :=
  p ← borrow (d_signature input);
  dilithium_verify (Some (d_public_key input)) (len (d_public_key input))
    (Some (d_message input)) (len (d_message input)) p (d_signature_len input).

Definition composite_signature_verify (input : COMPOSITE_VERIFY_INPUT) : M bool :=
  p ← borrow (c_signature input);
  composite_verify (c_public_key input) (Some (c_message input)) (len (c_message input)) None 0
    p (c_signature_len input).
End schemes.
#[global] Arguments now_ns : simpl never.
#[global] Arguments warm_up : simpl never.
#[global] Arguments timed_runs : simpl never.
#[global] Arguments summary : simpl never.
#[global] Arguments run_benchmark : simpl never.
#[global] Arguments generate_ecdsa_p256_key : simpl never.
#[global] Arguments ecdsa_p256_sha256_sign : simpl never.
#[global] Arguments ecdsa_p256_sha256_verify : simpl never.
#[global] Arguments sm2_verify : simpl never.
#[global] Arguments dilithium2_verify : simpl never.
#[global] Arguments composite_signature_verify : simpl never.
#[export] Hint Opaque now_ns warm_up timed_runs run_benchmark generate_ecdsa_p256_key
  ecdsa_p256_sha256_sign ecdsa_p256_sha256_verify sm2_verify dilithium2_verify
  composite_signature_verify : typeclass_instances.

(** ** Time passes *)

(** Running [m] does not take the state back to an earlier moment. *)
Definition ticking {A} (m : M A) : Prop := ∀ s r s', m s = Some (r, s') → (tick s ≤ tick s')%N.

Lemma ticking_ret {A} (a : A) : ticking (mret a).
Proof. intros s r s' [= <- <-]. done. Qed.

Lemma ticking_bind {A B} (m : M A) (k : A → M B) : ticking m → (∀ a, ticking (k a)) → ticking (m ≫= k).
Proof.
  intros Hm Hk s r s'. unfold mbind, M_bind. destruct (m s) as [[a s1]|] eqn:E; [|done].
  intros Hr. apply Hm in E. apply Hk in Hr. lia.
Qed.

Lemma ticking_call {A} (f : N → A) : ticking (call f).
Proof. intros s r s' [= <- <-]. cbn. lia. Qed.

Lemma ticking_new_object {A} (f : N → option A) : ticking (new_object f).
Proof. intros s r s'. unfold new_object. destruct (f (tick s)); intros [= <- <-]; cbn; lia. Qed.

Lemma ticking_free_object {A} (p : option (obj A)) : ticking (free_object p).
Proof. intros s r s'. unfold free_object. repeat case_match; intros [= <- <-]; done. Qed.

Lemma ticking_deref {A} (o : obj A) : ticking (deref o).
Proof. intros s r s'. unfold deref. case_match; intros [= <- <-]; done. Qed.

Lemma ticking_read p n : ticking (read p n).
Proof. intros s r s'. unfold read. repeat case_match; intros [= <- <-]; done. Qed.

Lemma ticking_memcpy b n src : ticking (memcpy b n src).
Proof. intros s r s'. unfold memcpy. case_match; intros [= <- <-]; done. Qed.

Lemma ticking_retire b : ticking (retire b).
Proof. intros s r s' [= <- <-]. done. Qed.

Create HintDb ticking.
#[export] Hint Resolve ticking_ret ticking_call ticking_new_object ticking_free_object ticking_deref
  ticking_read ticking_memcpy ticking_retire : ticking.

(** Follows the structure of a body whose calls are in the database. *)
Ltac ticking :=
  repeat match goal with
  | |- ticking (mbind _ _) => apply ticking_bind; [|intros ?]
  | |- ticking (match ?x with _ => _ end) => destruct x
  | |- ticking (let _ := _ in _) => cbv zeta
  | |- ticking _ => progress cbv beta
  | |- ticking _ => solve [auto with ticking]
  end.

Lemma ticking_borrow p : ticking (borrow p).
Proof. unfold borrow. ticking. Qed.
Lemma ticking_memcpy_block b n src : ticking (memcpy_block b n src).
Proof. unfold memcpy_block. ticking. Qed.
Lemma ticking_cleanse b n : ticking (cleanse b n).
Proof. unfold cleanse. ticking. Qed.
Lemma ticking_malloc `{Libc} n : ticking (malloc n).
Proof. unfold malloc. ticking. Qed.
Lemma ticking_local_array `{Libc} n : ticking (local_array n).
Proof. unfold local_array. ticking. Qed.
Lemma ticking_clear_free p n : ticking (clear_free p n).
Proof. unfold clear_free, cleanse. ticking. Qed.
#[export] Hint Resolve ticking_borrow ticking_memcpy_block ticking_cleanse ticking_malloc ticking_local_array
  ticking_clear_free : ticking.

Section ticking.
Context `{Libc, OpenSSL, Dilithium2}.

Lemma ticking_hybrid_sm2_verify k m n sig sn : ticking (hybrid_sm2_verify k m n sig sn).
Proof. unfold hybrid_sm2_verify. ticking. Qed.
Lemma ticking_dilithium_verify k kn m n sig sn : ticking (dilithium_verify k kn m n sig sn).
Proof. unfold dilithium_verify. ticking. Qed.
Lemma ticking_sm2_signature_der_is_valid e n : ticking (sm2_signature_der_is_valid e n).
Proof. unfold sm2_signature_der_is_valid. ticking. Qed.
#[local] Hint Resolve ticking_hybrid_sm2_verify ticking_dilithium_verify ticking_sm2_signature_der_is_valid : ticking.
Lemma ticking_composite_parse_signature sig n d s : ticking (composite_parse_signature sig n d s).
Proof. unfold composite_parse_signature. ticking. Qed.
Lemma ticking_composite_build_message m n c cn out : ticking (composite_build_message m n c cn out).
Proof. unfold composite_build_message. ticking. Qed.
#[local] Hint Resolve ticking_composite_parse_signature ticking_composite_build_message : ticking.
Lemma ticking_composite_verify k m n c cn sig sn : ticking (composite_verify k m n c cn sig sn).
Proof. unfold composite_verify, composite_verify_detailed. ticking. Qed.
Lemma ticking_ecdsa_verify input : ticking (ecdsa_p256_sha256_verify input).
Proof. unfold ecdsa_p256_sha256_verify. ticking. Qed.
End ticking.
#[export] Hint Resolve ticking_hybrid_sm2_verify ticking_dilithium_verify ticking_composite_verify
  ticking_ecdsa_verify : ticking.

(** ** Specifications *)

(** The interface of what is measured: under the condition [I] on the state,
    which more references cannot break, [verify] leaves everything as it was,
    returns true only if [V] holds, and does so if [W] holds. *)
Class Measurable (verify : M bool) (I : state → Prop) (V W : Prop) : Prop := {
  measurable_run s : I s → wp verify (λ r s', frame ∅ ∅ s s' ∧ (r = true → V) ∧ (W → r = true)) s;
  measurable_frame g s s' : frame ∅ g s s' → I s → I s';
  measurable_ticking : ticking verify
}.

Section measuring_specs.
Context `{Libc, FloatingPoint, Platform}.

(** What the clock shows at a moment. *)
Definition reading (t : N) : Z :=
  match clock_gettime t with
  | Some (sec, nsec) =>
      if (sec <? 0) || (nsec <? 0) then UINT64_MAX
      else size_add (size_mul (size_of_Z sec) 1000000000) (size_of_Z nsec)
  | None => UINT64_MAX
  end.

(** The clock works and does not run backwards. *)
Definition clock_works : Prop :=
  ∀ t t', (t ≤ t')%N → reading t ≤ reading t' ∧ reading t' < UINT64_MAX.

Lemma reading_range t : 0 ≤ reading t ≤ UINT64_MAX.
Proof.
  unfold reading, UINT64_MAX. repeat case_match; try lia. unfold size_add, size_of_Z.
  match goal with |- context [?x mod ?y] => pose proof (Z.mod_pos_bound x y ltac:(done)) end. lia.
Qed.

#[export] Instance spec_now_ns :
  Spec now_ns (λ _, True) (λ r s s', frame ∅ ∅ s s' ∧ r = reading (tick s) ∧ (tick s < tick s')%N).
Proof.
  intros s _. unfold wp, now_ns, call, mbind, M_bind. cbn beta iota. split; [frame_trivial|].
  split; [done|]. cbn [tick]. lia.
Qed.

(** Measured times, from the moment [t] on and one after the other: each is
    the difference of two readings of the clock, the second one later. *)
Inductive timings : N → list Z → Prop :=
  | timings_nil t : timings t []
  | timings_cons t start stop values :
      (t ≤ start < stop)%N → reading start ≤ reading stop < UINT64_MAX → timings stop values →
      timings t ((reading stop - reading start) :: values).

Lemma timings_from t t' values : (t' ≤ t)%N → timings t values → timings t' values.
Proof. intros Ht Hv. destruct Hv; constructor; [lia|done..]. Qed.

Lemma timings_range t values : timings t values → Forall (λ x, 0 ≤ x ≤ UINT64_MAX) values.
Proof.
  induction 1 as [|t start stop values _ Hr _ IH]; constructor; [|done]. pose proof (reading_range start). lia.
Qed.

(** The statistics of the measured times. *)
Definition middle (values : list Z) (m : Z) : Prop :=
  let sorted := sort_samples values in
  (Z.odd (len values) = true → sorted !! Z.to_nat (len values / 2) = Some m) ∧
  (Z.odd (len values) = false → ∃ a b, sorted !! Z.to_nat (len values / 2 - 1) = Some a ∧
     sorted !! Z.to_nat (len values / 2) = Some b ∧ m = (a + b) / 2).
Definition percentile (p : Z) (values : list Z) (v : Z) : Prop :=
  v ∈ values ∧ p * len values ≤ 100 * at_most v values ∧ 100 * less_than v values < p * len values.

Definition summarises (algorithm : string) (values : list Z) (r : BENCHMARK_RESULT) : Prop :=
  let ms ns := ns_to_ms (ld_of_Z ns) in
  let total_ns := foldl (λ sum x, ld_add sum (ld_of_Z x)) (ld_of_Z 0) values in
  ∃ median p95 p99 low high,
    r = BenchmarkResult algorithm (len values) (ns_to_ms (ld_div total_ns (ld_of_Z (len values))))
          (ms median) (ms p95) (ms p99) (ms low) (ms high) ∧
    middle values median ∧ percentile 95 values p95 ∧ percentile 99 values p99 ∧
    low ∈ values ∧ high ∈ values ∧ Forall (λ x, low ≤ x ≤ high) values.

Lemma summary_correct algorithm values :
  0 < len values ≤ SIZE_MAX → Forall (λ x, 0 ≤ x ≤ UINT64_MAX) values →
  ∃ r, summary algorithm values (len values) (foldl (λ sum x, ld_add sum (ld_of_Z x)) (ld_of_Z 0) values) = Some r ∧
    summarises algorithm values r.
Proof.
  intros Hl Hv. unfold summary. pose proof (len_sort_samples values) as Hls.
  destruct (median_ns_correct values Hl Hv) as (m & Hm & Hmid).
  destruct (nearest_rank_correct values 95 100 Hl) as (p95 & H95 & ?); [done..|].
  destruct (nearest_rank_correct values 99 100 Hl) as (p99 & H99 & ?); [done..|].
  destruct (extremes_correct values Hl) as (low & high & Hlow & Hhigh & ? & ? & ?).
  rewrite Hls in *. rewrite Hm. cbn [mbind option_bind]. rewrite H95. cbn [mbind option_bind].
  rewrite H99. cbn [mbind option_bind]. rewrite Hlow. cbn [mbind option_bind]. rewrite Hhigh.
  eexists. split; [done|]. exists m, p95, p99, low, high. by split_and!.
Qed.

Context (verify : M bool) (I : state → Prop) (V W : Prop) `{!Measurable verify I V W}.

#[local] Instance spec_measured :
  Spec verify I (λ r s s', frame ∅ ∅ s s' ∧ (r = true → V) ∧ (W → r = true) ∧ (tick s ≤ tick s')%N).
Proof.
  intros s Hs. apply wp_run. destruct (proj1 (wp_run _ _ _) (measurable_run s Hs)) as (r & s' & E & F & HV & HW).
  exists r, s'. split; [done|]. split_and!; [done..|]. by apply (measurable_ticking (V := V) s r s').
Qed.

(** The measured times: one per iteration, with their sum. *)
Definition measured (t : N) (samples : list Z) (total : long_double) (n : nat) (r : option (list Z * long_double))
    : Prop :=
  ∀ values total', r = Some (values, total') → ∃ new, values = samples ++ new ∧ length new = n ∧ timings t new ∧
    total' = foldl (λ sum x, ld_add sum (ld_of_Z x)) total new ∧ (n ≠ 0%nat → V).

#[export] Instance spec_warm_up n :
  Spec (warm_up verify n) I (λ r s s', frame ∅ ∅ s s' ∧ (W → r = true)).
Proof.
  induction n as [|n IH]; wp_start; unfold warm_up; fold warm_up.
  - by apply wp_ret.
  - wp_call as ok (F & _ & HW & _). destruct ok; [|by apply wp_ret].
    eapply wp_spec; [apply IH|by eapply measurable_frame|]. intros r s' [F' HW']. frame_merge.
    split; [solve_frame|done].
Qed.

#[export] Instance spec_timed_runs n samples total :
  Spec (timed_runs verify n samples total) I
    (λ r s s', frame ∅ ∅ s s' ∧ measured (tick s) samples total n r ∧ (W → clock_works → is_Some r)).
Proof.
  revert samples total. induction n as [|n IH]; intros samples total; wp_start; unfold timed_runs; fold timed_runs.
  - apply wp_ret. split_and!; [done| |by eexists]. intros values total' [= <- <-]. exists []. rewrite app_nil_r. split_and!; [done|done|constructor|done|done].
  - wp_call as start (F & Hstart & Ht). wp_call as ok (F1 & HV & HW & Ht'); [by eapply measurable_frame|].
    wp_call as stop (F2 & Hstop & Ht2). pose proof (reading_range (tick s)). subst start.
    match goal with E : stop = reading ?t |- _ => set (u := t) in *; subst stop end.
    assert (Hlater : clock_works → reading (tick s) ≤ reading u ∧ reading u < UINT64_MAX).
    { intros Hc. apply Hc. subst u. lia. }
    pose proof (reading_range u).
    destruct (_ || _ || _) eqn:E; cbn [negb].
    { apply wp_ret. split_and!; [solve_frame|done|]. intros _ Hc%Hlater. simpl_bool. lia. }
    destruct ok.
    2: { apply wp_ret. split_and!; [solve_frame|done|]. intros HW0. by specialize (HW HW0). }
    eapply wp_spec; [apply IH|by eapply measurable_frame|]. cbn beta. intros r s' (F' & Hr & Hs). frame_merge.
    split_and!; [solve_frame| |done]. intros values total' ->. destruct (Hr _ _ eq_refl) as (new & -> & <- & Hn & -> & _).
    exists (reading u - reading (tick s) :: new). rewrite <-app_assoc. split_and!; try done.
    + simpl_bool. constructor; [subst u; lia|lia|]. eapply timings_from; [|exact Hn]. subst u. lia.
    + intros _. by apply HV.
Qed.

#[export] Instance spec_run_benchmark algorithm warmup iterations :
  Spec (run_benchmark algorithm verify warmup iterations) (λ s, I s ∧ 0 ≤ iterations)
    (λ r s s', frame ∅ ∅ s s' ∧
       (∀ result, r = Some result → V ∧ 0 < iterations ≤ SIZE_MAX / 8 ∧
          ∃ values, len values = iterations ∧ timings 0 values ∧ summarises algorithm values result) ∧
       (0 < iterations ≤ SIZE_MAX / 8 → reliable_malloc → clock_works → W → is_Some r)).
Proof.
  wp_start. destruct P as [HI Hn]. unfold run_benchmark. set (Post := λ (r : option BENCHMARK_RESULT) s', _ ∧ _ ∧ _).
  destruct (_ || _) eqn:E; simpl_bool.
  { apply wp_ret. split_and!; [done..|]. simpl_bool. lia. }
  assert (Hi : 0 < iterations ≤ SIZE_MAX / 8) by lia. pose proof (Z.mul_div_le SIZE_MAX 8 ltac:(done)).
  assert (Hsize : 0 ≤ size_mul iterations 8) by (unfold size_mul; rewrite size_of_Z_small; lia).
  wp_call as [samples|] [F Halloc].
  2: { apply wp_ret. split_and!; [solve_frame|done|]. intros _ Hr. by rewrite Hr in Halloc. }
  assert (Hdone : ∀ r s', frame ∅ (owns (Some samples)) s s' →
    (∀ s'', frame ∅ ∅ s s'' → Post r s'') → wp (free_object (Some samples);; mret r) Post s').
  { intros r s' F' HP. wp_call as ? ?. apply wp_ret, HP. solve_frame. }
  wp_call as ok [F1 HW]; [by eapply measurable_frame|]. destruct ok; cbn [negb].
  2: { apply Hdone; [solve_frame|]. intros s'' F2. split_and!; [done|done|]. intros _ _ _ HW0. by specialize (HW HW0). }
  wp_call as timed (F2 & Hm & Hs); [by eapply measurable_frame|].
  destruct timed as [[values total]|].
  2: { apply Hdone; [solve_frame|]. intros s'' F3. split_and!; [done|done|]. intros _ _ Hc HW0.
       by destruct (Hs HW0 Hc). }
  destruct (Hm _ _ eq_refl) as (new & -> & Hlen & Hv & -> & HV). cbn [app].
  assert (Hl : len new = iterations) by (unfold len; lia).
  destruct (summary_correct algorithm new) as (result & Hr & Hsum); [lia|by eapply timings_range|].
  rewrite Hl in Hr. rewrite Hr. apply Hdone; [solve_frame|]. intros s'' F3.
  split_and!; [done| |by eexists]. intros ? [= <-]. split; [apply HV; lia|]. split; [done|].
  exists new. split_and!; [done| |done]. eapply timings_from; [|exact Hv]. lia.
Qed.
End measuring_specs.

Section scheme_specs.
Context `{Libc, OpenSSL, !OpenSSLSizes, !OpenSSLGroups, Dilithium2, !Dilithium2Sizes}.

(** [k] was generated on the curve P-256. *)
Definition p256_generated (k : EVP_PKEY) : Prop :=
  once _ (EVP_PKEY_CTX_new_from_name "EC") (on_some (λ c,
    once _ (EVP_PKEY_keygen_init c) (on_pos (λ c,
      once _ (EVP_PKEY_CTX_set_group_name c "prime256v1") (on_pos (λ c,
        once _ (EVP_PKEY_generate c) (on_pos (eq (Some k))))))))).

(** Generation on that curve never fails. *)
Definition p256_always_generates : Prop :=
  always _ (EVP_PKEY_CTX_new_from_name "EC") (on_some (λ c,
    always _ (EVP_PKEY_keygen_init c) (on_pos (λ c,
      always _ (EVP_PKEY_CTX_set_group_name c "prime256v1") (on_pos (λ c,
        always _ (EVP_PKEY_generate c) (on_pos is_Some))))))).

(** A failing exit of [generate_ecdsa_p256_key]. *)
Ltac p256_failed :=
  repeat wp_call as ? ?; wp_end; unfold p256_always_generates; intros Hal; always_auto.

#[export] Instance spec_generate_ecdsa_p256_key :
  Spec generate_ecdsa_p256_key (λ _, True)
    (yields ∅ owns (λ r, match r with
       | None => ¬ p256_always_generates
       | Some o => p256_generated (obj_val o)
       end)).
Proof.
  wp_start. unfold generate_ecdsa_p256_key.
  wp_call as [cx|] [F Hcx]; cbn in Hcx; [|by p256_failed].
  wp_call as r [-> ->]. wp_call as [rc c] [F1 Hc].
  wp_case (rc <=? 0); [by p256_failed|].
  wp_call as [rc' c'] [F2 Hg].
  wp_case (rc' <=? 0); [by p256_failed|].
  wp_call as [rc'' k] [F3 Hk]. wp_call as [key|] [F4 Hkey]; cbn in Hkey; subst k; cbn.
  - wp_case (rc'' <=? 0); [by p256_failed|].
    wp_call as r F5. wp_end. unfold p256_generated. once_auto.
  - wp_case (rc'' <=? 0); by p256_failed.
Qed.

(** A fresh digest context, initialised with SHA-256 and the key [k], produced
    [sig], or verifies it, for [m]. *)
Definition ecdsa_signed (k : EVP_PKEY) (m sig : list byte) : Prop :=
  once _ EVP_MD_CTX_new (on_some (λ c,
    once _ (EVP_DigestSignInit_ex c "SHA256" k) (on_pos (λ c,
      ∃ cap, once _ (EVP_DigestSign c cap m) (on_pos (eq sig)))))).
Definition ecdsa_verification (Q : modality) (k : EVP_PKEY) (m sig : list byte) : Prop :=
  Q _ EVP_MD_CTX_new (on_some (λ c,
    Q _ (EVP_DigestVerifyInit_ex c "SHA256" k) (on_pos (λ c,
      Q _ (EVP_DigestVerify c sig m) (eq 1))))).

(** Signing [m] with [k] never fails. *)
Definition ecdsa_always_signs (k : EVP_PKEY) (m : list byte) : Prop :=
  always _ EVP_MD_CTX_new (on_some (λ c,
    always _ (EVP_DigestSignInit_ex c "SHA256" k) (on_pos (λ c,
      always _ (EVP_DigestSign_size c m) (λ n, 0 < fst n ∧
        always _ (EVP_DigestSign c (snd n) m) (on_pos (λ _, True))))))).

(** A failing exit of [ecdsa_p256_sha256_sign]. *)
Ltac ecdsa_failed :=
  do 2 wp_call as ? ?; apply wp_ret; split; [by wp_end|];
  unfold ecdsa_always_signs; intros Hrel ? [= <-] _ Hal; always_auto.

#[export] Instance spec_ecdsa_p256_sha256_sign key m mlen out :
  Spec (ecdsa_p256_sha256_sign key m mlen out)
    (λ s, out = fresh_out ∧ alive key s ∧ valid m mlen)
    (λ r s s', yields ∅ out_owns (out_post (λ b n, 0 ≤ n ≤ len (obj_val b) ∧ n ≤ SIZE_MAX ∧
         ∃ k, key = Some k ∧ ecdsa_signed (obj_val k) (bytes_at m mlen) (ztake n (obj_val b)))) r s s' ∧
       (reliable_malloc → ∀ k, key = Some k → is_Some m →
          ecdsa_always_signs (obj_val k) (bytes_at m mlen) → fst r = true)).
Proof.
  wp_start. destruct P as (-> & Hkey & Hm). unfold ecdsa_p256_sha256_sign.
  destruct key as [key|]; [|apply wp_ret; by split; [wp_end|]].
  destruct m as [m|]; cbn [is_null orb out_null fst snd fresh_out]; [|apply wp_ret; split; [by wp_end|by intros _ ? _ [? [=]]]].
  wp_call as [cx|] [F Hcx]; cbn in Hcx; [|by ecdsa_failed].
  wp_call as r [-> ->]. wp_call as [r1 c1] [F1 Hr1].
  wp_case (negb (r1 <=? 0)); [|by ecdsa_failed].
  wp_call as r [-> ->]. wp_call as [r3 cap] [F3 Hr3].
  wp_case (negb (r3 <=? 0)); [|by ecdsa_failed].
  pose proof (digest_sign_size _ _ _ _ Hr3) as Hcap. cbn [snd] in Hcap.
  wp_call as [buf|] [F4 Hr4]; [|ecdsa_failed; by rewrite Hrel in Hr4].
  wp_call as [r5 sig] [F5 Hr5]. pose proof (digest_sign_fits _ _ _ _ _ _ Hr5 ltac:(lia)).
  wp_call as r [-> ->].
  wp_case (negb (r5 <=? 0)); [|by ecdsa_failed].
  do 2 wp_call as ? ?. apply wp_ret. split; [|done]. wp_end. eexists _, _. split; [done|].
  cbn [obj_val set_val]. rewrite len_splice, splice_prefix by lia.
  split; [split; [apply len_nonneg|lia]|]. split; [lia|]. exists key. split; [done|].
  unfold ecdsa_signed. once_auto. exists (len (obj_val buf)). once_auto.
Qed.

(** The arguments of a verification point to live objects. *)
Definition evp_input_ok (i : EVP_VERIFY_INPUT) (s : state) : Prop :=
  alive (evp_key i) s ∧ alive (evp_signature i) s ∧ len (evp_message i) ≤ SIZE_MAX ∧
  is_Some (evp_signature i) ∧ valid (obj_val <$> evp_signature i) (evp_signature_len i).
Definition evp_input_by (Q : EVP_PKEY → list byte → list byte → Prop) (i : EVP_VERIFY_INPUT) : Prop :=
  ∃ k, evp_key i = Some k ∧ Q (obj_val k) (evp_message i) (bytes_at (obj_val <$> evp_signature i) (evp_signature_len i)).

Lemma alive_more {A} (p : option (obj A)) g s s' : frame ∅ g s s' → alive p s → alive p s'.
Proof. intros F Hp. solve_alive. Qed.

#[export] Instance ecdsa_measurable i :
  Measurable (ecdsa_p256_sha256_verify i) (evp_input_ok i)
    (evp_input_by (ecdsa_verification once) i) (evp_input_by (ecdsa_verification always) i).
Proof.
  split; [|unfold evp_input_ok; naive_solver eauto using alive_more|auto with ticking].
  wp_start. destruct P as (Hkey & Hsig & Hm & [sig Es] & Hv). unfold evp_input_by, ecdsa_p256_sha256_verify.
  destruct i as [[key|] m sig0 n]; cbn [evp_key evp_message evp_signature evp_signature_len] in *; subst sig0.
  2: { wp_call as cx [F _]. destruct cx; (wp_call as ? ?; apply wp_ret; split_and!; [solve_frame|done|naive_solver]). }
  unfold ecdsa_verification.
  wp_call as [cx|] [F Hcx]; cbn in Hcx.
  2: { wp_call as ? ?. apply wp_ret. split_and!; [solve_frame|done|]. intros (k & [= <-] & Hal). always_auto. }
  wp_call as r [-> ->]. wp_call as [r1 c1] [F1 Hr1].
  wp_case (negb (r1 <=? 0)).
  2: { wp_call as ? ?. apply wp_ret. split_and!; [solve_frame|done|]. intros (k & [= <-] & Hal). always_auto. }
  wp_call as r [-> ->]. wp_call as r [-> ->]. wp_call as r3 [F3 Hr3]. wp_call as ? ?.
  apply wp_ret. split_and!; [solve_frame|..].
  - intros ->%Z.eqb_eq. exists key. split; [done|]. once_auto.
  - intros (k & [= <-] & Hal). always_auto. subst r3. by apply Z.eqb_eq.
Qed.

#[export] Instance sm2_measurable i :
  Measurable (sm2_verify i) (evp_input_ok i) (evp_input_by sm2_verified i) (evp_input_by sm2_always_verifies i).
Proof.
  split; [|unfold evp_input_ok; naive_solver eauto using alive_more|unfold sm2_verify; ticking].
  wp_start. destruct P as (Hkey & Hsig & Hm & [sig Es] & Hv). unfold sm2_verify, evp_input_by.
  rewrite Es in *. pose proof (valid_all _ Hm). wp_call as p [-> ->].
  eapply wp_spec; [apply _|by split_and!|]. intros r s' (F & HV & HW). rewrite !bytes_at_all in *.
  split_and!; [done|naive_solver|]. intros (k & Hk & Hal). by apply (HW k).
Qed.

Definition dilithium_input_ok (i : DILITHIUM_VERIFY_INPUT) (s : state) : Prop :=
  len (d_public_key i) ≤ SIZE_MAX ∧ alive (d_signature i) s ∧ len (d_message i) ≤ SIZE_MAX ∧
  valid (obj_val <$> d_signature i) (d_signature_len i).
Definition dilithium_input_by (i : DILITHIUM_VERIFY_INPUT) : Prop :=
  len (d_public_key i) = DILITHIUM_PUBLIC_KEY_BYTES ∧ is_Some (d_signature i) ∧
  d_signature_len i = DILITHIUM_SIGNATURE_BYTES ∧
  dilithium_verifies (d_public_key i) (d_message i)
    (bytes_at (obj_val <$> d_signature i) (d_signature_len i)) = true.

#[export] Instance dilithium2_measurable i :
  Measurable (dilithium2_verify i) (dilithium_input_ok i) (dilithium_input_by i) (dilithium_input_by i).
Proof.
  split; [|unfold dilithium_input_ok; naive_solver eauto using alive_more|unfold dilithium2_verify; ticking].
  wp_start. destruct P as (Hpk & Hsig & Hm & Hv). unfold dilithium2_verify, dilithium_input_by.
  pose proof (valid_all _ Hm). pose proof (valid_all _ Hpk). wp_call as p [-> ->].
  eapply wp_spec; [apply _|by split_and!|]. intros r s' [-> ->]. rewrite !bytes_at_all.
  cbn [is_null andb orb]. split; [done|]. rewrite ?orb_false_r.
  destruct (d_signature i) as [sig|]; cbn [fmap option_fmap option_map is_null]; [|split; [|intros (_ & [? [=]] & _)]; by rewrite orb_true_r].
  rewrite orb_false_r. destruct (Z.eqb_spec (len (d_public_key i)) DILITHIUM_PUBLIC_KEY_BYTES),
    (Z.eqb_spec (d_signature_len i) DILITHIUM_SIGNATURE_BYTES); cbn; naive_solver.
Qed.

Definition composite_input_ok (i : COMPOSITE_VERIFY_INPUT) (s : state) : Prop :=
  public_owns (c_public_key i) ⊆ live s ∧ from_option public_key_wf True (c_public_key i) ∧
  alive (c_signature i) s ∧ len (c_message i) ≤ SIZE_MAX ∧
  valid (obj_val <$> c_signature i) (c_signature_len i).
Definition composite_input_by (Q : HYBRID_PUBLIC_KEY → list byte → list byte → list byte → Prop)
    (i : COMPOSITE_VERIFY_INPUT) : Prop :=
  ∃ k, c_public_key i = Some k ∧ is_Some (c_signature i) ∧
    Q k (c_message i) [] (bytes_at (obj_val <$> c_signature i) (c_signature_len i)).

#[export] Instance composite_measurable i :
  Measurable (composite_signature_verify i) (composite_input_ok i) (composite_input_by composite_accepted i)
    (reliable_malloc ∧ composite_input_by composite_always_accepted i).
Proof.
  split; [| |unfold composite_signature_verify; ticking].
  - wp_start. destruct P as (Hkey & Hwf & Hsig & Hm & Hv). unfold composite_signature_verify, composite_input_by.
    pose proof (valid_all _ Hm). wp_call as p [-> ->].
    eapply wp_spec; [apply _|split_and!; try done; by split|].
    intros r s' (F & HV & HW). rewrite bytes_at_all, bytes_at_null in *.
    assert (Hs : is_Some (obj_val <$> c_signature i) ↔ is_Some (c_signature i)) by apply fmap_is_Some.
    split_and!; [done| |].
    + intros Hr. destruct (HV Hr) as (k & Hk & Hsome & Hacc). exists k. split; [done|]. split; [by apply Hs|done].
    + intros (Hrel & k & Hk & Hsome & Hal). apply (HW k Hk); try done; [by apply Hs|].
      by apply valid_nonnull.
  - intros g s s' F (? & ? & ? & ? & ?). unfold composite_input_ok. split_and!; try done; [|by eapply alive_more].
    frame_live_facts. ms_lia.
Qed.
End scheme_specs.

(** C18. A run of the benchmark returns a result only if the verification it
    measures succeeded, and then the statistics of as many times as were asked
    for, each the difference of two readings of the clock, taken in turn: the mean, the middle of the sorted times, two percentiles and the
    extremes. It changes nothing and releases the array. It returns a result
    whenever the number of iterations fits, memory and clock work, and the
    verification never fails. *)
Theorem run_benchmark_correct `{Libc, FloatingPoint, Platform} verify I V W `{!Measurable verify I V W}
    algorithm warmup iterations s :
  I s → 0 ≤ iterations →
  wp (run_benchmark algorithm verify warmup iterations) (λ r s',
    live s' = live s ∧ files s' = files s ∧ output s' = output s ∧
    (∀ result, r = Some result → V ∧ 0 < iterations ≤ SIZE_MAX / 8 ∧
       ∃ values, len values = iterations ∧ timings 0 values ∧ summarises algorithm values result) ∧
    (0 < iterations ≤ SIZE_MAX / 8 → reliable_malloc → clock_works → W → is_Some r)) s.
Proof.
  intros HI Hn. eapply wp_spec; [apply _|by split|]. intros r s' ([L _ K O] & Hr & Hl).
  split_and!; try done. ms_lia.
Qed.

(** ** A concrete instance *)

(** Integers in the place of floating-point numbers. *)
Definition env_floats : FloatingPoint := {|
  long_double := Z; double := Z; ld_of_Z z := z; ld_add := Z.add; ld_div := Z.div; double_of z := z;
  d_sub := Z.sub; d_div := Z.div; d_lt := Z.ltb; print_fixed _ z := dec z
|}.

(** A clock that shows how many calls were made, in milliseconds. *)
Definition env_platform : Platform := {|
  clock_gettime t := Some (0, Z.min (1000000 * Z.of_N t) (2 ^ 62));
  uname _ := Some (Utsname "System" "1.0" "machine");
  clang_version := None; gcc_version := Some "14.2.0"%string; build_type := Some "Release"%string;
  OpenSSL_version := "OpenSSL 3"
|}.

Definition env_groups : @OpenSSLGroups env_openssl :=
  @Build_OpenSSLGroups env_openssl (λ c _ _, (1, c)).

Section example.
#[local] Existing Instances env_libc env_openssl env_openssl_sizes env_groups env_dilithium env_floats env_platform.

Lemma env_clock_works : clock_works.
Proof.
  assert (Hr : ∀ t, reading t = Z.min (1000000 * Z.of_N t) (2 ^ 62)).
  { intros t. unfold reading. cbn [clock_gettime env_platform]. destruct (Z.ltb_spec (Z.min (1000000 * Z.of_N t) (2 ^ 62)) 0); [lia|].
    cbn [orb Z.ltb Z.compare]. unfold size_add, size_mul. rewrite !(size_of_Z_small 0) by done.
    rewrite !size_of_Z_small; unfold SIZE_MAX; rewrite ?size_of_Z_small; unfold SIZE_MAX; lia. }
  intros t t' Ht. rewrite !Hr. unfold UINT64_MAX. lia.
Qed.

Definition example_input : EVP_VERIFY_INPUT :=
  EvpVerifyInput (Some (Obj 1%positive Byte.x07 : obj EVP_PKEY)) (lit "message")
    (Some (Obj 2%positive (env_sm2_sign Byte.x07 (lit "message")))) 8.

Lemma run_benchmark_correct_witness :
  let s := env_state [1%positive; 2%positive] in
  let run := run_benchmark "ECDSA" (ecdsa_p256_sha256_verify example_input) 1 3 in
  evp_input_ok example_input s ∧ clock_works ∧
  evp_input_by (ecdsa_verification always) example_input ∧
  fmap (M := option) fst (run s) = Some (Some (BenchmarkResult "ECDSA" 3 4 4 4 4 4 4)) ∧
  wp run (λ r s',
    live s' = live s ∧ files s' = files s ∧ output s' = output s ∧
    (∀ result, r = Some result → evp_input_by (ecdsa_verification once) example_input ∧ 0 < 3 ≤ SIZE_MAX / 8 ∧
       ∃ values, len values = 3 ∧ timings 0 values ∧ summarises "ECDSA" values result) ∧
    (0 < 3 ≤ SIZE_MAX / 8 → reliable_malloc → clock_works →
       evp_input_by (ecdsa_verification always) example_input → is_Some r)) s.
Proof.
  intros s run. assert (Hi : evp_input_ok example_input s).
  { split_and!; [apply env_alive; by left|apply env_alive; by right; left|done|by eexists|done]. }
  split; [done|]. split; [exact env_clock_works|]. split.
  { exists (Obj 1%positive Byte.x07). split; [done|]. by vm_compute. }
  split; [by vm_compute|]. by apply (run_benchmark_correct _ _ _ _ "ECDSA" 1 3 s).
Defined.
End example.
