(* ===== verification/BenchReport.v ===== *)
(** * tools/benchmark_composite_verify.c (reports)

    What the benchmark prints and the two files it writes, with the name of
    the processor read from the system. *)

From Stdlib Require Import Strings.Ascii.
From S2P Require Import Prelude Machine External Posix Tools BenchStats Environment Dilithium Sm2 CompositeKey CompositeSig Benchmark.

(** ** Formatted text *)

Definition newline : string := String "010" "".

Fixpoint spaces (n : nat) : string := match n with O => "" | S n => String " " (spaces n) end.

(** [%10s], [%-30s] *)
Definition pad_left (n : nat) (s : string) : string := spaces (n - String.length s) ++ s.
Definition pad_right (n : nat) (s : string) : string := s ++ spaces (n - String.length s).

(** [snprintf(buf, n + 1, "%s", s)] *)
Definition truncate (n : nat) (s : string) : string := substring 0 n s.

(** ** The processor *)

(** [strchr(line, ':') + 1] *)
Fixpoint after_colon (line : string) : option string :=
  match line with
  | "" => None
  | String c rest => if (c =? ":")%char then Some rest else after_colon rest
  end.

Fixpoint skip_blanks (value : string) : string :=
  match value with
  | String c rest => if (c =? " ")%char || (c =? "009")%char then skip_blanks rest else value
  | "" => ""
  end.

(** [value[strcspn(value, "\r\n")] = '\0'] *)
Fixpoint until_end_of_line (value : string) : string :=
  match value with
  | String c rest =>
      if (c =? "013")%char || (c =? "010")%char then "" else String c (until_end_of_line rest)
  | "" => ""
  end.

Definition cpu_value (line : string) : option string :=
  if String.prefix "model name" line
  then value ← after_colon line; Some (until_end_of_line (skip_blanks value)) else None.

(** At most [n] bytes, up to and with the first newline. *)
Fixpoint first_line (n : nat) (content : list byte) : list byte :=
  match n, content with
  | S n, b :: content => b :: (if decide (b = Byte.x0a) then [] else first_line n content)
  | _, _ => []
  end.

Definition cpu_unavailable : string := "unavailable (record with lscpu)".

Section stdio.
Context `{Posix}.

(** [fgets(line, n, f)] *)
Definition fgets (n : nat) (f : obj FILE) : M (option (list byte) * obj FILE) :=
  v ← deref f;
  e ← call (sys_fault "fgets" (file_path v));
  if negb (e =? 0) then mret (None, f)
  else
    content ← stream_content f;
    match content with
    | [] => mret (None, f)
    | _ =>
        let line := first_line (n - 1) content in
        mret (Some line, set_val f (Stream (file_path v) (file_offset v + len line) []))
    end.

(** [fprintf(f, ...)]: when it fails, of its own or because the buffer cannot be
    handed over, some of the text may be lost. *)
Definition fprintf (f : obj FILE) (text : string) : M (Z * obj FILE) :=
  v ← deref f;
  e ← call (sys_fault "fprintf" (file_path v));
  if e =? 0 then
    r ← stream_write f (lit text);
    mret (if fst r : bool then strlen text else -1, snd r)
  else
    n ← call (io_count "fprintf" (strlen text));
    r ← stream_write f (ztake n (lit text));
    mret (-1, snd r).

(** The lines that remain; out of fuel is undefined. *)
Fixpoint find_cpu_model (fuel : nat) (stream : obj FILE) : M (option string * obj FILE) :=
  match fuel with
  | O => undefined
  | S fuel =>
      '(line, stream) ← fgets 512 stream;
      match line with
      | None => mret (None, stream)
      | Some line =>
          match cpu_value (c_string line) with
          | None => find_cpu_model fuel stream
          | Some value => mret (Some value, stream)
          end
      end
  end.

(** The array has 256 bytes; a line takes at least one byte of the file. *)
Definition read_cpu_model : M string :=
  stream ← fopen_read "/proc/cpuinfo";
  match stream with
  | None => mret cpu_unavailable
  | Some f =>
      content ← stream_content f;
      '(value, f) ← find_cpu_model (S (length content)) f;
      fclose_input f;;
      mret (from_option (truncate 255) cpu_unavailable value)
  end.

(** Several calls of [fprintf] whose results are not looked at. *)
Fixpoint fprintf_all (f : obj FILE) (texts : list string) : M (obj FILE) :=
  match texts with [] => mret f | text :: texts => '(_, f) ← fprintf f text; fprintf_all f texts end.
End stdio.
#[global] Arguments fgets : simpl never.
#[global] Arguments fprintf : simpl never.
#[global] Arguments find_cpu_model : simpl never.
#[global] Arguments read_cpu_model : simpl never.
#[global] Arguments fprintf_all : simpl never.
#[export] Hint Opaque fgets fprintf find_cpu_model read_cpu_model fprintf_all : typeclass_instances.

(** ** The reports *)

Section reports.
Context `{Libc, FloatingPoint, Platform, Posix}.

Definition compiler_name : string :=
  match clang_version, gcc_version with
  | Some version, _ => "Clang " ++ version
  | None, Some version => "GCC " ++ version
  | None, None => "unknown"
  end.

Definition HYBRID_BENCH_BUILD_TYPE : string := default "unspecified"%string build_type.

Definition result_row (r : BENCHMARK_RESULT) : string :=
  let ms d := (" " ++ pad_left 8 (print_fixed 3 d) ++ " ms")%string in
  pad_right 30 (algorithm r) ++ " " ++ pad_left 10 (dec (count r)) ++ ms (mean_ms r) ++ ms (median_ms r) ++
  ms (p95_ms r) ++ ms (p99_ms r) ++ ms (min_ms r) ++ ms (max_ms r).

(** The lines of [print_results]; [results[0]], ..., [results[3]] are named
    after what they measure. *)
Definition results_report (ecdsa sm2 dilithium composite : BENCHMARK_RESULT) (warmup_iterations : Z)
    (cpu : string) (system : utsname) : list string :=
  let ratio := d_div (mean_ms composite) (mean_ms ecdsa) in
  let overhead := d_sub (mean_ms composite) (mean_ms ecdsa) in
  let framework_overhead := d_sub (d_sub (mean_ms composite) (mean_ms sm2)) (mean_ms dilithium) in
  ["============================================================";
   "Composite Signature Verification Benchmark";
   "============================================================";
   "Platform:";
   "  CPU: " ++ cpu;
   "  OS: " ++ sysname system ++ " " ++ release system;
   "  Architecture: " ++ machine system;
   "  Compiler: " ++ compiler_name;
   "  Build: " ++ HYBRID_BENCH_BUILD_TYPE;
   "  OpenSSL: " ++ OpenSSL_version;
   "  Dilithium parameter set: " ++ dilithium_algorithm_name ++ " (DILITHIUM_MODE=2)";
   "  Message: " ++ dec BENCHMARK_MESSAGE_BYTES ++ " bytes";
   "  Warm-up iterations: " ++ dec warmup_iterations;
   "  Timed iterations: " ++ dec (count ecdsa);
   "";
   pad_right 30 "Algorithm" ++ " " ++ pad_left 10 "Count" ++ " " ++ pad_left 10 "Mean" ++ " " ++
     pad_left 10 "P50" ++ " " ++ pad_left 10 "P95" ++ " " ++ pad_left 10 "P99" ++ " " ++
     pad_left 10 "Min" ++ " " ++ pad_left 10 "Max";
   "----------------------------------------------------------------------------------------------------------"]%string
  ++ map result_row [ecdsa; sm2; dilithium; composite] ++
  ["";
   "Composite / P-256: " ++ print_fixed 2 ratio ++ "x";
   "Composite - P-256 overhead: " ++ print_fixed 3 overhead ++ " ms";
   "Approximate Composite framework overhead: " ++ print_fixed 3 framework_overhead ++ " ms";
   "  (Composite - SM2 - Dilithium2; approximate comparison only)";
   "";
   "Requirement:";
   "  Composite verify mean < " ++ print_fixed 3 COMPOSITE_REQUIREMENT_MS ++ " ms";
   "";
   "Result:";
   "  " ++ verdict (d_lt (mean_ms composite) COMPOSITE_REQUIREMENT_MS) "PASS" "FAIL";
   "============================================================"]%string.

Definition print_results (results : list BENCHMARK_RESULT) (warmup_iterations : Z) (cpu : string)
    (system : utsname) : M unit :=
  match results with
  | [ecdsa; sm2; dilithium; composite] =>
      print_lines (results_report ecdsa sm2 dilithium composite warmup_iterations cpu system)
  | _ => undefined
  end.

Definition csv_header : string :=
  "algorithm,iterations,mean_ms,median_ms,p95_ms,p99_ms,min_ms,max_ms,baseline_ratio" ++ newline.

Definition csv_row (baseline : double) (r : BENCHMARK_RESULT) : string :=
  let field d := ("," ++ print_fixed 9 d)%string in
  algorithm r ++ "," ++ dec (count r) ++ field (mean_ms r) ++ field (median_ms r) ++ field (p95_ms r) ++
  field (p99_ms r) ++ field (min_ms r) ++ field (max_ms r) ++ field (d_div (mean_ms r) baseline) ++ newline.

(** The loop, up to the first line that could not be written. *)
Fixpoint write_csv_rows (stream : obj FILE) (baseline : double) (results : list BENCHMARK_RESULT)
    : M (bool * obj FILE) :=
  match results with
  | [] => mret (true, stream)
  | r :: results =>
      '(n, stream) ← fprintf stream (csv_row baseline r);
      if n <? 0 then mret (false, stream) else write_csv_rows stream baseline results
  end.

Definition write_csv (path : string) (results : list BENCHMARK_RESULT) : M bool :=
  match results with
  | [] => undefined
  | first :: _ =>
      let baseline := mean_ms first in
      stream ← fopen_write path;
      match stream with
      | None => mret false
      | Some stream =>
          '(n, stream) ← fprintf stream csv_header;
          if n <? 0 then fclose stream;; mret false
          else
            '(ok, stream) ← write_csv_rows stream baseline results;
            if negb ok then fclose stream;; mret false
            else rc ← fclose stream; mret (rc =? 0)
      end
  end.

(** The path of the summary next to the measurements. *)
Definition markdown_path_for_csv (csv_path : string) : M (option block) :=
  let length := strlen csv_path in
  if length >? size_sub SIZE_MAX 4 then mret None
  else
    path ← malloc (size_add length 4);
    match path with
    | None => mret None
    | Some path =>
        path ← memcpy_block path 0 (lit csv_path ++ [Byte.x00]);
        bytes ← deref path;
        path ← (if (length >=? 4) &&
                   bool_decide (c_string (zdrop (size_sub length 4) bytes) = ".csv"%string)
                then memcpy_block path (size_sub length 4) (lit ".md" ++ [Byte.x00])
                else memcpy_block path length (lit ".md" ++ [Byte.x00]));
        mret (Some path)
    end.

Definition markdown_row (baseline : double) (r : BENCHMARK_RESULT) : string :=
  let field d := (" | " ++ print_fixed 6 d)%string in
  "| " ++ algorithm r ++ " | " ++ dec (count r) ++ field (mean_ms r) ++ field (median_ms r) ++ field (p95_ms r) ++
  field (p99_ms r) ++ field (min_ms r) ++ field (max_ms r) ++ " | " ++
  print_fixed 3 (d_div (mean_ms r) baseline) ++ "x |" ++ newline.

(** What the calls of [fprintf] write, in their order. *)
Definition markdown_report (first composite : BENCHMARK_RESULT) (results : list BENCHMARK_RESULT)
    (warmup_iterations : Z) (cpu : string) (system : utsname) : list string :=
  ["# Composite Verification Benchmark" ++ newline ++ newline;
   "- CPU: " ++ cpu ++ newline;
   "- OS: " ++ sysname system ++ " " ++ release system ++ " (" ++ machine system ++ ")" ++ newline;
   "- Compiler: " ++ compiler_name ++ newline;
   "- Build type: " ++ HYBRID_BENCH_BUILD_TYPE ++ newline;
   "- OpenSSL: " ++ OpenSSL_version ++ newline;
   "- Message size: " ++ dec BENCHMARK_MESSAGE_BYTES ++ " bytes" ++ newline;
   "- Warm-up iterations: " ++ dec warmup_iterations ++ newline;
   "- Timed iterations: " ++ dec (count first) ++ newline ++ newline;
   "| Algorithm | Count | Mean (ms) | P50 (ms) | P95 (ms) | P99 (ms) | Min (ms) | Max (ms) | Relative to P-256 |" ++ newline;
   "|---|---:|---:|---:|---:|---:|---:|---:|---:|" ++ newline]%string
  ++ map (markdown_row (mean_ms first)) results ++
  [newline ++ "Requirement: Composite verify mean < " ++ print_fixed 3 COMPOSITE_REQUIREMENT_MS ++ " ms" ++
     newline ++ newline ++ "Result: **" ++
     verdict (d_lt (mean_ms composite) COMPOSITE_REQUIREMENT_MS) "PASS" "FAIL" ++ "**" ++ newline ++ newline;
   "ECDSA-P256-SHA256 is the performance baseline only. The primary metric is the public `composite_verify()` call."
     ++ newline]%string.

Definition write_markdown (path : string) (results : list BENCHMARK_RESULT) (warmup_iterations : Z)
    (cpu : string) (system : utsname) : M bool :=
  match results with
  | [first; _; _; composite] =>
      stream ← fopen_write path;
      match stream with
      | None => mret false
      | Some stream =>
          stream ← fprintf_all stream (markdown_report first composite results warmup_iterations cpu system);
          rc ← fclose stream;
          mret (rc =? 0)
      end
  | _ => undefined
  end.
End reports.
#[global] Arguments results_report : simpl never.
#[global] Arguments print_results : simpl never.
#[global] Arguments write_csv_rows : simpl never.
#[global] Arguments write_csv : simpl never.
#[global] Arguments markdown_path_for_csv : simpl never.
#[global] Arguments markdown_report : simpl never.
#[global] Arguments write_markdown : simpl never.
#[export] Hint Opaque print_results write_csv_rows write_csv markdown_path_for_csv write_markdown : typeclass_instances.

(** ** Specifications *)

Section stdio_specs.
Context `{Posix}.

(** What has not been read from a stream. *)
Definition remaining (fs : gmap string node) (v : FILE) : list byte :=
  match fs !! file_path v with Some (Regular _ c) => zdrop (file_offset v) c | _ => [] end.

Lemma wp_stream_content (f : obj FILE) Φ s :
  alive (Some f) s → Φ (remaining (files s) (obj_val f)) s → wp (stream_content f) Φ s.
Proof.
  intros Hf HΦ. unfold stream_content. wp_call as v [-> ->]. wp_call as fs [-> ->]. by apply wp_ret.
Qed.

(** A line read is not empty, and what remains is shorter. *)
Lemma spec_fgets n f :
  Spec (fgets (S (S n)) f) (λ s, alive (Some f) s ∧ 0 ≤ file_offset (obj_val f))
    (λ r s s', frame ∅ ∅ s s' ∧ obj_id (snd r) = obj_id f ∧ 0 ≤ file_offset (obj_val (snd r)) ∧
       (fst r ≠ None → length (remaining (files s) (obj_val (snd r))) < length (remaining (files s) (obj_val f)))%nat).
Proof.
  wp_start. destruct P as [Hf Ho]. unfold fgets. wp_call as v [-> ->]. wp_call as e [F _].
  wp_case (negb (e =? 0)); [by apply wp_ret|].
  apply wp_bind, wp_stream_content; [solve_alive|]. fs_simpl.
  destruct (remaining (files s) (obj_val f)) as [|b content] eqn:Er; [by apply wp_ret|].
  apply wp_ret. cbn [fst snd obj_id obj_val set_val file_offset first_line Nat.sub].
  set (line := if decide _ then _ else _). clearbody line.
  assert (Hl : 0 ≤ len line) by apply len_nonneg. rewrite len_cons.
  split_and!; [solve_frame|done|lia|]. intros _. unfold remaining in *. cbn [file_path file_offset].
  destruct (files s !! file_path (obj_val f)) as [[m c| |]|]; try done.
  rewrite <-Er. apply (f_equal length) in Er. unfold zdrop in *. rewrite !length_drop in *. cbn [length] in Er. lia.
Qed.

Lemma spec_find_cpu_model fuel f :
  Spec (find_cpu_model fuel f)
    (λ s, alive (Some f) s ∧ 0 ≤ file_offset (obj_val f) ∧ (length (remaining (files s) (obj_val f)) < fuel)%nat)
    (λ r s s', frame ∅ ∅ s s' ∧ obj_id (snd r) = obj_id f).
Proof.
  revert f. induction fuel as [|fuel IH]; intros f; wp_start; destruct P as (Hf & Ho & Hl); [lia|].
  unfold find_cpu_model; fold find_cpu_model. apply wp_bind.
  eapply wp_spec; [apply spec_fgets|by split|]. cbn beta. intros [line f'] s' (F & Hid & Ho' & Hr). cbn [fst snd] in *.
  destruct line as [line|]; [|by apply wp_ret]. destruct (cpu_value _); [by apply wp_ret|].
  eapply wp_spec; [apply IH| |].
  - assert (alive (Some f') s') by (unfold alive, owns in *; rewrite Hid; solve_alive).
    cbn beta. rewrite (frame_files _ _ _ _ F). split_and!; [done|done|]. specialize (Hr ltac:(done)). lia.
  - intros r s'' [F' Hid']. frame_merge. split; [solve_frame|congruence].
Qed.

Lemma length_truncate n s : (String.length (truncate n s) ≤ n)%nat.
Proof.
  unfold truncate. revert s. induction n as [|n IH]; intros [|c s]; cbn; try lia. specialize (IH s). lia.
Qed.

#[export] Instance spec_read_cpu_model :
  Spec read_cpu_model (λ _, True) (λ r s s', frame ∅ ∅ s s' ∧ strlen r ≤ 255).
Proof.
  wp_start. unfold read_cpu_model. wp_call as f [F Hf]. destruct f as [f|]; [|by apply wp_ret].
  destruct Hf as (p & n & Hp & Hv). apply wp_bind, wp_stream_content; [solve_alive|].
  apply wp_bind. eapply wp_spec; [apply spec_find_cpu_model|split_and!; [solve_alive|by rewrite Hv|lia]|].
  intros [value f'] s' [F1 Hid]. cbn [snd] in Hid. frame_merge.
  assert (alive (Some f') s') by (unfold alive, owns in *; rewrite Hid; solve_alive).
  wp_call as ? F2. cbn [owns] in *. rewrite Hid in *. apply wp_ret. split; [solve_frame|].
  destruct value as [v|]; [|done]. cbn [from_option]. pose proof (length_truncate 255 v). unfold strlen. lia.
Qed.

(** Nothing is lost on the way to a stream. *)
Definition printing_works : Prop :=
  (∀ path t, sys_fault "fprintf" path t = 0) ∧ ∀ path t, sys_fault "fwrite" path t = 0.

Lemma reliable_printing : reliable_files → printing_works.
Proof. intros [Hr _]. by split. Qed.

(** The stream [f] has become [f'], with [data] added to what has reached it
    if [ok]; it is, when printing works. *)
Definition printed (f : obj FILE) (ok : Prop) (data : list byte) (f' : obj FILE) (s s' : state) : Prop :=
  ∃ s1 fs v, frame ∅ ∅ s s1 ∧ s' = with_files fs s1 ∧ f' = set_val f v ∧ file_path v = file_path (obj_val f) ∧
    ∀ m total base, stream_at (obj_val f) m total base (files s) →
      (printing_works → ok) ∧ ∃ total', stream_at v m total' base fs ∧ (ok → total' = total ++ data).

Lemma printed_nothing f ok s : (ok : Prop) → printed f ok [] f s s.
Proof.
  intros Hok. exists s, (files s), (obj_val f). rewrite with_files_files. split_and!; [apply frame_refl|done|by destruct f|done|].
  intros m total base Hat. split; [done|]. exists total. by rewrite app_nil_r.
Qed.

Lemma printed_trans f ok1 a f1 s s1 ok2 b f2 s2 :
  printed f ok1 a f1 s s1 → printed f1 ok2 b f2 s1 s2 → printed f (ok1 ∧ ok2) (a ++ b) f2 s s2.
Proof.
  intros (u1 & fs1 & v1 & F1 & -> & -> & Hp1 & H1) (u2 & fs2 & v2 & F2 & -> & -> & Hp2 & H2).
  destruct (frame_with_files _ _ _ _ _ F2) as (u3 & F3 & ->). fs_simpl. eexists _, fs2, v2.
  split; [frame_merge; solve_frame|].
  split; [done|]. split; [done|]. split; [by cbn [obj_val set_val] in Hp2; rewrite Hp2|].
  intros m total base Hat. destruct (H1 _ _ _ Hat) as (Hw1 & t1 & Hat1 & Ht1).
  destruct (H2 _ _ _ Hat1) as (Hw2 & t2 & Hat2 & Ht2). split; [auto|]. exists t2. split; [done|].
  intros [Ho1 Ho2]. by rewrite (Ht2 Ho2), (Ht1 Ho1), app_assoc.
Qed.

(** Success may be replaced by a condition that implies it. *)
Lemma printed_if (ok' : Prop) f ok data f' s s' :
  (ok' → ok) → (printing_works → ok → ok') → printed f ok data f' s s' → printed f ok' data f' s s'.
Proof.
  intros H1 H2 (u & fs & v & ? & ? & ? & ? & Hs). exists u, fs, v. split_and!; [done..|]. intros m total base Hat.
  destruct (Hs _ _ _ Hat) as (Hw & t & Hat' & Ht). split; [auto|]. exists t. auto.
Qed.

Lemma printed_works f ok data f' s s' : printed f ok data f' s s' → printed f printing_works data f' s s'.
Proof.
  intros (u & fs & v & ? & ? & ? & ? & Hs). exists u, fs, v. split_and!; [done..|]. intros m total base Hat.
  destruct (Hs _ _ _ Hat) as (Hw & t & Hat' & Ht). split; [auto|]. exists t. auto.
Qed.

(** Success that was denied. *)
Lemma printed_fails f ok data data' f' s s' : ¬ ok → printed f ok data f' s s' → printed f (false = true) data' f' s s'.
Proof.
  intros Hno (u & fs & v & ? & ? & ? & ? & Hs). exists u, fs, v. split_and!; [done..|]. intros m total base Hat.
  destruct (Hs _ _ _ Hat) as (Hw & t & Hat' & _). split; [by intros ?%Hw|]. by exists t.
Qed.

Lemma printed_alive f ok data f' s s' : printed f ok data f' s s' → alive (Some f) s → alive (Some f') s'.
Proof.
  intros (u & fs & v & F & -> & -> & _) Hf. solve_alive.
Qed.

#[export] Instance spec_fprintf f text :
  Spec (fprintf f text) (alive (Some f)) (λ r s s', printed f (0 ≤ fst r) (lit text) (snd r) s s').
Proof.
  wp_start. unfold fprintf. wp_call as v [-> ->]. wp_call as e [F He].
  assert (Hfs : files s0 = files s) by by fs_simpl. wp_case (e =? 0).
  - wp_call as [ok f'] (s1 & fs & v & F1 & -> & Hv & Hp & Hw). cbn [fst snd] in *. subst f'. rewrite Hfs in Hw.
    apply wp_ret. exists s1, fs, v. split; [solve_frame|]. split_and!; [done..|]. intros m total base Hat.
    destruct (Hw _ _ _ Hat) as (Hok & total' & Hat' & Ht). cbn [fst]. unfold strlen. split.
    + intros [_ Hworks]. destruct Hok as [->|[e' [He' [t Hf]]]]; [lia|]. by rewrite Hworks in Hf.
    + exists total'. split; [done|]. destruct ok; [by intros _; apply Ht|lia].
  - wp_call as n [F1 _]. assert (Hfs1 : files s1 = files s) by by fs_simpl.
    wp_call as [ok f'] (s2 & fs & v & F2 & -> & Hv & Hp & Hw). cbn [fst snd] in *. subst f'.
    rewrite Hfs1 in Hw. apply wp_ret. exists s2, fs, v. split; [solve_frame|]. split_and!; [done..|]. intros m total base Hat.
    destruct (Hw _ _ _ Hat) as (_ & total' & Hat' & _). cbn [fst]. split.
    + intros [Hworks _]. by rewrite Hworks in E.
    + exists total'. split; [done|lia].
Qed.

Lemma spec_fprintf_all f texts :
  Spec (fprintf_all f texts) (alive (Some f))
    (λ r s s', printed f printing_works (concat (map lit texts)) r s s').
Proof.
  revert f. induction texts as [|text texts IH]; intros f; wp_start; unfold fprintf_all; fold fprintf_all.
  - apply wp_ret. by eapply printed_works, (printed_nothing f True).
  - apply wp_bind. eapply wp_spec; [apply _|done|]. intros [n f'] s1 H1. cbn [snd] in H1.
    eapply wp_spec; [apply IH|by eapply printed_alive|]. intros r s2 H2.
    eapply printed_if; [| |exact (printed_trans _ _ _ _ _ _ _ _ _ _ (printed_works _ _ _ _ _ _ H1) H2)];
      [by intros|by intros _ []].
Qed.

(** The file at the path, or where it leads, has become [data]. *)
Definition saved (path : string) (data : list byte) (fs fs' : gmap string node) : Prop :=
  ∃ p m, resolve_target MAXSYMLINKS fs path = inl p ∧ fs' = <[p := Regular m data]> fs.

(** The end of a file that was written from its start. *)
Lemma wp_close_saved path (f0 f : obj FILE) p m fs0 ok data Φ s1 s :
  obj_val f0 = Stream p 0 [] → alive (Some f0) s1 → resolve_target MAXSYMLINKS fs0 path = inl p →
  files s1 = <[p := Regular m []]> fs0 → printed f0 ok data f s1 s →
  (∀ rc s2 fs, frame (owns (Some f0)) ∅ s1 s2 → (printing_works → ok) →
     (rc = 0 → ∃ data', saved path data' fs0 fs ∧ (ok → data' = data)) →
     (reliable_files → rc = 0) → Φ rc (with_files fs s2)) →
  wp (fclose f) Φ s.
Proof.
  intros Hv Hf Hp Hs Hd HΦ. pose proof (printed_alive _ _ _ _ _ _ Hd Hf) as Hf'.
  destruct Hd as (u & fs1 & v & F & -> & -> & Hpath & Hat).
  eapply wp_spec; [apply _|exact Hf'|]. intros rc s' (s2 & fs & F2 & -> & Hfs).
  destruct (frame_with_files _ _ _ _ _ F2) as (s3 & F3 & ->). fs_simpl. clear F2.
  destruct (Hat m [] fs0) as (Hw & total & Hat' & Htotal).
  { rewrite Hv, Hs. apply stream_at_start. }
  cbn [obj_val set_val] in Hfs. rewrite Hpath, Hv in Hfs. cbn [file_path] in Hfs.
  destruct (Hfs m total fs0 Hat') as (Hrc & data' & lost & -> & -> & Hlost & _).
  apply (HΦ rc s3); [frame_merge; solve_frame|done| |].
  - intros ->. exists data'. split; [by exists p, m|]. intros Hok. rewrite <-(app_nil_r data').
    rewrite <-(Hlost eq_refl). by apply Htotal.
  - intros Hr. destruct Hrc as [?|[name Hn]]; [done|]. by apply reliable_no_fault in Hn.
Qed.
End stdio_specs.

Section report_specs.
Context `{Libc, FloatingPoint, Platform, Posix}.

(** The contents of the two files. *)
Definition csv_content (first : BENCHMARK_RESULT) (results : list BENCHMARK_RESULT) : list byte :=
  concat (map lit (csv_header :: map (csv_row (mean_ms first)) results)).
Definition markdown_content (first composite : BENCHMARK_RESULT) (results : list BENCHMARK_RESULT)
    (warmup_iterations : Z) (cpu : string) (system : utsname) : list byte :=
  concat (map lit (markdown_report first composite results warmup_iterations cpu system)).

Lemma spec_write_csv_rows f baseline results :
  Spec (write_csv_rows f baseline results) (alive (Some f))
    (λ r s s', printed f (fst r = true) (concat (map lit (map (csv_row baseline) results))) (snd r) s s').
Proof.
  revert f. induction results as [|row results IH]; intros f; wp_start; unfold write_csv_rows; fold write_csv_rows.
  - apply wp_ret. by apply printed_nothing.
  - apply wp_bind. eapply wp_spec; [apply _|done|]. intros [n f'] s1 Ht1. cbn [fst snd] in Ht1.
    destruct (Z.ltb_spec n 0).
    + apply wp_ret. eapply printed_fails; [|exact Ht1]. lia.
    + eapply wp_spec; [apply IH|by eapply printed_alive|]. intros r s2 Ht2.
      eapply printed_if; [| |exact (printed_trans _ _ _ _ _ _ _ _ _ _ Ht1 Ht2)]; [intros; split; [lia|done]|by intros _ []].
Qed.

(** A path at which a file can be written. *)
Definition writable (fs : gmap string node) (path : string) : Prop :=
  ∃ p, resolve_target MAXSYMLINKS fs path = inl p.

#[export] Instance spec_write_csv path first results :
  Spec (write_csv path (first :: results)) (λ _, True)
    (λ r s s', ∃ s1 fs, frame ∅ ∅ s s1 ∧ s' = with_files fs s1 ∧
       (r = true → saved path (csv_content first (first :: results)) (files s) fs) ∧
       (reliable_files → writable (files s) path → r = true)).
Proof.
  wp_start. unfold write_csv. set (Post := λ (r : bool) s', _).
  wp_call as f (s1 & fs & F & -> & Hf). fs_simpl. destruct f as [f|].
  2: { apply wp_ret. exists s1, fs. split_and!; [solve_frame|done|done|]. intros Hr [p Hp].
       destruct Hf as (_ & [[e He]|[e He]]); [congruence|by apply reliable_no_fault in He]. }
  destruct Hf as (p & m & Hp & Hv & -> & _). set (u := with_files _ _).
  assert (Hclose : ∀ data (ok : bool) f' (result : Z → bool) s', printed f (ok = true) data f' u s' →
    (ok = true → data = csv_content first (first :: results)) → (∀ rc, result rc = ok && (rc =? 0)) →
    wp (rc ← fclose f'; mret (result rc)) Post s').
  { intros data ok f' result s' Hf' Hd Hres. apply wp_bind.
    eapply (wp_close_saved path f _ _ _ _ _ _ _ u); [exact Hv|subst u; solve_alive|exact Hp|done|exact Hf'|].
    intros rc s2 fs F2 Hw Hsaved Hrel. subst u. destruct (frame_with_files _ _ _ _ _ F2) as (s3 & F3 & ->). clear F2. frame_merge.
    apply wp_ret. exists s3, fs. rewrite Hres. split_and!; [solve_frame|done| |].
    - intros [Hok Hrc%Z.eqb_eq]%andb_true_iff. destruct (Hsaved Hrc) as (data' & Hs & Hdata).
      rewrite <-(Hd Hok), <-(Hdata Hok). done.
    - intros Hr _. by rewrite (Hrel Hr), (Hw (reliable_printing Hr)). }
  apply wp_bind. eapply wp_spec; [apply _|subst u; solve_alive|]. intros [n f'] s' Hh. cbn [fst snd] in Hh.
  destruct (Z.ltb_spec n 0).
  { apply (Hclose (lit csv_header) false f' (λ _, false)); [|done|done].
    eapply printed_fails; [|exact Hh]. lia. }
  apply wp_bind. eapply wp_spec; [apply spec_write_csv_rows|eapply printed_alive; [exact Hh|subst u; solve_alive]|].
  intros [ok f2] s2 Hr. cbn [fst snd] in Hr. pose proof (printed_trans _ _ _ _ _ _ _ _ _ _ Hh Hr) as Hall.
  apply (printed_if (ok = true)) in Hall; [|intros; split; [lia|done]|by intros _ []].
  destruct ok; cbn [negb].
  - by apply (Hclose _ true f2 (λ rc, rc =? 0) _ Hall).
  - by apply (Hclose _ false f2 (λ _, false) _ Hall).
Qed.

#[export] Instance spec_write_markdown path ecdsa sm2 dilithium composite warmup cpu system :
  Spec (write_markdown path [ecdsa; sm2; dilithium; composite] warmup cpu system) (λ _, True)
    (λ r s s', ∃ s1 fs, frame ∅ ∅ s s1 ∧ s' = with_files fs s1 ∧
       (r = true → ∃ data, saved path data (files s) fs ∧ (printing_works →
          data = markdown_content ecdsa composite [ecdsa; sm2; dilithium; composite] warmup cpu system)) ∧
       (reliable_files → writable (files s) path → r = true)).
Proof.
  wp_start. unfold write_markdown. wp_call as f (s1 & fs & F & -> & Hf). fs_simpl. destruct f as [f|].
  2: { apply wp_ret. exists s1, fs. split_and!; [solve_frame|done|done|]. intros Hr [p Hp].
       destruct Hf as (_ & [[e He]|[e He]]); [congruence|by apply reliable_no_fault in He]. }
  destruct Hf as (p & m & Hp & Hv & -> & _). set (u := with_files _ _).
  apply wp_bind. eapply wp_spec; [apply spec_fprintf_all|subst u; solve_alive|]. intros f' s' Hd. cbn beta in Hd.
  apply wp_bind. eapply (wp_close_saved path f _ _ _ _ _ _ _ u); [exact Hv|subst u; solve_alive|exact Hp|done|exact Hd|].
  intros rc s2 fs F2 _ Hsaved Hrel. subst u. destruct (frame_with_files _ _ _ _ _ F2) as (s3 & F3 & ->). clear F2. frame_merge.
  apply wp_ret. eexists _, fs. split_and!; [solve_frame|done| |].
  - by intros Hrc%Z.eqb_eq%Hsaved.
  - intros Hr _. by rewrite (Hrel Hr).
Qed.

#[export] Instance spec_print_results ecdsa sm2 dilithium composite warmup cpu system :
  Spec (print_results [ecdsa; sm2; dilithium; composite] warmup cpu system) (λ _, True)
    (λ r s s', s' = add_output (results_report ecdsa sm2 dilithium composite warmup cpu system) s).
Proof. exact (spec_print_lines _). Qed.

(** The extension [.csv] is replaced, and any other text extended. *)
Definition markdown_named (csv md : string) : Prop :=
  (∃ stem, csv = (stem ++ ".csv")%string ∧ md = (stem ++ ".md")%string) ∨
  (∀ stem, csv ≠ (stem ++ ".csv")%string) ∧ md = (csv ++ ".md")%string.

Lemma strlen_app a b : strlen (a ++ b) = strlen a + strlen b.
Proof. by rewrite <-!len_lit, lit_app, len_app. Qed.

Lemma string_split n s : (n ≤ String.length s)%nat → ∃ a b, s = (a ++ b)%string ∧ String.length a = n.
Proof.
  revert n. induction s as [|c s IH]; intros n Hn; [by exists ""%string, ""%string; cbn in *; split; [|lia]|].
  destruct n as [|n]; [by exists ""%string, (String c s)|]. cbn in Hn.
  destruct (IH n ltac:(lia)) as (a & b & -> & <-). by exists (String c a), b.
Qed.

Lemma string_halves_inj a b a' b' :
  String.length a = String.length a' → (a ++ b)%string = (a' ++ b')%string → a = a' ∧ b = b'.
Proof.
  revert a'. induction a as [|c a IH]; intros [|c' a'] Hl E; cbn in *; try lia; [done|].
  injection E as -> E. by destruct (IH a' ltac:(lia) E) as [-> ->].
Qed.

Lemma strlen_nonneg s : 0 ≤ strlen s.
Proof. unfold strlen. lia. Qed.

(** A text of at least four characters ends in the extension, or does not. *)
Lemma extension_cases csv :
  strlen csv < 4 ∧ (∀ stem, csv ≠ (stem ++ ".csv")%string) ∨
  ∃ stem tail, csv = (stem ++ tail)%string ∧ strlen tail = 4 ∧
    (tail ≠ ".csv"%string → ∀ stem, csv ≠ (stem ++ ".csv")%string).
Proof.
  destruct (Z.ltb_spec (strlen csv) 4) as [Hl|Hl]; [left|right].
  - split; [done|]. intros stem ->. rewrite strlen_app in Hl. pose proof (strlen_nonneg stem).
    change (strlen ".csv") with 4 in Hl. lia.
  - destruct (string_split (String.length csv - 4) csv) as (stem & tail & E & Hs); [lia|].
    exists stem, tail. assert (Ht : strlen tail = 4).
    { apply (f_equal strlen) in E. rewrite strlen_app in E. unfold strlen in *. lia. }
    split_and!; [done|done|]. intros Hne stem' E'. apply Hne. rewrite E in E'.
    eapply string_halves_inj; [|exact E']. apply (f_equal strlen) in E'. rewrite !strlen_app in E'.
    change (strlen ".csv") with 4 in E'. unfold strlen in *. lia.
Qed.

#[export] Instance spec_markdown_path_for_csv csv :
  Spec (markdown_path_for_csv csv) (λ _, nul_free csv)
    (λ r s s', frame ∅ (owns r) s s' ∧
       (∀ b, r = Some b → markdown_named csv (c_string (obj_val b))) ∧
       (reliable_malloc → strlen csv ≤ SIZE_MAX - 4 → is_Some r)).
Proof.
  wp_start. unfold markdown_path_for_csv. set (Post := λ (r : option block) s', _ ∧ _ ∧ _). pose proof (strlen_nonneg csv).
  rewrite size_sub_small by size_lia. wp_case (strlen csv >? SIZE_MAX - 4); [apply wp_ret; split_and!; [done..|lia]|].
  rewrite size_add_small by size_lia. wp_call as [p|] [F Hp].
  2: { apply wp_ret. split_and!; [solve_frame|done|]. intros Hr. by rewrite Hr in Hp. }
  pose proof (len_lit csv). assert (Hmd : nul_free ".md"%string) by by repeat constructor.
  repeat wp_pure. apply (wp_append p [] (obj_val p)); [solve_alive|done|done|rewrite len_app, len_cons, len_nil; lia|].
  rewrite len_app, len_cons, len_nil. intros rest Hrest. cbn [app]. wp_call as v [-> ->]. cbn [obj_val set_val].
  set (q := set_val p _).
  assert (Hend : ∀ stem rest', nul_free stem → markdown_named csv (stem ++ ".md") →
    obj_val q = lit stem ++ rest' → 4 ≤ len rest' →
    wp (memcpy_block q (strlen stem) (lit ".md" ++ [Byte.x00]) ≫= λ path, mret (Some path)) Post s0).
  { intros stem rest' Hs Hn Hv Hl. subst q. apply wp_bind.
    apply (wp_append _ (lit stem) rest'); [solve_alive|done|by rewrite len_lit|done|].
    intros rest'' _. apply wp_ret. split_and!; [solve_frame| |by eexists]. intros b [= <-]. cbn [obj_val set_val].
    assert (Et : lit (stem ++ ".md") ++ Byte.x00 :: rest'' = (lit stem ++ lit ".md" ++ [Byte.x00]) ++ rest'')
      by by rewrite lit_app, <-!app_assoc.
    change (markdown_named csv (c_string ((lit stem ++ lit ".md" ++ [Byte.x00]) ++ rest''))).
    rewrite <-Et, c_string_lit by by apply nul_free_app. done. }
  destruct (extension_cases csv) as [[Hs Hno]|(stem & tail & E' & Ht & Hno)].
  { destruct (Z.geb_spec (strlen csv) 4); [lia|]. cbn [andb].
    eapply (Hend csv); [done|by right|by unfold q; cbn [obj_val set_val]; rewrite <-app_assoc|rewrite len_app, len_cons, len_nil; lia]. }
  assert (nul_free stem ∧ nul_free tail) as [? ?].
  { unfold nul_free in P. rewrite E', lit_app in P. by apply Forall_app in P. }
  assert (Hlen : strlen csv = strlen stem + 4) by by rewrite E', strlen_app, Ht.
  pose proof (strlen_nonneg stem). destruct (Z.geb_spec (strlen csv) 4); [|lia]. cbn [andb].
  rewrite size_sub_small, Hlen, Z.add_simpl_r by size_lia.
  assert (Hq : obj_val q = lit stem ++ lit tail ++ Byte.x00 :: rest).
  { unfold q. cbn [obj_val set_val]. by rewrite E', lit_app, <-!app_assoc. }
  assert (Htail : c_string (zdrop (strlen stem) (lit stem ++ lit tail ++ Byte.x00 :: rest)) = tail).
  { rewrite <-len_lit. unfold zdrop, len. rewrite Nat2Z.id, drop_app_length. by apply c_string_lit. }
  change ((lit csv ++ [Byte.x00]) ++ rest) with (obj_val q). rewrite Hq, Htail.
  destruct (bool_decide_reflect (tail = ".csv"%string)) as [->|Hne].
  - eapply (Hend stem); [done|left; by exists stem|exact Hq|]. rewrite len_app, len_cons, len_lit, Ht.
    pose proof (len_nonneg rest). lia.
  - rewrite <-Hlen. eapply (Hend csv); [done|right; split; [by apply Hno|done]| |].
    + unfold q. cbn [obj_val set_val]. by rewrite <-app_assoc.
    + rewrite len_app, len_cons, len_nil. lia.
Qed.
End report_specs.
