(* ===== verification/BenchMain.v ===== *)
(** * tools/benchmark_composite_verify.c (main)

    The arguments, the keys and signatures that are measured, the order of the
    steps and the release of what they hold. *)

From S2P Require Import Prelude Machine External Posix Tools BenchStats Environment Dilithium Sm2 CompositeKey CompositeSig.
From S2P Require Import KeyStore KeyStoreFiles KeyLife Benchmark BenchReport.

(** ** Arguments *)

Record OPTIONS := Options { warmup_iterations : Z; iterations : Z; csv_path : option string }.

Definition default_options : OPTIONS := Options DEFAULT_WARMUP_ITERATIONS DEFAULT_TIMED_ITERATIONS None.

(** The arguments after the name of the program. An option at the end of the
    line has no value. *)
Fixpoint parse_arguments (argv : list string) (o : OPTIONS) : option OPTIONS :=
  match argv with
  | [] => Some o
  | [_] => None
  | name :: value :: argv =>
      if String.eqb name "--warmup" then
        n ← parse_count value;
        parse_arguments argv (Options n (iterations o) (csv_path o))
      else if String.eqb name "--iterations" then
        n ← parse_count value;
        if n =? 0 then None else parse_arguments argv (Options (warmup_iterations o) n (csv_path o))
      else if String.eqb name "--csv" then
        if String.eqb value "" then None
        else parse_arguments argv (Options (warmup_iterations o) (iterations o) (Some value))
      else None
  end.

(** [message[i] = i & 0xff] *)
Definition bench_message : list byte :=
  map (λ i, byte_of_Z (Z.land (Z.of_nat i) 0xff)) (seq 0 (Z.to_nat BENCHMARK_MESSAGE_BYTES)).

(** ** The keys and the signatures *)

Section main.
Context `{Libc, OpenSSL, !OpenSSLGroups, Dilithium2, FloatingPoint, Platform, Posix}.

(** The variables of [main] that hold them. *)
Record SETUP := Setup {
  private_key : option HYBRID_PRIVATE_KEY;
  public_key : option HYBRID_PUBLIC_KEY;
  ecdsa_key : option (obj EVP_PKEY);
  ecdsa_signature : outbuf;
  sm2_signature : outbuf;
  dilithium_signature : outbuf;
  composite_signature : outbuf
}.

Definition initial_setup : SETUP :=
  Setup (Some zero_private_key) (Some zero_public_key) None fresh_out fresh_out fresh_out fresh_out.

(** The operands of [||], up to the first that fails: the keys and the ECDSA
    signature first. *)
Definition make_signatures (message : list byte) (sk : option HYBRID_PRIVATE_KEY) (pk : option HYBRID_PUBLIC_KEY)
    (key : option (obj EVP_PKEY)) (e : outbuf) : M (bool * SETUP) :=
  let m : ptr := Some message in
  let n := len message in
  '(ok, s) ← hybrid_sm2_sign (sk ≫= sm2_private_key) m n fresh_out;
  check (ok : bool) else mret (false, Setup sk pk key e s fresh_out fresh_out);;
  '(ok, d) ← dilithium_sign (dilithium_secret_key <$> sk) DILITHIUM_SECRET_KEY_BYTES m n fresh_out;
  check (ok : bool) else mret (false, Setup sk pk key e s d fresh_out);;
  '(ok, c) ← composite_sign sk m n None 0 fresh_out;
  mret (ok, Setup sk pk key e s d c).

Definition make_setup (message : list byte) : M (bool * SETUP) :=
  let sk := Some zero_private_key in
  let pk := Some zero_public_key in
  let m : ptr := Some message in
  let n := len message in
  key ← generate_ecdsa_p256_key;
  check negb (is_null key) else mret (false, Setup sk pk key fresh_out fresh_out fresh_out fresh_out);;
  '(ok, e) ← ecdsa_p256_sha256_sign key m n fresh_out;
  check (ok : bool) else mret (false, Setup sk pk key e fresh_out fresh_out fresh_out);;
  '(ok, (sk, pk)) ← composite_key_generate sk pk;
  check (ok : bool) else mret (false, Setup sk pk key e fresh_out fresh_out fresh_out);;
  make_signatures message sk pk key e.

Definition ecdsa_input (st : SETUP) (message : list byte) : EVP_VERIFY_INPUT :=
  EvpVerifyInput (ecdsa_key st) message (out_block (ecdsa_signature st)) (out_len (ecdsa_signature st)).
Definition sm2_input (st : SETUP) (message : list byte) : EVP_VERIFY_INPUT :=
  EvpVerifyInput (public_key st ≫= sm2_public_key) message
    (out_block (sm2_signature st)) (out_len (sm2_signature st)).
Definition dilithium_input (st : SETUP) (message : list byte) : DILITHIUM_VERIFY_INPUT :=
  DilithiumVerifyInput (default [] (dilithium_public_key <$> public_key st)) message
    (out_block (dilithium_signature st)) (out_len (dilithium_signature st)).
Definition composite_input (st : SETUP) (message : list byte) : COMPOSITE_VERIFY_INPUT :=
  CompositeVerifyInput (public_key st) message
    (out_block (composite_signature st)) (out_len (composite_signature st)).

Definition verify_setup (st : SETUP) (message : list byte) : M bool :=
  ok ← ecdsa_p256_sha256_verify (ecdsa_input st message);
  check (ok : bool) else mret false;;
  ok ← sm2_verify (sm2_input st message);
  check (ok : bool) else mret false;;
  ok ← dilithium2_verify (dilithium_input st message);
  check (ok : bool) else mret false;;
  composite_signature_verify (composite_input st message).

Definition run_benchmarks (st : SETUP) (message : list byte) (o : OPTIONS) : M (option (list BENCHMARK_RESULT)) :=
  let run name verify := run_benchmark name verify (warmup_iterations o) (iterations o) in
  r0 ← run "ECDSA-P256-SHA256"%string (ecdsa_p256_sha256_verify (ecdsa_input st message));
  match r0 with
  | None => mret None
  | Some r0 =>
      r1 ← run "SM2-SM3"%string (sm2_verify (sm2_input st message));
      match r1 with
      | None => mret None
      | Some r1 =>
          r2 ← run "CRYSTALS-Dilithium2"%string (dilithium2_verify (dilithium_input st message));
          match r2 with
          | None => mret None
          | Some r2 =>
              r3 ← run "SM2+Dilithium2 Composite"%string (composite_signature_verify (composite_input st message));
              mret ((λ r3, [r0; r1; r2; r3]) <$> r3)
          end
      end
  end.

(** The files of [--csv], and the path that was allocated. *)
Definition write_reports (o : OPTIONS) (results : list BENCHMARK_RESULT) (cpu : string) (system : utsname)
    : M (bool * option block) :=
  match csv_path o with
  | None => mret (true, None)
  | Some csv =>
      markdown_path ← markdown_path_for_csv csv;
      path ← string_at markdown_path;
      match path with
      | None => mret (false, markdown_path)
      | Some markdown =>
          ok ← write_csv csv results;
          check (ok : bool) else mret (false, markdown_path);;
          ok ← write_markdown markdown results (warmup_iterations o) cpu system;
          check (ok : bool) else mret (false, markdown_path);;
          print ("CSV: " ++ csv);;
          print ("Markdown: " ++ markdown);;
          mret (true, markdown_path)
      end
  end.

(** [uname] failed *)
Definition unknown_system : utsname := Utsname "unavailable" "unavailable" "unavailable".

Definition release_setup (st : SETUP) (markdown_path : option block) : M unit :=
  free_object markdown_path;;
  free_object (out_block (composite_signature st));;
  free_object (out_block (dilithium_signature st));;
  free_object (out_block (sm2_signature st));;
  free_object (out_block (ecdsa_signature st));;
  free_object (ecdsa_key st);;
  hybrid_public_key_cleanup (public_key st);;
  hybrid_private_key_cleanup (private_key st);;
  mret tt.

Definition benchmark_main (argv : list string) : M Z :=
  let done (st : SETUP) (markdown_path : option block) (status : Z) := release_setup st markdown_path;; mret status in
  match parse_arguments (tail argv) default_options with
  | None => done initial_setup None EXIT_FAILURE
  | Some o =>
      let message := bench_message in
      '(ok, st) ← make_setup message;
      check (ok : bool) else done st None EXIT_FAILURE;;
      ok ← verify_setup st message;
      check (ok : bool) else done st None EXIT_FAILURE;;
      results ← run_benchmarks st message o;
      match results with
      | None => done st None EXIT_FAILURE
      | Some results =>
          system ← call uname;
          let system := default unknown_system system in
          cpu ← read_cpu_model;
          print_results results (warmup_iterations o) cpu system;;
          '(ok, markdown_path) ← write_reports o results cpu system;
          done st markdown_path (if ok : bool then EXIT_SUCCESS else EXIT_FAILURE)
      end
  end.
End main.
#[global] Arguments make_signatures : simpl never.
#[global] Arguments make_setup : simpl never.
#[global] Arguments verify_setup : simpl never.
#[global] Arguments run_benchmarks : simpl never.
#[global] Arguments write_reports : simpl never.
#[global] Arguments release_setup : simpl never.
#[global] Arguments benchmark_main : simpl never.
#[export] Hint Opaque make_signatures make_setup verify_setup run_benchmarks write_reports release_setup benchmark_main : typeclass_instances.

(** ** Specifications *)

Lemma parse_arguments_range argv o o' :
  0 < iterations o → parse_arguments argv o = Some o' → 0 < iterations o'.
Proof.
  intros Ho. revert o Ho. induction argv as [argv IH] using (induction_ltof1 _ (@length _)); unfold ltof in IH.
  intros o Ho. destruct argv as [|name [|value argv]]; cbn [parse_arguments]; [by intros [= <-]|done|].
  assert (Hl : (length argv < length (name :: value :: argv))%nat) by (cbn; lia).
  destruct (String.eqb name "--warmup"); [|destruct (String.eqb name "--iterations"); [|destruct (String.eqb name "--csv"); [|done]]].
  - destruct (parse_count value); [|done]. by apply IH.
  - destruct (parse_count value) as [n|] eqn:E; [|done]. apply parse_count_range in E. cbn [mbind option_bind].
    destruct (Z.eqb_spec n 0); [done|]. apply IH; [done|]. cbn. lia.
  - destruct (String.eqb value ""); [done|]. by apply IH.
Qed.

Lemma len_bench_message : len bench_message = BENCHMARK_MESSAGE_BYTES.
Proof. unfold len, bench_message. by rewrite length_map, length_seq. Qed.

Section specs.
Context `{Libc, OpenSSL, !OpenSSLSizes, !OpenSSLGroups, Dilithium2, !Dilithium2Sizes, FloatingPoint, Platform, Posix}.

(** What the variables hold. *)
Definition outs_own (st : SETUP) : gmultiset positive :=
  owns (out_block (ecdsa_signature st)) ⊎ owns (out_block (sm2_signature st)) ⊎
  owns (out_block (dilithium_signature st)) ⊎ owns (out_block (composite_signature st)).
Definition setup_owns (st : SETUP) : gmultiset positive :=
  private_owns (private_key st) ⊎ public_owns (public_key st) ⊎ owns (ecdsa_key st) ⊎ outs_own st.
Definition setup_wf (st : SETUP) : Prop :=
  from_option private_key_wf True (private_key st) ∧ from_option public_key_wf True (public_key st).

(** Fresh keys, and a signature of the message with each. *)
Definition signature_ready (Q : list byte → Prop) (o : outbuf) : Prop :=
  is_Some (out_block o) ∧ valid (obj_val <$> out_block o) (out_len o) ∧
  Q (bytes_at (obj_val <$> out_block o) (out_len o)).
Definition setup_ready (message : list byte) (st : SETUP) : Prop :=
  ∃ k sk pk o, ecdsa_key st = Some k ∧ p256_generated (obj_val k) ∧
    private_key st = Some sk ∧ public_key st = Some pk ∧ sm2_private_key sk = Some o ∧
    sm2_public_key pk = Some o ∧ sm2_generated (obj_val o) ∧
    dilithium_keypair (dilithium_public_key pk) (dilithium_secret_key sk) ∧
    signature_ready (ecdsa_signed (obj_val k) message) (ecdsa_signature st) ∧
    signature_ready (sm2_signed (obj_val o) message) (sm2_signature st) ∧
    signature_ready (dilithium_signed (dilithium_secret_key sk) message) (dilithium_signature st) ∧
    out_len (dilithium_signature st) = DILITHIUM_SIGNATURE_BYTES ∧
    signature_ready (composite_signed sk message []) (composite_signature st).

(** The libraries work: no call of them fails, and what a generated key signs
    is always verified. *)
Class BenchLaws : Prop := {
  bench_schemes :: SchemeLaws;
  bench_generates : always_generates;
  bench_p256_generates : p256_always_generates;
  bench_ecdsa_signs k m : p256_generated k → ecdsa_always_signs k m;
  bench_ecdsa k m sig : p256_generated k → ecdsa_signed k m sig → ecdsa_verification always k m sig
}.

(** References were acquired; files and output are as they were. *)
Definition quiet (give : gmultiset positive) (s s' : state) : Prop :=
  live s' = live s ⊎ give ∧ files s' = files s ∧ output s' = output s.

Lemma frame_quiet g s s' : frame ∅ g s s' → quiet g s s'.
Proof. intros [L _ F O]. split_and!; [|done|done]. ms_lia. Qed.

#[export] Instance spec_release_setup st md :
  Spec (release_setup st md) (λ s, owns md ⊎ setup_owns st ⊆ live s ∧ setup_wf st)
    (λ r s s', frame (owns md ⊎ setup_owns st) ∅ s s').
Proof.
  wp_start. destruct P as (Hl & Hwf1 & Hwf2). unfold release_setup, setup_owns, outs_own in *.
  do 6 wp_call as ? ?. wp_call as ? [? _]. wp_call as ? [? _]. apply wp_ret. solve_frame.
Qed.

Lemma signature_ready_set (Q : list byte → Prop) b n :
  0 ≤ n ≤ len (obj_val b) → n ≤ SIZE_MAX → Q (ztake n (obj_val b)) → signature_ready Q (set_out b n).
Proof. intros Hn Hs HQ. split; [by eexists|]. split; [|done]. split; cbn; lia. Qed.

(** One more step that only acquires references. *)
Lemma quiet_frame g g' s s1 s' : quiet g s s1 → frame ∅ g' s1 s' → quiet (g ⊎ g') s s'.
Proof. intros (L & F & O) [L' _ F' O']. split_and!; [ms_lia|congruence..]. Qed.

Lemma quiet_conv g g' s s' : quiet g s s' → g = g' → quiet g' s s'.
Proof. by intros ? <-. Qed.

(** The steps so far, as one; what is held, and that an object of it may be
    accessed. *)
Ltac quiet_step Q F := let Q' := fresh in rename Q into Q'; pose proof (quiet_frame _ _ _ _ _ Q' F) as Q; clear Q' F.
Ltac quiet_done :=
  eapply quiet_conv; [eassumption|]; unfold setup_owns, outs_own, out_owns;
  cbn [fst snd private_key public_key ecdsa_key ecdsa_signature sm2_signature dilithium_signature composite_signature];
  owns_simpl; repeat match goal with E : _ = ∅ |- _ => rewrite E; clear E end; ms_lia.
Ltac quiet_alive :=
  match goal with Q : quiet _ _ _ |- _ => let L := fresh in destruct Q as (L & _ & _); unfold out_owns in *;
    unfold alive; owns_simpl; ms_lia end.

(** A setup that was made, or how far that came: with libraries that work, it
    was made. *)
Definition setup_made (message : list byte) (s : state) (r : bool * SETUP) (s' : state) : Prop :=
  quiet (setup_owns (snd r)) s s' ∧ setup_wf (snd r) ∧
  (fst r = true → setup_ready message (snd r)) ∧ (BenchLaws → fst r = true).

Lemma setup_failed m s s' st :
  quiet (setup_owns st) s s' → setup_wf st → ¬ BenchLaws → setup_made m s (false, st) s'.
Proof. by intros; split_and!. Qed.

Lemma wp_make_signatures m sk pk o k eb en s0 s :
  valid (Some m) (len m) → sm2_private_key sk = Some o → sm2_public_key pk = Some o →
  sm2_generated (obj_val o) → dilithium_keypair (dilithium_public_key pk) (dilithium_secret_key sk) →
  p256_generated (obj_val k) → signature_ready (ecdsa_signed (obj_val k) m) (set_out eb en) →
  quiet (owns (Some k) ⊎ owns (Some eb) ⊎ private_owns (Some sk) ⊎ public_owns (Some pk)) s0 s →
  wp (make_signatures m (Some sk) (Some pk) (Some k) (set_out eb en)) (setup_made m s0) s.
Proof.
  intros Hm Hso Hpo Ho Hkp Hk He Q. destruct (generated_wf _ _ Hkp) as [Hskw Hpkw]. unfold make_signatures.
  pose proof (valid_nonnull _ _ Hm) as Hread. cbn [mbind option_bind fmap option_fmap option_map].
  assert (Hown : private_owns (Some sk) = owns (Some o)) by (cbn [private_owns]; by rewrite Hso).
  assert (Hsk : valid (Some (dilithium_secret_key sk)) DILITHIUM_SECRET_KEY_BYTES).
  { rewrite <-Hskw. apply valid_all. by rewrite Hskw. }
  apply wp_bind. eapply wp_spec; [apply _|split_and!; [done|rewrite Hso; rewrite Hown in Q; quiet_alive|done]|].
  intros [ok sg] s1 [[F Hsg] Hall]. quiet_step Q F. cbn [fst snd] in *.
  destruct ok; cbn [out_post] in Hsg.
  2: { subst sg. apply wp_ret, setup_failed; [quiet_done|done|]. intros L. assert (false = true); [|done].
       apply (Hall o Hso law_malloc Hread). rewrite bytes_at_all. by apply law_sm2_signs. }
  destruct Hsg as (sb & sn & -> & Hsl & Hsn & ? & Hso' & Hsg). rewrite Hso in Hso'. injection Hso' as <-.
  apply wp_bind. eapply wp_spec; [apply _|by split_and!|].
  intros [ok d] s2 [[F Hd] Hall']. quiet_step Q F. cbn [fst snd] in *.
  rewrite <-Hskw, !bytes_at_all in *.
  destruct ok; cbn [out_post] in Hd.
  2: { subst d. apply wp_ret, setup_failed; [quiet_done|done|]. intros L. assert (false = true); [|done].
       apply Hall'; [exact law_malloc|by eexists|done|done|]. by eapply law_dilithium_signs. }
  destruct Hd as (db & dn & -> & -> & Hdl & Hd).
  apply wp_bind. eapply wp_spec; [apply _|split_and!; [done| |done|done|done]|].
  { rewrite Hown in *. quiet_alive. }
  intros [ok c] s3 [[F Hc] Hall'']. quiet_step Q F. cbn [fst snd] in *. rewrite bytes_at_all, bytes_at_null in *. apply wp_ret.
  destruct ok; cbn [out_post] in Hc.
  2: { subst c. apply setup_failed; [quiet_done|done|]. intros L. assert (false = true); [|done].
       apply (Hall'' sk eq_refl law_malloc Hread); [done|]. by eapply generated_always_signs. }
  destruct Hc as (cb & cn & -> & -> & _ & _ & ? & [= <-] & Hcs).
  split_and!; [quiet_done|done| |done]. intros _. exists k, sk, pk, o. cbn [fst snd private_key public_key ecdsa_key
    ecdsa_signature sm2_signature dilithium_signature composite_signature].
  split_and!; try done.
  - by apply signature_ready_set.
  - rewrite <-Hdl. apply signature_ready_set; rewrite Hdl; try done. by rewrite <-Hdl, ztake_all.
  - pose proof Hcs as (? & ? & ds & ss & _ & _ & _ & _ & _ & E & Hds & Hss & _).
    apply signature_ready_set; [pose proof (len_nonneg (obj_val cb)); lia| |by rewrite ztake_all].
    rewrite E, len_app, Hds. unfold LONG_MAX, DILITHIUM_SIGNATURE_BYTES, SIZE_MAX in *. lia.
Qed.

#[export] Instance spec_make_setup :
  Spec (make_setup bench_message) (λ _, True) (λ r s s', setup_made bench_message s r s').
Proof.
  wp_start. unfold make_setup.
  assert (Hm : valid (Some bench_message) (len bench_message)).
  { apply valid_all. rewrite len_bench_message. unfold SIZE_MAX, BENCHMARK_MESSAGE_BYTES. lia. }
  assert (Hzero : setup_wf initial_setup) by (split; [apply zero_private_key_wf|apply zero_public_key_wf]).
  assert (Hnone : private_owns (Some zero_private_key) = ∅ ∧ public_owns (Some zero_public_key) = ∅) by done.
  assert (Hsome : is_Some (Some zero_private_key) ∧ is_Some (Some zero_public_key)) by (split; by eexists).
  unfold initial_setup, setup_wf in Hzero. cbn [private_key public_key] in Hzero.
  generalize dependent (Some zero_public_key). intros zpk. generalize dependent (Some zero_private_key).
  intros zsk [Hsk Hpk] [Hskn Hpkn] [Hzs Hzp]. generalize dependent bench_message. intros m Hm.
  assert (Q : quiet ∅ s s) by by apply frame_quiet, frame_refl.
  apply wp_bind. eapply wp_spec; [apply _|done|]. intros k s1 [F Hk]. quiet_step Q F.
  destruct k as [k|]; cbn [is_null negb].
  2: { apply wp_ret, setup_failed; [quiet_done|done|]. intros L. by destruct Hk, L. }
  apply wp_bind. eapply wp_spec; [apply _|split_and!; [done|quiet_alive|done]|].
  intros [ok e] s2 [[F He] Hall]. quiet_step Q F. cbn [fst snd] in *. rewrite bytes_at_all in *.
  destruct ok; cbn [out_post] in He.
  2: { subst e. apply wp_ret, setup_failed; [quiet_done|done|]. intros L. assert (false = true); [|done].
       apply (Hall law_malloc k eq_refl); [by eexists|]. by apply bench_ecdsa_signs. }
  destruct He as (eb & en & -> & Hel & Hen & ? & [= <-] & He).
  apply wp_bind. eapply wp_spec; [apply _|split; [rewrite Hskn, Hpkn; ms_lia|done]|].
  intros [ok [sk pk]] s3 Hg. destruct ok.
  2: { destruct Hg as ([= -> ->] & F & Hg). quiet_step Q F. apply wp_ret, setup_failed; [quiet_done|done|].
       intros L. apply Hg. split_and!; [done..|apply L]. }
  destruct sk as [sk|], pk as [pk|]; [|done..]. destruct Hg as (o & u & Hso & Hpo & Ho & Hkp & F & ->).
  eapply wp_make_signatures; try done; [by apply signature_ready_set|].
  destruct Q as (L & Hf & Hout), F as [L' _ Hf' Hout']. unfold private_owns, public_owns. rewrite Hso, Hpo.
  rewrite Hskn, Hpkn in L'. split_and!; cbn [files output add_residue]; [|congruence..].
  change (live (add_residue ?x u)) with (live u). unfold out_owns in L. owns_simpl. ms_lia.
Qed.

(** The arguments of the four verifications. *)
Definition inputs_ok (st : SETUP) (s : state) : Prop :=
  evp_input_ok (ecdsa_input st bench_message) s ∧ evp_input_ok (sm2_input st bench_message) s ∧
  dilithium_input_ok (dilithium_input st bench_message) s ∧
  composite_input_ok (composite_input st bench_message) s.

Lemma setup_inputs_ok st s : setup_owns st ⊆ live s → setup_wf st → setup_ready bench_message st → inputs_ok st s.
Proof.
  intros Hl [_ Hwf] (k & sk & pk & o & Hk & _ & Hsk & Hpk & _ & Hpo & _ & _ &
    (He & Hev & _) & (Hs & Hsv & _) & (Hd & Hdv & _) & _ & (Hc & Hcv & _)).
  assert (Hm : len bench_message ≤ SIZE_MAX) by (rewrite len_bench_message; done).
  rewrite Hpk in Hwf. cbn in Hwf. unfold setup_owns, outs_own in Hl.
  unfold inputs_ok, evp_input_ok, dilithium_input_ok, composite_input_ok, ecdsa_input, sm2_input, dilithium_input, composite_input.
  generalize dependent bench_message. intros m Hm.
  cbn [evp_key evp_message evp_signature evp_signature_len d_public_key d_message d_signature d_signature_len
       c_public_key c_message c_signature c_signature_len].
  rewrite Hpk in *. cbn [mbind option_bind fmap option_fmap option_map default from_option].
  assert (Hpo' : public_owns (Some pk) = owns (sm2_public_key pk)) by done.
  unfold alive. split_and!; try done; try ms_lia. unfold id. rewrite Hwf. done.
Qed.

Lemma inputs_ok_frame st g s s' : frame ∅ g s s' → inputs_ok st s → inputs_ok st s'.
Proof. intros F (? & ? & ? & ?). split_and!; by eapply measurable_frame. Qed.

(** The verifications never fail. *)
Definition always_verified (st : SETUP) (message : list byte) : Prop :=
  reliable_malloc ∧ evp_input_by (ecdsa_verification always) (ecdsa_input st message) ∧
  evp_input_by sm2_always_verifies (sm2_input st message) ∧
  dilithium_input_by (dilithium_input st message) ∧
  composite_input_by composite_always_accepted (composite_input st message).

Lemma setup_verifies `{!BenchLaws} m st : setup_ready m st → setup_wf st → always_verified st m.
Proof.
  intros (k & sk & pk & o & Hk & Hkg & Hsk & Hpk & Hso & Hpo & Ho & Hkp & (He & _ & Hes) & (Hs & _ & Hss) &
    (Hd & _ & Hds) & Hdl & (Hc & _ & Hcs)) [_ Hwf].
  rewrite Hpk in Hwf. unfold always_verified, evp_input_by, dilithium_input_by, composite_input_by,
    ecdsa_input, sm2_input, dilithium_input, composite_input.
  cbn [evp_key evp_message evp_signature evp_signature_len d_public_key d_message d_signature d_signature_len
       c_public_key c_message c_signature c_signature_len].
  rewrite Hpk. cbn [mbind option_bind fmap option_fmap option_map default from_option].
  split; [exact law_malloc|]. split; [exists k; split; [done|by apply bench_ecdsa]|].
  split; [exists o; split; [done|by apply (law_sm2 _ _ _ Ho Hss)]|].
  split; [|exists pk; split_and!; [done|done|by eapply signed_always_accepted]].
  split; [exact Hwf|]. split; [done|]. split; [done|by eapply law_dilithium].
Qed.

#[local] Existing Instance spec_measured.

#[export] Instance spec_verify_setup st :
  Spec (verify_setup st bench_message) (inputs_ok st)
    (λ r s s', frame ∅ ∅ s s' ∧ (always_verified st bench_message → r = true)).
Proof.
  wp_start. unfold verify_setup. unfold always_verified.
  assert (Hnext : ∀ s', frame ∅ ∅ s s' → inputs_ok st s') by (intros; by eapply inputs_ok_frame).
  wp_call as r1 (F1 & _ & W1 & _); [by apply P|]. destruct r1; [|apply wp_ret; split; [done|naive_solver]].
  wp_call as r2 (F2 & _ & W2 & _); [by apply Hnext|]. destruct r2; [|apply wp_ret; split; [done|naive_solver]].
  wp_call as r3 (F3 & _ & W3 & _); [by apply Hnext|]. destruct r3; [|apply wp_ret; split; [done|naive_solver]].
  eapply wp_spec; [apply _|by apply Hnext|]. intros r s' (F4 & _ & W4 & _). frame_merge.
  split; [solve_frame|naive_solver].
Qed.

(** The results of the four runs: every verification of a run succeeded, and
    the result summarises the times of as many of them as were asked for. *)
Definition benchmark_of (name : string) (o : OPTIONS) (r : BENCHMARK_RESULT) : Prop :=
  ∃ values, len values = iterations o ∧ timings 0 values ∧ summarises name values r.
Definition benchmarked (st : SETUP) (o : OPTIONS) (results : list BENCHMARK_RESULT) : Prop :=
  ∃ r0 r1 r2 r3, results = [r0; r1; r2; r3] ∧
    benchmark_of "ECDSA-P256-SHA256" o r0 ∧ benchmark_of "SM2-SM3" o r1 ∧
    benchmark_of "CRYSTALS-Dilithium2" o r2 ∧ benchmark_of "SM2+Dilithium2 Composite" o r3 ∧
    evp_input_by (ecdsa_verification once) (ecdsa_input st bench_message) ∧
    evp_input_by sm2_verified (sm2_input st bench_message) ∧
    dilithium_input_by (dilithium_input st bench_message) ∧
    composite_input_by composite_accepted (composite_input st bench_message).

#[export] Instance spec_run_benchmarks st o :
  Spec (run_benchmarks st bench_message o) (λ s, inputs_ok st s ∧ 0 ≤ iterations o)
    (λ r s s', frame ∅ ∅ s s' ∧ (∀ results, r = Some results → benchmarked st o results) ∧
       (always_verified st bench_message → clock_works → 0 < iterations o ≤ SIZE_MAX / 8 → is_Some r)).
Proof.
  wp_start. destruct P as [P Hn]. unfold run_benchmarks, always_verified.
  assert (Hnext : ∀ s', frame ∅ ∅ s s' → inputs_ok st s') by (intros; by eapply inputs_ok_frame).
  wp_call as r0 (F1 & H1' & W1); [by apply P|]. destruct r0 as [r0|]; [|apply wp_ret; split_and!; [done..|naive_solver]].
  wp_call as r1 (F2 & H2' & W2); [by apply Hnext|]. destruct r1 as [r1|]; [|apply wp_ret; split_and!; [done..|naive_solver]].
  wp_call as r2 (F3 & H3' & W3); [by apply Hnext|]. destruct r2 as [r2|]; [|apply wp_ret; split_and!; [done..|naive_solver]].
  wp_call as r3 (F4 & H4' & W4); [by apply Hnext|]. apply wp_ret.
  split; [solve_frame|]. split; [|intros; apply fmap_is_Some; naive_solver].
  intros results Hr. apply fmap_Some in Hr as (r & -> & ->).
  destruct (H1' _ eq_refl) as (V1 & _ & ?), (H2' _ eq_refl) as (V2 & _ & ?), (H3' _ eq_refl) as (V3 & _ & ?),
    (H4' _ eq_refl) as (V4 & _ & ?). by exists r0, r1, r2, r.
Qed.

(** The files of [--csv], if it was given, and the lines that name them. *)
Definition reports_written (o : OPTIONS) (results : list BENCHMARK_RESULT) (cpu : string) (system : utsname)
    (fs fs' : gmap string node) (lines : list string) : Prop :=
  match csv_path o with
  | None => fs' = fs ∧ lines = []
  | Some csv => ∃ first sm2 dilithium composite markdown fs1 data,
      results = [first; sm2; dilithium; composite] ∧ markdown_named csv markdown ∧
      saved csv (csv_content first results) fs fs1 ∧ saved markdown data fs1 fs' ∧
      (printing_works → data = markdown_content first composite results (warmup_iterations o) cpu system) ∧
      lines = [("CSV: " ++ csv)%string; ("Markdown: " ++ markdown)%string]
  end.

#[export] Instance spec_write_reports o r0 r1 r2 r3 cpu system :
  Spec (write_reports o [r0; r1; r2; r3] cpu system) (λ _, from_option nul_free True (csv_path o))
    (λ r s s', ∃ s1 fs lines, frame ∅ (owns (snd r)) s s1 ∧ s' = add_output lines (with_files fs s1) ∧
       (fst r = true → reports_written o [r0; r1; r2; r3] cpu system (files s) fs lines) ∧
       (csv_path o = None → fst r = true)).
Proof.
  wp_start. unfold write_reports, reports_written. destruct (csv_path o) as [csv|].
  2: { apply wp_ret. exists s, (files s), []. by rewrite with_files_files, add_output_nil. }
  cbn [from_option] in P. set (Post := λ (r : bool * option block) s', _).
  assert (Hfail : ∀ md s1 fs, frame ∅ (owns md) s s1 → Post (false, md) (with_files fs s1)).
  { intros md s1 fs F. exists s1, fs, []. by rewrite add_output_nil. }
  wp_call as md (F & Hmd & _). wp_call as path [-> ->]. destruct md as [md|]; cbn [fmap option_fmap option_map].
  2: { apply wp_ret. rewrite <-(with_files_files s0). apply Hfail. solve_frame. }
  assert (K : files s0 = files s) by by fs_simpl. specialize (Hmd md eq_refl). generalize dependent (c_string (obj_val md)). intros markdown Hmd.
  wp_call as ok (s1 & fs1 & F1 & -> & Hcsv & _). fs_simpl.
  destruct ok; [|apply wp_ret, Hfail; solve_frame].
  wp_call as ok (s2 & fs2 & F2 & -> & Hm & _). fs_simpl.
  destruct ok; [|apply wp_ret, Hfail; solve_frame].
  destruct (Hm eq_refl) as (data & Hd & Hw). wp_prints. apply wp_ret.
  eexists _, fs2, _. split; [|split; [done|]]; [solve_frame|]. split; [|done]. intros _.
  exists r0, r1, r2, r3, markdown, fs1, data. rewrite <-K. split_and!; try done. by apply Hcsv.
Qed.

Lemma initial_setup_owns : setup_owns initial_setup = ∅.
Proof.
  change (setup_owns initial_setup) with ((∅ : gmultiset positive) ⊎ ∅ ⊎ ∅ ⊎ (∅ ⊎ ∅ ⊎ ∅ ⊎ ∅)). ms_lia.
Qed.

(** A run that succeeded. *)
Definition bench_done (argv : list string) (s s' : state) : Prop :=
  ∃ o st results cpu system lines r0 r1 r2 r3,
    parse_arguments (tail argv) default_options = Some o ∧
    setup_ready bench_message st ∧ results = [r0; r1; r2; r3] ∧ benchmarked st o results ∧ strlen cpu ≤ 255 ∧
    output s' = output s ++ results_report r0 r1 r2 r3 (warmup_iterations o) cpu system ++ lines ∧
    reports_written o results cpu system (files s) (files s') lines.

Lemma parse_arguments_nul_free argv o o' :
  Forall nul_free argv → from_option nul_free True (csv_path o) → parse_arguments argv o = Some o' →
  from_option nul_free True (csv_path o').
Proof.
  revert o. induction argv as [argv IH] using (induction_ltof1 _ (@length _)); unfold ltof in IH.
  intros o Ha Ho. destruct argv as [|name [|value argv]]; cbn [parse_arguments]; [by intros [= <-]|done|].
  inversion_clear Ha as [|? ? _ Hb]. inversion_clear Hb as [|? ? Hv Hc].
  assert (Hl : (length argv < length (name :: value :: argv))%nat) by (cbn; lia).
  destruct (String.eqb name "--warmup"); [|destruct (String.eqb name "--iterations"); [|destruct (String.eqb name "--csv"); [|done]]].
  - destruct (parse_count value); [|done]. by apply IH.
  - destruct (parse_count value) as [n|]; [|done]. cbn [mbind option_bind]. destruct (n =? 0); [done|]. by apply IH.
  - destruct (String.eqb value ""); [done|]. by apply IH.
Qed.

(** When success is certain; the files of [--csv] are left aside. *)
Definition bench_certain (argv : list string) : Prop :=
  BenchLaws ∧ clock_works ∧ ∃ o, parse_arguments (tail argv) default_options = Some o ∧
    csv_path o = None ∧ iterations o ≤ SIZE_MAX / 8.

(** The exits of the program. *)
Lemma wp_bench_exit st md code s s1 (Φ : Z → state → Prop) :
  live s1 = live s ⊎ owns md ⊎ setup_owns st → setup_wf st →
  (∀ s2, live s2 = live s → files s2 = files s1 → output s2 = output s1 → Φ code s2) →
  wp (release_setup st md;; mret code) Φ s1.
Proof.
  intros Hl Hwf HP. apply wp_bind. eapply wp_spec; [apply _|split; [ms_lia|done]|].
  intros r s2 F. apply wp_ret, HP; [|apply (frame_files _ _ _ _ F)|apply (frame_output _ _ _ _ F)].
  pose proof (frame_live _ _ _ _ F). ms_lia.
Qed.

(** C19. The benchmark exits with success or failure with everything released.
    It succeeds only when its arguments are well formed and every verification
    it measured, with keys it generated and signatures it made, succeeded;
    what it reports then summarises as many times as were asked for, and the
    files of [--csv] hold the report, the summary as far as printing works.
    Without [--csv] it succeeds whenever its arguments are well formed, the
    number of iterations fits, and the libraries and the clock work. *)
Theorem benchmark_main_correct argv s :
  Forall nul_free argv →
  wp (benchmark_main argv) (λ r s', live s' = live s ∧ (r = EXIT_SUCCESS ∨ r = EXIT_FAILURE) ∧
    (r = EXIT_SUCCESS → bench_done argv s s') ∧ (bench_certain argv → r = EXIT_SUCCESS)) s.
Proof.
  intros Hargv. unfold benchmark_main. set (Post := λ (r : Z) s', _ ∧ _ ∧ _).
  assert (Hfail : ∀ st md s1, live s1 = live s ⊎ owns md ⊎ setup_owns st → setup_wf st → ¬ bench_certain argv →
    wp (release_setup st md;; mret EXIT_FAILURE) Post s1).
  { intros st md s1 Hl Hwf Hno. eapply wp_bench_exit; [done..|]. intros s2 L _ _. split_and!; [done|by right|done..]. }
  destruct (parse_arguments (tail argv) default_options) as [o|] eqn:Eo.
  2: { apply Hfail; [|split; [apply zero_private_key_wf|apply zero_public_key_wf]|unfold bench_certain; naive_solver].
       rewrite initial_setup_owns. cbn [owns]. ms_lia. }
  assert (Hcertain : bench_certain argv → BenchLaws ∧ clock_works ∧ csv_path o = None ∧ iterations o ≤ SIZE_MAX / 8)
    by (intros (? & ? & o' & E & ? & ?); rewrite Eo in E; by injection E as <-).
  apply wp_bind. eapply wp_spec; [apply _|done|]. intros [ok st] s1 ((L & K & O) & Hwf & Hready & W). cbn [fst snd] in *.
  destruct ok; [|apply Hfail; [cbn [owns]; ms_lia|done|naive_solver]].
  specialize (Hready eq_refl). assert (Hin : inputs_ok st s1) by (apply setup_inputs_ok; [ms_lia|done..]).
  assert (Hver : BenchLaws → always_verified st bench_message) by (intros; by apply setup_verifies).
  apply wp_bind. eapply wp_spec; [apply _|done|]. intros ok s2 [F W1].
  destruct ok; [|apply Hfail; [frame_live_facts; cbn [owns]; ms_lia|done|naive_solver]].
  assert (Hn : 0 < iterations o) by (by apply parse_arguments_range in Eo).
  apply wp_bind. eapply wp_spec; [apply _|split; [by eapply inputs_ok_frame|lia]|]. intros results s3 (F1 & Hb & W2).
  destruct results as [results|].
  2: { apply Hfail; [frame_live_facts; cbn [owns]; ms_lia|done|]. intros (Hlaws & ? & ? & ?)%Hcertain.
       by destruct (W2 (Hver Hlaws) ltac:(done) ltac:(lia)). }
  specialize (Hb _ eq_refl). destruct (id Hb) as (r0 & r1 & r2 & r3 & -> & _).
  wp_call as system [F2 _]. wp_call as cpu [F3 Hcpu]. wp_call as ? ->.
  apply wp_bind. eapply wp_spec; [apply _| |].
  { eapply parse_arguments_nul_free; [| |exact Eo]; [by destruct Hargv|exact I]. }
  intros [ok md] s' (u & fs & lines & F4 & -> & Hw & W3). cbn [fst snd] in *.
  pose proof (frame_live _ _ _ _ F) as L'. pose proof (frame_files _ _ _ _ F) as K'. pose proof (frame_output _ _ _ _ F) as O'.
  pose proof (frame_live _ _ _ _ F4) as L4. pose proof (frame_output _ _ _ _ F4) as O4.
  cbn [live files output add_output] in *.
  assert (Hlive : live (add_output lines (with_files fs u)) = live s ⊎ owns md ⊎ setup_owns st)
    by (cbn [live add_output with_files]; ms_lia).
  destruct ok; [|apply Hfail; [done..|naive_solver]].
  eapply wp_bench_exit; [done..|]. intros s6 L6 K6 O6. split_and!; [done|by left| |done]. intros _.
  specialize (Hw eq_refl). cbn [files output add_output with_files] in *.
  exists o, st, [r0; r1; r2; r3], cpu, (default unknown_system system), lines, r0, r1, r2, r3. split_and!; try done.
  - rewrite O6, O4, O', O. by rewrite app_assoc.
  - rewrite K6. by rewrite K', K in Hw.
Qed.
End specs.

(** ** A concrete instance *)

Section example.
#[local] Existing Instances env_libc env_openssl env_openssl_sizes env_groups env_dilithium env_dilithium_sizes
  env_floats env_platform env_posix.

Definition env_cpuinfo : list byte :=
  lit ("processor : 0" ++ newline ++ "model name  : Example CPU 3" ++ newline ++ "flags : none" ++ newline).

Definition env_machine : state := with_files {["/proc/cpuinfo"%string := Regular 0x124 env_cpuinfo]} empty_state.

(** These libraries satisfy the laws. *)
Lemma env_bench_laws : BenchLaws.
Proof.
  split; [exact env_scheme_laws|exact env_always_generates|..].
  - intros t1; cbn; intros t2; split; [done|]; intros t3; split; [done|]; intros t4; split; [done|by eexists].
  - intros k m _ t1; cbn; intros t2; split; [done|]; intros t3; split; [done|]; intros t4; done.
  - intros k m sig _ (t1 & t2 & _ & cap & t3 & Hc & Hs) u1; cbn in *; intros u2; split; [done|]; intros u3; cbn.
    destruct (8 <=? cap); cbn in *; [|lia]. subst sig. by rewrite decide_True.
Qed.

(** The whole run, with one measured verification after one warm-up. *)
Lemma benchmark_main_correct_witness :
  let argv := ["benchmark"; "--warmup"; "1"; "--iterations"; "1"; "--csv"; "times.csv"]%string in
  Forall nul_free argv ∧ bench_certain ["benchmark"; "--iterations"; "1"]%string ∧
  fmap (M := option) (λ '(r, s'), (r, output s' !! 4%nat, output s' !! 34%nat, size (files s'))) (benchmark_main argv env_machine) =
    Some (EXIT_SUCCESS, Some "  CPU: Example CPU 3"%string, Some "Markdown: times.md"%string, 3%nat) ∧
  wp (benchmark_main argv) (λ r s', live s' = live env_machine ∧ (r = EXIT_SUCCESS ∨ r = EXIT_FAILURE) ∧
    (r = EXIT_SUCCESS → bench_done argv env_machine s') ∧ (bench_certain argv → r = EXIT_SUCCESS)) env_machine.
Proof.
  intros argv. assert (Hargv : Forall nul_free argv) by by repeat constructor.
  split; [done|]. split.
  { split; [exact env_bench_laws|]. split; [exact env_clock_works|]. by eexists (Options 1000 1 None). }
  split; [by vm_compute|]. by apply (benchmark_main_correct argv env_machine).
Defined.
End example.
