(* ===== verification/Pqkex.v ===== *)
(** * patches/gmssl/0001-add-experimental-tlcp-pqkex-capability.patch

    The functions that the patch adds to GmSSL's tls_ext.c: the PQKEX extension
    that announces key encapsulation mechanisms, its strict decoding, the
    selection of a mechanism and the answer of a server. GmSSL itself is not
    part of the repository: the helpers that read and write its encodings, and
    the fields of its structures that the patch does not touch, are
    parameters. The fragments of the patch inside functions of GmSSL whose
    text it does not show are not modelled. *)

From S2P Require Import Prelude Machine.

Definition TLS_extension_pqkex : Z := 65282.
Definition TLS_PQKEX_MAX_KEMS : Z := 8.
Definition TLS_PQKEX_KEM_NONE : Z := 0x0000.
Definition TLS_PQKEX_KEM_MLKEM768 : Z := 0x0001.

(** ** GmSSL *)

(** [tls_*_to_bytes] append; [tls_*_from_bytes] give the value and what
    follows it, if they return 1. *)
Class TlsBytes := {
  TLS_protocol_tlcp : Z;
  tls_uint16_to_bytes : Z → list byte;
  tls_uint16_from_bytes : list byte → option (Z * list byte);
  tls_uint16array_from_bytes : list byte → option (list byte * list byte);
  (* an extension of the given type: the return code and the bytes *)
  tls_ext_to_bytes : Z → list byte → Z * list byte;
  tls_ext_from_bytes : list byte → option (Z * list byte * list byte)
}.

(** A 16-bit integer takes two bytes, an array its length in 16 bits and its
    contents, an extension its type and such an array. *)
Class TlsEncodings `{TlsBytes} : Prop := {
  uint16_size n : len (tls_uint16_to_bytes n) = 2;
  uint16_reads n rest : 0 ≤ n < 65536 → tls_uint16_from_bytes (tls_uint16_to_bytes n ++ rest) = Some (n, rest);
  uint16_read b n rest : tls_uint16_from_bytes b = Some (n, rest) →
    0 ≤ n < 65536 ∧ b = tls_uint16_to_bytes n ++ rest;
  uint16_enough b : 2 ≤ len b → is_Some (tls_uint16_from_bytes b);
  array_reads a rest : len a < 65536 →
    tls_uint16array_from_bytes (tls_uint16_to_bytes (len a) ++ a ++ rest) = Some (a, rest);
  array_read b a rest : tls_uint16array_from_bytes b = Some (a, rest) →
    len a < 65536 ∧ b = tls_uint16_to_bytes (len a) ++ a ++ rest;
  ext_writes type data : 0 ≤ type < 65536 → len data < 65536 →
    tls_ext_to_bytes type data = (1, tls_uint16_to_bytes type ++ tls_uint16_to_bytes (len data) ++ data);
  ext_reads type data rest : 0 ≤ type < 65536 → len data < 65536 →
    tls_ext_from_bytes (tls_uint16_to_bytes type ++ tls_uint16_to_bytes (len data) ++ data ++ rest) =
      Some (type, data, rest);
  ext_read b type data rest : tls_ext_from_bytes b = Some (type, data, rest) →
    0 ≤ type < 65536 ∧ len data < 65536 ∧
    b = tls_uint16_to_bytes type ++ tls_uint16_to_bytes (len data) ++ data ++ rest
}.

(** The fields the code reads or the patch adds; the first [pqkex_kems_cnt]
    entries of [pqkex_kems] are the list. *)
Record TLS_CTX := TlsCtx { ctx_protocol : Z; pqkex_kems : list Z }.
Record TLS_CONNECT := TlsConnect {
  conn_protocol : Z;
  conn_ctx : option TLS_CTX;
  pqkex_offered : bool;
  pqkex_negotiated : bool;
  pqkex_selected_kem : Z
}.

(** ** Operations *)

Section pqkex.
Context `{TlsBytes}.

(** Arrays come with their length; the loop refuses an unknown mechanism. *)
Definition tls_ctx_set_pqkex_kems (ctx : option TLS_CTX) (kems : option (list Z)) : Z * option TLS_CTX :=
  match ctx, kems with
  | Some c, Some kems =>
      if negb (ctx_protocol c =? TLS_protocol_tlcp) || (len kems =? 0) || (len kems >? TLS_PQKEX_MAX_KEMS)
      then (-1, ctx)
      else if negb (forallb (λ k, k =? TLS_PQKEX_KEM_MLKEM768) kems) then (-1, ctx)
      else (1, Some (TlsCtx (ctx_protocol c) kems))
  | _, _ => (-1, ctx)
  end.

(** The return code and the bytes written; [outlen] is not [NULL]. *)
Definition tls_pqkex_ext_to_bytes (kems : option (list Z)) : Z * list byte :=
  match kems with
  | None => (-1, [])
  | Some kems =>
      if (len kems =? 0) || (len kems >? TLS_PQKEX_MAX_KEMS) then (-1, [])
      else
        let ext_data := tls_uint16_to_bytes (len kems * 2) in
        let ext_data := foldl (λ data kem, data ++ tls_uint16_to_bytes kem) ext_data kems in
        tls_ext_to_bytes TLS_extension_pqkex ext_data
  end.

(** The loop over the [count] identifiers, and what remains of the list. *)
Fixpoint read_kems (count : nat) (list : list byte) : option (Datatypes.list Z * Datatypes.list byte) :=
  match count with
  | O => Some ([], list)
  | S count =>
      '(kem, list) ← tls_uint16_from_bytes list;
      '(kems, list) ← read_kems count list;
      Some (kem :: kems, list)
  end.

(** The identifiers, if 1 is returned; [kems] and [kems_cnt] are not [NULL]. *)
Definition tls_pqkex_from_bytes (max_kems : Z) (ext_data : ptr) : option (list Z) :=
  match ext_data with
  | None => None
  | Some data =>
      if (max_kems =? 0) || (max_kems >? TLS_PQKEX_MAX_KEMS) then None
      else
        '(list, rest) ← tls_uint16array_from_bytes data;
        let list_len := len list in
        if negb (len rest =? 0) || (list_len <? 2) || negb (Z.land list_len 1 =? 0) then None
        else
          let count := list_len / 2 in
          if count >? max_kems then None
          else
            '(kems, rest) ← read_kems (Z.to_nat count) list;
            if negb (len rest =? 0) then None else Some kems
  end.

(** The two loops: the first mechanism of the client that the server has. *)
Fixpoint first_common (client_kems server_kems : list Z) : option Z :=
  match client_kems with
  | [] => None
  | kem :: client_kems =>
      if existsb (Z.eqb kem) server_kems then Some kem else first_common client_kems server_kems
  end.

(** The return code and [selected_kem], where it was written. *)
Definition tls_pqkex_select_kem (client_kems server_kems : option (list Z)) : Z * option Z :=
  match client_kems with
  | None => (-1, None)
  | Some client =>
      let server := default [] server_kems in
      if (len client =? 0) || (len client >? TLS_PQKEX_MAX_KEMS) || (len server >? TLS_PQKEX_MAX_KEMS)
      then (-1, None)
      else match first_common client server with
           | Some kem => (1, Some kem)
           | None => (0, Some TLS_PQKEX_KEM_NONE)
           end
  end.

Definition tlcp_process_client_pqkex (conn : TLS_CONNECT) (ext_data : ptr) : Z * TLS_CONNECT :=
  match conn_ctx conn with
  | None => (-1, conn)
  | Some ctx =>
      if negb (conn_protocol conn =? TLS_protocol_tlcp) || pqkex_offered conn then (-1, conn)
      else
        match tls_pqkex_from_bytes TLS_PQKEX_MAX_KEMS ext_data with
        | None => (-1, conn)
        | Some client_kems =>
            let '(ret, selected) := tls_pqkex_select_kem (Some client_kems) (Some (pqkex_kems ctx)) in
            let selected_kem := default (pqkex_selected_kem conn) selected in
            if ret <? 0
            then (-1, TlsConnect (conn_protocol conn) (conn_ctx conn) (pqkex_offered conn)
                        (pqkex_negotiated conn) selected_kem)
            else (1, TlsConnect (conn_protocol conn) (conn_ctx conn) true (ret =? 1) selected_kem)
        end
  end.
End pqkex.

(** ** The encoding *)

Section encoding.
Context `{TlsBytes, !TlsEncodings}.

(** The contents of an extension that lists [kems]. *)
Definition kem_bytes (kems : list Z) : list byte := concat (map tls_uint16_to_bytes kems).
Definition pqkex_data (kems : list Z) : list byte := tls_uint16_to_bytes (len kems * 2) ++ kem_bytes kems.

(** A list that can be announced. *)
Definition announceable (kems : list Z) : Prop :=
  0 < len kems ≤ TLS_PQKEX_MAX_KEMS ∧ Forall (λ k, 0 ≤ k < 65536) kems.

Lemma len_kem_bytes kems : len (kem_bytes kems) = len kems * 2.
Proof.
  unfold kem_bytes. induction kems as [|k kems IH]; [done|]. cbn [map concat].
  rewrite len_app, IH, uint16_size, len_cons. lia.
Qed.

Lemma foldl_bytes kems data :
  foldl (λ data kem, data ++ tls_uint16_to_bytes kem) data kems = data ++ kem_bytes kems.
Proof.
  revert data. induction kems as [|k kems IH]; intros data; cbn; [by rewrite app_nil_r|].
  rewrite IH, <-app_assoc. done.
Qed.

Lemma read_kems_bytes kems rest :
  Forall (λ k, 0 ≤ k < 65536) kems → read_kems (length kems) (kem_bytes kems ++ rest) = Some (kems, rest).
Proof.
  induction 1 as [|k kems Hk _ IH]; [done|]. cbn [length read_kems kem_bytes map concat].
  rewrite <-app_assoc, uint16_reads by done. cbn [mbind option_bind]. unfold kem_bytes in IH. by rewrite IH.
Qed.

Lemma read_kems_inv count : ∀ list kems rest, read_kems count list = Some (kems, rest) →
  length kems = count ∧ Forall (λ k, 0 ≤ k < 65536) kems ∧ list = kem_bytes kems ++ rest.
Proof.
  induction count as [|count IH]; intros list kems rest; cbn [read_kems]; [by intros [= <- <-]|].
  intros Hr. apply bind_Some in Hr as ([k list'] & Hk & Hr). apply bind_Some in Hr as ([kems' rest'] & Hks & [= <- <-]).
  destruct (uint16_read _ _ _ Hk) as [? ->]. destruct (IH _ _ _ Hks) as (<- & ? & ->).
  split_and!; [done|by constructor|]. unfold kem_bytes. cbn. by rewrite <-app_assoc.
Qed.

Lemma len_0_nil {A} (l : list A) : len l = 0 → l = [].
Proof. destruct l; [done|]. rewrite len_cons. pose proof (len_nonneg l). lia. Qed.

(** What is decoded is the encoding of a list that can be announced. *)
Lemma pqkex_from_bytes_spec data kems :
  tls_pqkex_from_bytes TLS_PQKEX_MAX_KEMS (Some data) = Some kems ↔ announceable kems ∧ data = pqkex_data kems.
Proof.
  unfold tls_pqkex_from_bytes, announceable, TLS_PQKEX_MAX_KEMS. cbn [Z.eqb Z.gtb Z.compare Pos.compare Pos.compare_cont orb].
  split.
  - intros Hr. apply bind_Some in Hr as ([list rest] & Ha & Hr). destruct (array_read _ _ _ Ha) as [Hlen ->].
    destruct (_ || _ || _) eqn:E; [done|]. simpl_bool. destruct (Z.gtb_spec (len list / 2) 8); [done|].
    apply bind_Some in Hr as ([kems' rest'] & Hk & Hr). destruct (negb _) eqn:E'; [done|]. injection Hr as ->.
    simpl_bool. apply len_0_nil in E' as ->.
    match goal with E : len rest = 0 |- _ => apply len_0_nil in E as -> end.
    destruct (read_kems_inv _ _ _ _ Hk) as (Hl & Hf & ->). rewrite app_nil_r in *. rewrite len_kem_bytes in *.
    split; [split; [|done]; unfold len in *; lia|]. unfold pqkex_data. by rewrite ?app_nil_r.
  - intros [[Hl Hf] ->]. unfold pqkex_data.
    pose proof (array_reads (kem_bytes kems) [] ltac:(rewrite len_kem_bytes; lia)) as Ha.
    pose proof (read_kems_bytes kems [] Hf) as Hk. rewrite app_nil_r in Ha, Hk. rewrite len_kem_bytes in Ha.
    rewrite Ha. cbn [mbind option_bind]. rewrite len_kem_bytes, Z.div_mul by done.
    replace (Z.land (len kems * 2) 1) with 0 by (rewrite (Z.land_ones _ 1), Z.mod_mul; done).
    destruct (Z.ltb_spec (len kems * 2) 2); [lia|]. destruct (Z.gtb_spec (len kems) 8); [lia|].
    replace (Z.to_nat (len kems)) with (length kems) by (unfold len; lia). by rewrite Hk.
Qed.
End encoding.

(** ** Properties *)

Section properties.
Context `{TlsBytes, !TlsEncodings}.

(** C17. An announcement survives the way over the wire: what
    [tls_pqkex_ext_to_bytes] writes is read as one extension of the PQKEX type
    whose contents decode to the same list, whatever follows it; and nothing
    but the encoding of a list of one to eight identifiers is decoded. *)
Theorem pqkex_extension_round_trip kems rest :
  announceable kems →
  ∃ e, tls_pqkex_ext_to_bytes (Some kems) = (1, e) ∧
    tls_ext_from_bytes (e ++ rest) = Some (TLS_extension_pqkex, pqkex_data kems, rest) ∧
    tls_pqkex_from_bytes TLS_PQKEX_MAX_KEMS (Some (pqkex_data kems)) = Some kems ∧
    ∀ data kems', tls_pqkex_from_bytes TLS_PQKEX_MAX_KEMS (Some data) = Some kems' →
      announceable kems' ∧ data = pqkex_data kems'.
Proof.
  intros Ha. destruct (id Ha) as [[Hl Hl'] _]. unfold TLS_PQKEX_MAX_KEMS in Hl'.
  assert (Hd : len (pqkex_data kems) < 65536).
  { unfold pqkex_data. rewrite len_app, uint16_size, len_kem_bytes. lia. }
  exists (tls_uint16_to_bytes TLS_extension_pqkex ++ tls_uint16_to_bytes (len (pqkex_data kems)) ++ pqkex_data kems).
  split; [|split; [|split; [by apply pqkex_from_bytes_spec|intros data kems'; apply pqkex_from_bytes_spec]]].
  - unfold tls_pqkex_ext_to_bytes, TLS_PQKEX_MAX_KEMS. destruct (Z.eqb_spec (len kems) 0); [lia|].
    destruct (Z.gtb_spec (len kems) 8); [lia|]. cbn [orb]. rewrite foldl_bytes. by apply ext_writes.
  - rewrite <-!app_assoc. by apply ext_reads.
Qed.

(** The first mechanism of the client that the server has as well. *)
Definition selects (client server : list Z) (kem : option Z) : Prop :=
  match kem with
  | Some k => ∃ before after, client = before ++ k :: after ∧ k ∈ server ∧ Forall (λ x, x ∉ server) before
  | None => Forall (λ x, x ∉ server) client
  end.

Lemma first_common_selects client server : selects client server (first_common client server).
Proof.
  induction client as [|k client IH]; [constructor|]. cbn [first_common].
  destruct (existsb _ _) eqn:E.
  - apply existsb_exists in E as (x & Hx & <-%Z.eqb_eq). exists [], client. split_and!; [done|by apply list_elem_of_In|done].
  - assert (Hk : k ∉ server).
    { intros Hk%list_elem_of_In. assert (existsb (Z.eqb k) server = true); [|congruence].
      apply existsb_exists. exists k. split; [done|apply Z.eqb_refl]. }
    destruct (first_common client server) as [x|]; cbn [selects] in *; [|by constructor].
    destruct IH as (before & after & -> & ? & ?). exists (k :: before), after. split_and!; [done|done|by constructor].
Qed.

(** C16. A server answers a PQKEX extension once per connection, if TLCP is
    spoken and the extension is well formed; it then selects the first
    mechanism of the client's list that it supports, or none. Otherwise the
    connection is as it was and the answer is an error. *)
Theorem tlcp_process_client_pqkex_correct conn ctx data :
  conn_ctx conn = Some ctx → len (pqkex_kems ctx) ≤ TLS_PQKEX_MAX_KEMS →
  let '(ret, conn') := tlcp_process_client_pqkex conn data in
  (ret = 1 ∧ (∃ kems selected, announceable kems ∧ data = Some (pqkex_data kems) ∧
      conn_protocol conn = TLS_protocol_tlcp ∧ pqkex_offered conn = false ∧
      selects kems (pqkex_kems ctx) selected ∧
      conn' = TlsConnect (conn_protocol conn) (conn_ctx conn) true (negb (is_null selected))
                (default TLS_PQKEX_KEM_NONE selected)) ∧
      ∀ data', tlcp_process_client_pqkex conn' data' = (-1, conn')) ∨
  (ret = -1 ∧ conn' = conn ∧
    (conn_protocol conn ≠ TLS_protocol_tlcp ∨ pqkex_offered conn = true ∨
     ∀ kems, announceable kems → data ≠ Some (pqkex_data kems))).
Proof.
  intros Hctx Hserver. unfold tlcp_process_client_pqkex. rewrite Hctx.
  destruct (negb (_ =? _) || _) eqn:E.
  { right. split_and!; [done..|]. destruct (pqkex_offered conn); [by right; left|left]. rewrite orb_false_r in E. by simpl_bool. }
  simpl_bool. destruct (tls_pqkex_from_bytes _ data) as [kems|] eqn:Ek.
  2: { right. split_and!; [done..|]. right. right. intros kems Ha ->. by rewrite (proj2 (pqkex_from_bytes_spec _ kems)) in Ek. }
  destruct data as [data|]; [|done]. apply pqkex_from_bytes_spec in Ek as [Ha ->]. destruct (id Ha) as [[Hl Hl'] _].
  unfold tls_pqkex_select_kem. cbn [default from_option id].
  destruct (Z.eqb_spec (len kems) 0); [lia|]. destruct (Z.gtb_spec (len kems) TLS_PQKEX_MAX_KEMS); [lia|].
  destruct (Z.gtb_spec (len (pqkex_kems ctx)) TLS_PQKEX_MAX_KEMS); [lia|]. cbn [orb].
  pose proof (first_common_selects kems (pqkex_kems ctx)) as Hs.
  destruct (first_common kems (pqkex_kems ctx)) as [k|]; cbn [Z.ltb Z.compare default from_option id]; left;
    (split; [done|]; split;
     [eexists kems, _; split_and!; [done|done|done|done|exact Hs|done]
     |intros data'; cbn [conn_ctx conn_protocol pqkex_offered]; by rewrite orb_true_r]).
Qed.
End properties.

(** ** A concrete instance *)

Definition be16 (n : Z) : list byte := [byte_of_Z (n / 256); byte_of_Z n].
Definition read_be16 (b : list byte) : option (Z * list byte) :=
  match b with h :: l :: rest => Some (256 * Z_of_byte h + Z_of_byte l, rest) | _ => None end.
Definition read_array (b : list byte) : option (list byte * list byte) :=
  '(n, rest) ← read_be16 b;
  if len rest <? n then None else Some (ztake n rest, zdrop n rest).

(** Big-endian, as TLS has it. *)
Definition env_tls : TlsBytes := {|
  TLS_protocol_tlcp := 0x0101;
  tls_uint16_to_bytes := be16;
  tls_uint16_from_bytes := read_be16;
  tls_uint16array_from_bytes := read_array;
  tls_ext_to_bytes type data := (1, be16 type ++ be16 (len data) ++ data);
  tls_ext_from_bytes b := '(type, rest) ← read_be16 b; '(data, rest) ← read_array rest; Some (type, data, rest)
|}.

Lemma read_be16_be16 n rest : 0 ≤ n < 65536 → read_be16 (be16 n ++ rest) = Some (n, rest).
Proof.
  intros Hn. unfold be16, read_be16. cbn. rewrite !Z_of_byte_of_Z. do 2 f_equal.
  rewrite (Z.mod_small (n / 256)) by (split; [apply Z.div_pos; lia|apply Z.div_lt_upper_bound; lia]).
  symmetry. apply Z.div_mod. done.
Qed.

Lemma read_be16_inv b n rest : read_be16 b = Some (n, rest) → 0 ≤ n < 65536 ∧ b = be16 n ++ rest.
Proof.
  destruct b as [|h [|l b]]; [done..|]. intros [= <- <-].
  pose proof (Z_of_byte_range h). pose proof (Z_of_byte_range l). split; [lia|]. unfold be16. cbn. f_equal; [|f_equal].
  - rewrite (Z.mul_comm 256), Z.div_add_l, (Z.div_small (Z_of_byte l)), Z.add_0_r by lia. symmetry. apply byte_of_Z_of_byte.
  - apply Z_of_byte_inj. rewrite Z_of_byte_of_Z, Z.mul_comm, Z.add_comm, Z.mod_add, Z.mod_small; lia.
Qed.

Lemma read_array_bytes a rest : len a < 65536 → read_array (be16 (len a) ++ a ++ rest) = Some (a, rest).
Proof.
  intros Ha. pose proof (len_nonneg a). pose proof (len_nonneg rest). unfold read_array.
  rewrite read_be16_be16 by lia. cbn [mbind option_bind]. rewrite len_app.
  destruct (Z.ltb_spec (len a + len rest) (len a)); [lia|]. unfold ztake, zdrop, len. rewrite Nat2Z.id.
  by rewrite take_app_length, drop_app_length.
Qed.

Lemma read_array_inv b a rest : read_array b = Some (a, rest) → len a < 65536 ∧ b = be16 (len a) ++ a ++ rest.
Proof.
  intros Hr. unfold read_array in Hr. apply bind_Some in Hr as ([n rest'] & Hn & Hr).
  destruct (read_be16_inv _ _ _ Hn) as [? ->]. destruct (Z.ltb_spec (len rest') n); [done|]. injection Hr as <- <-.
  rewrite len_ztake by lia. split; [lia|]. unfold ztake, zdrop. by rewrite take_drop.
Qed.

Lemma env_tls_encodings : @TlsEncodings env_tls.
Proof.
  split; cbn -[be16 read_be16 read_array].
  - done.
  - apply read_be16_be16.
  - apply read_be16_inv.
  - intros [|h [|l b]]; unfold len; cbn; [lia|lia|by eexists].
  - apply read_array_bytes.
  - apply read_array_inv.
  - done.
  - intros type data rest Ht Hd. rewrite read_be16_be16 by done. cbn [mbind option_bind]. by rewrite read_array_bytes.
  - intros b type data rest Hr. apply bind_Some in Hr as ([t b'] & Ht & Hr).
    apply bind_Some in Hr as ([d b''] & Hd & [= <- <- <-]).
    destruct (read_be16_inv _ _ _ Ht) as [? ->]. destruct (read_array_inv _ _ _ Hd) as [? ->]. done.
Qed.

Section example.
#[local] Existing Instances env_tls env_tls_encodings.

(** The announcement of ML-KEM-768 alone. *)
Definition wire_vector : list byte := [Byte.xff; Byte.x02; Byte.x00; Byte.x04; Byte.x00; Byte.x02; Byte.x00; Byte.x01].

Lemma pqkex_extension_round_trip_witness :
  announceable [TLS_PQKEX_KEM_MLKEM768] ∧
  tls_pqkex_ext_to_bytes (Some [TLS_PQKEX_KEM_MLKEM768]) = (1, wire_vector) ∧
  ∃ e, tls_pqkex_ext_to_bytes (Some [TLS_PQKEX_KEM_MLKEM768]) = (1, e) ∧
    tls_ext_from_bytes (e ++ [Byte.x00]) = Some (TLS_extension_pqkex, pqkex_data [TLS_PQKEX_KEM_MLKEM768], [Byte.x00]) ∧
    tls_pqkex_from_bytes TLS_PQKEX_MAX_KEMS (Some (pqkex_data [TLS_PQKEX_KEM_MLKEM768])) = Some [TLS_PQKEX_KEM_MLKEM768] ∧
    ∀ data kems', tls_pqkex_from_bytes TLS_PQKEX_MAX_KEMS (Some data) = Some kems' →
      announceable kems' ∧ data = pqkex_data kems'.
Proof.
  assert (Ha : announceable [TLS_PQKEX_KEM_MLKEM768]) by (split; [done|by repeat constructor]).
  split; [done|]. split; [by vm_compute|]. by apply (pqkex_extension_round_trip [TLS_PQKEX_KEM_MLKEM768] [Byte.x00]).
Defined.

Definition env_server : TLS_CONNECT := TlsConnect 0x0101 (Some (TlsCtx 0x0101 [TLS_PQKEX_KEM_MLKEM768])) false false 0.

Lemma tlcp_process_client_pqkex_correct_witness :
  let ctx := TlsCtx 0x0101 [TLS_PQKEX_KEM_MLKEM768] in
  let data := Some (pqkex_data [0x9999; TLS_PQKEX_KEM_MLKEM768]) in
  conn_ctx env_server = Some ctx ∧ len (pqkex_kems ctx) ≤ TLS_PQKEX_MAX_KEMS ∧
  tlcp_process_client_pqkex env_server data = (1, TlsConnect 0x0101 (Some ctx) true true TLS_PQKEX_KEM_MLKEM768) ∧
  let '(ret, conn') := tlcp_process_client_pqkex env_server data in
  (ret = 1 ∧ (∃ kems selected, announceable kems ∧ data = Some (pqkex_data kems) ∧
      conn_protocol env_server = TLS_protocol_tlcp ∧ pqkex_offered env_server = false ∧
      selects kems (pqkex_kems ctx) selected ∧
      conn' = TlsConnect (conn_protocol env_server) (conn_ctx env_server) true (negb (is_null selected))
                (default TLS_PQKEX_KEM_NONE selected)) ∧
      ∀ data', tlcp_process_client_pqkex conn' data' = (-1, conn')) ∨
  (ret = -1 ∧ conn' = env_server ∧
    (conn_protocol env_server ≠ TLS_protocol_tlcp ∨ pqkex_offered env_server = true ∨
     ∀ kems, announceable kems → data ≠ Some (pqkex_data kems))).
Proof.
  intros ctx data. split; [done|]. split; [done|]. split; [by vm_compute|].
  exact (tlcp_process_client_pqkex_correct env_server ctx data eq_refl ltac:(done)).
Defined.
End example.
