(* ===== verification/PqkexDemo.v ===== *)
(** * tools/pqkex_capture_demo.c

    Two processes on one machine: the child sends a TLCP ClientHello with the
    PQKEX extension to the parent, which decodes it with GmSSL's parser and the
    functions of [Pqkex.v]. Sockets, processes and GmSSL are parameters. A run
    of the model is the run of one of the two processes: what [fork] returns
    tells which. What goes to the error stream and the flushing of the standard
    output, which precedes [fork] and [_exit], are not modelled. *)

From Stdlib Require Import Strings.Ascii.
From S2P Require Import Prelude Machine Tools BenchStats Environment Pqkex.

(** ** Parameters *)

(** The functions of GmSSL the program calls: a return code and the fields
    modelled of the structure they change. [tls_set_socket] and
    [tls_recv_record] change no such field; the latter gives the record. *)
Class GmSSL `{TlsBytes} := {
  TLS_client_mode : Z;
  TLS_server_mode : Z;
  TLS_cipher_ecc_sm4_cbc_sm3 : Z;
  tls_ctx_init : TLS_CTX → Z → Z → N → Z * TLS_CTX;
  tls_ctx_set_cipher_suites : TLS_CTX → list Z → N → Z * TLS_CTX;
  tls_ctx_cleanup : TLS_CTX → N → TLS_CTX;
  tls_init : TLS_CONNECT → TLS_CTX → N → Z * TLS_CONNECT;
  tls_cleanup : TLS_CONNECT → N → TLS_CONNECT;
  tls_set_socket : TLS_CONNECT → N → Z;
  tlcp_send_client_hello : TLS_CONNECT → N → Z;
  tls_recv_record : TLS_CONNECT → N → Z * list byte;
  (* the protocol and the extensions of a ClientHello *)
  tls_record_get_handshake_client_hello : list byte → Z * (Z * list byte)
}.

(** What [waitpid] reports of a child. *)
Inductive wait_status := WExited (status : Z) | WTerminated.

(** [socket] and [accept] tell whether there is a new descriptor; the address
    is the loopback interface at the given port. *)
Class Processes := {
  socket : N → option unit;
  connect : Z → N → Z;
  setsockopt_reuseaddr : N → Z;
  bind : Z → N → Z;
  listen : Z → N → Z;
  accept : N → option unit;
  fork : N → Z;
  waitpid : Z → N → option wait_status
}.

(** How a process ends: [main] returns, or [_exit] is called. *)
Inductive process_end := Returned (status : Z) | Exited (status : Z).

Definition DEFAULT_CAPTURE_PORT : Z := 44330.

(** [%04X] *)
Definition hex_digit (n : Z) : Ascii.ascii :=
  Ascii.ascii_of_N (Z.to_N (if n <? 10 then 48 + n else 55 + n)).
Definition hex4 (n : Z) : string :=
  string_of_list_ascii (map (λ k, hex_digit (Z.land (Z.shiftr n k) 15)) [12; 8; 4; 0]).

(** ** Operations *)

(** [strtoul] converts as [strtoumax]: [unsigned long] has 64 bits. *)
Definition parse_port (text : string) : option Z :=
  match text with
  | "" => None
  | _ =>
      let '(value, tail, error) := strtoumax text in
      if error || negb (bool_decide (tail = Some ""%string)) || (value =? 0) || (value >? 65535) then None
      else Some value
  end.

Definition zero_ctx : TLS_CTX := TlsCtx 0 [].
Definition zero_connection : TLS_CONNECT := TlsConnect 0 None false false 0.

Section demo.
Context `{TlsBytes, !GmSSL, Processes}.

Definition configure_pqkex_context (ctx : TLS_CTX) (is_client : Z) : M (bool * TLS_CTX) :=
  '(rc, ctx) ← call (tls_ctx_init ctx TLS_protocol_tlcp is_client);
  if negb (rc =? 1) then mret (false, ctx)
  else
    '(rc, ctx) ← call (tls_ctx_set_cipher_suites ctx [TLS_cipher_ecc_sm4_cbc_sm3]);
    if negb (rc =? 1) then mret (false, ctx)
    else
      let '(rc, ctx') := tls_ctx_set_pqkex_kems (Some ctx) (Some [TLS_PQKEX_KEM_MLKEM768]) in
      mret (rc =? 1, default ctx ctx').

Definition connect_to_loopback (port : Z) : M (option (obj unit)) :=
  sock ← new_object socket;
  match sock with
  | None => mret None
  | Some _ =>
      rc ← call (connect port);
      if rc =? 0 then mret sock else free_object sock;; mret None
  end.

Definition send_client_hello (port : Z) : M bool :=
  '(ok, ctx) ← configure_pqkex_context zero_ctx TLS_client_mode;
  let done (connection : TLS_CONNECT) (sock : option (obj unit)) (ok : bool) :=
    call (tls_cleanup connection);; call (tls_ctx_cleanup ctx);; free_object sock;; mret ok in
  if negb ok then done zero_connection None false
  else
    sock ← connect_to_loopback port;
    match sock with
    | None => done zero_connection sock false
    | Some fd =>
        '(rc, connection) ← call (tls_init zero_connection ctx);
        check rc =? 1 else done connection sock false;;
        deref fd;;
        rc ← call (tls_set_socket connection);
        check rc =? 1 else done connection sock false;;
        rc ← call (tlcp_send_client_hello connection);
        check rc =? 1 else done connection sock false;;
        print "Client: sent a real TLCP ClientHello with PQKEX 0xFF02";;
        done connection sock true
    end.

(** The loop over the extensions: the connection and the number of PQKEX
    extensions, unless it gives up. Out of fuel is [None]. *)
Fixpoint process_extensions (fuel : nat) (connection : TLS_CONNECT) (extensions : list byte) (pqkex_count : Z)
    : option (option (TLS_CONNECT * Z)) :=
  match fuel with
  | O => None
  | S fuel =>
      if len extensions =? 0 then Some (Some (connection, pqkex_count))
      else
        match tls_ext_from_bytes extensions with
        | None => Some None
        | Some (extension_type, extension_data, extensions) =>
            if extension_type =? TLS_extension_pqkex then
              let pqkex_count := pqkex_count + 1 in
              if negb (pqkex_count =? 1) then Some None
              else
                let '(rc, connection) := tlcp_process_client_pqkex connection (Some extension_data) in
                if negb (rc =? 1) then Some None
                else process_extensions fuel connection extensions pqkex_count
            else process_extensions fuel connection extensions pqkex_count
        end
  end.

(** An extension takes at least one byte. *)
Definition process_client_hello_record (sock : obj unit) (ctx : TLS_CTX) : M bool :=
  let connection := TlsConnect TLS_protocol_tlcp (Some ctx) false false 0 in
  deref sock;;
  rc ← call (tls_set_socket connection);
  check rc =? 1 else mret false;;
  '(rc, record) ← call (tls_recv_record connection);
  check rc =? 1 else mret false;;
  let '(rc, (protocol, extensions)) := tls_record_get_handshake_client_hello record in
  check (rc =? 1) && (protocol =? TLS_protocol_tlcp) else mret false;;
  match process_extensions (S (length extensions)) connection extensions 0 with
  | None => undefined
  | Some None => mret false
  | Some (Some (connection, pqkex_count)) =>
      if negb (pqkex_count =? 1) || negb (pqkex_offered connection) || negb (pqkex_negotiated connection) ||
         negb (pqkex_selected_kem connection =? TLS_PQKEX_KEM_MLKEM768)
      then mret false
      else
        print ("Server: parsed 0xFF02 and selected KEM 0x" ++ hex4 (pqkex_selected_kem connection));;
        mret true
  end.

Definition create_listener (port : Z) : M (option (obj unit)) :=
  sock ← new_object socket;
  match sock with
  | None => mret None
  | Some _ =>
      let fail := free_object sock;; mret None in
      rc ← call setsockopt_reuseaddr;
      check rc =? 0 else fail;;
      rc ← call (bind port);
      check rc =? 0 else fail;;
      rc ← call (listen 1);
      check rc =? 0 else fail;;
      mret sock
  end.

(** The child: [_exit(client_ok ? EXIT_SUCCESS : EXIT_FAILURE)] *)
Definition capture_child (listener : option (obj unit)) (server_ctx : TLS_CTX) (port : Z) : M process_end :=
  free_object listener;;
  call (tls_ctx_cleanup server_ctx);;
  client_ok ← send_client_hello port;
  mret (Exited (if client_ok : bool then EXIT_SUCCESS else EXIT_FAILURE)).

Definition capture_parent (listener : option (obj unit)) (server_ctx : TLS_CTX) (child : Z) : M process_end :=
  peer ← new_object accept;
  server_ok ← (match peer with
               | None => mret false
               | Some fd =>
                   ok ← process_client_hello_record fd server_ctx;
                   free_object peer;;
                   mret ok
               end);
  free_object listener;;
  call (tls_ctx_cleanup server_ctx);;
  status ← call (waitpid child);
  match status with
  | Some (WExited status) =>
      if negb server_ok || negb (status =? EXIT_SUCCESS) then mret (Returned EXIT_FAILURE)
      else
        print "PASS: wire vector FF02000400020001 was sent and selected";;
        print "NOTE: capability-only; no ML-KEM operation or ServerHello echo";;
        mret (Returned EXIT_SUCCESS)
  | _ => mret (Returned EXIT_FAILURE)
  end.

(** The port, from the arguments with the name of the program. *)
Definition capture_port (argv : list string) : option Z :=
  match argv with
  | [_; port] => parse_port port
  | _ :: _ :: _ => None
  | _ => Some DEFAULT_CAPTURE_PORT
  end.

Definition capture_main (argv : list string) : M process_end :=
  match capture_port argv with
  | None => mret (Returned EXIT_FAILURE)
  | Some port =>
      '(ok, server_ctx) ← configure_pqkex_context zero_ctx TLS_server_mode;
      if negb ok then mret (Returned EXIT_FAILURE)
      else
        listener ← create_listener port;
        match listener with
        | None => call (tls_ctx_cleanup server_ctx);; mret (Returned EXIT_FAILURE)
        | Some _ =>
            print "Capture interface: lo";;
            print ("Capture filter: tcp port " ++ dec port);;
            child ← call fork;
            if child <? 0 then
              free_object listener;;
              call (tls_ctx_cleanup server_ctx);;
              mret (Returned EXIT_FAILURE)
            else if child =? 0 then capture_child listener server_ctx port
            else capture_parent listener server_ctx child
        end
  end.
End demo.
#[global] Arguments configure_pqkex_context : simpl never.
#[global] Arguments connect_to_loopback : simpl never.
#[global] Arguments send_client_hello : simpl never.
#[global] Arguments process_client_hello_record : simpl never.
#[global] Arguments create_listener : simpl never.
#[global] Arguments capture_child : simpl never.
#[global] Arguments capture_parent : simpl never.
#[global] Arguments capture_main : simpl never.
#[export] Hint Opaque configure_pqkex_context connect_to_loopback send_client_hello
  process_client_hello_record create_listener capture_child capture_parent capture_main : typeclass_instances.

(** ** Ports *)

(** A port in decimal is read as it is if it fits 16 bits and is not zero; but
    a minus sign is not refused, and the conversion of a negative number wraps
    around to a port. *)
Lemma parse_port_numeral n :
  0 ≤ n → parse_port (dec n) = if (0 <? n) && (n <=? 65535) then Some n else None.
Proof.
  intros Hn. pose proof (strtoumax_signed false n Hn) as Hs. cbv beta iota in Hs.
  change ("" ++ dec n)%string with (dec n) in Hs.
  destruct (dec_numeral n Hn) as (c & rest & E & _). unfold parse_port. rewrite E in *. rewrite Hs. unfold UINT64_MAX.
  destruct (Z.gtb_spec n (2 ^ 64 - 1)).
  { cbn [orb]. destruct (Z.leb_spec n 65535); [lia|]. by rewrite andb_false_r. }
  rewrite bool_decide_eq_true_2 by done. cbn [orb negb].
  destruct (Z.eqb_spec n 0) as [->|]; [done|]. destruct (Z.ltb_spec 0 n); [|lia].
  destruct (Z.gtb_spec n 65535), (Z.leb_spec n 65535); try lia; done.
Qed.

(** C40. [parse_port] accepts a negative number: what wraps around to a port is
    taken for that port. *)
Theorem parse_port_negative port :
  0 < port ≤ 65535 → parse_port ("-" ++ dec (2 ^ 64 - port)) = Some port.
Proof.
  intros Hp. pose proof (strtoumax_signed true (2 ^ 64 - port) ltac:(lia)) as Hs. cbv beta iota in Hs.
  assert (E : strtoumax ("-" ++ dec (2 ^ 64 - port)) = strtoumax (" -" ++ dec (2 ^ 64 - port))) by done.
  rewrite Hs in E. unfold parse_port. change ("-" ++ dec (2 ^ 64 - port))%string with (String "-" (dec (2 ^ 64 - port))) in *.
  rewrite E. unfold UINT64_MAX. destruct (Z.gtb_spec (2 ^ 64 - port) (2 ^ 64 - 1)); [lia|].
  rewrite bool_decide_eq_true_2 by done. cbn [orb negb].
  assert (size_of_Z (- (2 ^ 64 - port)) = port) as ->.
  { unfold size_of_Z. symmetry. apply Z.mod_unique with (-1); lia. }
  destruct (Z.eqb_spec port 0); [lia|]. destruct (Z.gtb_spec port 65535); [lia|]. done.
Qed.

(** ** The extensions of a ClientHello *)

Section extensions.
Context `{TlsBytes, !TlsEncodings, !GmSSL, Processes}.

(** An extension is its type and its contents. *)
Definition extension_bytes (e : Z * list byte) : list byte :=
  tls_uint16_to_bytes (fst e) ++ tls_uint16_to_bytes (len (snd e)) ++ snd e.
Definition extensions_bytes (l : list (Z * list byte)) : list byte := concat (map extension_bytes l).
Definition extension_wf (e : Z * list byte) : Prop := 0 ≤ fst e < 65536 ∧ len (snd e) < 65536.

(** The loop, on extensions. *)
Fixpoint answer_extensions (connection : TLS_CONNECT) (count : Z) (l : list (Z * list byte))
    : option (TLS_CONNECT * Z) :=
  match l with
  | [] => Some (connection, count)
  | (type, data) :: l =>
      if type =? TLS_extension_pqkex then
        if negb (count + 1 =? 1) then None
        else
          let '(rc, connection) := tlcp_process_client_pqkex connection (Some data) in
          if negb (rc =? 1) then None else answer_extensions connection (count + 1) l
      else answer_extensions connection count l
  end.

Lemma len_extension_bytes e : 4 ≤ len (extension_bytes e).
Proof. unfold extension_bytes. rewrite !len_app, !uint16_size. pose proof (len_nonneg (snd e)). lia. Qed.

Lemma extensions_bytes_cons e l : extensions_bytes (e :: l) = extension_bytes e ++ extensions_bytes l.
Proof. done. Qed.

Lemma read_extension e rest :
  extension_wf e → tls_ext_from_bytes (extension_bytes e ++ rest) = Some (fst e, snd e, rest).
Proof. intros [Ht Hd]. unfold extension_bytes. rewrite <-!app_assoc. by apply ext_reads. Qed.

Lemma process_extensions_list l : ∀ fuel connection count,
  Forall extension_wf l → (length (extensions_bytes l) < fuel)%nat →
  process_extensions fuel connection (extensions_bytes l) count = Some (answer_extensions connection count l).
Proof.
  induction l as [|[type data] l IH]; intros fuel connection count Hwf Hl; (destruct fuel as [|fuel]; [lia|]); [done|].
  inversion_clear Hwf as [|? ? He Hwf']. rewrite extensions_bytes_cons in *.
  pose proof (len_extension_bytes (type, data)) as Hlen. unfold len in Hlen. rewrite length_app in Hl.
  cbn [process_extensions]. rewrite len_app. pose proof (len_nonneg (extensions_bytes l)).
  destruct (Z.eqb_spec (len (extension_bytes (type, data)) + len (extensions_bytes l)) 0); [unfold len in *; lia|].
  rewrite read_extension by done. cbn [fst snd answer_extensions].
  destruct (type =? TLS_extension_pqkex); [|apply IH; [done|lia]]. destruct (negb _); [done|].
  destruct (tlcp_process_client_pqkex _ _) as [rc c]. destruct (negb _); [done|]. apply IH; [done|lia].
Qed.

(** Bytes that are no sequence of extensions are refused. *)
Lemma extensions_or_malformed fuel : ∀ extensions, (length extensions < fuel)%nat →
  (∃ l, Forall extension_wf l ∧ extensions = extensions_bytes l) ∨
  ∀ connection count, process_extensions fuel connection extensions count = Some None.
Proof.
  induction fuel as [|fuel IH]; intros extensions Hl; [lia|]. cbn [process_extensions].
  destruct (Z.eqb_spec (len extensions) 0) as [E|E]; [left; exists []; by apply len_0_nil in E as ->|].
  destruct (tls_ext_from_bytes extensions) as [[[type data] rest]|] eqn:Er; [|by right].
  destruct (ext_read _ _ _ _ Er) as (Ht & Hd & ->).
  assert (He : extension_wf (type, data)) by done.
  assert (Hb : tls_uint16_to_bytes type ++ tls_uint16_to_bytes (len data) ++ data ++ rest =
    extension_bytes (type, data) ++ rest) by (unfold extension_bytes; by rewrite <-!app_assoc).
  rewrite Hb in *. pose proof (len_extension_bytes (type, data)) as Hlen. unfold len in Hlen. rewrite length_app in Hl.
  destruct (IH rest ltac:(lia)) as [(l & Hwf & ->)|Hno].
  - left. exists ((type, data) :: l). split; [by constructor|done].
  - right. intros connection count. destruct (type =? TLS_extension_pqkex); [|apply Hno].
    destruct (negb _); [done|]. destruct (tlcp_process_client_pqkex _ _) as [rc c]. destruct (negb _); [done|]. apply Hno.
Qed.

(** The PQKEX extensions of a list. *)
Definition pqkex_extensions (l : list (Z * list byte)) : list (list byte) :=
  map snd (filter (λ e, fst e = TLS_extension_pqkex) l).

Lemma pqkex_extensions_cons type data l :
  pqkex_extensions ((type, data) :: l) =
    (if type =? TLS_extension_pqkex then [data] else []) ++ pqkex_extensions l.
Proof.
  unfold pqkex_extensions. destruct (Z.eqb_spec type TLS_extension_pqkex).
  - by rewrite filter_cons_True.
  - by rewrite filter_cons_False.
Qed.

Lemma answer_extensions_one connection l :
  answer_extensions connection 1 l = match pqkex_extensions l with [] => Some (connection, 1) | _ => None end.
Proof.
  induction l as [|[type data] l IH]; [done|]. rewrite pqkex_extensions_cons. cbn [answer_extensions].
  destruct (type =? TLS_extension_pqkex); [done|]. by rewrite IH.
Qed.

Lemma answer_extensions_none connection l :
  answer_extensions connection 0 l =
    match pqkex_extensions l with
    | [] => Some (connection, 0)
    | [data] => let '(rc, c) := tlcp_process_client_pqkex connection (Some data) in
                if negb (rc =? 1) then None else Some (c, 1)
    | _ => None
    end.
Proof.
  induction l as [|[type data] l IH]; [done|]. rewrite pqkex_extensions_cons. cbn [answer_extensions].
  destruct (type =? TLS_extension_pqkex); [|by rewrite IH]. cbn [Z.add Z.eqb Pos.eqb negb app].
  destruct (tlcp_process_client_pqkex _ _) as [rc c]. rewrite answer_extensions_one.
  destruct (negb (rc =? 1)), (pqkex_extensions l); done.
Qed.
End extensions.

Section server.
Context `{TlsBytes, !TlsEncodings, !GmSSL, Processes}.

(** The connection of the server before the ClientHello. *)
Definition server_connection (ctx : TLS_CTX) : TLS_CONNECT := TlsConnect TLS_protocol_tlcp (Some ctx) false false 0.

(** The extensions are well formed, and one of them, and only one, announces
    mechanisms, among them ML-KEM-768. *)
Definition offers_mlkem768 (extensions : list byte) : Prop :=
  ∃ l kems, Forall extension_wf l ∧ extensions = extensions_bytes l ∧
    pqkex_extensions l = [pqkex_data kems] ∧ announceable kems ∧ TLS_PQKEX_KEM_MLKEM768 ∈ kems.

Definition selected (o : option (TLS_CONNECT * Z)) : bool :=
  match o with
  | Some (c, n) => (n =? 1) && pqkex_offered c && pqkex_negotiated c && (pqkex_selected_kem c =? TLS_PQKEX_KEM_MLKEM768)
  | None => false
  end.

Lemma uint16_inj a b r r' :
  0 ≤ a < 65536 → 0 ≤ b < 65536 → tls_uint16_to_bytes a ++ r = tls_uint16_to_bytes b ++ r' → a = b ∧ r = r'.
Proof. intros Ha Hb E. pose proof (uint16_reads a r Ha) as Hr. rewrite E, uint16_reads in Hr by done. by injection Hr as <- <-. Qed.

Lemma kem_bytes_inj kems kems' :
  Forall (λ k, 0 ≤ k < 65536) kems → Forall (λ k, 0 ≤ k < 65536) kems' → length kems = length kems' →
  kem_bytes kems = kem_bytes kems' → kems = kems'.
Proof.
  intros Hk. revert kems'. induction Hk as [|k kems Hk _ IH]; intros [|k' kems'] Hk' Hl E; try done.
  inversion_clear Hk' as [|? ? Hk1 Hk2]. apply uint16_inj in E as [<- E]; [|done..].
  f_equal. apply IH; [done| |done]. cbn in Hl. lia.
Qed.

(** The contents determine the list. *)
Lemma pqkex_data_inj kems kems' : announceable kems → announceable kems' → pqkex_data kems = pqkex_data kems' → kems = kems'.
Proof.
  intros [Hl Hf] [Hl' Hf'] E. unfold TLS_PQKEX_MAX_KEMS in *. apply uint16_inj in E as [E1 E2]; [|lia..].
  apply kem_bytes_inj; [done|done| |done]. unfold len in *. lia.
Qed.

Lemma selects_mlkem768 ctx data :
  pqkex_kems ctx = [TLS_PQKEX_KEM_MLKEM768] →
  let '(rc, c) := tlcp_process_client_pqkex (server_connection ctx) (Some data) in
  selected (if negb (rc =? 1) then None else Some (c, 1)) = true ↔
  ∃ kems, announceable kems ∧ data = pqkex_data kems ∧ TLS_PQKEX_KEM_MLKEM768 ∈ kems.
Proof.
  intros Hctx. unfold tlcp_process_client_pqkex, server_connection. cbn [conn_ctx conn_protocol pqkex_offered].
  rewrite Z.eqb_refl. cbn [negb orb].
  destruct (tls_pqkex_from_bytes TLS_PQKEX_MAX_KEMS (Some data)) as [kems|] eqn:Ek.
  2: { cbn. split; [done|]. intros (kems & Ha & -> & _).
       by rewrite (proj2 (pqkex_from_bytes_spec _ kems)) in Ek. }
  apply pqkex_from_bytes_spec in Ek as [Ha ->]. destruct (id Ha) as [[Hl Hl'] _].
  unfold tls_pqkex_select_kem. rewrite Hctx. cbn [default from_option id].
  destruct (Z.eqb_spec (len kems) 0); [lia|]. destruct (Z.gtb_spec (len kems) TLS_PQKEX_MAX_KEMS); [lia|].
  change (len [TLS_PQKEX_KEM_MLKEM768] >? TLS_PQKEX_MAX_KEMS) with false. cbn [orb].
  pose proof (first_common_selects kems [TLS_PQKEX_KEM_MLKEM768]) as Hs.
  destruct (first_common kems [TLS_PQKEX_KEM_MLKEM768]) as [k|]; cbn [selects] in Hs.
  - destruct Hs as (before & after & -> & ->%list_elem_of_singleton & _). cbn. split; [|done]. intros _.
    exists (before ++ 1 :: after). split_and!; [done..|]. apply elem_of_app. right. left.
  - cbn. split; [done|]. intros (kems' & Ha' & E & Hin). apply pqkex_data_inj in E as <-; [|done..].
    apply list_elem_of_In in Hin. apply (proj1 (Forall_forall _ _) Hs) in Hin. destruct Hin. by left.
Qed.

(** The loop and the test after it decide the offer. *)
Lemma extensions_decided ctx extensions :
  pqkex_kems ctx = [TLS_PQKEX_KEM_MLKEM768] →
  ∃ o, process_extensions (S (length extensions)) (server_connection ctx) extensions 0 = Some o ∧
    (selected o = true ↔ offers_mlkem768 extensions).
Proof.
  intros Hctx. destruct (extensions_or_malformed (S (length extensions)) extensions) as [(l & Hwf & ->)|Hno]; [lia| |].
  - eexists. split; [apply process_extensions_list; [done|lia]|]. rewrite answer_extensions_none.
    assert (Hoff : offers_mlkem768 (extensions_bytes l) ↔ ∃ kems, pqkex_extensions l = [pqkex_data kems] ∧
      announceable kems ∧ TLS_PQKEX_KEM_MLKEM768 ∈ kems).
    { split; [|intros (kems & ? & ? & ?); by exists l, kems].
      intros (l' & kems & Hwf' & E & ? & ? & ?). exists kems. split; [|done].
      assert (l = l') as ->; [|done]. clear Hctx. match goal with H : pqkex_extensions _ = _ |- _ => clear H end. revert l' Hwf' E.
      induction Hwf as [|e l He _ IH]; intros [|e' l'] Hwf' E; [done| | |].
      1, 2: apply (f_equal len) in E; rewrite extensions_bytes_cons, len_app in E;
        unfold extensions_bytes in E; cbn [map concat] in E; rewrite len_nil in E;
        match goal with E : context [extension_bytes ?x] |- _ => pose proof (len_extension_bytes x) end;
        match goal with E : context [len (concat ?x)] |- _ => pose proof (len_nonneg (concat x)) end; lia.
      inversion_clear Hwf' as [|? ? He' Hwf'']. rewrite !extensions_bytes_cons in E.
      pose proof (read_extension e (extensions_bytes l) He) as Hr. rewrite E, read_extension in Hr by done.
      injection Hr as Ht Hd Hrest. f_equal; [by destruct e, e'; cbn in *; subst|by apply IH]. }
    rewrite Hoff. destruct (pqkex_extensions l) as [|data [|? ?]].
    + cbn. split; [done|by intros (? & [=] & _)].
    + pose proof (selects_mlkem768 ctx data Hctx) as Hs. destruct (tlcp_process_client_pqkex _ _) as [rc c].
      rewrite Hs. split; [intros (kems & ? & -> & ?); by exists kems|intros (kems & [= ->] & ? & ?); by exists kems].
    + cbn. split; [done|by intros (? & [=] & _)].
  - eexists. split; [apply Hno|]. split; [done|]. intros (l & kems & Hwf & -> & Hl & Ha & Hin).
    pose proof (process_extensions_list l (S (length (extensions_bytes l))) (server_connection ctx) 0 Hwf ltac:(lia)) as E.
    rewrite Hno, answer_extensions_none, Hl in E. pose proof (selects_mlkem768 ctx (pqkex_data kems) Hctx) as Hs.
    destruct (tlcp_process_client_pqkex _ _) as [rc c]. injection E as E. rewrite <-E in Hs. apply Hs. by exists kems.
Qed.
End server.

#[global] Arguments process_extensions : simpl never.

(** ** The processes *)

Section processes.
Context `{TlsBytes, !TlsEncodings, !GmSSL, Processes}.

(** A step that acquires references and prints. *)
Definition prints (give : gmultiset positive) (lines : list string) (s s' : state) : Prop :=
  ∃ s1, frame ∅ give s s1 ∧ s' = add_output lines s1.

(** The record received holds a ClientHello of TLCP that offers ML-KEM-768. *)
Definition hello_received (Q : modality) (ctx : TLS_CTX) : Prop :=
  Q _ (tls_set_socket (server_connection ctx)) (eq 1) ∧
  Q _ (tls_recv_record (server_connection ctx)) (λ r, fst r = 1 ∧
    ∃ extensions, tls_record_get_handshake_client_hello (snd r) = (1, (TLS_protocol_tlcp, extensions)) ∧
      offers_mlkem768 extensions).

(** No call fails, and the peer does its part. *)
Class CaptureWorks : Prop := {
  works_context ctx mode : always _ (tls_ctx_init ctx TLS_protocol_tlcp mode) (λ r, fst r = 1 ∧
    always _ (tls_ctx_set_cipher_suites (snd r) [TLS_cipher_ecc_sm4_cbc_sm3]) (λ r, fst r = 1 ∧
      ctx_protocol (snd r) = TLS_protocol_tlcp));
  works_send ctx : always _ (tls_init zero_connection ctx) (λ r, fst r = 1 ∧
    always _ (tls_set_socket (snd r)) (eq 1) ∧ always _ (tlcp_send_client_hello (snd r)) (eq 1));
  works_receive ctx : pqkex_kems ctx = [TLS_PQKEX_KEM_MLKEM768] → hello_received always ctx;
  works_socket : always _ socket is_Some;
  works_connect port : always _ (connect port) (eq 0);
  works_listen port : always _ setsockopt_reuseaddr (eq 0) ∧ always _ (bind port) (eq 0) ∧ always _ (listen 1) (eq 0);
  works_accept : always _ accept is_Some;
  works_fork : always _ fork (λ child, 0 ≤ child);
  works_wait child : always _ (waitpid child) (eq (Some (WExited EXIT_SUCCESS)))
}.

Lemma made_object {A} (f : N → option A) (r : option (obj A)) t :
  always _ f is_Some → f t = obj_val <$> r → is_Some r.
Proof. intros Hf E. specialize (Hf t). rewrite E in Hf. by apply fmap_is_Some in Hf. Qed.

#[export] Instance spec_configure_pqkex_context ctx is_client :
  Spec (configure_pqkex_context ctx is_client) (λ _, True)
    (λ r s s', frame ∅ ∅ s s' ∧ (fst r = true → pqkex_kems (snd r) = [TLS_PQKEX_KEM_MLKEM768]) ∧
       (CaptureWorks → fst r = true)).
Proof.
  wp_start. unfold configure_pqkex_context. wp_call as [rc c] [F Hi].
  assert (Hw : CaptureWorks → rc = 1 ∧ always _ (tls_ctx_set_cipher_suites c [TLS_cipher_ecc_sm4_cbc_sm3]) (λ r,
    fst r = 1 ∧ ctx_protocol (snd r) = TLS_protocol_tlcp)).
  { intros W. pose proof (works_context ctx is_client (tick s)) as Hal. by rewrite Hi in Hal. }
  wp_case (negb (rc =? 1)); [apply wp_ret; split_and!; [solve_frame|done|naive_solver]|].
  wp_call as [rc' c'] [F1 Hs].
  assert (Hw' : CaptureWorks → rc' = 1 ∧ ctx_protocol c' = TLS_protocol_tlcp).
  { intros W. destruct (Hw W) as [_ Hal]. specialize (Hal (tick s0)). by rewrite Hs in Hal. }
  wp_case (negb (rc' =? 1)); [apply wp_ret; split_and!; [solve_frame|done|naive_solver]|].
  unfold tls_ctx_set_pqkex_kems. destruct (_ || _ || _) eqn:E; (apply wp_ret; split_and!; [solve_frame|done|]); [|done].
  intros [_ Hp]%Hw'. by rewrite Hp, Z.eqb_refl in E.
Qed.

#[export] Instance spec_connect_to_loopback port :
  Spec (connect_to_loopback port) (λ _, True)
    (λ r s s', frame ∅ (owns r) s s' ∧ (CaptureWorks → is_Some r)).
Proof.
  wp_start. unfold connect_to_loopback. wp_call as sock [F Hs].
  destruct sock as [sock|]; [|apply wp_ret; split; [done|]; intros W; by eapply made_object; [exact works_socket|]].
  wp_call as rc [F1 Hc]. destruct (Z.eqb_spec rc 0); [apply wp_ret; split; [solve_frame|by eexists]|].
  wp_call as ? F2. apply wp_ret. split; [solve_frame|]. intros W. by pose proof (works_connect port (tick s0)); subst rc.
Qed.

(** A ClientHello that announces ML-KEM-768 was sent. *)
Definition hello_sent : Prop :=
  ∃ ctx, pqkex_kems ctx = [TLS_PQKEX_KEM_MLKEM768] ∧
    once _ (tls_init zero_connection ctx) (λ r, fst r = 1 ∧
      once _ (tls_set_socket (snd r)) (eq 1) ∧ once _ (tlcp_send_client_hello (snd r)) (eq 1)).

#[export] Instance spec_send_client_hello port :
  Spec (send_client_hello port) (λ _, True)
    (λ r s s', prints ∅ (if r then ["Client: sent a real TLCP ClientHello with PQKEX 0xFF02"%string] else []) s s' ∧
       (r = true → hello_sent) ∧ (CaptureWorks → r = true)).
Proof.
  wp_start. unfold send_client_hello. set (Post := λ (r : bool) s', _ ∧ _ ∧ _).
  wp_call as [ok ctx] (F & Hctx & Hw). cbn [fst snd] in *.
  assert (Hfail : ∀ c (sock : option (obj unit)) s', frame ∅ (owns sock) s s' → ¬ CaptureWorks →
    wp (call (tls_cleanup c);; call (tls_ctx_cleanup ctx);; free_object sock;; mret false) Post s').
  { intros c sock s' F' Hno. do 2 wp_call as ? [? _]. wp_call as ? ?. apply wp_ret. split_and!; [|done..]. eexists.
    rewrite add_output_nil. split; [|done]. solve_frame. }
  destruct ok; cbn [negb]; [|apply (Hfail _ None); [solve_frame|by intros ?%Hw]].
  wp_call as sock [F1 Hw1]. destruct sock as [fd|]; [|apply (Hfail _ None); [solve_frame|by intros [? [=]]%Hw1]].
  assert (Hw2 : CaptureWorks → _) by (intros W; exact (works_send ctx)).
  wp_call as [rc c] [F2 Hi]. wp_case (rc =? 1).
  2: { apply (Hfail _ (Some fd)); [solve_frame|]. intros Hal%Hw2. specialize (Hal (tick s1)). rewrite Hi in Hal. by destruct Hal. }
  assert (Hw3 : CaptureWorks → always _ (tls_set_socket c) (eq 1) ∧ always _ (tlcp_send_client_hello c) (eq 1)).
  { intros Hal%Hw2. specialize (Hal (tick s1)). rewrite Hi in Hal. apply Hal. }
  wp_call as ? [-> ->]. wp_call as rc' [F3 Hs]. wp_case (rc' =? 1).
  2: { apply (Hfail _ (Some fd)); [solve_frame|]. intros [Hal _]%Hw3. by always_auto. }
  wp_call as rc'' [F4 Hh]. wp_case (rc'' =? 1).
  2: { apply (Hfail _ (Some fd)); [solve_frame|]. intros [_ Hal]%Hw3. by always_auto. }
  wp_prints. do 2 wp_call as ? [? _]. wp_call as ? ?. apply wp_ret. split_and!; [eexists; split; [|done]; solve_frame| |done].
  intros _. exists ctx. split; [by apply Hctx|]. once_auto.
Qed.

Definition selection_line : list string := ["Server: parsed 0xFF02 and selected KEM 0x0001"%string].

#[export] Instance spec_process_client_hello_record sock ctx :
  Spec (process_client_hello_record sock ctx)
    (λ s, alive (Some sock) s ∧ pqkex_kems ctx = [TLS_PQKEX_KEM_MLKEM768])
    (λ r s s', prints ∅ (if r then selection_line else []) s s' ∧
       (r = true → hello_received once ctx) ∧ (hello_received always ctx → r = true)).
Proof.
  wp_start. destruct P as [Hsock Hctx]. unfold process_client_hello_record. fold (server_connection ctx).
  set (Post := λ (r : bool) s', _ ∧ _ ∧ _).
  assert (Hfail : ∀ s', frame ∅ ∅ s s' → ¬ hello_received always ctx → Post false s').
  { intros s' F' Hno. split_and!; [exists s'; by rewrite add_output_nil|done|done]. }
  wp_call as ? [-> ->]. wp_call as rc [F Hs]. wp_case (rc =? 1).
  2: { apply wp_ret, Hfail; [solve_frame|]. intros [Hal _]. always_auto. }
  wp_call as [rc' record] [F1 Hr]. wp_case (rc' =? 1).
  2: { apply wp_ret, Hfail; [solve_frame|]. intros [_ Hal]. specialize (Hal (tick s0)). rewrite Hr in Hal. by destruct Hal. }
  destruct (tls_record_get_handshake_client_hello record) as [rc'' [protocol extensions]] eqn:Eh.
  assert (Hrecv : hello_received always ctx → rc'' = 1 ∧ protocol = TLS_protocol_tlcp ∧ offers_mlkem768 extensions).
  { intros [_ Hal]. specialize (Hal (tick s0)). rewrite Hr in Hal. destruct Hal as (_ & e & He & Ho). cbn [snd] in He.
    rewrite Eh in He. by injection He as -> -> ->. }
  destruct (_ && _) eqn:Ec.
  2: { apply wp_ret, Hfail; [solve_frame|]. intros (-> & -> & _)%Hrecv. by rewrite !Z.eqb_refl in Ec. }
  simpl_bool. subst rc'' protocol. destruct (extensions_decided ctx extensions Hctx) as (o & -> & Hdec).
  destruct o as [[c n]|]; cbn [selected] in Hdec.
  2: { apply wp_ret, Hfail; [solve_frame|]. intros (_ & _ & Ho)%Hrecv. by apply Hdec in Ho. }
  destruct (negb (n =? 1) || _ || _ || _) eqn:En.
  { apply wp_ret, Hfail; [solve_frame|]. intros (_ & _ & Ho)%Hrecv. apply Hdec in Ho.
    by destruct (n =? 1), (pqkex_offered c), (pqkex_negotiated c), (_ =? TLS_PQKEX_KEM_MLKEM768). }
  simpl_bool. assert (Ho : offers_mlkem768 extensions).
  { apply Hdec. repeat (apply andb_true_iff; split); try done; by apply Z.eqb_eq. }
  match goal with E : pqkex_selected_kem c = _ |- _ => rewrite E end.
  wp_prints. apply wp_ret. split_and!; [eexists; split; [|done]; solve_frame| |done].
  intros _. split; [by eexists|]. eexists. rewrite Hr. split; [done|]. exists extensions. cbn [snd]. by rewrite Eh.
Qed.

#[export] Instance spec_create_listener port :
  Spec (create_listener port) (λ _, True)
    (λ r s s', frame ∅ (owns r) s s' ∧ (CaptureWorks → is_Some r)).
Proof.
  wp_start. unfold create_listener. wp_call as sock [F Hs].
  destruct sock as [sock|]; [|apply wp_ret; split; [done|]; intros W; by eapply made_object; [exact works_socket|]].
  assert (Hw : CaptureWorks → _) by (intros W; exact (works_listen port)).
  wp_call as rc [F1 H1']. destruct (Z.eqb_spec rc 0).
  2: { wp_call as ? ?. apply wp_ret. split; [solve_frame|]. intros (Hal & _)%Hw. by always_auto. }
  wp_call as rc' [F2 H2']. destruct (Z.eqb_spec rc' 0).
  2: { wp_call as ? ?. apply wp_ret. split; [solve_frame|]. intros (_ & Hal & _)%Hw. by always_auto. }
  wp_call as rc'' [F3 H3']. destruct (Z.eqb_spec rc'' 0).
  2: { wp_call as ? ?. apply wp_ret. split; [solve_frame|]. intros (_ & _ & Hal)%Hw. by always_auto. }
  apply wp_ret. split; [solve_frame|by eexists].
Qed.

(** What is printed before [fork], and at the end. *)
Definition capture_lines (port : Z) : list string :=
  ["Capture interface: lo"; "Capture filter: tcp port " ++ dec port]%string.
Definition pass_lines : list string :=
  ["PASS: wire vector FF02000400020001 was sent and selected";
   "NOTE: capability-only; no ML-KEM operation or ServerHello echo"]%string.

Lemma prints_app give lines lines' s s1 s2 :
  prints give lines s s1 → prints ∅ lines' s1 s2 → prints give (lines ++ lines') s s2.
Proof.
  intros (u & F & ->) (v & F' & ->). destruct (frame_add_output _ _ _ _ _ F') as (w & F2 & ->).
  pose proof (frame_trans _ _ _ _ _ _ _ F F2) as F3. exists w. rewrite ms_left_id, ms_right_id in F3.
  by rewrite add_output_app.
Qed.

#[export] Instance spec_capture_child listener ctx port :
  Spec (capture_child listener ctx port) (alive listener)
    (λ r s s', ∃ s1 lines, frame (owns listener) ∅ s s1 ∧ s' = add_output lines s1 ∧
       (r = Exited EXIT_SUCCESS ∧ hello_sent ∧
          lines = ["Client: sent a real TLCP ClientHello with PQKEX 0xFF02"%string] ∨
        r = Exited EXIT_FAILURE ∧ ¬ CaptureWorks)).
Proof.
  wp_start. unfold capture_child. wp_call as ? F. wp_call as ? [? _]. wp_call as ok ((u & F2 & ->) & Hok & Hw).
  apply wp_ret. eexists _, _. split; [|split; [done|]]; [solve_frame|].
  destruct ok; [left; auto|right; split; [done|by intros ?%Hw]].
Qed.

#[export] Instance spec_capture_parent listener ctx child :
  Spec (capture_parent listener ctx child) (λ s, alive listener s ∧ pqkex_kems ctx = [TLS_PQKEX_KEM_MLKEM768])
    (λ r s s', ∃ s1 lines, frame (owns listener) ∅ s s1 ∧ s' = add_output lines s1 ∧
       (r = Returned EXIT_SUCCESS ∧ hello_received once ctx ∧
          once _ (waitpid child) (eq (Some (WExited EXIT_SUCCESS))) ∧ lines = selection_line ++ pass_lines ∨
        r = Returned EXIT_FAILURE ∧ ¬ CaptureWorks)).
Proof.
  wp_start. destruct P as [Hl Hctx]. unfold capture_parent. wp_call as peer [F Hp].
  set (answer := match peer with Some _ => _ | None => _ end).
  assert (Hanswer : ∀ Φ : bool → state → Prop, (∀ ok u lines, frame ∅ ∅ s u →
    (ok = true → hello_received once ctx ∧ lines = selection_line) → (CaptureWorks → ok = true) →
    Φ ok (add_output lines u)) → wp answer Φ s0).
  { intros Φ HΦ. subst answer. pose proof (frame_refl s0). destruct peer as [fd|].
    - wp_call as ok ((u & F1 & ->) & Hok & Hw). wp_call as ? ?. apply wp_ret. apply HΦ; [solve_frame| |].
      + intros ->. split; [by apply Hok|done].
      + intros W. by apply Hw, works_receive.
    - apply wp_ret. rewrite <-(add_output_nil s0). apply HΦ; [solve_frame|done|].
      intros W. by destruct (made_object accept None (tick s) works_accept Hp). }
  clearbody answer. clear F0. apply wp_bind, Hanswer. intros ok u lines F Hok Hw. clear Hanswer.
  wp_call as ? ?. wp_call as ? [? _]. wp_call as status [F3 Hst].
  set (Post := λ (r : process_end) s', ∃ _ _, _).
  assert (Hfail : ¬ CaptureWorks → wp (mret (Returned EXIT_FAILURE)) Post (add_output lines s4)).
  { intros Hno. apply wp_ret. exists s4, lines. split_and!; [done..|by right]. }
  assert (Hend : CaptureWorks → status = Some (WExited EXIT_SUCCESS)).
  { intros W. rewrite <-Hst. symmetry. apply works_wait. }
  destruct status as [[status|]|]; [|by apply Hfail; intros ?%Hend..].
  destruct ok; [|by apply Hfail; intros ?%Hw]. cbn [negb orb].
  destruct (Z.eqb_spec status EXIT_SUCCESS) as [->|]; [|by apply Hfail; intros [= ->]%Hend]. clear Hfail. cbn [negb].
  destruct (Hok eq_refl) as [Hr ->]. wp_prints. apply wp_ret. eexists _, _. split; [done|]. split; [done|]. left.
  split_and!; [done|done|by eexists|done].
Qed.

(** The exit status of a process. *)
Definition process_status (r : process_end) : Z := match r with Returned status | Exited status => status end.

(** What a process does, by the value that [fork] returned. *)
#[export] Instance spec_capture_main argv :
  Spec (capture_main argv) (λ _, True)
    (λ r s s', ∃ s1 lines, frame ∅ ∅ s s1 ∧ s' = add_output lines s1 ∧
       (CaptureWorks → is_Some (capture_port argv) → process_status r = EXIT_SUCCESS) ∧
       match r with
       | Exited status => once _ fork (eq 0) ∧
           (status = EXIT_SUCCESS ∧ hello_sent ∧ (∃ port, capture_port argv = Some port ∧
              lines = capture_lines port ++ ["Client: sent a real TLCP ClientHello with PQKEX 0xFF02"%string]) ∨
            status = EXIT_FAILURE)
       | Returned status =>
           (status = EXIT_SUCCESS ∧ ∃ port ctx child, capture_port argv = Some port ∧
              pqkex_kems ctx = [TLS_PQKEX_KEM_MLKEM768] ∧ hello_received once ctx ∧
              once _ fork (eq child) ∧ 0 < child ∧ once _ (waitpid child) (eq (Some (WExited EXIT_SUCCESS))) ∧
              lines = capture_lines port ++ selection_line ++ pass_lines) ∨
           status = EXIT_FAILURE
       end).
Proof.
  wp_start. unfold capture_main. set (Post := λ (r : process_end) s', ∃ _ _, _).
  assert (Hfail : ∀ s' lines, frame ∅ ∅ s s' → ¬ (CaptureWorks ∧ is_Some (capture_port argv)) →
    Post (Returned EXIT_FAILURE) (add_output lines s')).
  { intros s' lines F' Hno. exists s', lines. split_and!; [done..| |by right]. intros W Hp. by destruct Hno. }
  assert (Hquit : ∀ s', frame ∅ ∅ s s' → ¬ (CaptureWorks ∧ is_Some (capture_port argv)) →
    Post (Returned EXIT_FAILURE) s').
  { intros s' F' Hno. rewrite <-(add_output_nil s'). by apply Hfail. }
  destruct (capture_port argv) as [port|] eqn:Ep; [|by apply wp_ret, Hquit; [|intros (_ & ? & ?)]].
  wp_call as [ok ctx] (F & Hctx & Hw). cbn [fst snd] in *.
  destruct ok; cbn [negb]; [|apply wp_ret, Hquit; [solve_frame|by intros [?%Hw _]]].
  specialize (Hctx eq_refl). wp_call as listener [F1 Hw1].
  destruct listener as [listener|].
  2: { wp_call as ? [? _]. apply wp_ret, Hquit; [solve_frame|]. by intros [[? [=]]%Hw1 _]. }
  wp_prints. fold (capture_lines port). wp_call as child [F2 Hc]. destruct (Z.ltb_spec child 0).
  { wp_call as ? ?. wp_call as ? [? _]. apply wp_ret, Hfail; [solve_frame|].
    intros [W _]. pose proof works_fork as Hal. always_auto. }
  destruct (Z.eqb_spec child 0) as [->|].
  - eapply wp_spec; [apply _|solve_alive|]. intros r s' (u & lines & F3 & -> & Hr). frame_merge. rewrite add_output_app.
    eexists _, _. split; [|split; [done|]]; [solve_frame|].
    destruct Hr as [(-> & Hh & ->)|[-> Hno]]; (split; [done|]); (split; [by eexists|]);
      [left; split_and!; [done|done|by exists port]|by right].
  - eapply wp_spec; [apply _|split; [solve_alive|done]|]. intros r s' (u & lines & F3 & -> & Hr). frame_merge.
    rewrite add_output_app. eexists _, _. split; [|split; [done|]]; [solve_frame|].
    destruct Hr as [(-> & Hh & Hst & ->)|[-> Hno]]; (split; [done|]); [left|by right].
    split; [done|]. exists port, ctx, child.
    split_and!; try done; [by eexists|lia].
Qed.
End processes.

(** ** Properties *)

Section properties.
Context `{TlsBytes, !TlsEncodings, !GmSSL}.

(** C20. The server accepts a record only if it holds a TLCP ClientHello whose
    extensions are well formed and contain exactly one PQKEX extension, which
    lists ML-KEM-768, and accepts whenever such a record arrives. The loop over
    the extensions ends, nothing is left behind, and the selection is printed
    in the first case only. *)
Theorem process_client_hello_record_correct sock ctx s :
  alive (Some sock) s → pqkex_kems ctx = [TLS_PQKEX_KEM_MLKEM768] →
  wp (process_client_hello_record sock ctx) (λ r s', live s' = live s ∧ files s' = files s ∧
    output s' = output s ++ (if r then selection_line else []) ∧
    (r = true → hello_received once ctx) ∧ (hello_received always ctx → r = true)) s.
Proof.
  intros Hs Hc. eapply wp_spec; [apply _|by split|]. intros r s' ((u & [L _ K O] & ->) & Hr & Hal).
  cbn [live files output add_output]. rewrite O. split_and!; try done. ms_lia.
Qed.

(** C39. Each of the two processes leaves no descriptor open. The child ends in
    [_exit], successfully only after a ClientHello that announces ML-KEM-768
    was sent; [main] returns success in the parent only, after a ClientHello
    that offers it was received and the child ended with success. Either does
    succeed when the arguments name a port and no call fails. *)
Theorem capture_main_correct `{Processes} argv s :
  wp (capture_main argv) (λ r s', live s' = live s ∧ files s' = files s ∧
    (CaptureWorks → is_Some (capture_port argv) → process_status r = EXIT_SUCCESS) ∧
    match r with
    | Exited status => once _ fork (eq 0) ∧
        (status = EXIT_SUCCESS ∧ hello_sent ∧ (∃ port, capture_port argv = Some port ∧
           output s' = output s ++ capture_lines port ++
             ["Client: sent a real TLCP ClientHello with PQKEX 0xFF02"%string]) ∨ status = EXIT_FAILURE)
    | Returned status =>
        (status = EXIT_SUCCESS ∧ ∃ port ctx child, capture_port argv = Some port ∧
           hello_received once ctx ∧ once _ fork (eq child) ∧ 0 < child ∧
           once _ (waitpid child) (eq (Some (WExited EXIT_SUCCESS))) ∧
           output s' = output s ++ capture_lines port ++ selection_line ++ pass_lines) ∨ status = EXIT_FAILURE
    end) s.
Proof.
  eapply wp_spec; [apply _|done|]. intros r s' (u & lines & [L _ K O] & -> & Hw & Hr).
  cbn [live files output add_output]. rewrite O. split_and!; [ms_lia|done|done|].
  destruct r as [status|status].
  - destruct Hr as [(-> & port & ctx & child & ? & _ & ? & ? & ? & ? & ->)| ->]; [left|by right].
    split; [done|]. by exists port, ctx, child.
  - destruct Hr as [? [(-> & ? & port & ? & ->)| ->]]; (split; [done|]); [left|by right].
    split_and!; [done|done|by exists port].
Qed.

(** C21. The two processes together: when [waitpid] reports to the parent how
    the other process of the program ended, and the parent returns success,
    then a ClientHello that announces ML-KEM-768 was sent by the one and such
    a ClientHello received by the other. *)
Theorem capture_processes_agree (parent child : Processes) argv s s' :
  (∀ pid t status, @waitpid parent pid t = Some (WExited status) →
     ∃ s0 s1, @capture_main _ _ child argv s0 = Some (Exited status, s1)) →
  @capture_main _ _ parent argv s = Some (Returned EXIT_SUCCESS, s') →
  hello_sent ∧ ∃ ctx, hello_received once ctx.
Proof.
  intros Hchild Hrun. pose proof (wp_elim _ _ _ _ _ (spec_capture_main (H2 := parent) argv s ltac:(done)) Hrun) as Hp.
  destruct Hp as (_ & _ & _ & _ & _ & [(_ & port & ctx & pid & _ & _ & Hr & _ & _ & [t Ht] & _)|[=]]).
  split; [|by exists ctx]. symmetry in Ht. apply Hchild in Ht as (s0 & s1 & Hc).
  pose proof (wp_elim _ _ _ _ _ (spec_capture_main (H2 := child) argv s0 ltac:(done)) Hc) as Hq.
  by destruct Hq as (_ & _ & _ & _ & _ & _ & [(_ & Hsent & _)|[=]]).
Qed.
End properties.

(** ** A concrete instance *)

Section example.
#[local] Existing Instances env_tls env_tls_encodings.

(** The record is the list of the extensions. *)
Definition env_gmssl : GmSSL := {|
  TLS_client_mode := 1; TLS_server_mode := 0; TLS_cipher_ecc_sm4_cbc_sm3 := 0xe013;
  tls_ctx_init _ protocol _ _ := (1, TlsCtx protocol []);
  tls_ctx_set_cipher_suites ctx _ _ := (1, ctx);
  tls_ctx_cleanup _ _ := zero_ctx;
  tls_init _ ctx _ := (1, TlsConnect (ctx_protocol ctx) (Some ctx) false false 0);
  tls_cleanup _ _ := zero_connection;
  tls_set_socket _ _ := 1;
  tlcp_send_client_hello _ _ := 1;
  tls_recv_record _ _ := (1, be16 0 ++ be16 0 ++ wire_vector);
  tls_record_get_handshake_client_hello record := (1, (0x0101, record))
|}.
#[local] Existing Instance env_gmssl.

(** The process in which [fork] returns [pid]. *)
Definition env_process (pid : Z) : Processes := {|
  socket _ := Some tt; connect _ _ := 0; setsockopt_reuseaddr _ := 0; bind _ _ := 0; listen _ _ := 0;
  accept _ := Some tt; fork _ := pid; waitpid _ _ := Some (WExited EXIT_SUCCESS)
|}.

Definition example_ctx : TLS_CTX := TlsCtx 0x0101 [TLS_PQKEX_KEM_MLKEM768].

Lemma env_hello_received ctx : hello_received always ctx.
Proof.
  split; [done|]. intros t. split; [done|]. exists (be16 0 ++ be16 0 ++ wire_vector). split; [done|].
  exists [(0, []); (TLS_extension_pqkex, pqkex_data [TLS_PQKEX_KEM_MLKEM768])], [TLS_PQKEX_KEM_MLKEM768].
  split_and!; [by repeat constructor|by vm_compute|by vm_compute|split; [done|by repeat constructor]|by left].
Qed.

Lemma env_capture_works : @CaptureWorks _ _ (env_process 7).
Proof. split; try done; [intros ctx _; apply env_hello_received|by eexists..]. Qed.

Lemma process_client_hello_record_correct_witness :
  let sock := Obj 1%positive tt in
  let s := env_state [1%positive] in
  alive (Some sock) s ∧ pqkex_kems example_ctx = [TLS_PQKEX_KEM_MLKEM768] ∧ hello_received always example_ctx ∧
  wp (process_client_hello_record sock example_ctx) (λ r s', live s' = live s ∧ files s' = files s ∧
    output s' = output s ++ (if r then selection_line else []) ∧
    (r = true → hello_received once example_ctx) ∧ (hello_received always example_ctx → r = true)) s.
Proof.
  intros sock s. assert (Hs : alive (Some sock) s) by (apply env_alive; by left).
  split; [done|]. split; [done|]. split; [exact (env_hello_received _)|].
  by apply (process_client_hello_record_correct sock example_ctx s).
Defined.

Lemma capture_main_correct_witness :
  let argv := ["demo"; "4433"]%string in
  let run := @capture_main _ _ (env_process 7) argv in
  fmap (M := option) (λ '(r, s'), (r, output s')) (run empty_state) =
    Some (Returned EXIT_SUCCESS, capture_lines 4433 ++ selection_line ++ pass_lines) ∧
  @CaptureWorks _ _ (env_process 7) ∧ is_Some (capture_port argv) ∧
  wp run (λ r s', live s' = live empty_state ∧ files s' = files empty_state ∧
    (@CaptureWorks _ _ (env_process 7) → is_Some (capture_port argv) → process_status r = EXIT_SUCCESS) ∧
    match r with
    | Exited status => once _ (@fork (env_process 7)) (eq 0) ∧
        (status = EXIT_SUCCESS ∧ hello_sent ∧ (∃ port, capture_port argv = Some port ∧
           output s' = output empty_state ++ capture_lines port ++
             ["Client: sent a real TLCP ClientHello with PQKEX 0xFF02"%string]) ∨ status = EXIT_FAILURE)
    | Returned status =>
        (status = EXIT_SUCCESS ∧ ∃ port ctx child, capture_port argv = Some port ∧
           hello_received once ctx ∧ once _ (@fork (env_process 7)) (eq child) ∧ 0 < child ∧
           once _ (@waitpid (env_process 7) child) (eq (Some (WExited EXIT_SUCCESS))) ∧
           output s' = output empty_state ++ capture_lines port ++ selection_line ++ pass_lines) ∨ status = EXIT_FAILURE
    end) empty_state.
Proof.
  intros argv run. split; [by vm_compute|]. split; [exact env_capture_works|]. split; [by eexists|].
  exact (@capture_main_correct _ _ _ (env_process 7) argv empty_state).
Defined.

Lemma capture_processes_agree_witness :
  let argv := ["demo"]%string in
  ∃ s', @capture_main _ _ (env_process 7) argv empty_state = Some (Returned EXIT_SUCCESS, s') ∧
    hello_sent ∧ ∃ ctx, hello_received once ctx.
Proof.
  intros argv. assert (Hrun : ∃ s', @capture_main _ _ (env_process 7) argv empty_state = Some (Returned EXIT_SUCCESS, s'))
    by (eexists; vm_compute; reflexivity).
  destruct Hrun as [s' Hrun]. exists s'. split; [exact Hrun|].
  apply (capture_processes_agree (env_process 7) (env_process 0) argv empty_state s'); [|exact Hrun].
  intros pid t status [= <-]. exists empty_state. eexists. vm_compute. reflexivity.
Defined.

Lemma parse_port_negative_witness : 0 < 44330 ≤ 65535 ∧ parse_port "-18446744073709507286" = Some 44330.
Proof. split; [done|]. exact (parse_port_negative 44330 ltac:(done)). Defined.
End example.
